(** * xv6 lab kernel: physical page allocator with reference counts (kalloc.c)
      and the hashed buffer cache (bio.c)

    The development is sequential: spinlocks (acquire/release) bracket the
    same reads and writes that appear below and are not represented.  A
    sleep-lock is a boolean; acquiring one that is held suspends the thread,
    which the model reports as the outcome [Sleep]. *)

From Stdlib Require Import ZArith Lia Bool String.
From stdpp Require Import base list.

Local Open Scope Z_scope.

(** ** Outcomes of kernel code *)

(** [Ret v s]   the function returns [v] in state [s];
    [Panic msg] the kernel calls panic(msg);
    [Fault]     behaviour C leaves undefined: null dereference, array index
                out of bounds, signed overflow;
    [Sleep s]   the thread is suspended on a held sleep-lock;
    [Diverge]   a loop does not finish (a cyclic bucket list). *)
Inductive outcome (S A : Type) : Type :=
| Ret (v : A) (s : S)
| Panic (msg : string)
| Fault
| Sleep (s : S)
| Diverge.

Arguments Ret {S A} v s.
Arguments Panic {S A} msg.
Arguments Fault {S A}.
Arguments Sleep {S A} s.
Arguments Diverge {S A}.

Definition M (S A : Type) : Type := S -> outcome S A.

Definition ret {S A} (v : A) : M S A := fun s => Ret v s.

Definition bind {S A B} (c : M S A) (k : A -> M S B) : M S B :=
  fun s =>
    match c s with
    | Ret v s' => k v s'
    | Panic msg => Panic msg
    | Fault => Fault
    | Sleep s' => Sleep s'
    | Diverge => Diverge
    end.

Definition panic {S A} (msg : string) : M S A := fun _ => Panic msg.
Definition fault {S A} : M S A := fun _ => Fault.
Definition gets {S A} (f : S -> A) : M S A := fun s => Ret (f s) s.
Definition modify {S} (f : S -> S) : M S unit := fun s => Ret tt (f s).

Declare Scope kernel_scope.
Delimit Scope kernel_scope with kernel.
Notation "x <- c ;; k" := (bind c (fun x => k))
  (at level 100, c at next level, right associativity) : kernel_scope.
Notation "c ;; k" := (bind c (fun _ => k))
  (at level 100, right associativity) : kernel_scope.
Local Open Scope kernel_scope.

(** ** Machine integers *)

Definition INT_MIN : Z := - 2 ^ 31.
Definition INT_MAX : Z := 2 ^ 31 - 1.
Definition UINT_MAX : Z := 2 ^ 32 - 1.

(** uint64 and uint arithmetic wraps. *)
Definition u64 (x : Z) : Z := x mod 2 ^ 64.
Definition u32 (x : Z) : Z := x mod 2 ^ 32.

(** [int] arithmetic: the result when it is representable. *)
Definition int_result (x : Z) : option Z :=
  if (INT_MIN <=? x) && (x <=? INT_MAX) then Some x else None.

(** A uint64 value converted to [int]: the low 32 bits, as a two's
    complement number. *)
Definition int_of_uint64 (x : Z) : Z :=
  let y := x mod 2 ^ 32 in if y <? 2 ^ 31 then y else y - 2 ^ 32.

(** A C array indexed by an integer expression. *)
Definition at_index {A} (l : list A) (i : Z) : option A :=
  if (0 <=? i) && (i <? Z.of_nat (length l)) then l !! Z.to_nat i else None.

(** ** Byte-addressed physical memory *)

(** An address holds a byte. *)
Definition memory : Type := Z -> Z.

(** "Allocates whole 4096-byte pages." *)
Definition PGSIZE : Z := 4096.

(** Modelled from the spec: string.c is not under src/.  memset(dst, c, n)
    "overwrites the payload with a fixed junk byte". *)
Definition memset (m : memory) (dst c n : Z) : memory :=
  fun a => if (dst <=? a) && (a <? dst + n) then c mod 256 else m a.

(** Modelled from the spec: string.c is not under src/.  memmove(dst, src, n):
    "the old page's bytes are copied verbatim into the new frame". *)
Definition memmove (m : memory) (dst src n : Z) : memory :=
  fun a => if (dst <=? a) && (a <? dst + n) then m (src + (a - dst)) else m a.

(** One byte stored at address [a]. *)
Definition store8 (m : memory) (a b : Z) : memory :=
  fun x => if x =? a then b mod 256 else m x.

(** Little-endian words, as on RISC-V. *)
Fixpoint le_load (m : memory) (a : Z) (n : nat) : Z :=
  match n with
  | O => 0
  | S n' => m a mod 256 + 256 * le_load m (a + 1) n'
  end.

Fixpoint le_store (m : memory) (a : Z) (n : nat) (v : Z) : memory :=
  match n with
  | O => m
  | S n' => le_store (store8 m a v) (a + 1) n' (v / 256)
  end.

Definition load64 (m : memory) (a : Z) : Z := le_load m a 8.
Definition store64 (m : memory) (a v : Z) : memory := le_store m a 8 v.

(** Modelled from the spec: riscv.h is not under src/.  PGROUNDUP rounds an
    address up to a page boundary, PGROUNDDOWN "rounds the address down to
    its containing page". *)
Definition PGROUNDUP (sz : Z) : Z :=
  Z.land (u64 (sz + PGSIZE - 1)) (Z.lnot (PGSIZE - 1)).
Definition PGROUNDDOWN (a : Z) : Z := Z.land a (Z.lnot (PGSIZE - 1)).

(** Modelled from the spec: riscv.h is not under src/.  The page-table
    entry with its "PTE flag bits: VALID, WRITABLE, COW", at the positions of
    the RISC-V Sv39 format: V is bit 0, W is bit 2, ten flag bits lie below
    the physical page number. *)
Definition PTE_V : Z := Z.shiftl 1 0.
Definition PTE_W : Z := Z.shiftl 1 2.
Definition PTE2PA (pte : Z) : Z := u64 (Z.shiftl (Z.shiftr pte 10) 12).
Definition PTE_FLAGS (pte : Z) : Z := Z.land pte 1023.

(** ** kalloc.c *)

(** memlayout.h, kernel.ld and the COW bit of riscv.h are not under src/:
    the constants are parameters.  [kend] is the linker symbol [end]. *)
Record memlayout : Type := {
  KERNBASE : Z;
  PHYSTOP : Z;
  kend : Z;
  cow_bit : Z
}.

(** struct kmem's free list head, page_ref_list (the [cnt] fields) and the
    physical memory that holds the intrusive [struct run] links. *)
Record kstate : Type := {
  freelist : Z;
  page_ref_list : list Z;
  mem : memory
}.

Definition K (A : Type) : Type := M kstate A.

Section kalloc_c.
Variable L : memlayout.

(** The flag of a copy-on-write page, one of the bits reserved for software. *)
Definition PTE_COW : Z := Z.shiftl 1 (cow_bit L).

(** The index of the frame at [p] in page_ref_list, in uint64 arithmetic. *)
Definition PA2PGREF_ID (p : Z) : Z := u64 (p - KERNBASE L) / PGSIZE.
Definition PGREF_MAX_ENTRIES : Z := PA2PGREF_ID (PHYSTOP L).

(** page_ref_list[id].cnt *)
Definition ref_get (id : Z) : K Z :=
  fun st =>
    match at_index (page_ref_list st) id with
    | Some c => Ret c st
    | None => Fault
    end.

(** page_ref_list[id].cnt = c *)
Definition ref_set (id c : Z) : K unit :=
  c0 <- ref_get id ;;
  modify (fun st => {| freelist := freelist st;
                       page_ref_list := <[Z.to_nat id := c]> (page_ref_list st);
                       mem := mem st |}).

(** page_ref_list[id].cnt += d, for d = 1 or -1 *)
Definition ref_add (id d : Z) : K unit :=
  c <- ref_get id ;;
  match int_result (c + d) with
  | Some c' => ref_set id c'
  | None => fault
  end.

(** A write to physical memory. *)
Definition set_mem (f : memory -> memory) : K unit :=
  modify (fun st => {| freelist := freelist st;
                       page_ref_list := page_ref_list st;
                       mem := f (mem st) |}).

(** kmem.freelist = r *)
Definition set_freelist (r : Z) : K unit :=
  modify (fun st => {| freelist := r;
                       page_ref_list := page_ref_list st;
                       mem := mem st |}).

(** kfree: "Free the page of physical memory pointed at by v, which normally
    should have been returned by a call to kalloc()."  The count is lowered
    first; the page is filled with junk and linked in only when no owner is
    left. *)
Definition kfree (pa : Z) : K unit :=
  if negb (pa mod PGSIZE =? 0) || (pa <? kend L) || (PHYSTOP L <=? pa)
  then panic "kfree"
  else
    ref_add (PA2PGREF_ID pa) (-1) ;;
    cnt <- ref_get (PA2PGREF_ID pa) ;;
    if 0 <? cnt then ret tt
    else
      set_mem (fun m => memset m pa 1 PGSIZE) ;;
      head <- gets freelist ;;
      set_mem (fun m => store64 m pa head) ;;
      set_freelist pa.

(** The loop of freerange.  [p] advances by PGSIZE while p + PGSIZE <=
    pa_end, so the number of frames between the two bounds the number of
    iterations; forming a pointer past the address space is undefined. *)
Fixpoint freerange_loop (fuel : nat) (p pa_end : Z) : K unit :=
  if 2 ^ 64 <=? p + PGSIZE then fault
  else if p + PGSIZE <=? pa_end then
    match fuel with
    | O => fun _ => Diverge
    | S fuel' => kfree p ;; freerange_loop fuel' (p + PGSIZE) pa_end
    end
  else ret tt.

(** freerange: kfree of every whole page from PGROUNDUP(pa_start) up to
    pa_end. *)
Definition freerange (pa_start pa_end : Z) : K unit :=
  let p := PGROUNDUP pa_start in
  freerange_loop (Z.to_nat ((pa_end - p) / PGSIZE)) p pa_end.

(** kinit: every count is set to 1, then every frame between [end] and
    PHYSTOP is freed.  kmem.freelist is zero-initialised; the table has
    PGREF_MAX_ENTRIES entries; [m0] is the memory found at boot. *)
Definition boot_state (m0 : memory) : kstate :=
  {| freelist := 0;
     page_ref_list := replicate (Z.to_nat PGREF_MAX_ENTRIES) 0;
     mem := m0 |}.

Fixpoint kinit_loop (n : nat) (i : Z) : K unit :=
  match n with
  | O => ret tt
  | S n' => ref_set i 1 ;; kinit_loop n' (i + 1)
  end.

Definition kinit : K unit :=
  kinit_loop (Z.to_nat PGREF_MAX_ENTRIES) 0 ;;
  freerange (kend L) (PHYSTOP L).

(** kalloc: "Allocate one 4096-byte page of physical memory.  Returns 0 if
    the memory cannot be allocated." *)
Definition kalloc : K Z :=
  r <- gets freelist ;;
  (if negb (r =? 0)
   then next <- gets (fun st => load64 (mem st) r) ;; set_freelist next
   else ret tt) ;;
  (if negb (r =? 0)
   then set_mem (fun m => memset m r 5 PGSIZE) ;;
        ref_set (PA2PGREF_ID r) 1
   else ret tt) ;;
  ret r.

(** krefpage: one more reference to the page at pa; -1 for an address that
    is not a frame. *)
Definition krefpage (pa : Z) : K Z :=
  if negb (pa mod PGSIZE =? 0) || (pa <? kend L) || (PHYSTOP L <=? pa)
  then ret (-1)
  else
    ref_add (PA2PGREF_ID pa) 1 ;;
    ret 1.

(** vm.c is not under src/: walk and mappages are external collaborators,
    "specified only at their interface boundary". *)
Variable walk : Z -> Z -> Z -> K Z.
Variable mappages : Z -> Z -> Z -> Z -> Z -> K Z.

(** The entry that [pte] points to; dereferencing a null pointer is
    undefined. *)
Definition pte_read (pte : Z) : K Z :=
  if pte =? 0 then fault else gets (fun st => load64 (mem st) pte).

(** The entry that [pte] points to is overwritten. *)
Definition pte_write (pte v : Z) : K unit :=
  if pte =? 0 then fault else set_mem (fun m => store64 m pte v).

(** cow_copy: called on a page fault for a copy-on-write page; returns the
    physical address now mapped at va, or 0. *)
Definition cow_copy (pagetable va : Z) : K Z :=
  let va := PGROUNDDOWN va in
  pte <- walk pagetable va 0 ;;
  e <- pte_read pte ;;
  let pa := PTE2PA e in
  cnt <- ref_get (PA2PGREF_ID pa) ;;
  if cnt =? 1 then
    e1 <- pte_read pte ;;
    pte_write pte (Z.land e1 (Z.lnot PTE_COW)) ;;
    e2 <- pte_read pte ;;
    pte_write pte (Z.lor e2 PTE_W) ;;
    ret pa
  else
    newpa <- kalloc ;;
    if newpa =? 0 then ret 0
    else
      set_mem (fun m => memmove m newpa pa PGSIZE) ;;
      e3 <- pte_read pte ;;
      pte_write pte (Z.land e3 (Z.lnot PTE_V)) ;;
      e4 <- pte_read pte ;;
      let flag := PTE_FLAGS e4 in
      let flag := Z.lor flag PTE_W in
      let flag := Z.land flag (Z.lnot PTE_COW) in
      rc <- mappages pagetable va PGSIZE newpa flag ;;
      if negb (rc =? 0) then
        kfree newpa ;;
        ret 0
      else
        kfree (PGROUNDDOWN pa) ;;
        ret newpa.

(** riscv.h is not under src/: MAXVA, the first virtual address past those
    a page table translates, is a parameter. *)
Variable MAXVA : Z.

(** cow_check: called on a page fault; non-zero when [va] lies in a valid
    copy-on-write page. *)
Definition cow_check (pagetable va : Z) : K Z :=
  if MAXVA <? va then ret 0
  else
    pte <- walk pagetable va 0 ;;
    if pte =? 0 then ret 0
    else
      e <- pte_read pte ;;
      if Z.land e PTE_V =? 0 then ret 0
      else
        e' <- pte_read pte ;;
        ret (int_of_uint64 (Z.land e' PTE_COW)).

End kalloc_c.

(** ** bio.c *)

(** buf.h is not under src/: the fields of struct buf that bio.c uses.
    [next] points to a slot of bcache.buf or is null; [locked] is the
    sleep-lock; dev, blockno, refcnt and timestamp are uint. *)
Record buf : Type := {
  valid : Z;
  dev : Z;
  blockno : Z;
  locked : bool;
  refcnt : Z;
  next : option nat;
  timestamp : Z;
  data : list Z
}.

(** struct bcache: the pool, the count of used slots and, for every bucket,
    the [next] field of its list head. *)
Record bcache : Type := {
  bufs : list buf;
  size : Z;
  buckets : list (option nat)
}.

(** A [struct buf *] that may also point to a bucket's list head. *)
Inductive bufref : Type :=
| BucketHead (idx : Z)
| Slot (i : nat).

(** The local variables minb, minpre and mintimestamp of bget. *)
Record scan : Type := {
  minb : option nat;
  minpre : option bufref;
  mintimestamp : Z
}.

(** Which return statement of bget was taken (the C function returns only
    the pointer): the block was cached, a slot was used for the first time,
    or a buffer was recycled. *)
Inductive how : Type := Cached | Fresh | Recycled.

Definition B (A : Type) : Type := M bcache A.

(** bio.c defines NBUCKET as 13; NBUF comes from param.h, which is not under
    src/.  Both are parameters of the functions below. *)
Definition bio_c_NBUCKET : Z := 13.

Section bio_c.
Variable NBUF : Z.
Variable NBUCKET : Z.
(** virtio_disk.c is not under src/: the block that a disk read delivers. *)
Variable virtio_disk_read : Z -> Z -> list Z.

(** #define HASH(blockno) (blockno % NBUCKET) *)
Definition HASH (blockno : Z) : Z := blockno mod NBUCKET.

(** bcache.buf[i] *)
Definition buf_get (i : nat) : B buf :=
  fun st =>
    match bufs st !! i with
    | Some b => Ret b st
    | None => Fault
    end.

(** An assignment to a field of bcache.buf[i]. *)
Definition buf_upd (i : nat) (f : buf -> buf) : B unit :=
  b <- buf_get i ;;
  modify (fun st => {| bufs := <[i := f b]> (bufs st);
                       size := size st;
                       buckets := buckets st |}).

(** bcache.buckets[idx].next *)
Definition bucket_next (idx : Z) : B (option nat) :=
  fun st =>
    match at_index (buckets st) idx with
    | Some h => Ret h st
    | None => Fault
    end.

(** bcache.buckets[idx].next = h *)
Definition set_bucket_next (idx : Z) (h : option nat) : B unit :=
  h0 <- bucket_next idx ;;
  modify (fun st => {| bufs := bufs st;
                       size := size st;
                       buckets := <[Z.to_nat idx := h]> (buckets st) |}).

(** The fields of a buffer, one assignment each. *)
Definition set_dev (v : Z) (b : buf) : buf :=
  {| valid := valid b; dev := v; blockno := blockno b; locked := locked b;
     refcnt := refcnt b; next := next b; timestamp := timestamp b;
     data := data b |}.
Definition set_blockno (v : Z) (b : buf) : buf :=
  {| valid := valid b; dev := dev b; blockno := v; locked := locked b;
     refcnt := refcnt b; next := next b; timestamp := timestamp b;
     data := data b |}.
Definition set_valid (v : Z) (b : buf) : buf :=
  {| valid := v; dev := dev b; blockno := blockno b; locked := locked b;
     refcnt := refcnt b; next := next b; timestamp := timestamp b;
     data := data b |}.
Definition set_locked (v : bool) (b : buf) : buf :=
  {| valid := valid b; dev := dev b; blockno := blockno b; locked := v;
     refcnt := refcnt b; next := next b; timestamp := timestamp b;
     data := data b |}.
Definition set_refcnt (v : Z) (b : buf) : buf :=
  {| valid := valid b; dev := dev b; blockno := blockno b; locked := locked b;
     refcnt := v; next := next b; timestamp := timestamp b;
     data := data b |}.
Definition set_next (v : option nat) (b : buf) : buf :=
  {| valid := valid b; dev := dev b; blockno := blockno b; locked := locked b;
     refcnt := refcnt b; next := v; timestamp := timestamp b;
     data := data b |}.
Definition set_timestamp (v : Z) (b : buf) : buf :=
  {| valid := valid b; dev := dev b; blockno := blockno b; locked := locked b;
     refcnt := refcnt b; next := next b; timestamp := v;
     data := data b |}.
Definition set_data (v : list Z) (b : buf) : buf :=
  {| valid := valid b; dev := dev b; blockno := blockno b; locked := locked b;
     refcnt := refcnt b; next := next b; timestamp := timestamp b;
     data := v |}.

(** r->next = v, for r a bucket head or a slot *)
Definition ref_set_next (r : bufref) (v : option nat) : B unit :=
  match r with
  | BucketHead idx => set_bucket_next idx v
  | Slot i => buf_upd i (set_next v)
  end.

(** sleeplock.c is not under src/: the lock of a buffer is taken when it is
    free; the caller sleeps when it is held. *)
Definition acquiresleep (i : nat) : B unit :=
  b <- buf_get i ;;
  if locked b then (fun st => Sleep st) else buf_upd i (set_locked true).

Definition releasesleep (i : nat) : B unit := buf_upd i (set_locked false).

(** binit: links no buffer; the statics are zero-initialised. *)
Definition zero_buf : buf :=
  {| valid := 0; dev := 0; blockno := 0; locked := false; refcnt := 0;
     next := None; timestamp := 0; data := [] |}.

Definition binit : bcache :=
  {| bufs := replicate (Z.to_nat NBUF) zero_buf;
     size := 0;
     buckets := replicate (Z.to_nat NBUCKET) None |}.

(** The first loop of bget: for(b = bcache.buckets[idx].next; b; b = b->next). *)
Fixpoint find_cached (fuel : nat) (b : option nat) (d bn : Z) : B (option nat) :=
  match b with
  | None => ret None
  | Some i =>
      match fuel with
      | O => fun _ => Diverge
      | S fuel' =>
          bf <- buf_get i ;;
          if (dev bf =? d) && (blockno bf =? bn) then ret (Some i)
          else find_cached fuel' (next bf) d bn
      end
  end.

(** The inner loop of the eviction scan:
    for(pre = &bcache.buckets[idx], b = pre->next; b; pre = b, b = b->next).
    [inl i]: the wanted block was found in slot i (and its refcnt raised). *)
Fixpoint scan_bucket (fuel : nat) (idx : Z) (pre : bufref) (b : option nat)
    (d bn : Z) (acc : scan) : B (nat + scan) :=
  match b with
  | None => ret (inr acc)
  | Some i =>
      match fuel with
      | O => fun _ => Diverge
      | S fuel' =>
          bf <- buf_get i ;;
          if (idx =? HASH bn) && (dev bf =? d) && (blockno bf =? bn) then
            buf_upd i (set_refcnt (u32 (refcnt bf + 1))) ;;
            ret (inl i)
          else
            let acc' :=
              if (refcnt bf =? 0) && (timestamp bf <? mintimestamp acc)
              then {| minb := Some i; minpre := Some pre;
                      mintimestamp := timestamp bf |}
              else acc in
            scan_bucket fuel' idx (Slot i) (next bf) d bn acc'
      end
  end.

(** The body executed when a scan ends with minb set. *)
Definition recycle (idx : Z) (v : nat) (pre : option bufref) (d bn : Z)
    : B (how * nat) :=
  buf_upd v (set_dev d) ;;
  buf_upd v (set_blockno bn) ;;
  buf_upd v (set_valid 0) ;;
  buf_upd v (set_refcnt 1) ;;
  (if negb (idx =? HASH bn) then
     vb <- buf_get v ;;
     match pre with
     | Some r => ref_set_next r (next vb)
     | None => fault
     end ;;
     h <- bucket_next (HASH bn) ;;
     buf_upd v (set_next h) ;;
     set_bucket_next (HASH bn) (Some v)
   else ret tt) ;;
  acquiresleep v ;;
  ret (Recycled, v).

(** for(i = 0; i < NBUCKET; ++i): [n] iterations remain, [acc] carries
    minb and minpre from the previous iteration. *)
Fixpoint evict_loop (n : nat) (idx : Z) (d bn : Z) (acc : scan) : B (how * nat) :=
  match n with
  | O => panic "bget: no buffers"
  | S n' =>
      let acc0 := {| minb := minb acc; minpre := minpre acc;
                     mintimestamp := UINT_MAX |} in
      h <- bucket_next idx ;;
      fuel <- gets (fun st => length (bufs st)) ;;
      r <- scan_bucket fuel idx (BucketHead idx) h d bn acc0 ;;
      match r with
      | inl i => acquiresleep i ;; ret (Cached, i)
      | inr acc1 =>
          match minb acc1 with
          | Some v => recycle idx v (minpre acc1) d bn
          | None =>
              evict_loop n' (if idx + 1 =? NBUCKET then 0 else idx + 1) d bn acc1
          end
      end
  end.

(** &bcache.buf[sz]: the slot of an index that is not negative. *)
Definition slot_of (sz : Z) : B nat :=
  if sz <? 0 then fault else ret (Z.to_nat sz).

(** bget: "Look through buffer cache for block on device dev.  If not found,
    allocate a buffer.  In either case, return locked buffer." *)
Definition bget (d bn : Z) : B (how * nat) :=
  let idx := HASH bn in
  h <- bucket_next idx ;;
  fuel <- gets (fun st => length (bufs st)) ;;
  found <- find_cached fuel h d bn ;;
  match found with
  | Some i =>
      bf <- buf_get i ;;
      buf_upd i (set_refcnt (u32 (refcnt bf + 1))) ;;
      acquiresleep i ;;
      ret (Cached, i)
  | None =>
      sz <- gets size ;;
      if sz <? NBUF then
        i <- slot_of sz ;;
        modify (fun st => {| bufs := bufs st; size := sz + 1;
                             buckets := buckets st |}) ;;
        buf_upd i (set_dev d) ;;
        buf_upd i (set_blockno bn) ;;
        buf_upd i (set_valid 0) ;;
        buf_upd i (set_refcnt 1) ;;
        h1 <- bucket_next idx ;;
        buf_upd i (set_next h1) ;;
        set_bucket_next idx (Some i) ;;
        acquiresleep i ;;
        ret (Fresh, i)
      else
        evict_loop (Z.to_nat NBUCKET) idx d bn
          {| minb := None; minpre := None; mintimestamp := 0 |}
  end.

(** bread: "Return a locked buf with the contents of the indicated block." *)
Definition bread (d bn : Z) : B (how * nat) :=
  r <- bget d bn ;;
  b <- buf_get (snd r) ;;
  (if valid b =? 0 then
     buf_upd (snd r) (set_data (virtio_disk_read (dev b) (blockno b))) ;;
     buf_upd (snd r) (set_valid 1)
   else ret tt) ;;
  ret r.

(** brelse: "Release a locked buffer."  [ticks] is the value of the global
    tick counter when brelse runs. *)
Definition brelse (ticks : Z) (b : nat) : B unit :=
  bf <- buf_get b ;;
  if negb (locked bf) then panic "brelse"
  else
    releasesleep b ;;
    buf_upd b (set_refcnt (u32 (refcnt bf - 1))) ;;
    bf' <- buf_get b ;;
    if refcnt bf' =? 0 then buf_upd b (set_timestamp ticks) else ret tt.

(** bpin and bunpin: the count of a buffer, up and down. *)
Definition bpin (b : nat) : B unit :=
  bf <- buf_get b ;;
  buf_upd b (set_refcnt (u32 (refcnt bf + 1))).

Definition bunpin (b : nat) : B unit :=
  bf <- buf_get b ;;
  buf_upd b (set_refcnt (u32 (refcnt bf - 1))).

End bio_c.

(** * Vocabulary of the specification *)

(** The addresses kfree and krefpage accept. *)
Definition valid_pa (L : memlayout) (pa : Z) : Prop :=
  pa mod PGSIZE = 0 /\ kend L <= pa /\ pa < PHYSTOP L.

(** What memlayout.h and kernel.ld provide: page-aligned KERNBASE and
    PHYSTOP, the kernel image between them, all inside the address space. *)
Definition layout_ok (L : memlayout) : Prop :=
  KERNBASE L mod PGSIZE = 0 /\ PHYSTOP L mod PGSIZE = 0 /\
  0 <= KERNBASE L /\ KERNBASE L <= kend L /\ 0 < kend L /\
  kend L <= PHYSTOP L /\ PHYSTOP L + PGSIZE < 2 ^ 64.

(** page_ref_list has PGREF_MAX_ENTRIES entries, each an [int]. *)
Definition table_ok (L : memlayout) (st : kstate) : Prop :=
  length (page_ref_list st) = Z.to_nat (PGREF_MAX_ENTRIES L) /\
  Forall (fun c => INT_MIN <= c <= INT_MAX) (page_ref_list st).

(** The reference count of the frame at [pa]. *)
Definition cnt_of (L : memlayout) (st : kstate) (pa : Z) : option Z :=
  at_index (page_ref_list st) (PA2PGREF_ID L pa).

(** [st] with the reference count of the frame at [pa] set to [c]. *)
Definition set_cnt (L : memlayout) (st : kstate) (pa c : Z) : kstate :=
  {| freelist := freelist st;
     page_ref_list := <[Z.to_nat (PA2PGREF_ID L pa) := c]> (page_ref_list st);
     mem := mem st |}.

(** [st'] is [st] with the frame [pa] filled with junk and linked in front of
    the free list. *)
Definition pushed (st st' : kstate) (pa : Z) : Prop :=
  freelist st' = pa /\
  mem st' = store64 (memset (mem st) pa 1 PGSIZE) pa (freelist st) /\
  load64 (mem st') pa = u64 (freelist st) /\
  (forall a, pa <= a < pa + PGSIZE -> memset (mem st) pa 1 PGSIZE a = 1) /\
  (forall a, pa + 8 <= a < pa + PGSIZE -> mem st' a = 1) /\
  (forall a, a < pa \/ pa + PGSIZE <= a -> mem st' a = mem st a).

(** The frames on the free list, from the head. *)
Fixpoint free_chain (m : memory) (h : Z) (l : list Z) : Prop :=
  match l with
  | [] => h = 0
  | p :: l' => h = p /\ p <> 0 /\ free_chain m (load64 m p) l'
  end.

(** kalloc called [n] times in a row; the pointers returned, in order. *)
Fixpoint kalloc_n (L : memlayout) (n : nat) : K (list Z) :=
  match n with
  | O => ret []
  | S n' => r <- kalloc L ;; rs <- kalloc_n L n' ;; ret (r :: rs)
  end.

(** An operation called [n] times in a row; the values returned, in order. *)
Fixpoint times {S A} (n : nat) (c : M S A) : M S (list A) :=
  match n with
  | O => ret []
  | S n' => r <- c ;; rs <- times n' c ;; ret (r :: rs)
  end.

(** The number of whole frames between [end] and PHYSTOP. *)
Definition frames_at_boot (L : memlayout) : nat :=
  Z.to_nat ((PHYSTOP L - PGROUNDUP (kend L)) / PGSIZE).

(** The free list of [st] holds exactly the frames [l], each one an address
    kfree accepts, none twice. *)
Definition freelist_ok (L : memlayout) (st : kstate) (l : list Z) : Prop :=
  free_chain (mem st) (freelist st) l /\ Forall (valid_pa L) l /\ NoDup l.

(** No reference count of [st] is negative. *)
Definition nonneg (st : kstate) : Prop :=
  Forall (fun c => 0 <= c) (page_ref_list st).

(** The frame at [pa] has an owner: its reference count is at least 1. *)
Definition owned (L : memlayout) (st : kstate) (pa : Z) : Prop :=
  exists c, cnt_of L st pa = Some c /\ 1 <= c.

(** No condition on the frame. *)
Definition any_frame (st : kstate) (pa : Z) : Prop := True.

(** The states reached from boot by calls of kalloc, kfree, krefpage and
    cow_copy that return.  [G st pa] is what is asked of a frame before it
    is released, by kfree directly or by cow_copy for the frame that the
    faulting page maps. *)
Inductive reachable (L : memlayout) (walk : Z -> Z -> Z -> K Z)
    (mappages : Z -> Z -> Z -> Z -> Z -> K Z)
    (G : kstate -> Z -> Prop) : kstate -> Prop :=
| reach_boot m0 st :
    kinit L (boot_state L m0) = Ret tt st ->
    reachable L walk mappages G st
| reach_kalloc st r st' :
    reachable L walk mappages G st ->
    kalloc L st = Ret r st' ->
    reachable L walk mappages G st'
| reach_kfree st pa st' :
    reachable L walk mappages G st ->
    G st pa ->
    kfree L pa st = Ret tt st' ->
    reachable L walk mappages G st'
| reach_krefpage st pa r st' :
    reachable L walk mappages G st ->
    krefpage L pa st = Ret r st' ->
    reachable L walk mappages G st'
| reach_cow_copy st pagetable va r st' :
    reachable L walk mappages G st ->
    (forall pte s1, walk pagetable (PGROUNDDOWN va) 0 st = Ret pte s1 ->
       G s1 (PTE2PA (load64 (mem s1) pte))) ->
    cow_copy L walk mappages pagetable va st = Ret r st' ->
    reachable L walk mappages G st'.

(** The table of a returned state, the empty table otherwise. *)
Definition table_after {A} (o : outcome kstate A) : list Z :=
  match o with
  | Ret _ s => page_ref_list s
  | _ => []
  end.

(** ** A small machine for the examples *)

(** Eight frames of physical memory above KERNBASE; the kernel image ends
    inside the third one, so five frames are free at boot. *)
Definition small_layout : memlayout :=
  {| KERNBASE := 0x80000000;
     PHYSTOP := 0x80008000;
     kend := 0x80002010;
     cow_bit := 8 |}.

Definition zero_memory : memory := fun _ => 0.

(** A state in which the frame at 0x80005000 has [c] owners and every other
    frame one; the free list is empty. *)
Definition owned_state (c : Z) : kstate :=
  {| freelist := 0;
     page_ref_list := [1; 1; 1; 1; 1; c; 1; 1];
     mem := zero_memory |}.

(** Collaborators for the examples: a page table of one level, whose entry
    for [va] is the word at pagetable + 8 * (va / PGSIZE mod 512); mapping
    writes that entry and panics when it is valid. *)
Definition PA2PTE (pa : Z) : Z := Z.shiftl (Z.shiftr pa 12) 10.

Definition flat_walk (pagetable va alloc : Z) : K Z :=
  ret (pagetable + 8 * ((va / PGSIZE) mod 512)).

Definition flat_mappages (pagetable va sz pa perm : Z) : K Z :=
  pte <- flat_walk pagetable va 1 ;;
  e <- pte_read pte ;;
  if negb (Z.land e PTE_V =? 0) then panic "mappages: remap"
  else pte_write pte (Z.lor (Z.lor (PA2PTE pa) perm) PTE_V) ;; ret 0.

Definition failing_mappages (pagetable va sz pa perm : Z) : K Z := ret (-1).

(** The entry of a valid, readable, user, copy-on-write page in the frame at
    0x80005000. *)
Definition cow_entry : Z := Z.lor (PA2PTE 0x80005000) (1 + 2 + 16 + 256).

(** The page table at 0x80001000 maps va 0x3000 by [cow_entry]; the frame
    has [c] owners; the frame at 0x80006000 is the only free one. *)
Definition cow_state (c : Z) : kstate :=
  {| freelist := 0x80006000;
     page_ref_list := [1; 1; 1; 1; 1; c; 0; 1];
     mem := store64 zero_memory 0x80001018 cow_entry |}.

(** ** The buffer cache *)

(** What identifies a buffer and its use: device, block, valid flag,
    reference count and time of last release. *)
Definition ident (b : buf) : Z * Z * Z * Z * Z :=
  (dev b, blockno b, valid b, refcnt b, timestamp b).

Definition key (b : buf) : Z * Z := (dev b, blockno b).

(** Every slot but [v] keeps its identity from [st] to [st']. *)
Definition keeps (v : nat) (st st' : bcache) : Prop :=
  length (bufs st') = length (bufs st) /\
  forall j, j <> v -> ident <$> (bufs st' !! j) = ident <$> (bufs st !! j).

(** Every slot keeps its identity. *)
Definition same_ident (st st' : bcache) : Prop :=
  length (bufs st') = length (bufs st) /\
  forall j, ident <$> (bufs st' !! j) = ident <$> (bufs st !! j).

(** The buffer that the scan has selected so far, if any, is unused. *)
Definition victim_ok (st : bcache) (acc : scan) : Prop :=
  forall v, minb acc = Some v ->
    exists bv, bufs st !! v = Some bv /\ refcnt bv = 0.

(** The slots of a bucket list from [h], in list order; [None] when the list
    leaves the pool or is longer than [fuel]. *)
Fixpoint chain (fuel : nat) (bs : list buf) (h : option nat) : option (list nat) :=
  match h with
  | None => Some []
  | Some i =>
      match fuel with
      | O => None
      | S fuel' =>
          match bs !! i with
          | Some b => cons i <$> chain fuel' bs (next b)
          | None => None
          end
      end
  end.

(** The buffers that the eviction scan may choose: unused and released
    before tick [m]. *)
Definition candidate (m : Z) (b : buf) : bool :=
  (refcnt b =? 0) && (timestamp b <? m).

(** The scan of one bucket, on the list of its slots. *)
Fixpoint scan_list (bs : list buf) (ch : list nat) (pre : bufref) (acc : scan) : scan :=
  match ch with
  | [] => acc
  | i :: ch' =>
      match bs !! i with
      | Some b =>
          scan_list bs ch' (Slot i)
            (if candidate (mintimestamp acc) b
             then {| minb := Some i; minpre := Some pre;
                     mintimestamp := timestamp b |}
             else acc)
      | None => acc
      end
  end.

(** The slots of bucket [k] of [st], in list order. *)
Definition bucket_slots (st : bcache) (k : Z) : option (list nat) :=
  match at_index (buckets st) k with
  | Some h => chain (length (bufs st)) (bufs st) h
  | None => None
  end.

(** The [struct buf] whose [next] points to the slot after [ch1] in a list
    that starts at [pre]. *)
Definition pred_ref (pre : bufref) (ch1 : list nat) : bufref :=
  match last ch1 with
  | Some j => Slot j
  | None => pre
  end.

(** [v] is the choice of the scan in the list [ch] under the bound [m]: an
    unused buffer released before [m], strictly older than every unused
    buffer before it in the list and at least as old as every one after. *)
Definition oldest_first (bs : list buf) (m : Z) (ch ch1 : list nat) (v : nat)
    (ch2 : list nat) (bv : buf) : Prop :=
  ch = ch1 ++ v :: ch2 /\ bs !! v = Some bv /\
  refcnt bv = 0 /\ timestamp bv < m /\
  (forall j bj, j ∈ ch1 -> bs !! j = Some bj -> refcnt bj = 0 ->
     timestamp bv < timestamp bj) /\
  (forall j bj, j ∈ ch2 -> bs !! j = Some bj -> refcnt bj = 0 ->
     timestamp bv <= timestamp bj).

(** The cache after blocks 1 to 4 of device 0 were read and released at
    ticks t1 to t4 (NBUF = 4, NBUCKET = 2). *)
Definition released_buf (bn ts : Z) (nx : option nat) (dt : list Z) : buf :=
  {| valid := 1; dev := 0; blockno := bn; locked := false; refcnt := 0;
     next := nx; timestamp := ts; data := dt |}.

Definition scenario_cache (disk : Z -> Z -> list Z) (t1 t2 t3 t4 : Z) : bcache :=
  {| bufs := [released_buf 1 t1 None (disk 0 1);
              released_buf 2 t2 None (disk 0 2);
              released_buf 3 t3 (Some 0%nat) (disk 0 3);
              released_buf 4 t4 (Some 1%nat) (disk 0 4)];
     size := 4;
     buckets := [Some 3%nat; Some 2%nat] |}.

Definition no_disk (d bn : Z) : list Z := [].

Definition released_cache : bcache := scenario_cache no_disk 10 11 12 13.

(** A buffer that bread has just returned for a block that was not cached. *)
Definition fetched_buf (bn ts : Z) (nx : option nat) (dt : list Z) : buf :=
  {| valid := 1; dev := 0; blockno := bn; locked := true; refcnt := 1;
     next := nx; timestamp := ts; data := dt |}.

(** [released_cache] with block 3 (slot 2) still in use. *)
Definition busy_cache : bcache :=
  {| bufs := [released_buf 1 10 None [];
              released_buf 2 11 None [];
              fetched_buf 3 0 (Some 0%nat) [];
              released_buf 4 13 (Some 1%nat) []];
     size := 4;
     buckets := [Some 3%nat; Some 2%nat] |}.

(** The cache after blocks 1 to 4 of device 0 were read and none was
    released (NBUF = 4, NBUCKET = 2). *)
Definition full_cache : bcache :=
  {| bufs := [fetched_buf 1 0 None [];
              fetched_buf 2 0 None [];
              fetched_buf 3 0 (Some 0%nat) [];
              fetched_buf 4 0 (Some 1%nat) []];
     size := 4;
     buckets := [Some 3%nat; Some 2%nat] |}.

(** [s] has the pool and the buckets of [st], and slot [v] is not locked. *)
Definition unlocked_in (st : bcache) (v : nat) (s : bcache) : Prop :=
  length (bufs s) = length (bufs st) /\
  length (buckets s) = length (buckets st) /\
  exists b, bufs s !! v = Some b /\ locked b = false.

(** [r] points into the pool or to a bucket head of [st]. *)
Definition ref_in (st : bcache) (r : bufref) : Prop :=
  match r with
  | BucketHead k => 0 <= k < Z.of_nat (length (buckets st))
  | Slot j => (j < length (bufs st))%nat
  end.

(** NBUCKET = 2.  Block 2 of device 0 is read and released at tick
    2^32 - 1; with a second slot, block 1 is read and released at tick 5,
    after the counter has wrapped. *)
Definition saturated_one : B unit :=
  r1 <- bread 1 2 no_disk 0 2 ;;
  brelse UINT_MAX (snd r1).

Definition saturated_two : B unit :=
  r1 <- bread 2 2 no_disk 0 2 ;;
  r2 <- bread 2 2 no_disk 0 1 ;;
  brelse UINT_MAX (snd r1) ;;
  brelse 5 (snd r2).

(** The value returned, when the call returns. *)
Definition returned {S A} (o : outcome S A) : option A :=
  match o with
  | Ret v _ => Some v
  | _ => None
  end.

(** The state in which the call returns or sleeps. *)
Definition state_of {S A} (o : outcome S A) : option S :=
  match o with
  | Ret _ s => Some s
  | Sleep s => Some s
  | _ => None
  end.

(** The bucket visited after [idx]. *)
Definition next_bucket (NBUCKET idx : Z) : Z :=
  if idx + 1 =? NBUCKET then 0 else idx + 1.

(** The bucket visited [j] iterations after [idx]. *)
Fixpoint nth_bucket (NBUCKET : Z) (j : nat) (idx : Z) : Z :=
  match j with
  | O => idx
  | S j' => nth_bucket NBUCKET j' (next_bucket NBUCKET idx)
  end.

(** An operation applied to every element of a list, in order. *)
Fixpoint for_each {S A B} (f : A -> M S B) (l : list A) : M S (list B) :=
  match l with
  | [] => ret []
  | x :: l' => r <- f x ;; rs <- for_each f l' ;; ret (r :: rs)
  end.

(** The scenario: NBUF = 4, NBUCKET = 2; blocks 1 to 4 of device 0 are read;
    the four buffers are released as [rel] lists them, (t, k) releasing at
    tick t the buffer that the k-th read returned; then block 5 is read. *)
Definition scenario (disk : Z -> Z -> list Z) (rel : list (Z * nat))
    : B (list (how * nat) * (how * nat)) :=
  rs <- for_each (bread 4 2 disk 0) [1; 2; 3; 4] ;;
  for_each (fun tk => match rs !! snd tk with
                      | Some r => brelse (fst tk) (snd r)
                      | None => fault
                      end) rel ;;
  r5 <- bread 4 2 disk 0 5 ;;
  ret (rs, r5).

(** Block i released at tick ti, the releases in the order of the reads. *)
Definition in_read_order (t1 t2 t3 t4 : Z) : list (Z * nat) :=
  [(t1, 0%nat); (t2, 1%nat); (t3, 2%nat); (t4, 3%nat)].

(** Boot memory in which the page table at 0x80001000 maps va 0x3000 by
    [cow_entry]. *)
Definition mapped_memory : memory := store64 zero_memory 0x80001018 cow_entry.

(** As [cow_state], with no free frame. *)
Definition cow_state_full (c : Z) : kstate :=
  {| freelist := 0;
     page_ref_list := [1; 1; 1; 1; 1; c; 1; 1];
     mem := store64 zero_memory 0x80001018 cow_entry |}.

(** ** Whole runs of the allocator *)

(** The [n] frames from [p] upwards, lowest first. *)
Fixpoint frames (p : Z) (n : nat) : list Z :=
  match n with
  | O => []
  | S n' => p :: frames (p + PGSIZE) n'
  end.

(** The table and the free list agree: the free list holds the frames [l];
    no frame that kfree accepts has a negative count, and such a frame is on
    the free list exactly when its count is 0. *)
Definition consistent (L : memlayout) (st : kstate) (l : list Z) : Prop :=
  table_ok L st /\ freelist_ok L st l /\
  forall q, valid_pa L q ->
    exists c, cnt_of L st q = Some c /\ 0 <= c /\ (q ∈ l <-> c = 0).

(** The word that a page filled by kalloc holds at every aligned offset. *)
Definition junk_word : Z := 0x0505050505050505.

(** ** Whole calls of the buffer cache *)

(** Every field of a buffer but the list link. *)
Definition payload (b : buf) : Z * Z * Z * bool * Z * Z * list Z :=
  (valid b, dev b, blockno b, locked b, refcnt b, timestamp b, data b).

(** Every slot but [v] has in [st'] the view [f] it had in [st]. *)
Definition keeps_on {A} (f : buf -> A) (v : nat) (st st' : bcache) : Prop :=
  length (bufs st') = length (bufs st) /\
  forall j, j <> v -> f <$> (bufs st' !! j) = f <$> (bufs st !! j).

(** Every slot has in [st'] the view [f] it had in [st]. *)
Definition same_on {A} (f : buf -> A) (st st' : bcache) : Prop :=
  length (bufs st') = length (bufs st) /\
  forall j, f <$> (bufs st' !! j) = f <$> (bufs st !! j).

(** What a returning bget(d, bn) has done, [h] telling which return
    statement was taken and [i] being the slot returned: the pool and the
    bucket array keep their lengths; every other slot keeps all its fields
    but the list link; slot [i] was not locked and is now locked, with the
    data and the timestamp it had; on a hit it had the wanted device and
    block and its count went up by one; otherwise it is re-keyed to (d, bn),
    not valid, with count 1. *)
Definition got (d bn : Z) (st : bcache) (h : how) (i : nat) (st' : bcache) : Prop :=
  length (buckets st') = length (buckets st) /\
  keeps_on payload i st st' /\
  exists b b', bufs st !! i = Some b /\ bufs st' !! i = Some b' /\
    locked b = false /\
    payload b' =
      match h with
      | Cached => (valid b, dev b, blockno b, true, u32 (refcnt b + 1),
                   timestamp b, data b)
      | _ => (0, d, bn, true, 1, timestamp b, data b)
      end /\
    match h with
    | Cached => key b = (d, bn) /\ size st' = size st
    | Fresh => i = Z.to_nat (size st) /\ 0 <= size st /\ size st' = size st + 1
    | Recycled => refcnt b = 0 /\ size st' = size st
    end.

(** The buffer [b] as bget claims it for (d, bn): not valid, count 1,
    linked before [nx]; lock, timestamp and data as they are. *)
Definition claimed (d bn : Z) (nx : option nat) (b : buf) : buf :=
  {| valid := 0; dev := d; blockno := bn; locked := locked b; refcnt := 1;
     next := nx; timestamp := timestamp b; data := data b |}.

(** The fields that place a buffer in the hash table. *)
Definition link (b : buf) : Z * Z * option nat := (dev b, blockno b, next b).

(** [ch] is the list that starts at [h] and ends with a null pointer. *)
Fixpoint is_chain (bs : list buf) (h : option nat) (ch : list nat) : Prop :=
  match ch with
  | [] => h = None
  | i :: ch' => h = Some i /\ exists b, bs !! i = Some b /\ is_chain bs (next b) ch'
  end.

(** The invariant of the buffer cache.  There are NBUCKET buckets and NBUF
    slots, of which the first [size] are claimed.  The list of every bucket
    ends, holds no slot twice, and holds exactly the claimed slots whose
    block hashes to that bucket.  No two claimed slots are keyed to the same
    device and block. *)
Definition wf (NBUF NBUCKET : Z) (st : bcache) : Prop :=
  0 < NBUCKET /\ length (buckets st) = Z.to_nat NBUCKET /\
  0 <= size st <= NBUF /\ length (bufs st) = Z.to_nat NBUF /\
  (forall k, 0 <= k < NBUCKET ->
     exists ch, bucket_slots st k = Some ch /\ NoDup ch /\
       forall i, i ∈ ch <->
         (i < Z.to_nat (size st))%nat /\
         exists b, bufs st !! i = Some b /\ HASH NBUCKET (blockno b) = k) /\
  (forall i j bi bj,
     (i < Z.to_nat (size st))%nat -> (j < Z.to_nat (size st))%nat ->
     bufs st !! i = Some bi -> bufs st !! j = Some bj ->
     key bi = key bj -> i = j).

(** What a call may end in from a state that satisfies the invariant: it
    returns or sleeps in a state that satisfies it, or panics with [msg];
    it does nothing that C leaves undefined and its loops end. *)
Definition safe_outcome {A} (NBUF NBUCKET : Z) (msg : string)
    (o : outcome bcache A) : Prop :=
  match o with
  | Ret _ s => wf NBUF NBUCKET s
  | Sleep s => wf NBUF NBUCKET s
  | Panic m => m = msg
  | Fault => False
  | Diverge => False
  end.

(** The states of the cache that are reached from binit by calls of bread,
    brelse, bpin and bunpin that return. *)
Inductive bio_reachable (NBUF NBUCKET : Z) (disk : Z -> Z -> list Z)
    : bcache -> Prop :=
| bio_init : bio_reachable NBUF NBUCKET disk (binit NBUF NBUCKET)
| bio_bread st d bn r st' :
    bio_reachable NBUF NBUCKET disk st ->
    bread NBUF NBUCKET disk d bn st = Ret r st' ->
    bio_reachable NBUF NBUCKET disk st'
| bio_brelse st ticks i st' :
    bio_reachable NBUF NBUCKET disk st ->
    brelse ticks i st = Ret tt st' ->
    bio_reachable NBUF NBUCKET disk st'
| bio_bpin st i st' :
    bio_reachable NBUF NBUCKET disk st ->
    bpin i st = Ret tt st' ->
    bio_reachable NBUF NBUCKET disk st'
| bio_bunpin st i st' :
    bio_reachable NBUF NBUCKET disk st ->
    bunpin i st = Ret tt st' ->
    bio_reachable NBUF NBUCKET disk st'.

(** Every valid buffer holds the block of the disk that it is keyed to. *)
Definition coherent (disk : Z -> Z -> list Z) (st : bcache) : Prop :=
  forall i b, bufs st !! i = Some b -> valid b <> 0 ->
    data b = disk (dev b) (blockno b).

(** * Properties *)

(** ** Sequencing *)

Lemma bind_Ret {S A B} (c : M S A) (k : A -> M S B) s v s1 :
  c s = Ret v s1 -> bind c k s = k v s1.
Proof. intros H. unfold bind. rewrite H. reflexivity. Qed.

(** ** Memory *)

Lemma le_store_outside n : forall m a v x,
  x < a \/ a + Z.of_nat n <= x -> le_store m a n v x = m x.
Proof.
  induction n as [|n IH]; intros m a v x Hx; simpl; [reflexivity|].
  rewrite IH by lia. unfold store8.
  destruct (Z.eqb_spec x a); [lia | reflexivity].
Qed.

Lemma le_load_ext n : forall m1 m2 a,
  (forall x, a <= x < a + Z.of_nat n -> m1 x = m2 x) ->
  le_load m1 a n = le_load m2 a n.
Proof.
  induction n as [|n IH]; intros m1 m2 a H; simpl; [reflexivity|].
  rewrite (H a) by lia. rewrite (IH m1 m2 (a + 1)); [reflexivity|].
  intros x Hx. apply H. lia.
Qed.

Lemma le_load_range n : forall m a, 0 <= le_load m a n < 256 ^ Z.of_nat n.
Proof.
  induction n as [|n IH]; intros m a.
  - simpl. lia.
  - cbn [le_load]. rewrite Nat2Z.inj_succ, Z.pow_succ_r by lia.
    specialize (IH m (a + 1)).
    pose proof (Z.mod_pos_bound (m a) 256 ltac:(lia)). lia.
Qed.

Lemma le_load_store n : forall m a v,
  le_load (le_store m a n v) a n = v mod 256 ^ Z.of_nat n.
Proof.
  induction n as [|n IH]; intros m a v.
  - simpl. symmetry. apply Z.mod_1_r.
  - cbn [le_load le_store]. rewrite IH.
    rewrite le_store_outside by lia. unfold store8. rewrite Z.eqb_refl.
    rewrite Z.mod_mod by lia.
    rewrite Nat2Z.inj_succ, Z.pow_succ_r by lia.
    rewrite Z.rem_mul_r by lia. reflexivity.
Qed.

Lemma load64_range m a : 0 <= load64 m a < 2 ^ 64.
Proof. unfold load64. pose proof (le_load_range 8 m a) as H. exact H. Qed.

Lemma load64_store64 m a v : load64 (store64 m a v) a = u64 v.
Proof. unfold load64, store64, u64. rewrite le_load_store. reflexivity. Qed.

Lemma store64_outside m a v x : x < a \/ a + 8 <= x -> store64 m a v x = m x.
Proof. intros H. unfold store64. apply le_store_outside. simpl. lia. Qed.

Lemma load64_ext m1 m2 a :
  (forall x, a <= x < a + 8 -> m1 x = m2 x) -> load64 m1 a = load64 m2 a.
Proof. intros H. unfold load64. apply le_load_ext. simpl. exact H. Qed.

Lemma memset_inside m dst c n a : dst <= a < dst + n -> memset m dst c n a = c mod 256.
Proof.
  intros H. unfold memset.
  destruct (Z.leb_spec dst a), (Z.ltb_spec a (dst + n)); simpl; lia || reflexivity.
Qed.

Lemma memset_outside m dst c n a : a < dst \/ dst + n <= a -> memset m dst c n a = m a.
Proof.
  intros H. unfold memset.
  destruct (Z.leb_spec dst a), (Z.ltb_spec a (dst + n)); simpl; lia || reflexivity.
Qed.

Lemma memmove_inside m dst src n a :
  dst <= a < dst + n -> memmove m dst src n a = m (src + (a - dst)).
Proof.
  intros H. unfold memmove.
  destruct (Z.leb_spec dst a), (Z.ltb_spec a (dst + n)); simpl; lia || reflexivity.
Qed.

Lemma memmove_outside m dst src n a :
  a < dst \/ dst + n <= a -> memmove m dst src n a = m a.
Proof.
  intros H. unfold memmove.
  destruct (Z.leb_spec dst a), (Z.ltb_spec a (dst + n)); simpl; lia || reflexivity.
Qed.

(** ** Page rounding *)

Lemma PGROUNDDOWN_eq a : PGROUNDDOWN a = PGSIZE * (a / PGSIZE).
Proof.
  unfold PGROUNDDOWN, PGSIZE.
  rewrite <- Z.ldiff_land.
  change (4096 - 1) with (Z.ones 12).
  rewrite Z.ldiff_ones_r by lia.
  rewrite Z.shiftr_div_pow2, Z.shiftl_mul_pow2 by lia.
  change (2 ^ 12) with 4096. lia.
Qed.

Lemma PGROUNDDOWN_aligned a : a mod PGSIZE = 0 -> PGROUNDDOWN a = a.
Proof.
  intros H. rewrite PGROUNDDOWN_eq. unfold PGSIZE in *.
  pose proof (Z.div_mod a 4096 ltac:(lia)). lia.
Qed.

Lemma PGROUNDUP_spec a :
  0 <= a -> a + PGSIZE <= 2 ^ 64 ->
  PGROUNDUP a mod PGSIZE = 0 /\ a <= PGROUNDUP a < a + PGSIZE.
Proof.
  intros H0 H1. unfold PGROUNDUP, u64.
  rewrite (Z.mod_small (a + PGSIZE - 1)) by (unfold PGSIZE in *; lia).
  fold (PGROUNDDOWN (a + PGSIZE - 1)). rewrite PGROUNDDOWN_eq.
  unfold PGSIZE in *.
  pose proof (Z.div_mod (a + 4096 - 1) 4096 ltac:(lia)).
  pose proof (Z.mod_pos_bound (a + 4096 - 1) 4096 ltac:(lia)).
  split; [|lia].
  rewrite Z.mul_comm. apply Z.mod_mul. lia.
Qed.

(** ** The page-reference table *)

Lemma at_index_Some {A} (l : list A) i x :
  at_index l i = Some x <-> 0 <= i < Z.of_nat (length l) /\ l !! Z.to_nat i = Some x.
Proof.
  unfold at_index.
  destruct (Z.leb_spec 0 i), (Z.ltb_spec i (Z.of_nat (length l))); simpl;
    split; intros H1; try (split; [lia | exact H1]); try tauto; try discriminate; lia.
Qed.

Lemma at_index_insert_eq {A} (l : list A) i x :
  0 <= i < Z.of_nat (length l) -> at_index (<[Z.to_nat i := x]> l) i = Some x.
Proof.
  intros H. apply at_index_Some. rewrite length_insert. split; [exact H|].
  apply list_lookup_insert_eq. lia.
Qed.

Lemma at_index_insert_ne {A} (l : list A) i j x :
  0 <= i -> i <> j -> at_index (<[Z.to_nat i := x]> l) j = at_index l j.
Proof.
  intros Hi Hne. unfold at_index. rewrite length_insert.
  destruct ((0 <=? j) && (j <? Z.of_nat (length l))) eqn:E; [|reflexivity].
  apply andb_true_iff in E as [E1 E2]. apply Z.leb_le in E1.
  apply list_lookup_insert_ne. lia.
Qed.

Section kalloc_facts.
Variable L : memlayout.
Hypothesis HL : layout_ok L.

Lemma PA2PGREF_ID_eq p :
  KERNBASE L <= p < 2 ^ 64 -> PA2PGREF_ID L p = (p - KERNBASE L) / PGSIZE.
Proof.
  intros H. unfold PA2PGREF_ID, u64.
  destruct HL as (_ & _ & ? & _).
  rewrite Z.mod_small by lia. reflexivity.
Qed.

Lemma PGREF_MAX_ENTRIES_eq :
  PHYSTOP L = KERNBASE L + PGSIZE * PGREF_MAX_ENTRIES L /\ 0 <= PGREF_MAX_ENTRIES L.
Proof.
  destruct HL as (Hk & Hp & H0 & H1 & H2 & H3 & H4).
  unfold PGREF_MAX_ENTRIES. rewrite PA2PGREF_ID_eq by (unfold PGSIZE in *; lia).
  unfold PGSIZE in *.
  pose proof (Z.div_mod (PHYSTOP L - KERNBASE L) 4096 ltac:(lia)) as D.
  assert ((PHYSTOP L - KERNBASE L) mod 4096 = 0) as E.
  { rewrite Zminus_mod, Hk, Hp. reflexivity. }
  split; [lia|]. apply Z.div_pos; lia.
Qed.

(** A page-aligned address between KERNBASE and PHYSTOP is
    KERNBASE + PGSIZE * id for an index inside the table. *)
Lemma frame_index p :
  p mod PGSIZE = 0 -> KERNBASE L <= p < PHYSTOP L ->
  p = KERNBASE L + PGSIZE * PA2PGREF_ID L p /\
  0 <= PA2PGREF_ID L p < PGREF_MAX_ENTRIES L.
Proof.
  intros Ha Hr.
  destruct PGREF_MAX_ENTRIES_eq as [E1 E2].
  destruct HL as (Hk & Hp & H0 & H1 & H2 & H3 & H4).
  rewrite PA2PGREF_ID_eq by (unfold PGSIZE in *; lia).
  unfold PGSIZE in *.
  pose proof (Z.div_mod (p - KERNBASE L) 4096 ltac:(lia)) as D.
  assert ((p - KERNBASE L) mod 4096 = 0) as E.
  { rewrite Zminus_mod, Hk, Ha. reflexivity. }
  split; [lia|]. split; [apply Z.div_pos; lia|].
  apply Z.div_lt_upper_bound; lia.
Qed.

Lemma valid_pa_range pa : valid_pa L pa -> KERNBASE L <= pa < PHYSTOP L /\ 0 < pa.
Proof.
  intros (Ha & Hl & Hu). destruct HL as (Hk & Hp & H0 & H1 & H2 & H3 & H4). lia.
Qed.

Lemma valid_pa_index st pa :
  table_ok L st -> valid_pa L pa ->
  0 <= PA2PGREF_ID L pa < Z.of_nat (length (page_ref_list st)).
Proof.
  intros [Hlen _] Hv. pose proof (valid_pa_range pa Hv) as [Hr _].
  destruct Hv as (Ha & _). destruct (frame_index pa Ha Hr) as [_ Hi].
  rewrite Hlen. lia.
Qed.

Lemma valid_pa_cnt st pa :
  table_ok L st -> valid_pa L pa ->
  exists c, cnt_of L st pa = Some c /\ INT_MIN <= c <= INT_MAX.
Proof.
  intros Ht Hv. pose proof (valid_pa_index st pa Ht Hv) as Hi.
  destruct (lookup_lt_is_Some_2 (page_ref_list st) (Z.to_nat (PA2PGREF_ID L pa)))
    as [c Hc]; [lia|].
  exists c. split.
  - apply at_index_Some. auto.
  - destruct Ht as [_ Hall]. rewrite Forall_forall in Hall. apply Hall.
    eapply list_elem_of_lookup_2. exact Hc.
Qed.

(** Distinct frames have distinct table entries. *)
Lemma valid_pa_index_inj p q :
  valid_pa L p -> valid_pa L q -> PA2PGREF_ID L p = PA2PGREF_ID L q -> p = q.
Proof.
  intros Hp Hq E.
  destruct (frame_index p (proj1 Hp) (proj1 (valid_pa_range p Hp))) as [E1 _].
  destruct (frame_index q (proj1 Hq) (proj1 (valid_pa_range q Hq))) as [E2 _].
  rewrite E in E1. lia.
Qed.

End kalloc_facts.

(** ** Execution of kfree, kalloc and krefpage *)

Ltac kunfold :=
  repeat (progress (
    cbv beta iota delta [bind ret gets modify panic fault ref_add ref_set
                         ref_get set_mem set_freelist pte_read pte_write];
    cbn [freelist page_ref_list mem])).

Lemma int_result_Some x : INT_MIN <= x <= INT_MAX -> int_result x = Some x.
Proof.
  intros H. unfold int_result.
  destruct (Z.leb_spec INT_MIN x), (Z.leb_spec x INT_MAX); simpl; lia || reflexivity.
Qed.

Lemma int_result_None x : x < INT_MIN \/ INT_MAX < x -> int_result x = None.
Proof.
  intros H. unfold int_result.
  destruct (Z.leb_spec INT_MIN x), (Z.leb_spec x INT_MAX); simpl; lia || reflexivity.
Qed.

Lemma valid_pa_guard L pa :
  negb (pa mod PGSIZE =? 0) || (pa <? kend L) || (PHYSTOP L <=? pa) = false
  <-> valid_pa L pa.
Proof.
  unfold valid_pa.
  destruct (Z.eqb_spec (pa mod PGSIZE) 0), (Z.ltb_spec pa (kend L)),
    (Z.leb_spec (PHYSTOP L) pa); simpl; split; intros HH; try discriminate;
    try reflexivity; try lia.
Qed.

Section kalloc_exec.
Variable L : memlayout.

Lemma cnt_of_set_cnt_eq st pa c c0 :
  cnt_of L st pa = Some c0 -> cnt_of L (set_cnt L st pa c) pa = Some c.
Proof.
  unfold cnt_of, set_cnt. cbn [page_ref_list]. intros H.
  apply at_index_Some in H as [H _]. apply at_index_insert_eq. exact H.
Qed.

Lemma cnt_of_set_cnt_ne st pa q c c0 :
  cnt_of L st pa = Some c0 -> PA2PGREF_ID L pa <> PA2PGREF_ID L q ->
  cnt_of L (set_cnt L st pa c) q = cnt_of L st q.
Proof.
  unfold cnt_of, set_cnt. cbn [page_ref_list]. intros H Hne.
  apply at_index_Some in H as [H _]. apply at_index_insert_ne; lia.
Qed.

Lemma kfree_panics pa st :
  ~ valid_pa L pa -> kfree L pa st = Panic "kfree".
Proof.
  intros H. unfold kfree.
  destruct (negb (pa mod PGSIZE =? 0) || (pa <? kend L) || (PHYSTOP L <=? pa)) eqn:E.
  - reflexivity.
  - apply valid_pa_guard in E. contradiction.
Qed.

Lemma kfree_exec pa st c :
  valid_pa L pa -> cnt_of L st pa = Some c -> INT_MIN < c <= INT_MAX ->
  kfree L pa st =
    if 0 <? c - 1 then Ret tt (set_cnt L st pa (c - 1))
    else Ret tt {| freelist := pa;
                   page_ref_list := page_ref_list (set_cnt L st pa (c - 1));
                   mem := store64 (memset (mem st) pa 1 PGSIZE) pa (freelist st) |}.
Proof.
  intros Hv Hc Hr. unfold kfree.
  apply valid_pa_guard in Hv. rewrite Hv.
  pose proof (cnt_of_set_cnt_eq st pa (c - 1) c Hc) as Hc'.
  unfold cnt_of in Hc, Hc'. unfold set_cnt in Hc'. cbn [page_ref_list] in Hc'.
  kunfold. rewrite Hc.
  replace (c + -1) with (c - 1) by lia.
  rewrite int_result_Some by lia.
  rewrite Hc. cbn [page_ref_list]. rewrite Hc'.
  destruct (0 <? c - 1); reflexivity.
Qed.

Lemma kfree_underflow pa st :
  valid_pa L pa -> cnt_of L st pa = Some INT_MIN -> kfree L pa st = Fault.
Proof.
  intros Hv Hc. unfold kfree. apply valid_pa_guard in Hv. rewrite Hv.
  unfold cnt_of in Hc. kunfold. rewrite Hc.
  rewrite int_result_None; [reflexivity | unfold INT_MIN; lia].
Qed.

Lemma kalloc_empty st : freelist st = 0 -> kalloc L st = Ret 0 st.
Proof.
  intros H. unfold kalloc. kunfold. rewrite H. simpl. destruct st; simpl in *.
  subst. reflexivity.
Qed.

Lemma kalloc_exec st c :
  freelist st <> 0 -> cnt_of L st (freelist st) = Some c ->
  kalloc L st =
    Ret (freelist st)
        {| freelist := load64 (mem st) (freelist st);
           page_ref_list :=
             <[Z.to_nat (PA2PGREF_ID L (freelist st)) := 1]> (page_ref_list st);
           mem := memset (mem st) (freelist st) 5 PGSIZE |}.
Proof.
  intros Hne Hc. unfold kalloc. unfold cnt_of in Hc. kunfold.
  destruct (Z.eqb_spec (freelist st) 0); [contradiction|]. simpl.
  rewrite Hc. reflexivity.
Qed.

Lemma kalloc_wild st :
  freelist st <> 0 -> cnt_of L st (freelist st) = None -> kalloc L st = Fault.
Proof.
  intros Hne Hc. unfold kalloc. unfold cnt_of in Hc. kunfold.
  destruct (Z.eqb_spec (freelist st) 0); [contradiction|]. simpl.
  rewrite Hc. reflexivity.
Qed.

Lemma krefpage_invalid pa st : ~ valid_pa L pa -> krefpage L pa st = Ret (-1) st.
Proof.
  intros H. unfold krefpage.
  destruct (negb (pa mod PGSIZE =? 0) || (pa <? kend L) || (PHYSTOP L <=? pa)) eqn:E.
  - reflexivity.
  - apply valid_pa_guard in E. contradiction.
Qed.

Lemma krefpage_exec pa st c :
  valid_pa L pa -> cnt_of L st pa = Some c -> INT_MIN <= c < INT_MAX ->
  krefpage L pa st = Ret 1 (set_cnt L st pa (c + 1)).
Proof.
  intros Hv Hc Hr. unfold krefpage. apply valid_pa_guard in Hv. rewrite Hv.
  unfold cnt_of in Hc. kunfold. rewrite Hc.
  rewrite int_result_Some by lia. rewrite Hc. reflexivity.
Qed.

Lemma krefpage_overflow pa st :
  valid_pa L pa -> cnt_of L st pa = Some INT_MAX -> krefpage L pa st = Fault.
Proof.
  intros Hv Hc. unfold krefpage. apply valid_pa_guard in Hv. rewrite Hv.
  unfold cnt_of in Hc. kunfold. rewrite Hc.
  rewrite int_result_None; [reflexivity | unfold INT_MAX; lia].
Qed.

End kalloc_exec.

Lemma pushed_intro st pa refs :
  pushed st {| freelist := pa; page_ref_list := refs;
               mem := store64 (memset (mem st) pa 1 PGSIZE) pa (freelist st) |} pa.
Proof.
  unfold pushed. cbn [freelist mem]. unfold PGSIZE.
  split; [reflexivity|]. split; [reflexivity|].
  split; [apply load64_store64|].
  split; [intros a Ha; rewrite memset_inside by lia; reflexivity|].
  split; intros a Ha.
  - rewrite store64_outside by lia. rewrite memset_inside by lia. reflexivity.
  - rewrite store64_outside by lia. rewrite memset_outside by lia. reflexivity.
Qed.

Lemma small_layout_ok : layout_ok small_layout.
Proof.
  unfold layout_ok, small_layout, PGSIZE. cbn.
  repeat apply conj; first [reflexivity | lia].
Qed.

Lemma owned_state_ok c : INT_MIN <= c <= INT_MAX -> table_ok small_layout (owned_state c).
Proof.
  intros Hc. split; [reflexivity|].
  unfold owned_state, INT_MIN, INT_MAX in *. cbn [page_ref_list].
  repeat (apply Forall_cons; split; [lia|]). apply Forall_nil. exact I.
Qed.

(** ** C1: kfree *)

(** C1.  kfree(pa) panics exactly when pa is not page-aligned, lies below
    [end], or lies at or above PHYSTOP.  For every other pa the frame has a
    count c in the table and (c - 1 being an int) kfree returns with the count
    decremented and no other count changed; when the new count is positive
    the free list and memory are unchanged; otherwise the page was filled
    with the byte 1 and the frame linked in at the head of the free list. *)
Theorem kfree_spec (L : memlayout) (st : kstate) (pa : Z) :
  layout_ok L -> table_ok L st ->
  ((exists msg, kfree L pa st = Panic msg) <->
   (pa mod PGSIZE <> 0 \/ pa < kend L \/ PHYSTOP L <= pa)) /\
  (valid_pa L pa ->
   exists c, cnt_of L st pa = Some c /\
     (INT_MIN < c ->
      exists st', kfree L pa st = Ret tt st' /\
        page_ref_list st' = <[Z.to_nat (PA2PGREF_ID L pa) := c - 1]> (page_ref_list st) /\
        cnt_of L st' pa = Some (c - 1) /\
        (0 < c - 1 -> freelist st' = freelist st /\ mem st' = mem st) /\
        (c - 1 <= 0 -> pushed st st' pa))).
Proof.
  intros HL Ht. split.
  - split.
    + intros [msg Hm].
      destruct (Z.eq_dec (pa mod PGSIZE) 0) as [Ha|Ha]; [|left; exact Ha].
      destruct (Z_lt_dec pa (kend L)) as [Hl|Hl]; [right; left; exact Hl|].
      destruct (Z_le_dec (PHYSTOP L) pa) as [Hu|Hu]; [right; right; exact Hu|].
      exfalso.
      assert (valid_pa L pa) as Hv by (unfold valid_pa; lia).
      destruct (valid_pa_cnt L HL st pa Ht Hv) as (c & Hc & Hr).
      destruct (Z.eq_dec c INT_MIN) as [->|Hne].
      * rewrite (kfree_underflow L pa st Hv Hc) in Hm. discriminate.
      * rewrite (kfree_exec L pa st c Hv Hc) in Hm by lia.
        destruct (0 <? c - 1); discriminate.
    + intros H. exists "kfree"%string. apply kfree_panics.
      unfold valid_pa. lia.
  - intros Hv. destruct (valid_pa_cnt L HL st pa Ht Hv) as (c & Hc & Hr).
    exists c. split; [exact Hc|]. intros Hmin.
    rewrite (kfree_exec L pa st c Hv Hc) by lia.
    pose proof (cnt_of_set_cnt_eq L st pa (c - 1) c Hc) as Hc'.
    destruct (Z.ltb_spec 0 (c - 1)) as [Hpos|Hpos].
    + eexists. split; [reflexivity|]. split; [reflexivity|].
      split; [exact Hc'|]. split; [intros _; split; reflexivity | lia].
    + eexists. split; [reflexivity|]. split; [reflexivity|].
      split; [exact Hc'|]. split; [lia|]. intros _. apply pushed_intro.
Qed.

Lemma kfree_spec_witness :
  exists st', kfree small_layout 0x80005000 (owned_state 1) = Ret tt st' /\
    freelist st' = 0x80005000.
Proof.
  destruct (kfree_spec small_layout (owned_state 1) 0x80005000 small_layout_ok
              (owned_state_ok 1 ltac:(unfold INT_MIN, INT_MAX; lia))) as [_ H].
  destruct H as (c & Hc & H).
  { unfold valid_pa, small_layout, PGSIZE. cbn.
    repeat apply conj; first [reflexivity | lia]. }
  assert (c = 1) as -> by (vm_compute in Hc; congruence).
  destruct H as (st' & He & _ & _ & _ & Hp); [unfold INT_MIN; lia|].
  exists st'. split; [exact He|]. apply Hp. lia.
Defined.

(** ** The free list as a chain of frames *)

Lemma aligned_apart p q :
  p mod PGSIZE = 0 -> q mod PGSIZE = 0 -> p <> q ->
  p + PGSIZE <= q \/ q + PGSIZE <= p.
Proof.
  unfold PGSIZE. intros Hp Hq Hne.
  pose proof (Z.div_mod p 4096 ltac:(lia)).
  pose proof (Z.div_mod q 4096 ltac:(lia)). lia.
Qed.

Lemma free_chain_ext m1 m2 l : forall h,
  (forall q, q ∈ l -> load64 m1 q = load64 m2 q) ->
  free_chain m1 h l -> free_chain m2 h l.
Proof.
  induction l as [|p l IH]; intros h Hext Hc; simpl in *; [exact Hc|].
  destruct Hc as (-> & Hnz & Hc). split; [reflexivity|]. split; [exact Hnz|].
  rewrite <- (Hext p) by (left; reflexivity).
  apply IH; [|exact Hc]. intros q Hq. apply Hext. right. exact Hq.
Qed.

Lemma free_chain_functional m l1 : forall h l2,
  free_chain m h l1 -> free_chain m h l2 -> l1 = l2.
Proof.
  induction l1 as [|p l1 IH]; intros h [|q l2] H1 H2; simpl in *.
  - reflexivity.
  - destruct H2 as (-> & Hnz & _). contradiction.
  - destruct H1 as (-> & Hnz & _). contradiction.
  - destruct H1 as (-> & _ & H1), H2 as (<- & _ & H2).
    f_equal. eapply IH; eassumption.
Qed.

Section free_list.
Variable L : memlayout.
Hypothesis HL : layout_ok L.

Lemma freelist_ok_head st l : freelist_ok L st l -> 0 <= freelist st < 2 ^ 64.
Proof.
  intros (Hc & Hv & _). destruct l as [|p l]; simpl in Hc.
  - rewrite Hc. lia.
  - destruct Hc as (-> & _). apply Forall_cons in Hv as [Hv _].
    pose proof (valid_pa_range L HL p Hv).
    destruct HL as (_ & _ & _ & _ & _ & _ & ?). unfold PGSIZE in *. lia.
Qed.

(** Writing inside the page of a frame that is not on the list leaves the
    list as it is. *)
Lemma free_chain_frame m1 m2 p l h :
  p mod PGSIZE = 0 -> Forall (valid_pa L) l -> p ∉ l ->
  (forall a, a < p \/ p + PGSIZE <= a -> m2 a = m1 a) ->
  free_chain m1 h l -> free_chain m2 h l.
Proof.
  intros Hp Hv Hnin Hout. apply free_chain_ext. intros q Hq.
  rewrite Forall_forall in Hv. destruct (Hv q Hq) as (Hqa & _).
  assert (p <> q) as Hne by (intros ->; contradiction).
  destruct (aligned_apart p q Hp Hqa Hne); apply load64_ext; intros x Hx;
    symmetry; apply Hout; unfold PGSIZE in *; lia.
Qed.

Lemma table_ok_set_cnt st pa c :
  table_ok L st -> INT_MIN <= c <= INT_MAX -> table_ok L (set_cnt L st pa c).
Proof.
  intros [Hlen Hall] Hc. split; unfold set_cnt; cbn [page_ref_list].
  - rewrite length_insert. exact Hlen.
  - apply Forall_insert; assumption.
Qed.

(** kalloc hands out the head of a well-formed free list. *)
Lemma kalloc_pop st p l :
  table_ok L st -> freelist_ok L st (p :: l) ->
  exists st', kalloc L st = Ret p st' /\ p <> 0 /\
    freelist_ok L st' l /\ table_ok L st' /\
    freelist st' = load64 (mem st) p /\
    mem st' = memset (mem st) p 5 PGSIZE /\
    page_ref_list st' = <[Z.to_nat (PA2PGREF_ID L p) := 1]> (page_ref_list st).
Proof.
  intros Ht (Hc & Hv & Hnd). simpl in Hc. destruct Hc as (Hh & Hnz & Hc).
  apply Forall_cons in Hv as [Hvp Hv]. apply NoDup_cons in Hnd as [Hnin Hnd].
  destruct (valid_pa_cnt L HL st p Ht Hvp) as (c & Hcnt & _).
  rewrite (kalloc_exec L st c) by (rewrite ?Hh; assumption).
  rewrite Hh. eexists. split; [reflexivity|]. split; [exact Hnz|].
  split; [|split; [|repeat split]].
  - split; [|split; assumption]. cbn [freelist mem].
    eapply (free_chain_frame (mem st)); try eassumption.
    + apply Hvp.
    + intros a Ha. apply memset_outside. exact Ha.
  - apply (table_ok_set_cnt st p 1 Ht). unfold INT_MIN, INT_MAX. lia.
Qed.

(** kfree of a frame with at most one owner pushes it. *)
Lemma kfree_push st p c l :
  table_ok L st -> freelist_ok L st l -> valid_pa L p -> p ∉ l ->
  cnt_of L st p = Some c -> INT_MIN < c <= 1 ->
  exists st', kfree L p st = Ret tt st' /\
    freelist_ok L st' (p :: l) /\ table_ok L st' /\
    page_ref_list st' = page_ref_list (set_cnt L st p (c - 1)) /\
    pushed st st' p.
Proof.
  intros Ht Hok Hvp Hnin Hcnt Hc.
  pose proof (freelist_ok_head st l Hok) as Hhd.
  destruct Hok as (Hch & Hv & Hnd).
  rewrite (kfree_exec L p st c Hvp Hcnt) by (unfold INT_MAX; lia).
  destruct (Z.ltb_spec 0 (c - 1)) as [?|_]; [lia|].
  eexists. split; [reflexivity|].
  pose proof (pushed_intro st p (page_ref_list (set_cnt L st p (c - 1)))) as Hp.
  split; [|split; [|split; [reflexivity | exact Hp]]].
  - split; [|split].
    + cbn [free_chain freelist mem]. split; [reflexivity|].
      split; [pose proof (valid_pa_range L HL p Hvp); lia|].
      rewrite load64_store64. unfold u64. rewrite Z.mod_small by lia.
      eapply (free_chain_frame (mem st)); try eassumption.
      * apply Hvp.
      * destruct Hp as (_ & _ & _ & _ & _ & Hout). exact Hout.
    + apply Forall_cons. split; assumption.
    + apply NoDup_cons. split; assumption.
  - destruct (table_ok_set_cnt st p (c - 1) Ht) as [H1 H2].
    { unfold INT_MAX, INT_MIN in *. lia. }
    split; assumption.
Qed.

(** Calling kalloc once per free frame empties the list. *)
Lemma kalloc_n_drains l : forall st,
  table_ok L st -> freelist_ok L st l ->
  exists st', kalloc_n L (length l) st = Ret l st' /\
    freelist st' = 0 /\ table_ok L st'.
Proof.
  induction l as [|p l IH]; intros st Ht Hok.
  - exists st. split; [reflexivity|]. split; [|exact Ht].
    destruct Hok as (Hc & _). exact Hc.
  - destruct (kalloc_pop st p l Ht Hok) as (st1 & He & _ & Hok1 & Ht1 & _).
    destruct (IH st1 Ht1 Hok1) as (st2 & He2 & Hf & Ht2).
    exists st2. split; [|split; assumption].
    cbn [kalloc_n length]. unfold bind at 1. rewrite He.
    unfold bind at 1. rewrite He2. reflexivity.
Qed.

End free_list.

(** ** Boot: kinit *)

Lemma at_index_is_Some {A} (l : list A) i :
  0 <= i < Z.of_nat (length l) -> exists x, at_index l i = Some x.
Proof.
  intros H. destruct (lookup_lt_is_Some_2 l (Z.to_nat i)) as [x Hx]; [lia|].
  exists x. apply at_index_Some. auto.
Qed.

Section boot.
Variable L : memlayout.
Hypothesis HL : layout_ok L.

Lemma kinit_loop_exec n : forall i st,
  0 <= i -> i + Z.of_nat n <= Z.of_nat (length (page_ref_list st)) ->
  exists st', kinit_loop n i st = Ret tt st' /\
    freelist st' = freelist st /\ mem st' = mem st /\
    length (page_ref_list st') = length (page_ref_list st) /\
    (forall j, i <= j < i + Z.of_nat n -> at_index (page_ref_list st') j = Some 1) /\
    (forall j, j < i -> at_index (page_ref_list st') j = at_index (page_ref_list st) j).
Proof.
  induction n as [|n IH]; intros i st Hi Hlen.
  - exists st. cbn [kinit_loop]. repeat split; try reflexivity. intros j Hj. lia.
  - destruct (at_index_is_Some (page_ref_list st) i) as [c0 Hc0]; [lia|].
    set (st1 := {| freelist := freelist st;
                   page_ref_list := <[Z.to_nat i := 1]> (page_ref_list st);
                   mem := mem st |}).
    destruct (IH (i + 1) st1) as (st' & He & Hf & Hm & Hl & Hin & Hout).
    { lia. }
    { unfold st1. cbn [page_ref_list]. rewrite length_insert. lia. }
    exists st'. cbn [kinit_loop]. split.
    { kunfold. rewrite Hc0. exact He. }
    split; [exact Hf|]. split; [exact Hm|]. split.
    { rewrite Hl. unfold st1. cbn [page_ref_list]. apply length_insert. }
    split.
    + intros j Hj. destruct (Z.eq_dec j i) as [->|Hne].
      * rewrite Hout by lia. unfold st1. cbn [page_ref_list].
        apply at_index_insert_eq. lia.
      * apply Hin. lia.
    + intros j Hj. rewrite Hout by lia. unfold st1. cbn [page_ref_list].
      apply at_index_insert_ne; lia.
Qed.

Lemma freerange_loop_exec n : forall p st l,
  p mod PGSIZE = 0 -> kend L <= p -> PHYSTOP L = p + PGSIZE * Z.of_nat n ->
  table_ok L st -> freelist_ok L st l -> (forall q, q ∈ l -> q < p) ->
  (forall q, valid_pa L q -> p <= q -> cnt_of L st q = Some 1) ->
  Forall (fun c => 0 <= c) (page_ref_list st) ->
  exists st' l', freerange_loop L n p (PHYSTOP L) st = Ret tt st' /\
    freelist_ok L st' (l' ++ l) /\ length l' = n /\ table_ok L st' /\
    Forall (fun c => 0 <= c) (page_ref_list st').
Proof.
  pose proof HL as (_ & _ & ? & ? & ? & ? & Htop).
  induction n as [|n IH]; intros p st l Hp Hlo Hhi Ht Hok Hbelow Hone Hnn.
  - exists st, []. cbn [freerange_loop].
    destruct (Z.leb_spec (2 ^ 64) (p + PGSIZE)); [unfold PGSIZE in *; lia|].
    destruct (Z.leb_spec (p + PGSIZE) (PHYSTOP L)); [unfold PGSIZE in *; lia|].
    split; [reflexivity|]. split; [exact Hok|]. split; [reflexivity|].
    split; [exact Ht | exact Hnn].
  - assert (valid_pa L p) as Hvp by (unfold valid_pa, PGSIZE in *; lia).
    assert (p ∉ l) as Hnin by (intros Hin; specialize (Hbelow p Hin); lia).
    destruct (kfree_push L HL st p 1 l Ht Hok Hvp Hnin) as
      (st1 & He & Hok1 & Ht1 & Hrefs & _).
    { apply Hone; [exact Hvp | lia]. }
    { unfold INT_MIN. lia. }
    destruct (IH (p + PGSIZE) st1 (p :: l)) as
      (st' & l' & He' & Hok' & Hlen & Ht' & Hnn').
    + rewrite <- Zplus_mod_idemp_l, Hp. reflexivity.
    + unfold PGSIZE. lia.
    + rewrite Hhi. unfold PGSIZE. lia.
    + exact Ht1.
    + exact Hok1.
    + intros q Hq. apply elem_of_cons in Hq as [->|Hq];
        [|specialize (Hbelow q Hq)]; unfold PGSIZE; lia.
    + intros q Hvq Hq. unfold cnt_of. rewrite Hrefs.
      fold (cnt_of L (set_cnt L st p (1 - 1)) q).
      rewrite (cnt_of_set_cnt_ne L st p q (1 - 1) 1).
      * apply Hone; [exact Hvq | unfold PGSIZE in *; lia].
      * apply Hone; [exact Hvp | lia].
      * intros E. apply (valid_pa_index_inj L HL) in E; try assumption.
        unfold PGSIZE in *. lia.
    + rewrite Hrefs. unfold set_cnt. cbn [page_ref_list].
      apply Forall_insert; [exact Hnn | lia].
    + exists st', (l' ++ [p]). split; [|split; [|split; [|split]]].
      * cbn [freerange_loop].
        destruct (Z.leb_spec (2 ^ 64) (p + PGSIZE)); [unfold PGSIZE in *; lia|].
        destruct (Z.leb_spec (p + PGSIZE) (PHYSTOP L)); [|unfold PGSIZE in *; lia].
        unfold bind at 1. rewrite He. exact He'.
      * rewrite <- app_assoc. exact Hok'.
      * rewrite length_app, Hlen. simpl. lia.
      * exact Ht'.
      * exact Hnn'.
Qed.

(** kinit returns; afterwards every whole frame between [end] and PHYSTOP
    is on the free list. *)
Lemma kinit_exec m0 :
  exists st0 l, kinit L (boot_state L m0) = Ret tt st0 /\
    freelist_ok L st0 l /\ length l = frames_at_boot L /\ table_ok L st0 /\
    Forall (fun c => 0 <= c) (page_ref_list st0).
Proof.
  pose proof HL as (Hk & Hpa & ? & ? & ? & ? & Htop).
  destruct (PGREF_MAX_ENTRIES_eq L HL) as [Emax Hmax].
  destruct (kinit_loop_exec (Z.to_nat (PGREF_MAX_ENTRIES L)) 0 (boot_state L m0))
    as (st1 & He1 & Hf1 & Hm1 & Hl1 & Hin1 & _).
  { lia. }
  { unfold boot_state. cbn [page_ref_list]. rewrite length_replicate. lia. }
  unfold boot_state in Hl1. cbn [page_ref_list] in Hl1.
  rewrite length_replicate in Hl1.
  assert (Forall (fun c => c = 1) (page_ref_list st1)) as Hones.
  { apply Forall_lookup. intros k x Hx.
    assert (at_index (page_ref_list st1) (Z.of_nat k) = Some 1) as Hk1.
    { apply Hin1. apply lookup_lt_Some in Hx. lia. }
    apply at_index_Some in Hk1 as [_ Hk1]. rewrite Nat2Z.id in Hk1.
    rewrite Hx in Hk1. injection Hk1 as ->. reflexivity. }
  assert (table_ok L st1) as Ht1.
  { split; [exact Hl1|]. eapply Forall_impl; [exact Hones|].
    intros c ->. unfold INT_MIN, INT_MAX. lia. }
  destruct (PGROUNDUP_spec (kend L)) as [Hua Hur]; [lia | unfold PGSIZE in *; lia |].
  set (p0 := PGROUNDUP (kend L)) in *.
  assert (exists n, PHYSTOP L = p0 + PGSIZE * Z.of_nat n /\
                    n = frames_at_boot L) as (n & Hn & Hfr).
  { exists (frames_at_boot L). split; [|reflexivity].
    unfold frames_at_boot. fold p0. unfold PGSIZE in *.
    pose proof (Z.div_mod (PHYSTOP L - p0) 4096 ltac:(lia)) as D.
    assert ((PHYSTOP L - p0) mod 4096 = 0) as E.
    { rewrite Zminus_mod, Hpa, Hua. reflexivity. }
    assert (0 <= (PHYSTOP L - p0) / 4096).
    { pose proof (Z.div_mod (PHYSTOP L) 4096 ltac:(lia)).
      pose proof (Z.div_mod p0 4096 ltac:(lia)). lia. }
    rewrite Z2Nat.id by lia. lia. }
  destruct (freerange_loop_exec n p0 st1 []) as
    (st0 & l & He & Hok & Hlen & Ht0 & Hnn0).
  - exact Hua.
  - lia.
  - exact Hn.
  - exact Ht1.
  - split; [|split; [apply Forall_nil; exact I | apply NoDup_nil; exact I]].
    simpl. rewrite Hf1. reflexivity.
  - intros q Hq. apply elem_of_nil in Hq. contradiction.
  - intros q Hvq _. apply Hin1.
    pose proof (valid_pa_index L HL st1 q Ht1 Hvq). rewrite Hl1 in *. lia.
  - eapply Forall_impl; [exact Hones|]. intros c ->. lia.
  - exists st0, l. rewrite app_nil_r in Hok.
    split; [|split; [exact Hok | split; [congruence | split; [exact Ht0 | exact Hnn0]]]].
    unfold kinit. unfold bind. rewrite He1. unfold freerange. fold p0.
    change (Z.to_nat ((PHYSTOP L - p0) / PGSIZE)) with (frames_at_boot L).
    rewrite <- Hfr. exact He.
Qed.

End boot.

(** ** freerange terminates *)

Lemma kfree_not_Diverge L pa st : kfree L pa st <> Diverge.
Proof.
  unfold kfree.
  destruct (negb (pa mod PGSIZE =? 0) || (pa <? kend L) || (PHYSTOP L <=? pa));
    [discriminate|].
  kunfold. destruct (at_index (page_ref_list st) (PA2PGREF_ID L pa)) as [c|] eqn:Hc;
    [|discriminate].
  destruct (int_result (c + -1)) as [c'|]; [|discriminate].
  kunfold. rewrite Hc. kunfold.
  apply at_index_Some in Hc as [Hi _].
  rewrite at_index_insert_eq by exact Hi. kunfold.
  destruct (0 <? c'); discriminate.
Qed.

Lemma freerange_loop_terminates L n : forall p pa_end st,
  (pa_end - p) / PGSIZE <= Z.of_nat n ->
  freerange_loop L n p pa_end st <> Diverge.
Proof.
  induction n as [|n IH]; intros p pa_end st Hn; cbn [freerange_loop];
    destruct (2 ^ 64 <=? p + PGSIZE); try discriminate;
    destruct (Z.leb_spec (p + PGSIZE) pa_end) as [Hle|Hgt]; try discriminate.
  - exfalso. unfold PGSIZE in *.
    assert (1 <= (pa_end - p) / 4096) by (apply Z.div_le_lower_bound; lia). lia.
  - unfold bind. pose proof (kfree_not_Diverge L p st) as Hk.
    destruct (kfree L p st) as [u s1| | | |]; try discriminate; [|contradiction].
    apply IH. unfold PGSIZE in *.
    replace (pa_end - (p + 4096)) with (pa_end - p + (-1) * 4096) by lia.
    rewrite Z.div_add by lia. lia.
Qed.

(** The loop of freerange ends for every range: the model's [Diverge] does
    not occur there. *)
Lemma freerange_terminates L pa_start pa_end st :
  freerange L pa_start pa_end st <> Diverge.
Proof.
  unfold freerange. apply freerange_loop_terminates.
  destruct (Z_le_gt_dec 0 ((pa_end - PGROUNDUP pa_start) / PGSIZE)).
  - rewrite Z2Nat.id by assumption. lia.
  - lia.
Qed.

(** ** C2: kalloc *)

Lemma kalloc_n_snoc L n : forall st rs st1 r st2,
  kalloc_n L n st = Ret rs st1 -> kalloc L st1 = Ret r st2 ->
  kalloc_n L (n + 1) st = Ret (rs ++ [r]) st2.
Proof.
  induction n as [|n IH]; intros st rs st1 r st2 Hn Hk.
  - cbn in Hn. injection Hn as <- <-. cbn [kalloc_n Nat.add].
    unfold bind, ret. rewrite Hk. reflexivity.
  - cbn [kalloc_n Nat.add] in *. unfold bind at 1 in Hn. unfold bind at 1.
    destruct (kalloc L st) as [r0 s0| | | |]; try discriminate.
    unfold bind at 1 in Hn. unfold bind at 1.
    destruct (kalloc_n L n s0) as [rs0 s1| | | |] eqn:E; try discriminate.
    unfold ret in Hn. injection Hn as <- <-.
    rewrite (IH s0 rs0 s1 r st2 E Hk). reflexivity.
Qed.

(** C2.  kalloc returns 0 exactly when the free list is empty, and then
    changes nothing.  Otherwise it returns the head frame p of the free list:
    the list continues with p's successor, the 4096 bytes of p hold the byte
    5, p's reference count is 1, and nothing else changed.  After boot, with
    F the number of free frames, F calls of kalloc return the F frames and
    call F + 1 returns 0. *)
Theorem kalloc_spec (L : memlayout) :
  layout_ok L ->
  (forall st st', kalloc L st = Ret 0 st' <-> freelist st = 0 /\ st' = st) /\
  (forall st p l, table_ok L st -> freelist_ok L st (p :: l) ->
     exists st', kalloc L st = Ret p st' /\ p <> 0 /\
       freelist_ok L st' l /\
       (forall a, p <= a < p + PGSIZE -> mem st' a = 5) /\
       (forall a, a < p \/ p + PGSIZE <= a -> mem st' a = mem st a) /\
       cnt_of L st' p = Some 1 /\
       page_ref_list st' = <[Z.to_nat (PA2PGREF_ID L p) := 1]> (page_ref_list st)) /\
  (forall m0, exists st0 l st1,
     kinit L (boot_state L m0) = Ret tt st0 /\
     freelist_ok L st0 l /\ length l = frames_at_boot L /\
     Forall (fun p => p <> 0) l /\
     kalloc_n L (frames_at_boot L + 1) st0 = Ret (l ++ [0]) st1).
Proof.
  intros HL. split; [|split].
  - intros st st'. split.
    + intros H. destruct (Z.eq_dec (freelist st) 0) as [E|E].
      * rewrite (kalloc_empty L st E) in H. injection H as <-. auto.
      * exfalso. destruct (cnt_of L st (freelist st)) as [c|] eqn:Hc.
        -- rewrite (kalloc_exec L st c E Hc) in H. injection H as H _. contradiction.
        -- rewrite (kalloc_wild L st E Hc) in H. discriminate.
    + intros [E ->]. apply kalloc_empty. exact E.
  - intros st p l Ht Hok.
    destruct (kalloc_pop L HL st p l Ht Hok) as (st' & He & Hnz & Hok' & Ht' & Hf & Hm & Hr).
    exists st'. split; [exact He|]. split; [exact Hnz|]. split; [exact Hok'|].
    split; [|split; [|split]].
    + intros a Ha. rewrite Hm. rewrite memset_inside by exact Ha. reflexivity.
    + intros a Ha. rewrite Hm. apply memset_outside. exact Ha.
    + unfold cnt_of. rewrite Hr. apply at_index_insert_eq.
      destruct Hok as (_ & Hv & _). apply Forall_cons in Hv as [Hv _].
      apply (valid_pa_index L HL st p Ht Hv).
    + exact Hr.
  - intros m0.
    destruct (kinit_exec L HL m0) as (st0 & l & He & Hok & Hlen & Ht & _).
    destruct (kalloc_n_drains L HL l st0 Ht Hok) as (st1 & Hn & Hf & Ht1).
    exists st0, l, st1. split; [exact He|]. split; [exact Hok|].
    split; [exact Hlen|]. split.
    + destruct Hok as (_ & Hv & _). eapply Forall_impl; [exact Hv|].
      intros p Hp. pose proof (valid_pa_range L HL p Hp). lia.
    + rewrite <- Hlen. eapply kalloc_n_snoc; [exact Hn|].
      apply kalloc_empty. exact Hf.
Qed.

Lemma kalloc_spec_witness :
  (exists st0 l st1,
     kinit small_layout (boot_state small_layout zero_memory) = Ret tt st0 /\
     length l = 5%nat /\
     kalloc_n small_layout 6 st0 = Ret (l ++ [0]) st1) /\
  (exists st', kalloc small_layout (owned_state 1) = Ret 0 st') /\
  (exists st', kalloc small_layout (cow_state 2) = Ret 0x80006000 st' /\
     cnt_of small_layout st' 0x80006000 = Some 1).
Proof.
  destruct (kalloc_spec small_layout small_layout_ok) as (H1 & H2 & H3).
  split; [|split].
  - destruct (H3 zero_memory) as (st0 & l & st1 & He & _ & Hlen & _ & Hn).
    exists st0, l, st1. split; [exact He|]. split; [exact Hlen | exact Hn].
  - exists (owned_state 1). apply H1. split; reflexivity.
  - destruct (H2 (cow_state 2) 0x80006000 []) as (st' & He & _ & _ & _ & _ & Hc & _).
    + split; [reflexivity|]. cbn [page_ref_list cow_state]. unfold INT_MIN, INT_MAX.
      repeat (apply Forall_cons; split; [lia|]). apply Forall_nil. exact I.
    + split; [|split].
      * cbn [free_chain]. split; [reflexivity|]. split; [lia | reflexivity].
      * apply Forall_cons. split; [|apply Forall_nil; exact I].
        unfold valid_pa, small_layout, PGSIZE. cbn.
        repeat apply conj; first [reflexivity | lia].
      * apply NoDup_cons. split; [apply not_elem_of_nil | apply NoDup_nil; exact I].
    + exists st'. split; [exact He | exact Hc].
Defined.

Example boot_then_six_allocations :
  returned ((kinit small_layout ;; kalloc_n small_layout 6)
              (boot_state small_layout zero_memory)) =
    Some [0x80007000; 0x80006000; 0x80005000; 0x80004000; 0x80003000; 0].
Proof. vm_compute. reflexivity. Qed.

Example kfree_unaligned : kfree small_layout 0x80005008 (owned_state 1) = Panic "kfree".
Proof. reflexivity. Qed.

Example kfree_kernel_text : kfree small_layout 0x80002000 (owned_state 1) = Panic "kfree".
Proof. reflexivity. Qed.

Example kfree_at_PHYSTOP : kfree small_layout 0x80008000 (owned_state 1) = Panic "kfree".
Proof. reflexivity. Qed.

Example krefpage_unaligned :
  returned (krefpage small_layout 0x80005008 (owned_state 1)) = Some (-1).
Proof. reflexivity. Qed.

(** ** C3: a shared frame is freed by its last owner *)

Lemma times_S {S A} n (c : M S A) st r st1 rs st2 :
  c st = Ret r st1 -> times n c st1 = Ret rs st2 ->
  times (Datatypes.S n) c st = Ret (r :: rs) st2.
Proof.
  intros H1 H2. cbn [times]. unfold bind at 1. rewrite H1.
  unfold bind at 1. rewrite H2. reflexivity.
Qed.

Lemma times_S_inv {S A} n (c : M S A) st r rs st2 :
  times (Datatypes.S n) c st = Ret (r :: rs) st2 ->
  exists st1, c st = Ret r st1 /\ times n c st1 = Ret rs st2.
Proof.
  cbn [times]. unfold bind at 1.
  destruct (c st) as [r0 s0| | | |]; try discriminate.
  unfold bind at 1.
  destruct (times n c s0) as [rs0 s1| | | |] eqn:E; try discriminate.
  unfold ret. intros H. injection H as -> -> ->. exists s0. auto.
Qed.

Section sharing.
Variable L : memlayout.
Hypothesis HL : layout_ok L.

Lemma krefpage_times p k : forall st c st1,
  valid_pa L p -> table_ok L st -> cnt_of L st p = Some c ->
  times k (krefpage L p) st = Ret (replicate k 1) st1 ->
  freelist st1 = freelist st /\ mem st1 = mem st /\ table_ok L st1 /\
  cnt_of L st1 p = Some (c + Z.of_nat k).
Proof.
  induction k as [|k IH]; intros st c st1 Hv Ht Hc Hk.
  - cbn in Hk. injection Hk as <-. rewrite Z.add_0_r. auto.
  - cbn [replicate] in Hk. apply times_S_inv in Hk as (s0 & H0 & Hk).
    assert (INT_MIN <= c <= INT_MAX) as Hr.
    { destruct (valid_pa_cnt L HL st p Ht Hv) as (c' & Hc' & Hr'). congruence. }
    destruct (Z.eq_dec c INT_MAX) as [->|Hne].
    { rewrite (krefpage_overflow L p st Hv Hc) in H0. discriminate. }
    rewrite (krefpage_exec L p st c Hv Hc) in H0 by lia. injection H0 as <-.
    destruct (IH (set_cnt L st p (c + 1)) (c + 1) st1) as (Hf & Hm & Ht1 & Hc1);
      try assumption.
    + apply table_ok_set_cnt; [assumption | lia].
    + eapply cnt_of_set_cnt_eq. exact Hc.
    + repeat split; try assumption; try apply Ht1.
      rewrite Hc1. f_equal. lia.
Qed.

Lemma kfree_times p j : forall st c,
  valid_pa L p -> table_ok L st -> cnt_of L st p = Some c ->
  Z.of_nat j < c ->
  exists stj, times j (kfree L p) st = Ret (replicate j tt) stj /\
    freelist stj = freelist st /\ mem stj = mem st /\ table_ok L stj /\
    cnt_of L stj p = Some (c - Z.of_nat j).
Proof.
  induction j as [|j IH]; intros st c Hv Ht Hc Hj.
  - exists st. rewrite Z.sub_0_r. cbn. auto.
  - assert (INT_MIN <= c <= INT_MAX) as Hr.
    { destruct (valid_pa_cnt L HL st p Ht Hv) as (c' & Hc' & Hr'). congruence. }
    assert (kfree L p st = Ret tt (set_cnt L st p (c - 1))) as H0.
    { rewrite (kfree_exec L p st c Hv Hc) by (unfold INT_MIN in *; lia).
      destruct (Z.ltb_spec 0 (c - 1)); [reflexivity | lia]. }
    destruct (IH (set_cnt L st p (c - 1)) (c - 1)) as (stj & He & Hf & Hm & Htj & Hcj);
      try assumption.
    + apply table_ok_set_cnt; [assumption | unfold INT_MIN in *; lia].
    + eapply cnt_of_set_cnt_eq. exact Hc.
    + lia.
    + exists stj. split; [|repeat split; try assumption; try apply Htj].
      * cbn [replicate]. eapply times_S; eassumption.
      * rewrite Hcj. f_equal. lia.
Qed.

End sharing.

(** C3.  Let p be a frame off the free list with reference count 1, and let
    krefpage(p) return 1 k times.  Then each of the next j <= k calls of
    kfree(p) only lowers the count: the free list and memory stay as they
    were, p is not on the list.  Call k + 1 brings the count to 0 and links
    p in at the head of the free list. *)
Theorem shared_page_not_freed_early
    (L : memlayout) (st : kstate) (p : Z) (l : list Z) (k : nat) (st1 : kstate) :
  layout_ok L -> table_ok L st -> freelist_ok L st l ->
  valid_pa L p -> p ∉ l -> cnt_of L st p = Some 1 ->
  times k (krefpage L p) st = Ret (replicate k 1) st1 ->
  (forall j, (j <= k)%nat ->
     exists stj, times j (kfree L p) st1 = Ret (replicate j tt) stj /\
       freelist stj = freelist st /\ mem stj = mem st /\
       freelist_ok L stj l /\
       cnt_of L stj p = Some (1 + Z.of_nat k - Z.of_nat j)) /\
  (exists stk st',
     times k (kfree L p) st1 = Ret (replicate k tt) stk /\
     kfree L p stk = Ret tt st' /\
     pushed stk st' p /\ freelist_ok L st' (p :: l) /\
     cnt_of L st' p = Some 0).
Proof.
  intros HL Ht Hok Hv Hnin Hc Hk.
  destruct (krefpage_times L HL p k st 1 st1 Hv Ht Hc Hk) as (Hf1 & Hm1 & Ht1 & Hc1).
  assert (forall j, (j <= k)%nat ->
     exists stj, times j (kfree L p) st1 = Ret (replicate j tt) stj /\
       freelist stj = freelist st /\ mem stj = mem st /\
       freelist_ok L stj l /\ table_ok L stj /\
       cnt_of L stj p = Some (1 + Z.of_nat k - Z.of_nat j)) as Hfirst.
  { intros j Hj.
    destruct (kfree_times L HL p j st1 (1 + Z.of_nat k) Hv Ht1 Hc1) as
      (stj & He & Hf & Hm & Htj & Hcj); [lia|].
    exists stj. split; [exact He|]. split; [congruence|]. split; [congruence|].
    split; [|split; assumption].
    unfold freelist_ok in *. rewrite Hf, Hm, Hf1, Hm1. exact Hok. }
  split.
  - intros j Hj. destruct (Hfirst j Hj) as (stj & H1 & H2 & H3 & H4 & _ & H5).
    exists stj. auto.
  - destruct (Hfirst k (Nat.le_refl k)) as (stk & He & Hf & Hm & Hokk & Htk & Hck).
    replace (1 + Z.of_nat k - Z.of_nat k) with 1 in Hck by lia.
    destruct (kfree_push L HL stk p 1 l Htk Hokk Hv Hnin Hck) as
      (st' & He' & Hok' & Ht' & Hrefs & Hp); [unfold INT_MIN; lia|].
    exists stk, st'. split; [exact He|]. split; [exact He'|].
    split; [exact Hp|]. split; [exact Hok'|].
    unfold cnt_of. rewrite Hrefs.
    fold (cnt_of L (set_cnt L stk p (1 - 1)) p).
    eapply cnt_of_set_cnt_eq. exact Hck.
Qed.

Lemma small_frame_valid : valid_pa small_layout 0x80005000.
Proof.
  unfold valid_pa, small_layout, PGSIZE. cbn.
  repeat apply conj; first [reflexivity | lia].
Qed.

Lemma owned_state_freelist c : freelist_ok small_layout (owned_state c) [].
Proof.
  split; [reflexivity|]. split; [apply Forall_nil; exact I | apply NoDup_nil; exact I].
Qed.

Lemma shared_page_not_freed_early_witness :
  exists stk st',
    times 2 (kfree small_layout 0x80005000) (owned_state 3) = Ret [tt; tt] stk /\
    kfree small_layout 0x80005000 stk = Ret tt st' /\
    freelist st' = 0x80005000.
Proof.
  destruct (shared_page_not_freed_early small_layout (owned_state 1) 0x80005000 []
              2 (owned_state 3) small_layout_ok
              (owned_state_ok 1 ltac:(unfold INT_MIN, INT_MAX; lia))
              (owned_state_freelist 1) small_frame_valid
              ltac:(apply not_elem_of_nil) eq_refl eq_refl)
    as (_ & stk & st' & He & He' & Hp & _).
  exists stk, st'. split; [exact He|]. split; [exact He'|]. apply Hp.
Defined.

(** ** Page-table entries *)

Lemma u64_small x : 0 <= x < 2 ^ 64 -> u64 x = x.
Proof. intros H. unfold u64. apply Z.mod_small. exact H. Qed.

Lemma u64_land x y : 0 <= x < 2 ^ 64 -> u64 (Z.land x y) = Z.land x y.
Proof.
  intros H. unfold u64.
  rewrite <- (Z.land_ones _ 64) by lia.
  rewrite <- Z.land_assoc, (Z.land_comm y), Z.land_assoc.
  rewrite (Z.land_ones x 64) by lia. rewrite Z.mod_small by exact H. reflexivity.
Qed.

Lemma u64_lor x y : u64 (Z.lor x y) = Z.lor (u64 x) (u64 y).
Proof.
  unfold u64. rewrite <- !(Z.land_ones _ 64) by lia. apply Z.land_lor_distr_l.
Qed.

Lemma testbit_shiftl_1 n i : 0 <= n -> Z.testbit (Z.shiftl 1 n) i = (n =? i).
Proof. intros Hn. rewrite Z.shiftl_1_l. apply Z.pow2_bits_eqb. exact Hn. Qed.

(** The entry written on the fast path: bit 2 (W) set, the COW bit clear,
    every other bit kept. *)
Lemma cow_fast_bits cb e i :
  8 <= cb <= 9 -> 0 <= i ->
  Z.testbit (Z.lor (Z.land e (Z.lnot (Z.shiftl 1 cb))) PTE_W) i =
    if i =? 2 then true else if i =? cb then false else Z.testbit e i.
Proof.
  intros Hcb Hi. unfold PTE_W.
  rewrite Z.lor_spec, Z.land_spec, Z.lnot_spec by exact Hi.
  rewrite !testbit_shiftl_1 by lia.
  destruct (Z.eqb_spec i 2), (Z.eqb_spec i cb), (Z.eqb_spec 2 i), (Z.eqb_spec cb i);
    try lia; simpl; rewrite ?andb_true_r, ?andb_false_r, ?orb_false_r, ?orb_true_r;
    reflexivity.
Qed.

Lemma PTE2PA_bits e1 e2 :
  (forall i, 10 <= i -> Z.testbit e1 i = Z.testbit e2 i) -> PTE2PA e1 = PTE2PA e2.
Proof.
  intros H. unfold PTE2PA. f_equal. f_equal. apply Z.bits_inj'. intros i Hi.
  rewrite !Z.shiftr_spec by exact Hi. apply H. lia.
Qed.

Lemma PTE2PA_aligned e : PTE2PA e mod PGSIZE = 0.
Proof.
  unfold PTE2PA, u64, PGSIZE. rewrite Z.shiftl_mul_pow2 by lia.
  change (2 ^ 64) with (4096 * 2 ^ 52). change (2 ^ 12) with 4096.
  rewrite Z.rem_mul_r by lia. rewrite Z.mod_mul by lia.
  rewrite Z.add_0_l, Z.mul_comm. apply Z.mod_mul. lia.
Qed.

Lemma land_clear_V e : Z.land (Z.land e (Z.lnot PTE_V)) PTE_V = 0.
Proof.
  rewrite <- Z.land_assoc, (Z.land_comm (Z.lnot PTE_V)), Z.land_lnot_diag.
  apply Z.land_0_r.
Qed.

(** ** C4: copy-on-write, the frame has one owner *)

Section cow_fast.
Variable L : memlayout.
Variable walk : Z -> Z -> Z -> K Z.
Variable mappages : Z -> Z -> Z -> Z -> Z -> K Z.

(** C4.  Let walk find the entry at [pte] for the page of [va], mapping a
    frame whose reference count is 1.  Then cow_copy returns the physical
    address the entry maps; the free list and the reference table are
    unchanged and memory is unchanged outside the entry (nothing is
    allocated or copied); the entry is the old one with the COW bit
    cleared and the W bit set, and it maps the same frame. *)
Theorem cow_copy_fast_path (pagetable va pte : Z) (st : kstate) :
  8 <= cow_bit L <= 9 ->
  walk pagetable (PGROUNDDOWN va) 0 st = Ret pte st -> pte <> 0 ->
  cnt_of L st (PTE2PA (load64 (mem st) pte)) = Some 1 ->
  exists st',
    cow_copy L walk mappages pagetable va st =
      Ret (PTE2PA (load64 (mem st) pte)) st' /\
    freelist st' = freelist st /\
    page_ref_list st' = page_ref_list st /\
    (forall a, a < pte \/ pte + 8 <= a -> mem st' a = mem st a) /\
    load64 (mem st') pte =
      Z.lor (Z.land (load64 (mem st) pte) (Z.lnot (PTE_COW L))) PTE_W /\
    Z.land (load64 (mem st') pte) (PTE_COW L) = 0 /\
    Z.land (load64 (mem st') pte) PTE_W = PTE_W /\
    PTE2PA (load64 (mem st') pte) = PTE2PA (load64 (mem st) pte) /\
    (forall i, 0 <= i -> i <> 2 -> i <> cow_bit L ->
       Z.testbit (load64 (mem st') pte) i = Z.testbit (load64 (mem st) pte) i).
Proof.
  intros Hcb Hwalk Hpte Hcnt.
  pose proof (load64_range (mem st) pte) as He.
  set (e := load64 (mem st) pte) in *.
  set (e1 := Z.land e (Z.lnot (PTE_COW L))).
  assert (load64 (store64 (mem st) pte e1) pte = e1) as Hl1.
  { rewrite load64_store64. apply u64_land. exact He. }
  assert (0 <= e1 < 2 ^ 64) as He1.
  { rewrite <- Hl1. apply load64_range. }
  set (e2 := Z.lor e1 PTE_W).
  assert (load64 (store64 (store64 (mem st) pte e1) pte e2) pte = e2) as Hl2.
  { rewrite load64_store64. unfold e2. rewrite u64_lor.
    rewrite (u64_small e1) by exact He1. reflexivity. }
  exists {| freelist := freelist st; page_ref_list := page_ref_list st;
            mem := store64 (store64 (mem st) pte e1) pte e2 |}.
  assert (forall i, 0 <= i ->
            Z.testbit e2 i =
              if i =? 2 then true else if i =? cow_bit L then false
              else Z.testbit e i) as Hbits.
  { intros i Hi. apply cow_fast_bits; assumption. }
  split.
  { unfold cow_copy. unfold bind at 1. rewrite Hwalk. kunfold.
    destruct (Z.eqb_spec pte 0) as [|_]; [contradiction|]. kunfold.
    fold e. unfold cnt_of in Hcnt. rewrite Hcnt. cbn [Z.eqb Pos.eqb]. kunfold.
    destruct (Z.eqb_spec pte 0) as [|_]; [contradiction|]. kunfold.
    fold e. fold e1. rewrite Hl1. fold e2. reflexivity. }
  cbn [freelist page_ref_list mem]. rewrite Hl2.
  split; [reflexivity|]. split; [reflexivity|]. split.
  { intros a Ha. rewrite !store64_outside by exact Ha. reflexivity. }
  split; [reflexivity|]. split; [|split; [|split]].
  - apply Z.bits_inj'. intros i Hi. rewrite Z.land_spec, Z.bits_0.
    unfold PTE_COW. rewrite testbit_shiftl_1 by lia. rewrite Hbits by exact Hi.
    destruct (Z.eqb_spec (cow_bit L) i) as [<-|Hne]; [|apply andb_false_r].
    destruct (Z.eqb_spec (cow_bit L) 2); [lia|].
    rewrite Z.eqb_refl. reflexivity.
  - apply Z.bits_inj'. intros i Hi. rewrite Z.land_spec.
    unfold PTE_W. rewrite testbit_shiftl_1 by lia. rewrite Hbits by exact Hi.
    destruct (Z.eqb_spec 2 i) as [<-|Hne]; [reflexivity | apply andb_false_r].
  - apply PTE2PA_bits. intros i Hi. rewrite Hbits by lia.
    destruct (Z.eqb_spec i 2); [lia|]. destruct (Z.eqb_spec i (cow_bit L)); [lia|].
    reflexivity.
  - intros i Hi H2 Hc. rewrite Hbits by exact Hi.
    destruct (Z.eqb_spec i 2); [lia|]. destruct (Z.eqb_spec i (cow_bit L)); [lia|].
    reflexivity.
Qed.

End cow_fast.

Lemma cow_copy_fast_path_witness :
  exists st',
    cow_copy small_layout flat_walk flat_mappages 0x80001000 0x3000 (cow_state 1) =
      Ret 0x80005000 st' /\
    freelist st' = 0x80006000 /\
    load64 (mem st') 0x80001018 = Z.lor (PA2PTE 0x80005000) (1 + 2 + 4 + 16).
Proof.
  destruct (cow_copy_fast_path small_layout flat_walk flat_mappages
              0x80001000 0x3000 0x80001018 (cow_state 1))
    as (st' & He & Hf & _ & _ & Hl & _).
  - cbn. lia.
  - reflexivity.
  - lia.
  - reflexivity.
  - exists st'. split; [exact He|]. split; [exact Hf|]. rewrite Hl. reflexivity.
Defined.

(** ** C5: copy-on-write, the frame is shared *)

Section cow_slow.
Variable L : memlayout.
Variable walk : Z -> Z -> Z -> K Z.
Variable mappages : Z -> Z -> Z -> Z -> Z -> K Z.
Hypothesis HL : layout_ok L.

(** The state in which cow_copy calls mappages: a frame [np] was taken
    from the free list and holds a copy of [pa]; the entry is invalid. *)
Lemma cow_copy_prepare (pagetable va pte np : Z) (l : list Z) (st : kstate) (c : Z)
    (k : Z -> K Z) :
  table_ok L st ->
  walk pagetable (PGROUNDDOWN va) 0 st = Ret pte st -> pte <> 0 ->
  valid_pa L (PTE2PA (load64 (mem st) pte)) ->
  cnt_of L st (PTE2PA (load64 (mem st) pte)) = Some c -> c <> 1 ->
  freelist_ok L st (np :: l) -> PTE2PA (load64 (mem st) pte) <> np ->
  Forall (fun q => pte + 8 <= q \/ q + PGSIZE <= pte) (np :: l) ->
  exists s3,
    (forall rc s4, mappages pagetable (PGROUNDDOWN va) PGSIZE np
                     (Z.land (Z.lor (PTE_FLAGS (load64 (mem s3) pte)) PTE_W)
                             (Z.lnot (PTE_COW L))) s3 = Ret rc s4 ->
       cow_copy L walk mappages pagetable va st =
         (if negb (rc =? 0) then kfree L np ;; ret 0
          else kfree L (PTE2PA (load64 (mem st) pte)) ;; ret np) s4) /\
    freelist s3 = load64 (mem st) np /\
    page_ref_list s3 = <[Z.to_nat (PA2PGREF_ID L np) := 1]> (page_ref_list st) /\
    table_ok L s3 /\
    load64 (mem s3) pte = Z.land (load64 (mem st) pte) (Z.lnot PTE_V) /\
    (forall i, 0 <= i < PGSIZE ->
       mem s3 (np + i) = mem st (PTE2PA (load64 (mem st) pte) + i)) /\
    (forall a, (a < np \/ np + PGSIZE <= a) -> (a < pte \/ pte + 8 <= a) ->
       mem s3 a = mem st a).
Proof.
  intros Ht Hwalk Hpte Hvpa Hcnt Hc1 Hok Hne Hslot.
  set (e := load64 (mem st) pte) in *. set (pa := PTE2PA e) in *.
  pose proof (load64_range (mem st) pte) as He. fold e in He.
  destruct (kalloc_pop L HL st np l Ht Hok) as (s1 & Hk & Hnp & Hok1 & Ht1 & Hf1 & Hm1 & Hr1).
  pose proof Hok as (_ & Hv & _). apply Forall_cons in Hv as [Hvnp _].
  apply Forall_cons in Hslot as [Hsnp _].
  pose proof (aligned_apart pa np (proj1 Hvpa) (proj1 Hvnp) Hne) as Hapart.
  set (m2 := memmove (mem s1) np pa PGSIZE).
  assert (load64 m2 pte = e) as He3.
  { unfold e. apply load64_ext. intros x Hx. unfold m2.
    rewrite memmove_outside by (unfold PGSIZE in *; lia).
    rewrite Hm1. apply memset_outside. unfold PGSIZE in *. lia. }
  set (m3 := store64 m2 pte (Z.land e (Z.lnot PTE_V))).
  assert (load64 m3 pte = Z.land e (Z.lnot PTE_V)) as He4.
  { unfold m3. rewrite load64_store64. apply u64_land. exact He. }
  exists {| freelist := freelist s1; page_ref_list := page_ref_list s1; mem := m3 |}.
  cbn [freelist page_ref_list mem].
  split; [|split; [exact Hf1 | split; [exact Hr1 | split; [exact Ht1 | split; [exact He4|split]]]]].
  - intros rc s4 Hmap. unfold cow_copy. unfold bind at 1. rewrite Hwalk. kunfold.
    destruct (Z.eqb_spec pte 0) as [|_]; [contradiction|]. kunfold.
    fold e. fold pa. unfold cnt_of in Hcnt. rewrite Hcnt.
    destruct (Z.eqb_spec c 1) as [|_]; [contradiction|].
    rewrite Hk. destruct (Z.eqb_spec np 0) as [|_]; [contradiction|]. kunfold.
    destruct (Z.eqb_spec pte 0) as [|_]; [contradiction|]. kunfold.
    fold m2. rewrite He3. fold m3. rewrite He4. rewrite He4 in Hmap.
    rewrite Hmap.
    rewrite (PGROUNDDOWN_aligned pa) by apply Hvpa. reflexivity.
  - intros i Hi. unfold m3. rewrite store64_outside by (unfold PGSIZE in *; lia).
    unfold m2. rewrite memmove_inside by lia.
    replace (pa + (np + i - np)) with (pa + i) by lia.
    rewrite Hm1. apply memset_outside. unfold PGSIZE in *. lia.
  - intros a Ha1 Ha2. unfold m3. rewrite store64_outside by exact Ha2.
    unfold m2. rewrite memmove_outside by exact Ha1.
    rewrite Hm1. apply memset_outside. exact Ha1.
Qed.

End cow_slow.

(** C5.  Let walk find the entry at [pte], mapping a frame pa that kfree
    accepts and whose reference count is 2.  If the free list is empty,
    cow_copy returns 0 and the state is unchanged.  Otherwise let np be the
    head of a well-formed free list that does not hold pa, let the entry lie
    in no free frame, and let mappages, called on an invalid entry, return 0
    and change nothing but that entry.  Then cow_copy returns np, np differs
    from pa, the 4096 bytes at np are those found at pa when the call
    started, the count of pa is 1, and the free list is what it was without
    np: pa is not on it. *)
Theorem cow_copy_slow_path
    (L : memlayout) (walk : Z -> Z -> Z -> K Z)
    (mappages : Z -> Z -> Z -> Z -> Z -> K Z)
    (pagetable va pte : Z) (st : kstate) :
  layout_ok L -> table_ok L st ->
  walk pagetable (PGROUNDDOWN va) 0 st = Ret pte st -> pte <> 0 ->
  valid_pa L (PTE2PA (load64 (mem st) pte)) ->
  cnt_of L st (PTE2PA (load64 (mem st) pte)) = Some 2 ->
  (freelist st = 0 -> cow_copy L walk mappages pagetable va st = Ret 0 st) /\
  (forall np l,
     freelist_ok L st (np :: l) ->
     PTE2PA (load64 (mem st) pte) ∉ np :: l ->
     Forall (fun q => pte + 8 <= q \/ q + PGSIZE <= pte) (np :: l) ->
     (forall s flag, Z.land (load64 (mem s) pte) PTE_V = 0 ->
        exists s', mappages pagetable (PGROUNDDOWN va) PGSIZE np flag s = Ret 0 s' /\
          page_ref_list s' = page_ref_list s /\ freelist s' = freelist s /\
          forall a, a < pte \/ pte + 8 <= a -> mem s' a = mem s a) ->
     exists st',
       cow_copy L walk mappages pagetable va st = Ret np st' /\
       np <> PTE2PA (load64 (mem st) pte) /\ np <> 0 /\
       (forall i, 0 <= i < PGSIZE ->
          mem st' (np + i) = mem st (PTE2PA (load64 (mem st) pte) + i)) /\
       cnt_of L st' (PTE2PA (load64 (mem st) pte)) = Some 1 /\
       cnt_of L st' np = Some 1 /\
       freelist_ok L st' l /\
       PTE2PA (load64 (mem st) pte) ∉ l).
Proof.
  intros HL Ht Hwalk Hpte Hvpa Hcnt. split.
  - intros Hempty. unfold cow_copy. unfold bind at 1. rewrite Hwalk. kunfold.
    destruct (Z.eqb_spec pte 0) as [|_]; [contradiction|]. kunfold.
    unfold cnt_of in Hcnt. rewrite Hcnt. cbn [Z.eqb Pos.eqb].
    rewrite (kalloc_empty L st Hempty). reflexivity.
  - intros np l Hok Hnin Hslot Hmap.
    set (pa := PTE2PA (load64 (mem st) pte)) in *.
    assert (pa <> np) as Hne by (intros E; apply Hnin, elem_of_cons; left; exact E).
    assert (pa ∉ l) as Hnin' by (intros E; apply Hnin, elem_of_cons; right; exact E).
    destruct (cow_copy_prepare L walk mappages HL pagetable va pte np l st 2
                (fun _ => ret 0) Ht Hwalk Hpte Hvpa Hcnt ltac:(lia) Hok Hne Hslot)
      as (s3 & Hrun & Hf3 & Hr3 & Ht3 & He3 & Hcopy & Hrest).
    destruct (Hmap s3 (Z.land (Z.lor (PTE_FLAGS (load64 (mem s3) pte)) PTE_W)
                              (Z.lnot (PTE_COW L))))
      as (s4 & Hm & Hr4 & Hf4 & Hm4).
    { rewrite He3. apply land_clear_V. }
    pose proof Hok as (Hch & Hv & Hnd). simpl in Hch. destruct Hch as (Hhd & Hnz & Hch).
    apply Forall_cons in Hv as [Hvnp Hv]. apply NoDup_cons in Hnd as [Hnpl Hnd].
    pose proof Hslot as Hslot'. apply Forall_cons in Hslot' as [Hsnp Hsl].
    pose proof (valid_pa_index L HL st np Ht Hvnp) as Hinp.
    assert (PA2PGREF_ID L np <> PA2PGREF_ID L pa) as Hidx.
    { intros E. apply Hne. symmetry. apply (valid_pa_index_inj L HL np pa Hvnp Hvpa E). }
    assert (cnt_of L s4 pa = Some 2) as Hc4.
    { unfold cnt_of. rewrite Hr4, Hr3. rewrite at_index_insert_ne by lia. exact Hcnt. }
    assert (kfree L pa s4 = Ret tt (set_cnt L s4 pa (2 - 1))) as Hk.
    { rewrite (kfree_exec L pa s4 2 Hvpa Hc4) by (unfold INT_MIN, INT_MAX; lia).
      reflexivity. }
    exists (set_cnt L s4 pa (2 - 1)). split.
    { rewrite (Hrun 0 s4 Hm). cbn [Z.eqb negb]. unfold bind. fold pa.
      rewrite Hk. reflexivity. }
    split; [congruence|]. split; [exact Hnz|]. split; [|split; [|split; [|split]]].
    + intros i Hi. unfold set_cnt. cbn [mem].
      rewrite Hm4 by (unfold PGSIZE in *; lia). apply Hcopy. exact Hi.
    + eapply cnt_of_set_cnt_eq. exact Hc4.
    + rewrite (cnt_of_set_cnt_ne L s4 pa np (2 - 1) 2 Hc4) by congruence.
      unfold cnt_of. rewrite Hr4, Hr3. apply at_index_insert_eq. exact Hinp.
    + split; [|split; assumption]. unfold set_cnt. cbn [mem freelist].
      rewrite Hf4, Hf3. eapply free_chain_ext; [|exact Hch].
      intros q Hq. apply load64_ext. intros x Hx.
      rewrite Forall_forall in Hv, Hsl.
      destruct (Hv q Hq) as (Hqa & _). specialize (Hsl q Hq).
      assert (np <> q) as Hnq by (intros ->; contradiction).
      pose proof (aligned_apart np q (proj1 Hvnp) Hqa Hnq) as Hap.
      rewrite Hm4 by (unfold PGSIZE in *; lia).
      symmetry. apply Hrest; unfold PGSIZE in *; lia.
    + exact Hnin'.
Qed.

Lemma cow_state_ok c : INT_MIN <= c <= INT_MAX -> table_ok small_layout (cow_state c).
Proof.
  intros Hc. split; [reflexivity|].
  unfold cow_state, INT_MIN, INT_MAX in *. cbn [page_ref_list].
  repeat (apply Forall_cons; split; [lia|]). apply Forall_nil. exact I.
Qed.

Lemma cow_state_maps c :
  PTE2PA (load64 (mem (cow_state c)) 0x80001018) = 0x80005000.
Proof. reflexivity. Qed.

Lemma cow_state_freelist c : freelist_ok small_layout (cow_state c) [0x80006000].
Proof.
  split; [|split].
  - cbn [free_chain]. split; [reflexivity|]. split; [lia | reflexivity].
  - apply Forall_cons. split; [|apply Forall_nil; exact I].
    unfold valid_pa, small_layout, PGSIZE. cbn.
    repeat apply conj; first [reflexivity | lia].
  - apply NoDup_cons. split; [apply not_elem_of_nil | apply NoDup_nil; exact I].
Qed.

(** flat_mappages does what xv6's mappages does for one page whose entry is
    invalid: it returns 0 and writes the entry only. *)
Lemma flat_mappages_maps np s flag :
  Z.land (load64 (mem s) 0x80001018) PTE_V = 0 ->
  exists s', flat_mappages 0x80001000 (PGROUNDDOWN 0x3000) PGSIZE np flag s = Ret 0 s' /\
    page_ref_list s' = page_ref_list s /\ freelist s' = freelist s /\
    forall a, a < 0x80001018 \/ 0x80001018 + 8 <= a -> mem s' a = mem s a.
Proof.
  intros HV. unfold flat_mappages, flat_walk.
  change (0x80001000 + 8 * ((PGROUNDDOWN 0x3000 / PGSIZE) mod 512)) with 0x80001018.
  kunfold. cbn [Z.eqb]. kunfold. rewrite HV. cbn [Z.eqb negb]. kunfold.
  eexists. split; [reflexivity|]. cbn [freelist page_ref_list mem].
  split; [reflexivity|]. split; [reflexivity|].
  intros a Ha. apply store64_outside. lia.
Qed.

Lemma cow_state_full_ok c :
  INT_MIN <= c <= INT_MAX -> table_ok small_layout (cow_state_full c).
Proof.
  intros Hc. split; [reflexivity|].
  unfold cow_state_full, INT_MIN, INT_MAX in *. cbn [page_ref_list].
  repeat (apply Forall_cons; split; [lia|]). apply Forall_nil. exact I.
Qed.

Lemma cow_copy_slow_path_witness :
  (exists st',
     cow_copy small_layout flat_walk flat_mappages 0x80001000 0x3000 (cow_state 2) =
       Ret 0x80006000 st' /\
     cnt_of small_layout st' 0x80005000 = Some 1 /\
     freelist st' = 0) /\
  cow_copy small_layout flat_walk flat_mappages 0x80001000 0x3000 (cow_state_full 2) =
    Ret 0 (cow_state_full 2).
Proof.
  split.
  - destruct (cow_copy_slow_path small_layout flat_walk flat_mappages
                0x80001000 0x3000 0x80001018 (cow_state 2) small_layout_ok
                (cow_state_ok 2 ltac:(unfold INT_MIN, INT_MAX; lia))
                eq_refl ltac:(lia))
      as [_ H].
    + rewrite cow_state_maps. exact small_frame_valid.
    + reflexivity.
    + destruct (H 0x80006000 [] (cow_state_freelist 2))
        as (st' & He & _ & _ & _ & Hc & _ & Hok & _).
      * rewrite cow_state_maps. intros Hin. apply elem_of_cons in Hin as [Hin|Hin].
        -- discriminate Hin.
        -- apply elem_of_nil in Hin. exact Hin.
      * apply Forall_cons. split; [left; unfold PGSIZE; lia | apply Forall_nil; exact I].
      * intros s flag. apply flat_mappages_maps.
      * exists st'. split; [exact He|]. split; [exact Hc|]. apply Hok.
  - destruct (cow_copy_slow_path small_layout flat_walk flat_mappages
                0x80001000 0x3000 0x80001018 (cow_state_full 2) small_layout_ok
                (cow_state_full_ok 2 ltac:(unfold INT_MIN, INT_MAX; lia))
                eq_refl ltac:(lia))
      as [H _].
    + change (PTE2PA (load64 (mem (cow_state_full 2)) 0x80001018)) with 0x80005000.
      exact small_frame_valid.
    + reflexivity.
    + apply H. reflexivity.
Defined.

(** ** C9: cow_copy when mappages fails *)

(** C9.  Let walk find the entry at [pte], mapping a frame pa that kfree
    accepts and whose count is not 1; let np be the head of a well-formed
    free list without pa, the entry lying in no free frame; and let
    mappages return a non-zero value, leaving the table, the free list and
    memory as they are.  Then cow_copy returns 0; np is back at the head of
    the free list with count 0; the count of pa is unchanged; and the entry
    is the old one with the valid bit cleared: if the page was mapped, the
    entry differs from the one found at the call. *)
Theorem cow_copy_mappages_failure
    (L : memlayout) (walk : Z -> Z -> Z -> K Z)
    (mappages : Z -> Z -> Z -> Z -> Z -> K Z)
    (pagetable va pte np : Z) (l : list Z) (st : kstate) (c : Z) :
  layout_ok L -> table_ok L st ->
  walk pagetable (PGROUNDDOWN va) 0 st = Ret pte st -> pte <> 0 ->
  valid_pa L (PTE2PA (load64 (mem st) pte)) ->
  cnt_of L st (PTE2PA (load64 (mem st) pte)) = Some c -> c <> 1 ->
  freelist_ok L st (np :: l) ->
  PTE2PA (load64 (mem st) pte) ∉ np :: l ->
  Forall (fun q => pte + 8 <= q \/ q + PGSIZE <= pte) (np :: l) ->
  (forall s flag,
     exists rc s', mappages pagetable (PGROUNDDOWN va) PGSIZE np flag s = Ret rc s' /\
       rc <> 0 /\ page_ref_list s' = page_ref_list s /\ freelist s' = freelist s /\
       forall a, mem s' a = mem s a) ->
  exists st',
    cow_copy L walk mappages pagetable va st = Ret 0 st' /\
    freelist_ok L st' (np :: l) /\
    cnt_of L st' np = Some 0 /\
    cnt_of L st' (PTE2PA (load64 (mem st) pte)) = Some c /\
    load64 (mem st') pte = Z.land (load64 (mem st) pte) (Z.lnot PTE_V) /\
    Z.land (load64 (mem st') pte) PTE_V = 0 /\
    (Z.land (load64 (mem st) pte) PTE_V <> 0 ->
     load64 (mem st') pte <> load64 (mem st) pte).
Proof.
  intros HL Ht Hwalk Hpte Hvpa Hcnt Hc1 Hok Hnin Hslot Hmap.
  set (pa := PTE2PA (load64 (mem st) pte)) in *.
  assert (pa <> np) as Hne by (intros E; apply Hnin, elem_of_cons; left; exact E).
  destruct (cow_copy_prepare L walk mappages HL pagetable va pte np l st c
              (fun _ => ret 0) Ht Hwalk Hpte Hvpa Hcnt Hc1 Hok Hne Hslot)
    as (s3 & Hrun & Hf3 & Hr3 & Ht3 & He3 & Hcopy & Hrest).
  destruct (Hmap s3 (Z.land (Z.lor (PTE_FLAGS (load64 (mem s3) pte)) PTE_W)
                            (Z.lnot (PTE_COW L))))
    as (rc & s4 & Hm & Hrc & Hr4 & Hf4 & Hm4).
  pose proof Hok as (Hch & Hv & Hnd). simpl in Hch. destruct Hch as (Hhd & Hnz & Hch).
  apply Forall_cons in Hv as [Hvnp Hv]. apply NoDup_cons in Hnd as [Hnpl Hnd].
  pose proof Hslot as Hslot'. apply Forall_cons in Hslot' as [Hsnp Hsl].
  pose proof (valid_pa_index L HL st np Ht Hvnp) as Hinp.
  assert (PA2PGREF_ID L np <> PA2PGREF_ID L pa) as Hidx.
  { intros E. apply Hne. symmetry. apply (valid_pa_index_inj L HL np pa Hvnp Hvpa E). }
  assert (table_ok L s4) as Ht4.
  { unfold table_ok. rewrite Hr4. exact Ht3. }
  assert (freelist_ok L s4 l) as Hok4.
  { split; [|split; assumption]. rewrite Hf4, Hf3.
    eapply free_chain_ext; [|exact Hch].
    intros q Hq. apply load64_ext. intros x Hx.
    rewrite Forall_forall in Hv, Hsl.
    destruct (Hv q Hq) as (Hqa & _). specialize (Hsl q Hq).
    assert (np <> q) as Hnq by (intros ->; contradiction).
    pose proof (aligned_apart np q (proj1 Hvnp) Hqa Hnq) as Hap.
    rewrite Hm4. symmetry. apply Hrest; unfold PGSIZE in *; lia. }
  assert (cnt_of L s4 np = Some 1) as Hc4.
  { unfold cnt_of. rewrite Hr4, Hr3. apply at_index_insert_eq. exact Hinp. }
  destruct (kfree_push L HL s4 np 1 l Ht4 Hok4 Hvnp Hnpl Hc4) as
    (st' & Hk & Hok' & Ht' & Hr' & Hp); [unfold INT_MIN; lia|].
  assert (load64 (mem st') pte = Z.land (load64 (mem st) pte) (Z.lnot PTE_V)) as Hent.
  { rewrite <- He3. apply load64_ext. intros x Hx.
    destruct Hp as (_ & _ & _ & _ & _ & Hout).
    rewrite Hout by (unfold PGSIZE in *; lia). apply Hm4. }
  exists st'. split.
  { rewrite (Hrun rc s4 Hm). destruct (Z.eqb_spec rc 0) as [|_]; [contradiction|].
    cbn [negb]. unfold bind. rewrite Hk. reflexivity. }
  split; [exact Hok'|]. split; [|split; [|split; [exact Hent|split]]].
  - unfold cnt_of. rewrite Hr'. fold (cnt_of L (set_cnt L s4 np (1 - 1)) np).
    eapply cnt_of_set_cnt_eq. exact Hc4.
  - unfold cnt_of. rewrite Hr'. fold (cnt_of L (set_cnt L s4 np (1 - 1)) pa).
    rewrite (cnt_of_set_cnt_ne L s4 np pa (1 - 1) 1 Hc4 Hidx).
    unfold cnt_of. rewrite Hr4, Hr3. rewrite at_index_insert_ne by lia. exact Hcnt.
  - rewrite Hent. apply land_clear_V.
  - intros HV E. apply HV. rewrite <- E, Hent. apply land_clear_V.
Qed.

Lemma cow_copy_mappages_failure_witness :
  exists st',
    cow_copy small_layout flat_walk failing_mappages 0x80001000 0x3000 (cow_state 2) =
      Ret 0 st' /\
    freelist st' = 0x80006000 /\
    load64 (mem st') 0x80001018 = Z.lor (PA2PTE 0x80005000) (2 + 16 + 256).
Proof.
  destruct (cow_copy_mappages_failure small_layout flat_walk failing_mappages
              0x80001000 0x3000 0x80001018 0x80006000 [] (cow_state 2) 2
              small_layout_ok
              (cow_state_ok 2 ltac:(unfold INT_MIN, INT_MAX; lia))
              eq_refl ltac:(lia))
    as (st' & He & Hok & _ & _ & Hent & _).
  - rewrite cow_state_maps. exact small_frame_valid.
  - reflexivity.
  - lia.
  - apply cow_state_freelist.
  - rewrite cow_state_maps. intros Hin. apply elem_of_cons in Hin as [Hin|Hin].
    + discriminate Hin.
    + apply elem_of_nil in Hin. exact Hin.
  - apply Forall_cons. split; [left; unfold PGSIZE; lia | apply Forall_nil; exact I].
  - intros s flag. exists (-1), s. unfold failing_mappages, ret.
    split; [reflexivity|]. split; [lia|]. auto.
  - exists st'. split; [exact He|]. split; [apply Hok|]. rewrite Hent. reflexivity.
Defined.

(** ** C6: reference counts are not negative *)

Ltac kunfold_in H :=
  repeat (progress (
    cbv beta iota delta [bind ret gets modify panic fault ref_add ref_set
                         ref_get set_mem set_freelist pte_read pte_write] in H;
    cbn [freelist page_ref_list mem] in H)).

Lemma int_result_inv x y : int_result x = Some y -> y = x /\ INT_MIN <= x <= INT_MAX.
Proof.
  unfold int_result.
  destruct (Z.leb_spec INT_MIN x), (Z.leb_spec x INT_MAX); simpl; intros E;
    try discriminate. injection E as <-. lia.
Qed.

Lemma kfree_Ret_inv L pa st v st' :
  kfree L pa st = Ret v st' ->
  exists c, cnt_of L st pa = Some c /\
    page_ref_list st' = <[Z.to_nat (PA2PGREF_ID L pa) := c - 1]> (page_ref_list st).
Proof.
  intros H. unfold kfree in H.
  destruct (negb (pa mod PGSIZE =? 0) || (pa <? kend L) || (PHYSTOP L <=? pa));
    [discriminate|].
  kunfold_in H. unfold cnt_of.
  destruct (at_index (page_ref_list st) (PA2PGREF_ID L pa)) as [c|] eqn:Hc;
    [|discriminate].
  exists c. split; [reflexivity|].
  destruct (int_result (c + -1)) as [c'|] eqn:E; [|discriminate].
  apply int_result_inv in E as [-> _]. kunfold_in H. rewrite Hc in H.
  apply at_index_Some in Hc as [Hi _]. kunfold_in H.
  rewrite at_index_insert_eq in H by exact Hi. kunfold_in H.
  replace (c + -1) with (c - 1) in H by lia.
  destruct (0 <? c - 1); injection H as _ <-; reflexivity.
Qed.

Lemma kalloc_Ret_inv L st r st' :
  kalloc L st = Ret r st' ->
  (r = 0 /\ st' = st) \/
  (r <> 0 /\ 0 <= PA2PGREF_ID L r < Z.of_nat (length (page_ref_list st)) /\
   page_ref_list st' = <[Z.to_nat (PA2PGREF_ID L r) := 1]> (page_ref_list st)).
Proof.
  intros H. destruct (Z.eq_dec (freelist st) 0) as [E|E].
  - rewrite (kalloc_empty L st E) in H. injection H as <- <-. left. auto.
  - destruct (cnt_of L st (freelist st)) as [c|] eqn:Hc.
    + rewrite (kalloc_exec L st c E Hc) in H. injection H as <- <-. right.
      split; [exact E|]. split; [|reflexivity].
      apply at_index_Some in Hc as [Hi _]. exact Hi.
    + rewrite (kalloc_wild L st E Hc) in H. discriminate.
Qed.

Lemma krefpage_Ret_inv L pa st r st' :
  krefpage L pa st = Ret r st' ->
  st' = st \/
  exists c, cnt_of L st pa = Some c /\
    page_ref_list st' = <[Z.to_nat (PA2PGREF_ID L pa) := c + 1]> (page_ref_list st).
Proof.
  intros H. unfold krefpage in H.
  destruct (negb (pa mod PGSIZE =? 0) || (pa <? kend L) || (PHYSTOP L <=? pa)).
  { injection H as _ <-. left. reflexivity. }
  right. kunfold_in H. unfold cnt_of.
  destruct (at_index (page_ref_list st) (PA2PGREF_ID L pa)) as [c|] eqn:Hc;
    [|discriminate].
  exists c. split; [reflexivity|].
  destruct (int_result (c + 1)) as [c'|] eqn:E; [|discriminate].
  apply int_result_inv in E as [-> _]. kunfold_in H. rewrite Hc in H.
  kunfold_in H. injection H as _ <-. reflexivity.
Qed.

Section nonnegative.
Variable L : memlayout.
Variable walk : Z -> Z -> Z -> K Z.
Variable mappages : Z -> Z -> Z -> Z -> Z -> K Z.
Hypothesis walk_table : forall pagetable va alloc s r s',
  walk pagetable va alloc s = Ret r s' -> page_ref_list s' = page_ref_list s.
Hypothesis mappages_table : forall pagetable va sz pa perm s r s',
  mappages pagetable va sz pa perm s = Ret r s' -> page_ref_list s' = page_ref_list s.

Lemma nonneg_at st id c : nonneg st -> at_index (page_ref_list st) id = Some c -> 0 <= c.
Proof.
  intros Hn Hc. apply at_index_Some in Hc as [_ Hc].
  unfold nonneg in Hn. rewrite Forall_forall in Hn. apply Hn.
  eapply list_elem_of_lookup_2. exact Hc.
Qed.

Lemma kfree_nonneg pa st v st' :
  nonneg st -> owned L st pa -> kfree L pa st = Ret v st' -> nonneg st'.
Proof.
  intros Hn (c & Hc & Hge) H.
  apply kfree_Ret_inv in H as (c' & Hc' & Hr).
  rewrite Hc in Hc'. injection Hc' as <-.
  unfold nonneg. rewrite Hr. apply Forall_insert; [exact Hn | lia].
Qed.

Lemma kalloc_nonneg st r st' : nonneg st -> kalloc L st = Ret r st' -> nonneg st'.
Proof.
  intros Hn H. apply kalloc_Ret_inv in H as [[_ ->]|(_ & _ & Hr)]; [exact Hn|].
  unfold nonneg. rewrite Hr. apply Forall_insert; [exact Hn | lia].
Qed.

Lemma krefpage_nonneg pa st r st' :
  nonneg st -> krefpage L pa st = Ret r st' -> nonneg st'.
Proof.
  intros Hn H. apply krefpage_Ret_inv in H as [->|(c & Hc & Hr)]; [exact Hn|].
  unfold nonneg. rewrite Hr. apply Forall_insert; [exact Hn|].
  pose proof (nonneg_at st _ c Hn Hc). lia.
Qed.

Lemma cow_copy_nonneg pagetable va st r st' :
  nonneg st ->
  (forall pte s1, walk pagetable (PGROUNDDOWN va) 0 st = Ret pte s1 ->
     owned L s1 (PTE2PA (load64 (mem s1) pte))) ->
  cow_copy L walk mappages pagetable va st = Ret r st' -> nonneg st'.
Proof.
  intros Hn Hown H. unfold cow_copy in H. unfold bind at 1 in H.
  destruct (walk pagetable (PGROUNDDOWN va) 0 st) as [pte s1| | | |] eqn:Hw;
    try discriminate.
  specialize (Hown pte s1 eq_refl). destruct Hown as (c & Hc & Hge).
  assert (nonneg s1) as Hn1.
  { unfold nonneg. rewrite (walk_table _ _ _ _ _ _ Hw). exact Hn. }
  kunfold_in H. destruct (pte =? 0); [discriminate|]. kunfold_in H.
  set (pa := PTE2PA (load64 (mem s1) pte)) in *.
  unfold cnt_of in Hc. rewrite Hc in H.
  destruct (c =? 1).
  { kunfold_in H. injection H as _ <-. exact Hn1. }
  destruct (kalloc L s1) as [np s2| | | |] eqn:Hk; try discriminate.
  pose proof (kalloc_nonneg s1 np s2 Hn1 Hk) as Hn2.
  destruct (Z.eqb_spec np 0) as [|Hnp].
  { kunfold_in H. injection H as _ <-. exact Hn2. }
  kunfold_in H.
  match type of H with
  | match mappages ?a ?b ?d ?e ?f ?s with _ => _ end = _ =>
      destruct (mappages a b d e f s) as [rc s4| | | |] eqn:Hm; try discriminate;
      pose proof (mappages_table _ _ _ _ _ _ _ _ Hm) as Hr4
  end.
  cbn [page_ref_list] in Hr4.
  apply kalloc_Ret_inv in Hk as [[? _]|(_ & Hinp & Hr2)]; [contradiction|].
  assert (nonneg s4) as Hn4 by (unfold nonneg; rewrite Hr4; exact Hn2).
  destruct (negb (rc =? 0)).
  - destruct (kfree L np s4) as [u s5| | | |] eqn:Hf; try discriminate.
    injection H as _ <-.
    eapply (kfree_nonneg np s4 u s5 Hn4); [|exact Hf].
    exists 1. split; [|lia]. unfold cnt_of. rewrite Hr4, Hr2.
    apply at_index_insert_eq. exact Hinp.
  - rewrite (PGROUNDDOWN_aligned pa) in H by apply PTE2PA_aligned.
    destruct (kfree L pa s4) as [u s5| | | |] eqn:Hf; try discriminate.
    injection H as _ <-.
    eapply (kfree_nonneg pa s4 u s5 Hn4); [|exact Hf].
    unfold owned, cnt_of. rewrite Hr4, Hr2.
    destruct (Z.eq_dec (PA2PGREF_ID L np) (PA2PGREF_ID L pa)) as [E|E].
    + exists 1. split; [|lia]. rewrite <- E. apply at_index_insert_eq. exact Hinp.
    + exists c. split; [|exact Hge]. rewrite at_index_insert_ne by lia. exact Hc.
Qed.

End nonnegative.

(** C6, as the code has it.  Let walk and mappages leave the reference
    table alone.  In every state reached from boot by calls of kalloc,
    krefpage, kfree and cow_copy, where kfree is called on frames whose count
    is at least 1 and cow_copy on pages that map such a frame, every entry of
    the table satisfies cnt >= 0. *)
Theorem refcount_nonnegative
    (L : memlayout) (walk : Z -> Z -> Z -> K Z)
    (mappages : Z -> Z -> Z -> Z -> Z -> K Z) (st : kstate) :
  layout_ok L ->
  (forall pagetable va alloc s r s',
     walk pagetable va alloc s = Ret r s' -> page_ref_list s' = page_ref_list s) ->
  (forall pagetable va sz pa perm s r s',
     mappages pagetable va sz pa perm s = Ret r s' ->
     page_ref_list s' = page_ref_list s) ->
  reachable L walk mappages (owned L) st ->
  Forall (fun c => 0 <= c) (page_ref_list st).
Proof.
  intros HL Hw Hm Hreach.
  induction Hreach as [m0 st He | st r st' _ IH Hk | st pa st' _ IH Hg Hk
                      | st pa r st' _ IH Hk | st pt va r st' _ IH Hg Hk].
  - destruct (kinit_exec L HL m0) as (st0 & l & He0 & _ & _ & _ & Hnn).
    rewrite He0 in He. injection He as <-. exact Hnn.
  - eapply kalloc_nonneg; eassumption.
  - eapply kfree_nonneg; eassumption.
  - eapply krefpage_nonneg; eassumption.
  - eapply (cow_copy_nonneg L walk mappages Hw Hm); eassumption.
Qed.

Lemma flat_walk_table pagetable va alloc s r s' :
  flat_walk pagetable va alloc s = Ret r s' -> page_ref_list s' = page_ref_list s.
Proof. unfold flat_walk, ret. intros H. injection H as _ <-. reflexivity. Qed.

Lemma flat_mappages_table pagetable va sz pa perm s r s' :
  flat_mappages pagetable va sz pa perm s = Ret r s' ->
  page_ref_list s' = page_ref_list s.
Proof.
  unfold flat_mappages, flat_walk. intros H. kunfold_in H.
  destruct (_ =? 0) in H; [discriminate|]. kunfold_in H.
  destruct (negb _) in H; [discriminate|]. kunfold_in H.
  injection H as _ <-. reflexivity.
Qed.

Lemma refcount_nonnegative_witness :
  exists st r st',
    kinit small_layout (boot_state small_layout zero_memory) = Ret tt st /\
    kalloc small_layout st = Ret r st' /\
    Forall (fun c => 0 <= c) (page_ref_list st').
Proof.
  destruct (kinit_exec small_layout small_layout_ok zero_memory)
    as (st & l & He & Hok & Hlen & Ht & _).
  destruct l as [|p l]; [discriminate Hlen|].
  destruct (kalloc_pop small_layout small_layout_ok st p l Ht Hok) as (st' & Hk & _).
  exists st, p, st'. split; [exact He|]. split; [exact Hk|].
  apply (refcount_nonnegative small_layout flat_walk flat_mappages st'
           small_layout_ok flat_walk_table flat_mappages_table).
  eapply reach_kalloc; [|exact Hk]. eapply reach_boot. exact He.
Defined.

Lemma small_boot_table :
  table_after (kinit small_layout (boot_state small_layout zero_memory))
  = [1; 1; 1; 0; 0; 0; 0; 0].
Proof. vm_compute. reflexivity. Qed.

(** C6 as stated fails: after boot every free frame has count 0, and kfree
    of such a frame (page-aligned, between [end] and PHYSTOP) leaves -1. *)
Lemma refcount_negative_after_free :
  ~ (forall st, reachable small_layout flat_walk flat_mappages any_frame st ->
       Forall (fun c => 0 <= c) (page_ref_list st)).
Proof.
  intros H.
  destruct (kinit_exec small_layout small_layout_ok zero_memory) as (st0 & l & He & _).
  pose proof small_boot_table as Htab. rewrite He in Htab. cbn [table_after] in Htab.
  assert (cnt_of small_layout st0 0x80005000 = Some 0) as Hc.
  { unfold cnt_of. rewrite Htab. reflexivity. }
  pose proof (kfree_exec small_layout 0x80005000 st0 0 small_frame_valid Hc
                ltac:(unfold INT_MIN, INT_MAX; lia)) as Hk.
  change (0 <? 0 - 1) with false in Hk. cbv iota in Hk.
  match type of Hk with
  | _ = Ret tt ?s =>
      assert (reachable small_layout flat_walk flat_mappages any_frame s) as Hr
  end.
  { eapply reach_kfree; [eapply reach_boot; exact He | exact I | exact Hk]. }
  apply H in Hr. cbn [page_ref_list set_cnt] in Hr. rewrite Htab in Hr.
  clear - Hr. change (Forall (fun c => 0 <= c) [1; 1; 1; 0; 0; -1; 0; 0]) in Hr.
  do 5 (apply Forall_cons in Hr as [_ Hr]). apply Forall_cons in Hr as [Hr _]. lia.
Qed.

Lemma mapped_boot_table :
  table_after
    ((kinit small_layout ;;
      cow_copy small_layout flat_walk flat_mappages 0x80001000 0x3000)
       (boot_state small_layout mapped_memory))
  = [1; 1; 1; 0; 0; -1; 0; 1].
Proof. vm_compute. reflexivity. Qed.

(** The same through cow_copy: right after boot, on a page whose entry maps
    the free frame at 0x80005000, cow_copy takes a frame from the free list
    and then releases the mapped frame, whose count goes from 0 to -1. *)
Lemma refcount_negative_after_cow_copy :
  exists st, reachable small_layout flat_walk flat_mappages any_frame st /\
    ~ nonneg st.
Proof.
  destruct (kinit_exec small_layout small_layout_ok mapped_memory) as (st0 & l & He & _).
  pose proof mapped_boot_table as Htab.
  rewrite (bind_Ret _ _ _ _ _ He) in Htab.
  destruct (cow_copy small_layout flat_walk flat_mappages 0x80001000 0x3000 st0)
    as [r st1| | | |] eqn:Hc; cbn [table_after] in Htab; try discriminate Htab.
  exists st1. split.
  - eapply reach_cow_copy; [eapply reach_boot; exact He | intros; exact I | exact Hc].
  - unfold nonneg. rewrite Htab. clear. intros H.
    do 5 (apply Forall_cons in H as [_ H]). apply Forall_cons in H as [H _]. lia.
Qed.

(** ** Buffer cache: what a returning call has done *)

Lemma bind_Ret_inv {S A B} (c : M S A) (k : A -> M S B) s r s' :
  bind c k s = Ret r s' -> exists v s1, c s = Ret v s1 /\ k v s1 = Ret r s'.
Proof.
  unfold bind. destruct (c s) as [v s1| | | |]; try discriminate.
  intros H. exists v, s1. auto.
Qed.

Ltac binv H :=
  let v := fresh "v" in let s := fresh "s" in let E := fresh "E" in
  apply bind_Ret_inv in H as (v & s & E & H).

Lemma ret_inv {S A} (x : A) (s : S) r s' : ret x s = Ret r s' -> r = x /\ s' = s.
Proof. unfold ret. intros H. injection H as <- <-. auto. Qed.

Lemma buf_get_Ret i st b st' :
  buf_get i st = Ret b st' -> st' = st /\ bufs st !! i = Some b.
Proof.
  unfold buf_get. destruct (bufs st !! i) as [b0|]; [|discriminate].
  intros H. injection H as <- <-. auto.
Qed.

Lemma buf_upd_Ret i f st u st' :
  buf_upd i f st = Ret u st' ->
  exists b, bufs st !! i = Some b /\ bufs st' = <[i := f b]> (bufs st) /\
    size st' = size st /\ buckets st' = buckets st.
Proof.
  unfold buf_upd. intros H. binv H. apply buf_get_Ret in E as [-> E].
  unfold modify in H. injection H as _ <-. exists v. auto.
Qed.

Lemma bucket_next_Ret idx st h st' :
  bucket_next idx st = Ret h st' -> st' = st /\ at_index (buckets st) idx = Some h.
Proof.
  unfold bucket_next. destruct (at_index (buckets st) idx) as [h0|]; [|discriminate].
  intros H. injection H as <- <-. auto.
Qed.

Lemma set_bucket_next_Ret idx h st u st' :
  set_bucket_next idx h st = Ret u st' ->
  bufs st' = bufs st /\ size st' = size st /\
  buckets st' = <[Z.to_nat idx := h]> (buckets st).
Proof.
  unfold set_bucket_next. intros H. binv H. apply bucket_next_Ret in E as [-> _].
  unfold modify in H. injection H as _ <-. auto.
Qed.

Lemma same_ident_refl st : same_ident st st.
Proof. split; auto. Qed.

Lemma same_ident_trans s1 s2 s3 : same_ident s1 s2 -> same_ident s2 s3 -> same_ident s1 s3.
Proof. intros [L1 H1] [L2 H2]. split; [congruence|]. intros j. rewrite H2. apply H1. Qed.

Lemma same_ident_keeps v st st' : same_ident st st' -> keeps v st st'.
Proof. intros [Hl H]. split; [exact Hl|]. intros j _. apply H. Qed.

Lemma keeps_trans v s1 s2 s3 : keeps v s1 s2 -> keeps v s2 s3 -> keeps v s1 s3.
Proof.
  intros [L1 H1] [L2 H2]. split; [congruence|].
  intros j Hj. rewrite H2 by exact Hj. apply H1. exact Hj.
Qed.

Lemma same_ident_bufs st st' : bufs st' = bufs st -> same_ident st st'.
Proof. intros E. unfold same_ident. rewrite E. auto. Qed.

Lemma buf_upd_keeps v f st u st' : buf_upd v f st = Ret u st' -> keeps v st st'.
Proof.
  intros H. apply buf_upd_Ret in H as (b & Hb & Hbs & _).
  unfold keeps. rewrite Hbs. split.
  - apply length_insert.
  - intros j Hj. rewrite list_lookup_insert_ne by congruence. reflexivity.
Qed.

Lemma buf_upd_same_ident i f st u st' :
  (forall b, ident (f b) = ident b) ->
  buf_upd i f st = Ret u st' -> same_ident st st'.
Proof.
  intros Hf H. apply buf_upd_Ret in H as (b & Hb & Hbs & _).
  unfold same_ident. rewrite Hbs. split.
  - apply length_insert.
  - intros j. destruct (decide (i = j)) as [<-|Hne].
    + rewrite list_lookup_insert_eq by (eapply lookup_lt_Some; exact Hb).
      rewrite Hb. simpl. f_equal. apply Hf.
    + rewrite list_lookup_insert_ne by exact Hne. reflexivity.
Qed.

Lemma buf_upd_at i f st u st' :
  buf_upd i f st = Ret u st' ->
  exists b, bufs st !! i = Some b /\ bufs st' !! i = Some (f b).
Proof.
  intros H. apply buf_upd_Ret in H as (b & Hb & Hbs & _). rewrite Hbs. exists b.
  split; [exact Hb|]. apply list_lookup_insert_eq. eapply lookup_lt_Some. exact Hb.
Qed.

Lemma acquiresleep_same_ident i st u st' :
  acquiresleep i st = Ret u st' -> same_ident st st'.
Proof.
  unfold acquiresleep. intros H. binv H. apply buf_get_Ret in E as [-> _].
  destruct (locked v); [discriminate|].
  eapply buf_upd_same_ident; [|exact H]. reflexivity.
Qed.

Lemma find_cached_Ret fuel : forall h d bn st r st',
  find_cached fuel h d bn st = Ret r st' -> st' = st.
Proof.
  induction fuel as [|fuel IH]; intros h d bn st r st' H; destruct h as [i|];
    cbn [find_cached] in H; try (apply ret_inv in H as [_ ->]; reflexivity);
    try discriminate.
  binv H. apply buf_get_Ret in E as [-> _].
  destruct ((dev v =? d) && (blockno v =? bn)).
  - apply ret_inv in H as [_ ->]. reflexivity.
  - eapply IH. exact H.
Qed.

Lemma ref_set_next_same_ident r nx st u st' :
  ref_set_next r nx st = Ret u st' -> same_ident st st'.
Proof.
  destruct r as [idx|i]; cbn [ref_set_next]; intros H.
  - apply set_bucket_next_Ret in H as (Hb & _). apply same_ident_bufs. exact Hb.
  - eapply buf_upd_same_ident; [|exact H]. reflexivity.
Qed.

Section bio_returns.
Variable NBUF : Z.
Variable NBUCKET : Z.

Lemma recycle_Ret idx v pre d bn st r st' :
  recycle NBUCKET idx v pre d bn st = Ret r st' ->
  r = (Recycled, v) /\ keeps v st st' /\
  exists b b', bufs st !! v = Some b /\ bufs st' !! v = Some b' /\
    ident b' = (d, bn, 0, 1, timestamp b).
Proof.
  unfold recycle. intros H.
  apply bind_Ret_inv in H as (u1 & s1 & E1 & H).
  apply bind_Ret_inv in H as (u2 & s2 & E2 & H).
  apply bind_Ret_inv in H as (u3 & s3 & E3 & H).
  apply bind_Ret_inv in H as (u4 & s4 & E4 & H).
  apply bind_Ret_inv in H as (u5 & s5 & E5 & H).
  apply bind_Ret_inv in H as (u6 & s6 & E6 & H).
  apply ret_inv in H as [-> ->].
  assert (same_ident s4 s5) as H45.
  { destruct (negb (idx =? HASH NBUCKET bn)).
    - apply bind_Ret_inv in E5 as (vb & t1 & F1 & E5).
      apply buf_get_Ret in F1 as [-> _].
      apply bind_Ret_inv in E5 as (w1 & t2 & F2 & E5).
      apply bind_Ret_inv in E5 as (h & t3 & F3 & E5).
      apply bucket_next_Ret in F3 as [-> _].
      apply bind_Ret_inv in E5 as (w2 & t4 & F4 & E5).
      apply set_bucket_next_Ret in E5 as (Hb & _).
      eapply same_ident_trans; [|eapply same_ident_trans].
      + destruct pre as [r|]; [|discriminate].
        eapply ref_set_next_same_ident. exact F2.
      + eapply buf_upd_same_ident; [|exact F4]. reflexivity.
      + apply same_ident_bufs. exact Hb.
    - apply ret_inv in E5 as [_ ->]. apply same_ident_refl. }
  pose proof (acquiresleep_same_ident _ _ _ _ E6) as H56.
  pose proof (same_ident_trans _ _ _ H45 H56) as [_ H46].
  split; [reflexivity|]. split.
  - eapply keeps_trans; [eapply buf_upd_keeps; exact E1|].
    eapply keeps_trans; [eapply buf_upd_keeps; exact E2|].
    eapply keeps_trans; [eapply buf_upd_keeps; exact E3|].
    eapply keeps_trans; [eapply buf_upd_keeps; exact E4|].
    apply same_ident_keeps. eapply same_ident_trans; eassumption.
  - apply buf_upd_at in E1 as (b & Hb & Hb1).
    apply buf_upd_at in E2 as (b1 & Hb1' & Hb2). rewrite Hb1 in Hb1'. injection Hb1' as <-.
    apply buf_upd_at in E3 as (b2 & Hb2' & Hb3). rewrite Hb2 in Hb2'. injection Hb2' as <-.
    apply buf_upd_at in E4 as (b3 & Hb3' & Hb4). rewrite Hb3 in Hb3'. injection Hb3' as <-.
    specialize (H46 v). rewrite Hb4 in H46.
    destruct (bufs s6 !! v) as [b'|]; [|discriminate].
    exists b, b'. split; [exact Hb|]. split; [reflexivity|].
    cbn [fmap option_fmap option_map] in H46.
    assert (ident b' =
            ident (set_refcnt 1 (set_valid 0 (set_blockno bn (set_dev d b))))) as Hi
      by congruence.
    rewrite Hi. reflexivity.
Qed.

Lemma scan_bucket_Ret fuel : forall idx pre h d bn acc st r st',
  victim_ok st acc ->
  scan_bucket NBUCKET fuel idx pre h d bn acc st = Ret r st' ->
  match r with
  | inl _ => True
  | inr acc' => st' = st /\ victim_ok st acc'
  end.
Proof.
  induction fuel as [|fuel IH]; intros idx pre h d bn acc st r st' Hok H;
    destruct h as [i|]; cbn [scan_bucket] in H; try discriminate;
    try (apply ret_inv in H as [-> ->]; auto).
  apply bind_Ret_inv in H as (bf & s1 & E & H). apply buf_get_Ret in E as [-> Hbf].
  destruct ((idx =? HASH NBUCKET bn) && (dev bf =? d) && (blockno bf =? bn)).
  - apply bind_Ret_inv in H as (u & s2 & _ & H). apply ret_inv in H as [-> _]. exact I.
  - eapply IH; [|exact H].
    destruct ((refcnt bf =? 0) && (timestamp bf <? mintimestamp acc)) eqn:C;
      [|exact Hok].
    apply andb_true_iff in C as [C _]. apply Z.eqb_eq in C.
    intros v Hv. cbn [minb] in Hv. injection Hv as <-. exists bf. auto.
Qed.

Lemma evict_loop_Ret d bn n : forall idx acc st v st',
  victim_ok st acc ->
  evict_loop NBUCKET n idx d bn acc st = Ret (Recycled, v) st' ->
  exists b b', bufs st !! v = Some b /\ refcnt b = 0 /\
    bufs st' !! v = Some b' /\ ident b' = (d, bn, 0, 1, timestamp b) /\
    keeps v st st'.
Proof.
  induction n as [|n IH]; intros idx acc st v st' Hok H; cbn [evict_loop] in H;
    [discriminate|].
  apply bind_Ret_inv in H as (h & s1 & E1 & H). apply bucket_next_Ret in E1 as [-> _].
  apply bind_Ret_inv in H as (fuel & s2 & E2 & H). unfold gets in E2.
  injection E2 as <- <-.
  apply bind_Ret_inv in H as (r & s3 & E3 & H).
  apply scan_bucket_Ret in E3; [|exact Hok].
  destruct r as [i|acc1].
  - apply bind_Ret_inv in H as (u & s4 & _ & H). apply ret_inv in H as [H _].
    discriminate H.
  - destruct E3 as [-> Hok1]. destruct (minb acc1) as [v0|] eqn:Hm.
    + apply recycle_Ret in H as (Hr & Hk & b & b' & Hb & Hb' & Hid).
      injection Hr as <-. destruct (Hok1 v Hm) as (bv & Hbv & Hz).
      rewrite Hb in Hbv. injection Hbv as <-.
      exists b, b'. auto.
    + eapply IH; [|exact H]. exact Hok1.
Qed.

End bio_returns.

(** ** The eviction scan on well-formed bucket lists *)

Lemma chain_lookup fuel : forall bs h ch i,
  chain fuel bs h = Some ch -> i ∈ ch -> is_Some (bs !! i).
Proof.
  induction fuel as [|fuel IH]; intros bs h ch i H Hi; destruct h as [k|];
    cbn [chain] in H; try discriminate;
    try (injection H as <-; apply elem_of_nil in Hi; contradiction).
  destruct (bs !! k) as [b|] eqn:Hk; [|discriminate].
  destruct (chain fuel bs (next b)) as [ch'|] eqn:Hc; [|discriminate].
  cbn in H. injection H as <-. apply elem_of_cons in Hi as [->|Hi].
  - rewrite Hk. eauto.
  - eapply IH; eassumption.
Qed.

Section bio_scan.
Variable NBUCKET : Z.

Lemma find_cached_miss fuel : forall h d bn st ch,
  chain fuel (bufs st) h = Some ch ->
  (forall i b, i ∈ ch -> bufs st !! i = Some b -> key b <> (d, bn)) ->
  find_cached fuel h d bn st = Ret None st.
Proof.
  induction fuel as [|fuel IH]; intros h d bn st ch H Hmiss; destruct h as [k|];
    cbn [chain] in H; try discriminate; cbn [find_cached]; try reflexivity.
  destruct (bufs st !! k) as [b|] eqn:Hk; [|discriminate].
  destruct (chain fuel (bufs st) (next b)) as [ch'|] eqn:Hc; [|discriminate].
  cbn in H. injection H as <-.
  unfold bind, buf_get. rewrite Hk.
  assert ((dev b =? d) && (blockno b =? bn) = false) as ->.
  { apply andb_false_iff.
    destruct (Z.eqb_spec (dev b) d) as [E1|]; [|auto].
    destruct (Z.eqb_spec (blockno b) bn) as [E2|]; [|auto].
    exfalso. apply (Hmiss k b); [left | exact Hk | unfold key; congruence]. }
  eapply IH; [exact Hc|]. intros i bi Hi. apply Hmiss. right. exact Hi.
Qed.

Lemma scan_bucket_chain fuel : forall idx pre h d bn acc st ch,
  chain fuel (bufs st) h = Some ch ->
  (forall i b, i ∈ ch -> bufs st !! i = Some b ->
     idx = HASH NBUCKET bn -> key b <> (d, bn)) ->
  scan_bucket NBUCKET fuel idx pre h d bn acc st =
    Ret (inr (scan_list (bufs st) ch pre acc)) st.
Proof.
  induction fuel as [|fuel IH]; intros idx pre h d bn acc st ch H Hmiss;
    destruct h as [k|]; cbn [chain] in H; try discriminate; cbn [scan_bucket].
  1, 3: injection H as <-; reflexivity.
  - destruct (bufs st !! k) as [b|] eqn:Hk; [|discriminate].
    destruct (chain fuel (bufs st) (next b)) as [ch'|] eqn:Hc; [|discriminate].
    cbn in H. injection H as <-.
    unfold bind at 1. unfold buf_get. rewrite Hk.
    assert ((idx =? HASH NBUCKET bn) && (dev b =? d) && (blockno b =? bn) = false) as ->.
    { destruct (Z.eqb_spec idx (HASH NBUCKET bn)) as [E0|]; [|reflexivity].
      destruct (Z.eqb_spec (dev b) d) as [E1|]; [|reflexivity].
      destruct (Z.eqb_spec (blockno b) bn) as [E2|]; [|reflexivity].
      exfalso. apply (Hmiss k b); [left | exact Hk | exact E0 | unfold key; congruence]. }
    cbn [scan_list]. rewrite Hk. unfold candidate.
    apply IH; [exact Hc|]. intros i bi Hi. apply Hmiss. right. exact Hi.
Qed.

End bio_scan.

Lemma candidate_false m b :
  candidate m b = false <-> (refcnt b = 0 -> m <= timestamp b).
Proof.
  unfold candidate.
  destruct (Z.eqb_spec (refcnt b) 0), (Z.ltb_spec (timestamp b) m); simpl;
    split; intros HH; try reflexivity; try discriminate; try lia;
    specialize (HH ltac:(assumption)); lia.
Qed.

Lemma candidate_true m b :
  candidate m b = true <-> refcnt b = 0 /\ timestamp b < m.
Proof.
  unfold candidate.
  destruct (Z.eqb_spec (refcnt b) 0), (Z.ltb_spec (timestamp b) m); simpl;
    split; intros HH; try reflexivity; try discriminate; try lia.
Qed.

Lemma pred_ref_cons pre i ch1 : pred_ref pre (i :: ch1) = pred_ref (Slot i) ch1.
Proof. unfold pred_ref. rewrite last_cons. destruct (last ch1); reflexivity. Qed.

(** The scan of a list either leaves minb, minpre and mintimestamp as they
    were, no buffer of the list being unused and older than the bound, or
    selects the first of the oldest such buffers. *)
Lemma scan_list_spec bs ch : forall pre acc,
  (forall i, i ∈ ch -> is_Some (bs !! i)) ->
  (scan_list bs ch pre acc = acc /\
   forall i b, i ∈ ch -> bs !! i = Some b -> candidate (mintimestamp acc) b = false)
  \/
  (exists ch1 v ch2 bv,
     oldest_first bs (mintimestamp acc) ch ch1 v ch2 bv /\
     scan_list bs ch pre acc =
       {| minb := Some v; minpre := Some (pred_ref pre ch1);
          mintimestamp := timestamp bv |}).
Proof.
  induction ch as [|i ch IH]; intros pre acc Hin.
  - left. split; [reflexivity|]. intros i b Hi. apply elem_of_nil in Hi. contradiction.
  - destruct (Hin i ltac:(left)) as [b Hb]. cbn [scan_list]. rewrite Hb.
    assert (forall j, j ∈ ch -> is_Some (bs !! j)) as Hin'
      by (intros j Hj; apply Hin; right; exact Hj).
    destruct (candidate (mintimestamp acc) b) eqn:C.
    + apply candidate_true in C as [Cz Ct].
      destruct (IH (Slot i) {| minb := Some i; minpre := Some pre;
                               mintimestamp := timestamp b |} Hin')
        as [[E Hnone] | (ch1 & v & ch2 & bv & Hof & E)]; cbn [mintimestamp] in *.
      * right. exists [], i, ch, b. split; [|rewrite E; reflexivity].
        split; [reflexivity|]. split; [exact Hb|]. split; [exact Cz|].
        split; [exact Ct|]. split.
        -- intros j bj Hj. apply elem_of_nil in Hj. contradiction.
        -- intros j bj Hj Hbj Hz.
           apply (proj1 (candidate_false (timestamp b) bj)); [|exact Hz].
           eapply Hnone; eassumption.
      * destruct Hof as (-> & Hbv & Hvz & Hvt & Hbefore & Hafter).
        right. exists (i :: ch1), v, ch2, bv. split; [|rewrite E, pred_ref_cons; reflexivity].
        split; [reflexivity|]. split; [exact Hbv|]. split; [exact Hvz|].
        split; [lia|]. split; [|exact Hafter].
        intros j bj Hj Hbj Hz. apply elem_of_cons in Hj as [->|Hj].
        -- rewrite Hb in Hbj. injection Hbj as <-. exact Hvt.
        -- eapply Hbefore; eassumption.
    + destruct (IH (Slot i) acc Hin')
        as [[E Hnone] | (ch1 & v & ch2 & bv & Hof & E)].
      * left. split; [exact E|]. intros j bj Hj Hbj.
        apply elem_of_cons in Hj as [->|Hj].
        -- rewrite Hb in Hbj. injection Hbj as <-. exact C.
        -- eapply Hnone; eassumption.
      * destruct Hof as (-> & Hbv & Hvz & Hvt & Hbefore & Hafter).
        right. exists (i :: ch1), v, ch2, bv. split; [|rewrite E, pred_ref_cons; reflexivity].
        split; [reflexivity|]. split; [exact Hbv|]. split; [exact Hvz|].
        split; [exact Hvt|]. split; [|exact Hafter].
        intros j bj Hj Hbj Hz. apply elem_of_cons in Hj as [->|Hj].
        -- rewrite Hb in Hbj. injection Hbj as <-.
           pose proof (proj1 (candidate_false _ _) C Hz). lia.
        -- eapply Hbefore; eassumption.
Qed.

Section bio_evict.
Variable NBUF : Z.
Variable NBUCKET : Z.

(** One iteration of the eviction loop over a well-formed bucket. *)
Lemma evict_loop_step n idx d bn acc st ch :
  bucket_slots st idx = Some ch ->
  (forall i b, i ∈ ch -> bufs st !! i = Some b ->
     idx = HASH NBUCKET bn -> key b <> (d, bn)) ->
  evict_loop NBUCKET (S n) idx d bn acc st =
    match minb (scan_list (bufs st) ch (BucketHead idx)
                  {| minb := minb acc; minpre := minpre acc;
                     mintimestamp := UINT_MAX |}) with
    | Some v =>
        recycle NBUCKET idx v
          (minpre (scan_list (bufs st) ch (BucketHead idx)
                     {| minb := minb acc; minpre := minpre acc;
                        mintimestamp := UINT_MAX |})) d bn st
    | None =>
        evict_loop NBUCKET n (next_bucket NBUCKET idx) d bn
          (scan_list (bufs st) ch (BucketHead idx)
             {| minb := minb acc; minpre := minpre acc;
                mintimestamp := UINT_MAX |}) st
    end.
Proof.
  intros Hch Hmiss. unfold bucket_slots in Hch.
  destruct (at_index (buckets st) idx) as [h|] eqn:Hh; [|discriminate].
  cbn [evict_loop]. unfold bind at 1. unfold bucket_next. rewrite Hh.
  unfold bind at 1. unfold gets. unfold bind at 1.
  rewrite (scan_bucket_chain NBUCKET _ idx (BucketHead idx) h d bn _ st ch Hch Hmiss).
  destruct (minb _); reflexivity.
Qed.

(** bget, when the block is not cached and every slot is claimed. *)
Lemma bget_miss_full d bn st ch :
  bucket_slots st (HASH NBUCKET bn) = Some ch ->
  (forall i b, i ∈ ch -> bufs st !! i = Some b -> key b <> (d, bn)) ->
  NBUF <= size st ->
  bget NBUF NBUCKET d bn st =
    evict_loop NBUCKET (Z.to_nat NBUCKET) (HASH NBUCKET bn) d bn
      {| minb := None; minpre := None; mintimestamp := 0 |} st.
Proof.
  intros Hch Hmiss Hfull. unfold bucket_slots in Hch.
  destruct (at_index (buckets st) (HASH NBUCKET bn)) as [h|] eqn:Hh; [|discriminate].
  unfold bget. unfold bind at 1. unfold bucket_next. rewrite Hh.
  unfold bind at 1. unfold gets at 1. unfold bind at 1.
  rewrite (find_cached_miss _ h d bn st ch Hch Hmiss).
  unfold bind at 1. unfold gets.
  destruct (Z.ltb_spec (size st) NBUF); [lia | reflexivity].
Qed.

(** The eviction loop passes over buckets without an unused buffer released
    before tick UINT_MAX, and recycles, in the first other bucket, the first
    of the oldest such buffers. *)
Lemma evict_loop_visits d bn st J : forall n idx acc,
  minb acc = None -> (J < n)%nat ->
  (forall j, (j <= J)%nat ->
     exists chj, bucket_slots st (nth_bucket NBUCKET j idx) = Some chj /\
       forall i b, i ∈ chj -> bufs st !! i = Some b ->
         nth_bucket NBUCKET j idx = HASH NBUCKET bn -> key b <> (d, bn)) ->
  (forall j chj i b, (j < J)%nat ->
     bucket_slots st (nth_bucket NBUCKET j idx) = Some chj ->
     i ∈ chj -> bufs st !! i = Some b -> candidate UINT_MAX b = false) ->
  (exists chJ i b, bucket_slots st (nth_bucket NBUCKET J idx) = Some chJ /\
     i ∈ chJ /\ bufs st !! i = Some b /\ candidate UINT_MAX b = true) ->
  exists ch ch1 v ch2 bv,
    bucket_slots st (nth_bucket NBUCKET J idx) = Some ch /\
    oldest_first (bufs st) UINT_MAX ch ch1 v ch2 bv /\
    evict_loop NBUCKET n idx d bn acc st =
      recycle NBUCKET (nth_bucket NBUCKET J idx) v
        (Some (pred_ref (BucketHead (nth_bucket NBUCKET J idx)) ch1)) d bn st.
Proof.
  induction J as [|J IH]; intros n idx acc Hacc Hn Hch Hskip Hfree;
    (destruct n as [|n]; [lia|]).
  - destruct (Hch 0%nat (Nat.le_refl _)) as (ch & Hc & Hmiss). cbn [nth_bucket] in *.
    destruct Hfree as (ch' & i & b & Hc' & Hi & Hb & Hcand).
    rewrite Hc in Hc'. injection Hc' as <-.
    rewrite (evict_loop_step n idx d bn acc st ch Hc Hmiss).
    assert (forall k, k ∈ ch -> is_Some (bufs st !! k)) as Hin.
    { intros k Hk. unfold bucket_slots in Hc.
      destruct (at_index (buckets st) idx); [|discriminate].
      eapply chain_lookup; eassumption. }
    destruct (scan_list_spec (bufs st) ch (BucketHead idx)
                {| minb := minb acc; minpre := minpre acc; mintimestamp := UINT_MAX |} Hin)
      as [[_ Hnone] | (ch1 & v & ch2 & bv & Hof & E)]; cbn [mintimestamp] in *.
    + rewrite (Hnone i b Hi Hb) in Hcand. discriminate.
    + exists ch, ch1, v, ch2, bv. split; [exact Hc|]. split; [exact Hof|].
      rewrite E. reflexivity.
  - destruct (Hch 0%nat ltac:(lia)) as (ch & Hc & Hmiss). cbn [nth_bucket] in Hc, Hmiss.
    rewrite (evict_loop_step n idx d bn acc st ch Hc Hmiss).
    assert (forall k, k ∈ ch -> is_Some (bufs st !! k)) as Hin.
    { intros k Hk. unfold bucket_slots in Hc.
      destruct (at_index (buckets st) idx); [|discriminate].
      eapply chain_lookup; eassumption. }
    destruct (scan_list_spec (bufs st) ch (BucketHead idx)
                {| minb := minb acc; minpre := minpre acc; mintimestamp := UINT_MAX |} Hin)
      as [[E _] | (ch1 & v & ch2 & bv & Hof & _)]; cbn [mintimestamp] in *.
    + rewrite E. cbn [minb]. rewrite Hacc.
      apply (IH n (next_bucket NBUCKET idx)); [reflexivity | lia | | |].
      * intros j Hj. apply (Hch (S j)). lia.
      * intros j chj i b Hj. apply (Hskip (S j)). lia.
      * exact Hfree.
    + exfalso. destruct Hof as (-> & Hbv & Hz & Ht & _).
      assert (candidate UINT_MAX bv = false) as Hf.
      { apply (Hskip 0%nat (ch1 ++ v :: ch2) v bv); [lia | exact Hc | | exact Hbv].
        apply elem_of_app. right. left. }
      apply candidate_false in Hf; [lia | exact Hz].
Qed.

End bio_evict.

(** ** C8: four blocks, then a fifth *)

Lemma scenario_reads disk :
  for_each (bread 4 2 disk 0) [1; 2; 3; 4] (binit 4 2) =
    Ret [(Fresh, 0%nat); (Fresh, 1%nat); (Fresh, 2%nat); (Fresh, 3%nat)]
        {| bufs := [fetched_buf 1 0 None (disk 0 1);
                    fetched_buf 2 0 None (disk 0 2);
                    fetched_buf 3 0 (Some 0%nat) (disk 0 3);
                    fetched_buf 4 0 (Some 1%nat) (disk 0 4)];
           size := 4;
           buckets := [Some 3%nat; Some 2%nat] |}.
Proof. vm_compute. reflexivity. Qed.

Lemma scenario_releases disk t1 t2 t3 t4 rel :
  rel ≡ₚ in_read_order t1 t2 t3 t4 ->
  for_each (fun tk =>
      match [(Fresh, 0%nat); (Fresh, 1%nat); (Fresh, 2%nat); (Fresh, 3%nat)]
              !! snd tk with
      | Some r => brelse (fst tk) (snd r)
      | None => fault
      end) rel
    {| bufs := [fetched_buf 1 0 None (disk 0 1);
                fetched_buf 2 0 None (disk 0 2);
                fetched_buf 3 0 (Some 0%nat) (disk 0 3);
                fetched_buf 4 0 (Some 1%nat) (disk 0 4)];
       size := 4;
       buckets := [Some 3%nat; Some 2%nat] |} =
    Ret [tt; tt; tt; tt] (scenario_cache disk t1 t2 t3 t4).
Proof.
  intros Hp. symmetry in Hp. apply permutations_Permutation in Hp.
  unfold in_read_order in Hp. cbn in Hp.
  repeat (apply elem_of_cons in Hp as [->|Hp]; [vm_compute; reflexivity|]).
  apply elem_of_nil in Hp. contradiction.
Qed.

Lemma scenario_bget disk t1 t2 t3 t4 :
  bget 4 2 0 5 (scenario_cache disk t1 t2 t3 t4) =
    if t3 <? UINT_MAX then
      if t1 <? t3
      then recycle 2 1 0 (Some (Slot 2)) 0 5 (scenario_cache disk t1 t2 t3 t4)
      else recycle 2 1 2 (Some (BucketHead 1)) 0 5 (scenario_cache disk t1 t2 t3 t4)
    else if t1 <? UINT_MAX
      then recycle 2 1 0 (Some (Slot 2)) 0 5 (scenario_cache disk t1 t2 t3 t4)
      else evict_loop 2 1 0 0 5
             {| minb := None; minpre := None; mintimestamp := UINT_MAX |}
             (scenario_cache disk t1 t2 t3 t4).
Proof.
  assert (forall i b, i ∈ [2%nat; 0%nat] ->
            bufs (scenario_cache disk t1 t2 t3 t4) !! i = Some b -> key b <> (0, 5))
    as Hmiss.
  { intros i b Hi Hb. apply elem_of_cons in Hi as [->|Hi].
    - injection Hb as <-. discriminate.
    - apply elem_of_cons in Hi as [->|Hi]; [|apply elem_of_nil in Hi; contradiction].
      injection Hb as <-. discriminate. }
  rewrite (bget_miss_full 4 2 0 5 (scenario_cache disk t1 t2 t3 t4) [2%nat; 0%nat]
             eq_refl Hmiss ltac:(cbn; lia)).
  change (Z.to_nat 2) with 2%nat. change (HASH 2 5) with 1.
  rewrite (evict_loop_step 2 1 1 0 5 _ (scenario_cache disk t1 t2 t3 t4) [2%nat; 0%nat]
             eq_refl ltac:(intros i b Hi Hb _; exact (Hmiss i b Hi Hb))).
  cbn [scan_list scenario_cache bufs lookup list_lookup minb minpre mintimestamp].
  unfold candidate. cbn [released_buf refcnt timestamp Z.eqb andb mintimestamp].
  destruct (t3 <? UINT_MAX); cbn [mintimestamp]; destruct (t1 <? _); reflexivity.
Qed.

(** The run of the scenario, whatever the order of the four releases, as
    long as block 1 or block 3 was released before the tick 2^32 - 1. *)
Lemma scenario_exec disk t1 t2 t3 t4 rel :
  rel ≡ₚ in_read_order t1 t2 t3 t4 ->
  t1 < UINT_MAX \/ t3 < UINT_MAX ->
  exists st,
    scenario disk rel (binit 4 2) =
      Ret ([(Fresh, 0%nat); (Fresh, 1%nat); (Fresh, 2%nat); (Fresh, 3%nat)],
           (Recycled, if t1 <? t3 then 0%nat else 2%nat)) st /\
    map key (bufs st) =
      <[(if t1 <? t3 then 0%nat else 2%nat) := (0, 5)]>
        [(0, 1); (0, 2); (0, 3); (0, 4)] /\
    size st = 4 /\ length (bufs st) = 4%nat /\
    Forall (fun b => valid b = 1) (bufs st).
Proof.
  intros Hp Hlt.
  assert (forall v st,
            bread 4 2 disk 0 5 (scenario_cache disk t1 t2 t3 t4) = Ret (Recycled, v) st ->
            scenario disk rel (binit 4 2) =
              Ret ([(Fresh, 0%nat); (Fresh, 1%nat); (Fresh, 2%nat); (Fresh, 3%nat)],
                   (Recycled, v)) st) as Hrun.
  { intros v st Hb. unfold scenario.
    rewrite (bind_Ret _ _ _ _ _ (scenario_reads disk)).
    rewrite (bind_Ret _ _ _ _ _ (scenario_releases disk t1 t2 t3 t4 rel Hp)).
    rewrite (bind_Ret _ _ _ _ _ Hb). reflexivity. }
  pose proof (scenario_bget disk t1 t2 t3 t4) as Hg.
  destruct (Z.ltb_spec t3 UINT_MAX) as [H3|H3];
    [|destruct (Z.ltb_spec t1 UINT_MAX) as [H1|?]; [|lia]];
    destruct (Z.ltb_spec t1 t3) as [H13|H13]; try lia.
  - eexists. split.
    { apply Hrun. unfold bread. rewrite (bind_Ret _ _ _ _ _ (eq_trans Hg eq_refl)).
      vm_compute. reflexivity. }
    cbn [bufs size map key dev blockno]. split; [reflexivity|].
    split; [reflexivity|]. split; [reflexivity|].
    repeat (apply Forall_cons; split; [reflexivity|]). apply Forall_nil. exact I.
  - eexists. split.
    { apply Hrun. unfold bread. rewrite (bind_Ret _ _ _ _ _ (eq_trans Hg eq_refl)).
      vm_compute. reflexivity. }
    cbn [bufs size map key dev blockno]. split; [reflexivity|].
    split; [reflexivity|]. split; [reflexivity|].
    repeat (apply Forall_cons; split; [reflexivity|]). apply Forall_nil. exact I.
  - eexists. split.
    { apply Hrun. unfold bread. rewrite (bind_Ret _ _ _ _ _ (eq_trans Hg eq_refl)).
      vm_compute. reflexivity. }
    cbn [bufs size map key dev blockno]. split; [reflexivity|].
    split; [reflexivity|]. split; [reflexivity|].
    repeat (apply Forall_cons; split; [reflexivity|]). apply Forall_nil. exact I.
Qed.

Lemma rekeyed_NoDup (k : nat) :
  NoDup (<[k := (0, 5)]> [(0, 1); (0, 2); (0, 3); (0, 4)]).
Proof.
  do 4 (try destruct k as [|k]); cbn;
    repeat (apply NoDup_cons; split;
            [rewrite ?elem_of_cons, elem_of_nil; intros Hx;
             repeat destruct Hx as [Hx|Hx]; try discriminate Hx; exact Hx|]);
    apply NoDup_nil; exact I.
Qed.

(** C8.  NBUF = 4, NBUCKET = 2.  Reading blocks 1 to 4 of device 0 claims
    the slots 0 to 3, each for the first time.  The four buffers are then
    released in any order, block i at tick ti, block 1 or block 3 before
    the tick 2^32 - 1.  Reading block 5 recycles one slot v: the one of
    block 1 or block 3, the two blocks of block 5's bucket, that has the
    older release tick, block 3 when the two ticks are equal.  Slot v alone
    changes its device and block; the cache then holds four valid buffers
    and no two have the same device and block. *)
Theorem scenario_evicts_oldest_of_bucket
    (disk : Z -> Z -> list Z) (t1 t2 t3 t4 : Z) (rel : list (Z * nat)) :
  rel ≡ₚ in_read_order t1 t2 t3 t4 ->
  t1 < UINT_MAX \/ t3 < UINT_MAX ->
  exists v st,
    scenario disk rel (binit 4 2) =
      Ret ([(Fresh, 0%nat); (Fresh, 1%nat); (Fresh, 2%nat); (Fresh, 3%nat)],
           (Recycled, v)) st /\
    v = (if t1 <? t3 then 0%nat else 2%nat) /\
    [t1; t2; t3; t4] !! v = Some (Z.min t1 t3) /\
    map key (bufs st) = <[v := (0, 5)]> [(0, 1); (0, 2); (0, 3); (0, 4)] /\
    size st = 4 /\ length (bufs st) = 4%nat /\
    Forall (fun b => valid b = 1) (bufs st) /\
    NoDup (map key (bufs st)).
Proof.
  intros Hp Hlt.
  destruct (scenario_exec disk t1 t2 t3 t4 rel Hp Hlt) as (st & He & Hk & Hs & Hl & Hv).
  exists (if t1 <? t3 then 0%nat else 2%nat), st.
  split; [exact He|]. split; [reflexivity|]. split.
  { destruct (Z.ltb_spec t1 t3); cbn; f_equal; lia. }
  split; [exact Hk|]. split; [exact Hs|]. split; [exact Hl|]. split; [exact Hv|].
  rewrite Hk. apply rekeyed_NoDup.
Qed.

Lemma scenario_evicts_oldest_of_bucket_witness :
  exists v st,
    scenario no_disk [(5, 1%nat); (20, 0%nat); (30, 2%nat); (40, 3%nat)] (binit 4 2) =
      Ret ([(Fresh, 0%nat); (Fresh, 1%nat); (Fresh, 2%nat); (Fresh, 3%nat)],
           (Recycled, v)) st /\
    [20; 5; 30; 40] !! v = Some 20.
Proof.
  destruct (scenario_evicts_oldest_of_bucket no_disk 20 5 30 40
              [(5, 1%nat); (20, 0%nat); (30, 2%nat); (40, 3%nat)])
    as (v & st & He & _ & Ht & _).
  - apply Permutation_swap.
  - left. unfold UINT_MAX. lia.
  - exists v, st. split; [exact He | exact Ht].
Defined.

(** Block 2 released at tick 5, then blocks 1, 3 and 4 at the ticks 20, 30
    and 40: reading block 5 recycles the slot of block 1, released at tick
    20, although block 2 was released before it. *)
Lemma scenario_evicts_younger :
  exists v tv st,
    scenario no_disk [(5, 1%nat); (20, 0%nat); (30, 2%nat); (40, 3%nat)] (binit 4 2) =
      Ret ([(Fresh, 0%nat); (Fresh, 1%nat); (Fresh, 2%nat); (Fresh, 3%nat)],
           (Recycled, v)) st /\
    [20; 5; 30; 40] !! v = Some tv /\
    ~ Forall (fun t => tv <= t) [20; 5; 30; 40].
Proof.
  eexists 0%nat, 20, _. split; [vm_compute; reflexivity|].
  split; [reflexivity|].
  intros H. apply Forall_cons in H as [_ H]. apply Forall_cons in H as [H _]. lia.
Qed.

(** Released in the order they were read, at ticks that do not decrease,
    the first below 2^32 - 1: the slot recycled is the one released first,
    and no buffer has an older release tick. *)
Lemma scenario_released_in_read_order disk t1 t2 t3 t4 :
  t1 <= t2 -> t2 <= t3 -> t3 <= t4 -> t1 < UINT_MAX ->
  exists v tv st,
    scenario disk (in_read_order t1 t2 t3 t4) (binit 4 2) =
      Ret ([(Fresh, 0%nat); (Fresh, 1%nat); (Fresh, 2%nat); (Fresh, 3%nat)],
           (Recycled, v)) st /\
    [t1; t2; t3; t4] !! v = Some tv /\
    Forall (fun t => tv <= t) [t1; t2; t3; t4] /\
    NoDup (map key (bufs st)).
Proof.
  intros H12 H23 H34 H1.
  destruct (scenario_exec disk t1 t2 t3 t4 _ (reflexivity _) (or_introl H1))
    as (st & He & Hk & _).
  exists (if t1 <? t3 then 0%nat else 2%nat), (Z.min t1 t3), st.
  split; [exact He|]. split.
  { destruct (Z.ltb_spec t1 t3); cbn; f_equal; lia. }
  split.
  { repeat (apply Forall_cons; split; [lia|]). apply Forall_nil. exact I. }
  rewrite Hk. apply rekeyed_NoDup.
Qed.

(** All four released at the tick 2^32 - 1: reading block 5 panics. *)
Example scenario_at_saturated_tick :
  scenario no_disk (in_read_order UINT_MAX UINT_MAX UINT_MAX UINT_MAX) (binit 4 2) =
    Panic "bget: no buffers".
Proof. vm_compute. reflexivity. Qed.

Example scenario_at_ticks_10_to_13 :
  returned (scenario no_disk (in_read_order 10 11 12 13) (binit 4 2)) =
    Some ([(Fresh, 0%nat); (Fresh, 1%nat); (Fresh, 2%nat); (Fresh, 3%nat)],
          (Recycled, 0%nat)).
Proof. vm_compute. reflexivity. Qed.

Example bread_cached_block_sleeps :
  returned ((bread 4 2 no_disk 0 1 ;; bread 4 2 no_disk 0 1) (binit 4 2)) = None.
Proof. vm_compute. reflexivity. Qed.

Example brelse_unlocked_panics : brelse 7 0 released_cache = Panic "brelse".
Proof. reflexivity. Qed.

(** ** Recycling returns when the victim is not locked *)

Section bio_progress.
Variable NBUCKET : Z.
Variable st : bcache.
Variable v : nat.

Lemma buf_upd_progress i f s :
  (forall b, locked (f b) = locked b) -> (i < length (bufs st))%nat ->
  unlocked_in st v s ->
  exists s', buf_upd i f s = Ret tt s' /\ unlocked_in st v s'.
Proof.
  intros Hf Hi (Hl & Hk & b & Hb & Hlk).
  destruct (lookup_lt_is_Some_2 (bufs s) i) as [bi Hbi]; [lia|].
  eexists. split.
  { unfold buf_upd, bind, buf_get, modify. rewrite Hbi. reflexivity. }
  split; [|split]; cbn [bufs buckets].
  - rewrite length_insert. exact Hl.
  - exact Hk.
  - destruct (decide (i = v)) as [->|Hne].
    + exists (f bi). split.
      * apply list_lookup_insert_eq. eapply lookup_lt_Some. exact Hb.
      * rewrite Hf. congruence.
    + exists b. split; [|exact Hlk]. rewrite list_lookup_insert_ne by exact Hne.
      exact Hb.
Qed.

Lemma bucket_next_progress k s :
  0 <= k < Z.of_nat (length (buckets st)) -> unlocked_in st v s ->
  exists h, bucket_next k s = Ret h s.
Proof.
  intros Hk (_ & Hl & _). destruct (at_index_is_Some (buckets s) k) as [h Hh]; [lia|].
  exists h. unfold bucket_next. rewrite Hh. reflexivity.
Qed.

Lemma set_bucket_next_progress k h s :
  0 <= k < Z.of_nat (length (buckets st)) -> unlocked_in st v s ->
  exists s', set_bucket_next k h s = Ret tt s' /\ unlocked_in st v s'.
Proof.
  intros Hk Hs. destruct (bucket_next_progress k s Hk Hs) as [h0 Hh].
  eexists. split.
  { unfold set_bucket_next. rewrite (bind_Ret _ _ _ _ _ Hh). reflexivity. }
  destruct Hs as (Hl & Hlk & Hb). split; [exact Hl|]. split; [|exact Hb].
  cbn [buckets]. rewrite length_insert. exact Hlk.
Qed.

Lemma acquiresleep_progress s :
  unlocked_in st v s -> exists s', acquiresleep v s = Ret tt s'.
Proof.
  intros (Hl & Hk & b & Hb & Hlk). eexists.
  unfold acquiresleep, bind, buf_get. rewrite Hb, Hlk.
  unfold buf_upd, bind, buf_get, modify. rewrite Hb. reflexivity.
Qed.

Lemma recycle_returns idx pre d bn bv :
  bufs st !! v = Some bv -> locked bv = false -> ref_in st pre ->
  0 <= HASH NBUCKET bn < Z.of_nat (length (buckets st)) ->
  exists st', recycle NBUCKET idx v (Some pre) d bn st = Ret (Recycled, v) st'.
Proof.
  intros Hbv Hlk Hpre Hhash.
  assert (v < length (bufs st))%nat as Hv by (eapply lookup_lt_Some; exact Hbv).
  assert (unlocked_in st v st) as H0 by (split; [|split]; eauto).
  destruct (buf_upd_progress v (set_dev d) st ltac:(reflexivity) Hv H0) as (s1 & E1 & H1).
  destruct (buf_upd_progress v (set_blockno bn) s1 ltac:(reflexivity) Hv H1) as (s2 & E2 & H2).
  destruct (buf_upd_progress v (set_valid 0) s2 ltac:(reflexivity) Hv H2) as (s3 & E3 & H3).
  destruct (buf_upd_progress v (set_refcnt 1) s3 ltac:(reflexivity) Hv H3) as (s4 & E4 & H4).
  assert (exists s5,
            (if negb (idx =? HASH NBUCKET bn) then
               vb <- buf_get v ;;
               ref_set_next pre (next vb) ;;
               h <- bucket_next (HASH NBUCKET bn) ;;
               buf_upd v (set_next h) ;;
               set_bucket_next (HASH NBUCKET bn) (Some v)
             else ret tt) s4 = Ret tt s5 /\ unlocked_in st v s5) as (s5 & E5 & H5).
  { destruct (negb (idx =? HASH NBUCKET bn)); [|exists s4; split; [reflexivity | exact H4]].
    pose proof H4 as (_ & _ & b4 & Hb4 & _).
    assert (exists t1, ref_set_next pre (next b4) s4 = Ret tt t1 /\ unlocked_in st v t1)
      as (t1 & F1 & G1).
    { destruct pre as [k|j]; cbn [ref_set_next ref_in] in *.
      - apply set_bucket_next_progress; assumption.
      - apply buf_upd_progress; [reflexivity | exact Hpre | exact H4]. }
    destruct (bucket_next_progress _ t1 Hhash G1) as [h F2].
    destruct (buf_upd_progress v (set_next h) t1 ltac:(reflexivity) Hv G1) as (t2 & F3 & G3).
    destruct (set_bucket_next_progress _ (Some v) t2 Hhash G3) as (t3 & F4 & G4).
    exists t3. split; [|exact G4].
    assert (buf_get v s4 = Ret b4 s4) as F0 by (unfold buf_get; rewrite Hb4; reflexivity).
    rewrite (bind_Ret _ _ _ _ _ F0), (bind_Ret _ _ _ _ _ F1), (bind_Ret _ _ _ _ _ F2),
      (bind_Ret _ _ _ _ _ F3). exact F4. }
  destruct (acquiresleep_progress s5 H5) as (s6 & E6).
  exists s6. unfold recycle.
  rewrite (bind_Ret _ _ _ _ _ E1), (bind_Ret _ _ _ _ _ E2), (bind_Ret _ _ _ _ _ E3),
    (bind_Ret _ _ _ _ _ E4).
  destruct (negb (idx =? HASH NBUCKET bn));
    rewrite (bind_Ret _ _ _ _ _ E5), (bind_Ret _ _ _ _ _ E6); reflexivity.
Qed.

End bio_progress.

(** ** C10: the victim is chosen bucket by bucket *)

Lemma bucket_slots_range st k ch :
  bucket_slots st k = Some ch ->
  0 <= k < Z.of_nat (length (buckets st)) /\
  forall i, i ∈ ch -> (i < length (bufs st))%nat.
Proof.
  unfold bucket_slots. intros H.
  destruct (at_index (buckets st) k) as [h|] eqn:Hh; [|discriminate].
  apply at_index_Some in Hh as [Hk _]. split; [exact Hk|].
  intros i Hi. apply lookup_lt_is_Some. eapply chain_lookup; eassumption.
Qed.

(** What bget does when every slot is claimed and the block is not cached:
    it visits the buckets from the block's own, in circular order, passes
    over those in which no unused buffer was released before tick
    UINT_MAX, and in the first other bucket recycles the unused buffer with
    the least timestamp, the first in list order among equals; and it
    returns that buffer when its sleep-lock is free. *)
Lemma bget_evicts_oldest_of_first_bucket (NBUF NBUCKET d bn : Z) (st : bcache) (J : nat) :
  NBUF <= size st -> (J < Z.to_nat NBUCKET)%nat ->
  (forall j, (j <= J)%nat ->
     exists chj, bucket_slots st (nth_bucket NBUCKET j (HASH NBUCKET bn)) = Some chj /\
       forall i b, i ∈ chj -> bufs st !! i = Some b ->
         nth_bucket NBUCKET j (HASH NBUCKET bn) = HASH NBUCKET bn -> key b <> (d, bn)) ->
  (forall j chj i b, (j < J)%nat ->
     bucket_slots st (nth_bucket NBUCKET j (HASH NBUCKET bn)) = Some chj ->
     i ∈ chj -> bufs st !! i = Some b -> candidate UINT_MAX b = false) ->
  (exists chJ i b,
     bucket_slots st (nth_bucket NBUCKET J (HASH NBUCKET bn)) = Some chJ /\
     i ∈ chJ /\ bufs st !! i = Some b /\ candidate UINT_MAX b = true) ->
  exists ch ch1 v ch2 bv,
    bucket_slots st (nth_bucket NBUCKET J (HASH NBUCKET bn)) = Some ch /\
    oldest_first (bufs st) UINT_MAX ch ch1 v ch2 bv /\
    bget NBUF NBUCKET d bn st =
      recycle NBUCKET (nth_bucket NBUCKET J (HASH NBUCKET bn)) v
        (Some (pred_ref (BucketHead (nth_bucket NBUCKET J (HASH NBUCKET bn))) ch1))
        d bn st /\
    (locked bv = false ->
     exists st', bget NBUF NBUCKET d bn st = Ret (Recycled, v) st').
Proof.
  intros Hfull HJ Hch Hskip Hfree.
  destruct (Hch 0%nat ltac:(lia)) as (ch0 & Hc0 & Hmiss0). cbn [nth_bucket] in Hc0, Hmiss0.
  destruct (evict_loop_visits NBUCKET d bn st J (Z.to_nat NBUCKET) (HASH NBUCKET bn)
              {| minb := None; minpre := None; mintimestamp := 0 |}
              eq_refl HJ Hch Hskip Hfree)
    as (ch & ch1 & v & ch2 & bv & Hc & Hof & He).
  assert (bget NBUF NBUCKET d bn st =
          recycle NBUCKET (nth_bucket NBUCKET J (HASH NBUCKET bn)) v
            (Some (pred_ref (BucketHead (nth_bucket NBUCKET J (HASH NBUCKET bn))) ch1))
            d bn st) as Hb.
  { rewrite (bget_miss_full NBUF NBUCKET d bn st ch0 Hc0
               ltac:(intros i b Hi Hb; exact (Hmiss0 i b Hi Hb eq_refl)) Hfull).
    exact He. }
  exists ch, ch1, v, ch2, bv. split; [exact Hc|]. split; [exact Hof|].
  split; [exact Hb|]. intros Hlk. rewrite Hb.
  destruct (bucket_slots_range st _ ch Hc) as [HkJ Hin].
  destruct (bucket_slots_range st _ ch0 Hc0) as [Hk0 _].
  destruct Hof as (Hsplit & Hbv & _).
  apply (recycle_returns NBUCKET st v _ _ d bn bv Hbv Hlk); [|exact Hk0].
  unfold pred_ref. destruct (last ch1) as [j|] eqn:Hlast; cbn [ref_in]; [|exact HkJ].
  apply Hin. rewrite Hsplit. apply elem_of_app. left.
  apply last_Some in Hlast as [l' ->]. apply elem_of_app. right. left.
Qed.

(** An older buffer in a later bucket is not chosen: in the scenario's
    cache with release ticks 20, 5, 30, 40 the read of block 5 recycles slot
    0 (tick 20) of bucket 1, not slot 1 (tick 5) of bucket 0. *)
Lemma bget_choice_is_per_bucket :
  returned (bget 4 2 0 5 (scenario_cache no_disk 20 5 30 40)) = Some (Recycled, 0%nat).
Proof. vm_compute. reflexivity. Qed.

(** Among equal timestamps the buffer met first in the list is chosen. *)
Lemma bget_tie_first_in_list :
  returned (bget 4 2 0 5 (scenario_cache no_disk 7 7 7 7)) = Some (Recycled, 2%nat).
Proof. vm_compute. reflexivity. Qed.

(** C10, where the code departs from it.  After block 2 was released at
    tick 2^32 - 1 it is unused and alone in bucket 0.  A read of block 4,
    whose bucket is 0, does not recycle it: with a second slot (block 1,
    bucket 1, released at tick 5) bget recycles that one; with no other
    slot bget panics. *)
Theorem bget_passes_over_saturated_timestamp :
  (exists st,
     saturated_two (binit 2 2) = Ret tt st /\
     bucket_slots st 0 = Some [0%nat] /\
     (ident <$> bufs st !! 0%nat) = Some (0, 2, 1, 0, UINT_MAX) /\
     returned (bget 2 2 0 4 st) = Some (Recycled, 1%nat)) /\
  (exists st,
     saturated_one (binit 1 2) = Ret tt st /\
     bucket_slots st 0 = Some [0%nat] /\
     (ident <$> bufs st !! 0%nat) = Some (0, 2, 1, 0, UINT_MAX) /\
     bget 1 2 0 4 st = Panic "bget: no buffers").
Proof.
  split; eexists; (split; [vm_compute; reflexivity|]); repeat split.
Qed.

(** ** The eviction scan, returning or sleeping *)

Lemma bind_state_inv {S A B} (c : M S A) (k : A -> M S B) s s' :
  state_of (bind c k s) = Some s' ->
  (exists v s1, c s = Ret v s1 /\ state_of (k v s1) = Some s') \/ c s = Sleep s'.
Proof.
  unfold bind. destruct (c s) as [v s1| | |s1|]; cbn [state_of]; intros H;
    try discriminate.
  - left. exists v, s1. auto.
  - right. injection H as <-. reflexivity.
Qed.

Lemma buf_get_awake i s s' : buf_get i s <> Sleep s'.
Proof. unfold buf_get. destruct (bufs s !! i); discriminate. Qed.

Lemma buf_upd_awake i f s s' : buf_upd i f s <> Sleep s'.
Proof. unfold buf_upd, bind, buf_get, modify. destruct (bufs s !! i); discriminate. Qed.

Lemma bucket_next_awake k s s' : bucket_next k s <> Sleep s'.
Proof. unfold bucket_next. destruct (at_index (buckets s) k); discriminate. Qed.

Lemma set_bucket_next_awake k h s s' : set_bucket_next k h s <> Sleep s'.
Proof.
  unfold set_bucket_next, bind, bucket_next, modify.
  destruct (at_index (buckets s) k); discriminate.
Qed.

Lemma ref_set_next_awake r nx s s' : ref_set_next r nx s <> Sleep s'.
Proof.
  destruct r; cbn [ref_set_next]; [apply set_bucket_next_awake | apply buf_upd_awake].
Qed.

Lemma acquiresleep_state i s s' :
  state_of (acquiresleep i s) = Some s' -> same_ident s s'.
Proof.
  destruct (acquiresleep i s) as [u s1| | |s1|] eqn:E; cbn [state_of]; intros H;
    try discriminate; injection H as <-.
  - eapply acquiresleep_same_ident. exact E.
  - unfold acquiresleep, bind, buf_get in E.
    destruct (bufs s !! i) as [b|]; [|discriminate].
    destruct (locked b).
    + injection E as <-. apply same_ident_refl.
    + exfalso. eapply buf_upd_awake. exact E.
Qed.

Ltac awake H :=
  exfalso; revert H;
  first [ apply buf_get_awake | apply buf_upd_awake | apply bucket_next_awake
        | apply set_bucket_next_awake | apply ref_set_next_awake ].

Section bio_states.
Variable NBUCKET : Z.

Lemma scan_bucket_awake fuel : forall idx pre h d bn acc s s',
  scan_bucket NBUCKET fuel idx pre h d bn acc s <> Sleep s'.
Proof.
  induction fuel as [|fuel IH]; intros idx pre h d bn acc s s'; destruct h as [i|];
    cbn [scan_bucket]; try discriminate.
  unfold bind at 1. unfold buf_get. destruct (bufs s !! i) as [bf|]; [|discriminate].
  destruct ((idx =? HASH NBUCKET bn) && (dev bf =? d) && (blockno bf =? bn)).
  - unfold bind. destruct (buf_upd i _ s) eqn:E; try discriminate.
    intros H. injection H as ->. eapply buf_upd_awake. exact E.
  - apply IH.
Qed.

(** A hit of the re-check raises the count of the buffer found and changes
    no device or block. *)
Lemma scan_bucket_hit fuel : forall idx pre h d bn acc s i s',
  scan_bucket NBUCKET fuel idx pre h d bn acc s = Ret (inl i) s' ->
  length (bufs s') = length (bufs s) /\
  forall j, key <$> (bufs s' !! j) = key <$> (bufs s !! j).
Proof.
  induction fuel as [|fuel IH]; intros idx pre h d bn acc s i s' H; destruct h as [k|];
    cbn [scan_bucket] in H; try discriminate.
  apply bind_Ret_inv in H as (bf & s1 & E & H). apply buf_get_Ret in E as [-> Hbf].
  destruct ((idx =? HASH NBUCKET bn) && (dev bf =? d) && (blockno bf =? bn)).
  - apply bind_Ret_inv in H as (u & s2 & E & H). apply ret_inv in H as [_ ->].
    apply buf_upd_Ret in E as (b & Hb & Hbs & _). rewrite Hbs.
    split; [apply length_insert|]. intros j.
    destruct (decide (k = j)) as [<-|Hne].
    + rewrite list_lookup_insert_eq by (eapply lookup_lt_Some; exact Hb).
      rewrite Hb. reflexivity.
    + rewrite list_lookup_insert_ne by exact Hne. reflexivity.
  - eapply IH. exact H.
Qed.

Lemma recycle_state idx v pre d bn st s' :
  state_of (recycle NBUCKET idx v pre d bn st) = Some s' -> keeps v st s'.
Proof.
  unfold recycle. intros H.
  apply bind_state_inv in H as [(u1 & s1 & E1 & H)|H]; [|awake H].
  apply bind_state_inv in H as [(u2 & s2 & E2 & H)|H]; [|awake H].
  apply bind_state_inv in H as [(u3 & s3 & E3 & H)|H]; [|awake H].
  apply bind_state_inv in H as [(u4 & s4 & E4 & H)|H]; [|awake H].
  assert (keeps v st s4) as H04.
  { eapply keeps_trans; [eapply buf_upd_keeps; exact E1|].
    eapply keeps_trans; [eapply buf_upd_keeps; exact E2|].
    eapply keeps_trans; [eapply buf_upd_keeps; exact E3|].
    eapply buf_upd_keeps; exact E4. }
  apply bind_state_inv in H as [(u5 & s5 & E5 & H)|H].
  - assert (same_ident s4 s5) as H45.
    { destruct (negb (idx =? HASH NBUCKET bn)).
      - apply bind_Ret_inv in E5 as (vb & t1 & F1 & E5).
        apply buf_get_Ret in F1 as [-> _].
        apply bind_Ret_inv in E5 as (w1 & t2 & F2 & E5).
        apply bind_Ret_inv in E5 as (h & t3 & F3 & E5).
        apply bucket_next_Ret in F3 as [-> _].
        apply bind_Ret_inv in E5 as (w2 & t4 & F4 & E5).
        apply set_bucket_next_Ret in E5 as (Hb & _).
        eapply same_ident_trans; [|eapply same_ident_trans].
        + destruct pre as [r|]; [|discriminate].
          eapply ref_set_next_same_ident. exact F2.
        + eapply buf_upd_same_ident; [|exact F4]. reflexivity.
        + apply same_ident_bufs. exact Hb.
      - apply ret_inv in E5 as [_ ->]. apply same_ident_refl. }
    apply bind_state_inv in H as [(u6 & s6 & E6 & H)|H].
    + cbn [ret state_of] in H. injection H as <-.
      eapply keeps_trans; [exact H04|]. apply same_ident_keeps.
      eapply same_ident_trans; [exact H45|].
      eapply acquiresleep_same_ident. exact E6.
    + eapply keeps_trans; [exact H04|]. apply same_ident_keeps.
      eapply same_ident_trans; [exact H45|].
      apply (acquiresleep_state v). rewrite H. reflexivity.
  - exfalso. destruct (negb (idx =? HASH NBUCKET bn)); [|discriminate H].
    unfold bind in H.
    destruct (buf_get v s4) as [vb t1| | |t1|] eqn:F1; try discriminate;
      [|injection H as ->; eapply buf_get_awake; exact F1].
    destruct pre as [r|]; [|discriminate].
    destruct (ref_set_next r (next vb) t1) as [w1 t2| | |t2|] eqn:F2; try discriminate;
      [|injection H as ->; eapply ref_set_next_awake; exact F2].
    destruct (bucket_next (HASH NBUCKET bn) t2) as [h t3| | |t3|] eqn:F3; try discriminate;
      [|injection H as ->; eapply bucket_next_awake; exact F3].
    destruct (buf_upd v (set_next h) t3) as [w2 t4| | |t4|] eqn:F4; try discriminate;
      [|injection H as ->; eapply buf_upd_awake; exact F4].
    eapply set_bucket_next_awake. exact H.
Qed.

(** Whether the eviction loop returns or sleeps, every buffer whose count
    was not 0 still has its device and block. *)
Lemma evict_loop_state d bn n : forall idx acc st s',
  victim_ok st acc ->
  state_of (evict_loop NBUCKET n idx d bn acc st) = Some s' ->
  forall j bj bj', bufs st !! j = Some bj -> refcnt bj <> 0 ->
    bufs s' !! j = Some bj' -> key bj' = key bj.
Proof.
  induction n as [|n IH]; intros idx acc st s' Hok H; cbn [evict_loop] in H;
    [discriminate|].
  apply bind_state_inv in H as [(h & s1 & E1 & H)|H]; [|awake H].
  apply bucket_next_Ret in E1 as [-> _].
  apply bind_state_inv in H as [(fuel & s2 & E2 & H)|H]; [|discriminate H].
  unfold gets in E2. injection E2 as <- <-.
  apply bind_state_inv in H as [(r & s3 & E3 & H)|H];
    [|exfalso; eapply scan_bucket_awake; exact H].
  destruct r as [i|acc1].
  - apply scan_bucket_hit in E3 as [_ Hkeys].
    assert (same_ident s3 s') as [_ Hid].
    { apply bind_state_inv in H as [(u & s4 & E4 & H)|H].
      - cbn [ret state_of] in H. injection H as <-.
        eapply acquiresleep_same_ident. exact E4.
      - apply (acquiresleep_state i). rewrite H. reflexivity. }
    intros j bj bj' Hj _ Hj'. specialize (Hkeys j). specialize (Hid j).
    rewrite Hj in Hkeys. rewrite Hj' in Hid.
    destruct (bufs s3 !! j) as [b3|]; [|discriminate].
    cbn in Hkeys, Hid. injection Hkeys as Hkeys. injection Hid as Hid.
    unfold key, ident in *. congruence.
  - apply scan_bucket_Ret in E3; [|exact Hok]. destruct E3 as [-> Hok1].
    destruct (minb acc1) as [v|] eqn:Hm.
    + apply recycle_state in H as [_ Hk].
      destruct (Hok1 v Hm) as (bv & Hbv & Hz).
      intros j bj bj' Hj Hnz Hj'.
      assert (j <> v) as Hne by (intros ->; congruence).
      specialize (Hk j Hne). rewrite Hj, Hj' in Hk. cbn in Hk.
      injection Hk as Hk. unfold key, ident in *. congruence.
    + eapply IH; eassumption.
Qed.

End bio_states.

(** ** C7: only unused buffers are recycled *)

(** C7.  When bget returns a buffer v that its eviction scan selected, the
    reference count of v was 0 when the scan ran; v now carries the
    requested device and block with count 1, and every other slot has the
    device, block, valid flag, count and timestamp it had.  And whether the
    eviction loop returns or sleeps on the victim's lock, every buffer whose
    count was not 0 still has its device and block: no buffer with a
    non-zero count is evicted or re-keyed. *)
Theorem bget_recycles_only_unused
    (NBUF NBUCKET d bn : Z) (st : bcache) (v : nat) (st' : bcache) :
  (bget NBUF NBUCKET d bn st = Ret (Recycled, v) st' ->
   (exists b b', bufs st !! v = Some b /\ refcnt b = 0 /\
      bufs st' !! v = Some b' /\ key b' = (d, bn) /\ refcnt b' = 1) /\
   keeps v st st') /\
  (forall n idx acc,
     minb acc = None ->
     state_of (evict_loop NBUCKET n idx d bn acc st) = Some st' ->
     forall j bj bj', bufs st !! j = Some bj -> refcnt bj <> 0 ->
       bufs st' !! j = Some bj' -> key bj' = key bj).
Proof.
  split.
  - intros H. unfold bget in H.
    apply bind_Ret_inv in H as (h & s1 & E1 & H). apply bucket_next_Ret in E1 as [-> _].
    apply bind_Ret_inv in H as (fuel & s2 & E2 & H). unfold gets in E2.
    injection E2 as <- <-.
    apply bind_Ret_inv in H as (found & s3 & E3 & H).
    apply find_cached_Ret in E3 as ->.
    destruct found as [i|].
    { apply bind_Ret_inv in H as (bf & s4 & _ & H).
      apply bind_Ret_inv in H as (u & s5 & _ & H).
      apply bind_Ret_inv in H as (u' & s6 & _ & H).
      apply ret_inv in H as [H _]. discriminate H. }
    apply bind_Ret_inv in H as (sz & s4 & E4 & H). unfold gets in E4.
    injection E4 as <- <-.
    destruct (size st <? NBUF).
    { repeat (apply bind_Ret_inv in H as (? & ? & _ & H)).
      apply ret_inv in H as [H _]. discriminate H. }
    apply evict_loop_Ret in H as (b & b' & Hb & Hz & Hb' & Hid & Hk).
    2:{ intros v0 Hv0. discriminate Hv0. }
    unfold ident in Hid. injection Hid as Hd Hbn _ Hrc _.
    split; [|exact Hk].
    exists b, b'. unfold key. rewrite Hd, Hbn. auto.
  - intros n idx acc Hacc H. eapply evict_loop_state; [|exact H].
    intros v0 Hv0. rewrite Hacc in Hv0. discriminate Hv0.
Qed.

Lemma bget_recycles_only_unused_witness :
  (exists b, bufs busy_cache !! 0%nat = Some b /\ refcnt b = 0 /\ timestamp b = 10) /\
  (exists st', returned (bget 4 2 0 5 busy_cache) = Some (Recycled, 0%nat) /\
     state_of (bget 4 2 0 5 busy_cache) = Some st' /\
     (key <$> bufs st' !! 2%nat) = Some (0, 3)).
Proof.
  pose (st' := {| bufs := [{| valid := 0; dev := 0; blockno := 5; locked := true;
                              refcnt := 1; next := None; timestamp := 10;
                              data := [] |};
                           released_buf 2 11 None [];
                           fetched_buf 3 0 (Some 0%nat) [];
                           released_buf 4 13 (Some 1%nat) []];
                  size := 4;
                  buckets := [Some 3%nat; Some 2%nat] |}).
  destruct (bget_recycles_only_unused 4 2 0 5 busy_cache 0 st') as [H1 H2].
  split.
  - destruct (H1 eq_refl) as ((b & b' & Hb & Hz & _) & _).
    exists b. split; [exact Hb|]. split; [exact Hz|].
    injection Hb as <-. reflexivity.
  - exists st'. split; [reflexivity|]. split; [reflexivity|].
    pose proof (H2 2%nat 1 {| minb := None; minpre := None; mintimestamp := 0 |}
                  eq_refl eq_refl 2%nat (fetched_buf 3 0 (Some 0%nat) [])
                  (fetched_buf 3 0 (Some 0%nat) []) eq_refl
                  ltac:(discriminate) eq_refl) as Hk.
    cbn [st' bufs lookup list_lookup fmap option_fmap option_map].
    exact (f_equal Some Hk).
Defined.

(** * Further properties of kalloc.c *)

(** ** krefpage *)

(** X1.  krefpage(pa) returns -1 exactly when pa is not page-aligned, lies
    below [end] or at or above PHYSTOP, and then changes nothing.  For every
    other pa the frame has a count c in the table; when c + 1 is an int,
    krefpage returns 1, the count of pa is c + 1, and the free list, memory
    and every other count are as before: krefpage does not ask whether the
    frame is allocated. *)
Theorem krefpage_spec (L : memlayout) (st : kstate) (pa : Z) :
  layout_ok L -> table_ok L st ->
  (forall st', krefpage L pa st = Ret (-1) st' <-> ~ valid_pa L pa /\ st' = st) /\
  (valid_pa L pa ->
   exists c, cnt_of L st pa = Some c /\
     (c < INT_MAX ->
      exists st', krefpage L pa st = Ret 1 st' /\
        cnt_of L st' pa = Some (c + 1) /\
        page_ref_list st' = <[Z.to_nat (PA2PGREF_ID L pa) := c + 1]> (page_ref_list st) /\
        freelist st' = freelist st /\ mem st' = mem st /\
        (forall q, valid_pa L q -> q <> pa -> cnt_of L st' q = cnt_of L st q))).
Proof.
  intros HL Ht. split.
  - intros st'. split.
    + intros H. destruct (valid_pa_guard L pa) as [_ Hg].
      destruct (negb (pa mod PGSIZE =? 0) || (pa <? kend L) || (PHYSTOP L <=? pa)) eqn:E.
      * unfold krefpage in H. rewrite E in H. injection H as <-.
        split; [|reflexivity]. intros Hv. apply Hg in Hv. discriminate.
      * exfalso. assert (valid_pa L pa) as Hv by (apply valid_pa_guard; exact E).
        destruct (valid_pa_cnt L HL st pa Ht Hv) as (c & Hc & Hr).
        destruct (Z.eq_dec c INT_MAX) as [->|Hne].
        -- rewrite (krefpage_overflow L pa st Hv Hc) in H. discriminate.
        -- rewrite (krefpage_exec L pa st c Hv Hc) in H by lia. discriminate.
    + intros [Hn ->]. apply krefpage_invalid. exact Hn.
  - intros Hv. destruct (valid_pa_cnt L HL st pa Ht Hv) as (c & Hc & Hr).
    exists c. split; [exact Hc|]. intros Hmax.
    rewrite (krefpage_exec L pa st c Hv Hc) by lia.
    eexists. split; [reflexivity|].
    split; [eapply cnt_of_set_cnt_eq; exact Hc|].
    split; [reflexivity|]. split; [reflexivity|]. split; [reflexivity|].
    intros q Hq Hne. apply (cnt_of_set_cnt_ne L st pa q (c + 1) c Hc).
    intros E. apply Hne. symmetry. apply (valid_pa_index_inj L HL pa q Hv Hq E).
Qed.

Lemma krefpage_spec_witness :
  exists st', krefpage small_layout 0x80005000 (owned_state 1) = Ret 1 st' /\
    cnt_of small_layout st' 0x80005000 = Some 2.
Proof.
  destruct (krefpage_spec small_layout (owned_state 1) 0x80005000 small_layout_ok
              (owned_state_ok 1 ltac:(unfold INT_MIN, INT_MAX; lia))) as [_ H].
  destruct (H small_frame_valid) as (c & Hc & H1).
  assert (c = 1) as -> by (vm_compute in Hc; congruence).
  destruct H1 as (st' & He & Hc' & _); [unfold INT_MAX; lia|].
  exists st'. split; [exact He | exact Hc'].
Defined.

(** ** kfree and kalloc, one after the other *)

Lemma load64_u64_id m a : u64 (load64 m a) = load64 m a.
Proof. apply u64_small. apply load64_range. Qed.

Lemma insert_insert_id {A} (l : list A) i x y :
  l !! i = Some y -> <[i := y]> (<[i := x]> l) = l.
Proof.
  intros H. rewrite list_insert_insert_eq. apply list_insert_id. exact H.
Qed.

(** X2.  The frame freed last is the frame allocated next.  Let p be a frame
    with one owner that is not on the free list.  Then kfree(p) followed by
    kalloc() returns p; the free list and the reference table are what they
    were before the two calls, the page of p holds the byte 5 and the rest
    of memory is unchanged. *)
Theorem kfree_then_kalloc (L : memlayout) (st : kstate) (p : Z) (l : list Z) :
  layout_ok L -> table_ok L st -> freelist_ok L st l ->
  valid_pa L p -> p ∉ l -> cnt_of L st p = Some 1 ->
  exists st',
    (kfree L p ;; kalloc L) st = Ret p st' /\
    freelist st' = freelist st /\ freelist_ok L st' l /\
    page_ref_list st' = page_ref_list st /\
    (forall a, p <= a < p + PGSIZE -> mem st' a = 5) /\
    (forall a, a < p \/ p + PGSIZE <= a -> mem st' a = mem st a).
Proof.
  intros HL Ht Hok Hv Hnin Hc.
  destruct (kfree_push L HL st p 1 l Ht Hok Hv Hnin Hc ltac:(unfold INT_MIN; lia))
    as (s1 & E1 & Hok1 & Ht1 & Hrefs & Hp).
  destruct (kalloc_pop L HL s1 p l Ht1 Hok1) as (s2 & E2 & _ & Hok2 & _ & Hf2 & Hm2 & Hr2).
  exists s2. rewrite (bind_Ret _ _ _ _ _ E1). split; [exact E2|].
  destruct Hp as (_ & _ & Hld & _ & _ & Hout).
  pose proof (freelist_ok_head L HL st l Hok) as Hhd.
  split; [rewrite Hf2, Hld; apply u64_small; exact Hhd|].
  split; [exact Hok2|]. split; [|split].
  - rewrite Hr2, Hrefs. unfold set_cnt. cbn [page_ref_list].
    apply insert_insert_id. unfold cnt_of in Hc. apply at_index_Some in Hc as [_ Hc].
    exact Hc.
  - intros a Ha. rewrite Hm2. rewrite memset_inside by exact Ha. reflexivity.
  - intros a Ha. rewrite Hm2. rewrite memset_outside by exact Ha. apply Hout. exact Ha.
Qed.

Lemma kfree_then_kalloc_witness :
  exists st',
    (kfree small_layout 0x80005000 ;; kalloc small_layout) (owned_state 1) =
      Ret 0x80005000 st' /\
    page_ref_list st' = [1; 1; 1; 1; 1; 1; 1; 1].
Proof.
  destruct (kfree_then_kalloc small_layout (owned_state 1) 0x80005000 []
              small_layout_ok (owned_state_ok 1 ltac:(unfold INT_MIN, INT_MAX; lia))
              (owned_state_freelist 1) small_frame_valid
              ltac:(apply not_elem_of_nil) eq_refl)
    as (st' & He & _ & _ & Hr & _).
  exists st'. split; [exact He | exact Hr].
Defined.

(** X3.  A frame that is allocated and freed at once returns to the head of
    the free list: with p the head of a well-formed free list, kalloc()
    followed by kfree of its result leaves the free list with the same
    frames in the same order and p with the count 0.  When the free list is
    empty kalloc returns 0, which kfree does not accept: the pair panics. *)
Theorem kalloc_then_kfree (L : memlayout) (st : kstate) :
  layout_ok L -> table_ok L st ->
  (forall p l, freelist_ok L st (p :: l) ->
     exists st',
       (r <- kalloc L ;; kfree L r) st = Ret tt st' /\
       freelist st' = p /\ freelist_ok L st' (p :: l) /\
       page_ref_list st' = <[Z.to_nat (PA2PGREF_ID L p) := 0]> (page_ref_list st) /\
       (forall a, a < p \/ p + PGSIZE <= a -> mem st' a = mem st a)) /\
  (freelist st = 0 -> (r <- kalloc L ;; kfree L r) st = Panic "kfree").
Proof.
  intros HL Ht. split.
  - intros p l Hok.
    destruct (kalloc_pop L HL st p l Ht Hok) as (s1 & E1 & _ & Hok1 & Ht1 & Hf1 & Hm1 & Hr1).
    pose proof Hok as (_ & Hv & Hnd).
    apply Forall_cons in Hv as [Hvp _]. apply NoDup_cons in Hnd as [Hnin _].
    assert (cnt_of L s1 p = Some 1) as Hc1.
    { unfold cnt_of. rewrite Hr1. apply at_index_insert_eq.
      apply (valid_pa_index L HL st p Ht Hvp). }
    destruct (kfree_push L HL s1 p 1 l Ht1 Hok1 Hvp Hnin Hc1 ltac:(unfold INT_MIN; lia))
      as (s2 & E2 & Hok2 & _ & Hrefs & Hp).
    exists s2. rewrite (bind_Ret _ _ _ _ _ E1). split; [exact E2|].
    destruct Hp as (Hf & _ & _ & _ & _ & Hout).
    split; [exact Hf|]. split; [exact Hok2|]. split.
    + rewrite Hrefs. unfold set_cnt. cbn [page_ref_list]. rewrite Hr1.
      apply list_insert_insert_eq.
    + intros a Ha. rewrite Hout by exact Ha. rewrite Hm1. apply memset_outside. exact Ha.
  - intros H0. rewrite (bind_Ret _ _ _ _ _ (kalloc_empty L st H0)).
    apply kfree_panics. intros (_ & Hlo & _).
    destruct HL as (_ & _ & _ & _ & ? & _). lia.
Qed.

Lemma kalloc_then_kfree_witness :
  exists st',
    (r <- kalloc small_layout ;; kfree small_layout r) (cow_state 2) = Ret tt st' /\
    freelist st' = 0x80006000.
Proof.
  destruct (kalloc_then_kfree small_layout (cow_state 2) small_layout_ok) as [H _].
  - split; [reflexivity|]. cbn [page_ref_list cow_state]. unfold INT_MIN, INT_MAX.
    repeat (apply Forall_cons; split; [lia|]). apply Forall_nil. exact I.
  - destruct (H 0x80006000 []) as (st' & He & Hf & _).
    + split; [|split].
      * cbn [free_chain]. split; [reflexivity|]. split; [lia | reflexivity].
      * apply Forall_cons. split; [|apply Forall_nil; exact I].
        unfold valid_pa, small_layout, PGSIZE. cbn.
        repeat apply conj; first [reflexivity | lia].
      * apply NoDup_cons. split; [apply not_elem_of_nil | apply NoDup_nil; exact I].
    + exists st'. split; [exact He | exact Hf].
Defined.

(** ** Successive allocations *)

(** X4.  From a well-formed free list, n calls of kalloc (n at most the
    length of the list) return its first n frames in list order and leave
    the rest as the free list.  The frames returned are different from one
    another, each one is an address kfree accepts, and each has the count 1
    after the n calls. *)
Theorem kalloc_n_prefix (L : memlayout) (n : nat) (st : kstate) (l : list Z) :
  layout_ok L -> table_ok L st -> freelist_ok L st l -> (n <= length l)%nat ->
  exists st',
    kalloc_n L n st = Ret (take n l) st' /\
    freelist_ok L st' (drop n l) /\ table_ok L st' /\
    NoDup (take n l) /\ Forall (valid_pa L) (take n l) /\
    Forall (fun p => cnt_of L st' p = Some 1) (take n l).
Proof.
  intros HL. revert st l. induction n as [|n IH]; intros st l Ht Hok Hn.
  - exists st. cbn [take drop kalloc_n].
    split; [reflexivity|]. split; [exact Hok|]. split; [exact Ht|].
    split; [apply NoDup_nil; exact I|]. split; apply Forall_nil; exact I.
  - destruct l as [|p l]; [simpl in Hn; lia|]. simpl in Hn.
    destruct (kalloc_pop L HL st p l Ht Hok) as (s1 & E1 & _ & Hok1 & Ht1 & _ & _ & Hr1).
    destruct (IH s1 l Ht1 Hok1 ltac:(lia)) as (s2 & E2 & Hok2 & Ht2 & Hnd & Hv & Hc).
    pose proof Hok as (_ & Hvl & Hndl).
    apply Forall_cons in Hvl as [Hvp Hvl]. apply NoDup_cons in Hndl as [Hnin _].
    exists s2. cbn [take drop kalloc_n].
    split; [rewrite (bind_Ret _ _ _ _ _ E1), (bind_Ret _ _ _ _ _ E2); reflexivity|].
    split; [exact Hok2|]. split; [exact Ht2|].
    assert (p ∉ take n l) as Hnt.
    { intros Hin. apply Hnin. apply (subseteq_take n l). exact Hin. }
    split; [apply NoDup_cons; split; assumption|].
    split; [apply Forall_cons; split; assumption|].
    apply Forall_cons. split; [|exact Hc].
    assert (cnt_of L s1 p = Some 1) as Hc1.
    { unfold cnt_of. rewrite Hr1. apply at_index_insert_eq.
      apply (valid_pa_index L HL st p Ht Hvp). }
    clear - HL E2 Hok1 Ht1 Hc1 Hvp Hnin.
    assert (forall m s l0 rs s', table_ok L s -> freelist_ok L s l0 -> p ∉ l0 ->
              cnt_of L s p = Some 1 -> kalloc_n L m s = Ret rs s' ->
              cnt_of L s' p = Some 1) as Hkeep.
    { clear - HL Hvp. induction m as [|m IHm]; intros s l0 rs s' Ht Hok Hnin Hc Hrun.
      - cbn in Hrun. injection Hrun as <- <-. exact Hc.
      - cbn [kalloc_n] in Hrun.
        destruct l0 as [|q l0].
        + destruct Hok as (Hch & _). cbn in Hch.
          rewrite (bind_Ret _ _ _ _ _ (kalloc_empty L s Hch)) in Hrun.
          unfold bind at 1 in Hrun.
          destruct (kalloc_n L m s) as [rs0 s0| | | |] eqn:Em; try discriminate.
          injection Hrun as _ <-.
          eapply (IHm s [] rs0 s0); try eassumption.
          split; [exact Hch|]. split; [apply Forall_nil; exact I | apply NoDup_nil; exact I].
        + destruct (kalloc_pop L HL s q l0 Ht Hok) as (s1 & E1 & _ & Hok1 & Ht1 & _ & _ & Hr1).
          rewrite (bind_Ret _ _ _ _ _ E1) in Hrun. unfold bind at 1 in Hrun.
          destruct (kalloc_n L m s1) as [rs0 s0| | | |] eqn:Em; try discriminate.
          injection Hrun as _ <-.
          apply (IHm s1 l0 rs0 s0 Ht1 Hok1); [| |exact Em].
          * intros Hin. apply Hnin. right. exact Hin.
          * pose proof Hok as (_ & Hvl & _). apply Forall_cons in Hvl as [Hvq _].
            unfold cnt_of. rewrite Hr1. rewrite at_index_insert_ne.
            -- exact Hc.
            -- apply (valid_pa_index L HL s q Ht Hvq).
            -- intros E. apply (valid_pa_index_inj L HL q p Hvq Hvp) in E. subst q.
               apply Hnin. left. }
    eapply Hkeep; eassumption.
Qed.

Lemma kalloc_n_prefix_witness :
  exists st', kalloc_n small_layout 1 (cow_state 2) = Ret [0x80006000] st' /\
    freelist_ok small_layout st' [].
Proof.
  destruct (kalloc_n_prefix small_layout 1 (cow_state 2) [0x80006000] small_layout_ok)
    as (st' & He & Hok & _).
  - split; [reflexivity|]. cbn [page_ref_list cow_state]. unfold INT_MIN, INT_MAX.
    repeat (apply Forall_cons; split; [lia|]). apply Forall_nil. exact I.
  - split; [|split].
    + cbn [free_chain]. split; [reflexivity|]. split; [lia | reflexivity].
    + apply Forall_cons. split; [|apply Forall_nil; exact I].
      unfold valid_pa, small_layout, PGSIZE. cbn.
      repeat apply conj; first [reflexivity | lia].
    + apply NoDup_cons. split; [apply not_elem_of_nil | apply NoDup_nil; exact I].
  - simpl. lia.
  - exists st'. split; [exact He | exact Hok].
Defined.

(** ** A frame freed twice *)

Lemma load64_junk m a :
  (forall x, a <= x < a + 8 -> m x = 5) -> load64 m a = junk_word.
Proof.
  intros H. rewrite (load64_ext m (fun _ => 5) a) by exact H. reflexivity.
Qed.

(** X5.  kfree checks the address but not the count.  Let p be a frame with
    one owner, not on the free list.  kfree(p) called twice returns both
    times and leaves the count of p at -1 and p linked to itself; the next
    two calls of kalloc both return p, and the head of the free list is then
    the junk word 0x0505050505050505 that kalloc wrote over the link. *)
Theorem kfree_twice_then_kalloc (L : memlayout) (st : kstate) (p : Z) (l : list Z) :
  layout_ok L -> table_ok L st -> freelist_ok L st l ->
  valid_pa L p -> p ∉ l -> cnt_of L st p = Some 1 ->
  exists s2 st',
    (kfree L p ;; kfree L p) st = Ret tt s2 /\
    cnt_of L s2 p = Some (-1) /\ freelist s2 = p /\ load64 (mem s2) p = p /\
    (r1 <- kalloc L ;; r2 <- kalloc L ;; ret (r1, r2)) s2 = Ret (p, p) st' /\
    freelist st' = junk_word /\ cnt_of L st' p = Some 1.
Proof.
  intros HL Ht Hok Hv Hnin Hc.
  destruct (kfree_push L HL st p 1 l Ht Hok Hv Hnin Hc ltac:(unfold INT_MIN; lia))
    as (s1 & E1 & Hok1 & Ht1 & Hrefs1 & Hp1).
  assert (cnt_of L s1 p = Some 0) as Hc1.
  { unfold cnt_of. rewrite Hrefs1. fold (cnt_of L (set_cnt L st p (1 - 1)) p).
    eapply cnt_of_set_cnt_eq. exact Hc. }
  pose proof (valid_pa_range L HL p Hv) as [Hr Hpos].
  assert (0 <= p < 2 ^ 64) as Hp64.
  { destruct HL as (_ & _ & _ & _ & _ & _ & ?). unfold PGSIZE in *. lia. }
  pose proof (kfree_exec L p s1 0 Hv Hc1 ltac:(unfold INT_MIN, INT_MAX; lia)) as E2.
  cbn [Z.ltb Z.sub Z.opp Z.add Z.compare Z.pos_sub] in E2.
  destruct Hp1 as (Hf1 & _).
  set (s2 := {| freelist := p;
                page_ref_list := page_ref_list (set_cnt L s1 p (0 - 1));
                mem := store64 (memset (mem s1) p 1 PGSIZE) p (freelist s1) |}) in *.
  assert (cnt_of L s2 p = Some (-1)) as Hc2.
  { unfold cnt_of, s2. cbn [page_ref_list].
    fold (cnt_of L (set_cnt L s1 p (0 - 1)) p).
    eapply cnt_of_set_cnt_eq. exact Hc1. }
  assert (load64 (mem s2) p = p) as Hl2.
  { unfold s2. cbn [mem]. rewrite load64_store64, Hf1. apply u64_small. exact Hp64. }
  assert (p <> 0) as Hnz by lia.
  pose proof (kalloc_exec L s2 (-1) ltac:(exact Hnz) Hc2) as E3.
  change (freelist s2) with p in E3. rewrite Hl2 in E3.
  set (s3 := {| freelist := p;
                page_ref_list := <[Z.to_nat (PA2PGREF_ID L p) := 1]> (page_ref_list s2);
                mem := memset (mem s2) p 5 PGSIZE |}) in *.
  assert (0 <= PA2PGREF_ID L p < Z.of_nat (length (page_ref_list s2))) as Hidx.
  { unfold cnt_of in Hc2. apply at_index_Some in Hc2 as [Hi _]. exact Hi. }
  assert (cnt_of L s3 p = Some 1) as Hc3.
  { unfold cnt_of, s3. cbn [page_ref_list]. apply at_index_insert_eq. exact Hidx. }
  pose proof (kalloc_exec L s3 1 ltac:(exact Hnz) Hc3) as E4.
  change (freelist s3) with p in E4.
  assert (load64 (mem s3) p = junk_word) as Hl3.
  { apply load64_junk. intros x Hx. unfold s3. cbn [mem].
    rewrite memset_inside by (unfold PGSIZE; lia). reflexivity. }
  rewrite Hl3 in E4.
  exists s2. eexists. split.
  { rewrite (bind_Ret _ _ _ _ _ E1). exact E2. }
  split; [exact Hc2|]. split; [reflexivity|]. split; [exact Hl2|]. split.
  { rewrite (bind_Ret _ _ _ _ _ E3), (bind_Ret _ _ _ _ _ E4). reflexivity. }
  split; [reflexivity|].
  unfold cnt_of. cbn [page_ref_list]. apply at_index_insert_eq.
  unfold s3. cbn [page_ref_list]. rewrite length_insert. exact Hidx.
Qed.

Lemma kfree_twice_then_kalloc_witness :
  exists s2 st',
    (kfree small_layout 0x80005000 ;; kfree small_layout 0x80005000) (owned_state 1) =
      Ret tt s2 /\
    (r1 <- kalloc small_layout ;; r2 <- kalloc small_layout ;; ret (r1, r2)) s2 =
      Ret (0x80005000, 0x80005000) st'.
Proof.
  destruct (kfree_twice_then_kalloc small_layout (owned_state 1) 0x80005000 []
              small_layout_ok (owned_state_ok 1 ltac:(unfold INT_MIN, INT_MAX; lia))
              (owned_state_freelist 1) small_frame_valid
              ltac:(apply not_elem_of_nil) eq_refl)
    as (s2 & st' & E1 & _ & _ & _ & E2 & _).
  exists s2, st'. split; [exact E1 | exact E2].
Defined.

(** ** freerange and kinit, frame by frame *)

Lemma elem_of_frames n : forall p q,
  q ∈ frames p n <-> exists k, 0 <= k < Z.of_nat n /\ q = p + PGSIZE * k.
Proof.
  induction n as [|n IH]; intros p q; cbn [frames].
  - split; [intros H; apply elem_of_nil in H; contradiction|].
    intros (k & Hk & _). lia.
  - rewrite elem_of_cons, IH. split.
    + intros [->|(k & Hk & ->)].
      * exists 0. lia.
      * exists (k + 1). unfold PGSIZE. lia.
    + intros (k & Hk & ->). destruct (Z.eq_dec k 0) as [->|Hne].
      * left. lia.
      * right. exists (k - 1). unfold PGSIZE. lia.
Qed.

Lemma length_frames n : forall p, length (frames p n) = n.
Proof. induction n as [|n IH]; intros p; cbn [frames length]; [|rewrite IH]; reflexivity. Qed.

Section freerange_frames.
Variable L : memlayout.
Hypothesis HL : layout_ok L.

(** The frames of a range that lies between [end] and PHYSTOP are addresses
    kfree accepts. *)
Lemma frames_valid p n q :
  p mod PGSIZE = 0 -> kend L <= p -> p + PGSIZE * Z.of_nat n <= PHYSTOP L ->
  q ∈ frames p n -> valid_pa L q.
Proof.
  intros Hp Hlo Hhi Hq. apply elem_of_frames in Hq as (k & Hk & ->).
  split; [|unfold PGSIZE in *; lia].
  rewrite Z.mul_comm. rewrite Z_mod_plus_full. exact Hp.
Qed.

Lemma freerange_loop_frames n : forall p pa_end st l,
  p mod PGSIZE = 0 -> kend L <= p -> p <= PHYSTOP L -> pa_end <= PHYSTOP L ->
  n = Z.to_nat ((pa_end - p) / PGSIZE) ->
  table_ok L st -> freelist_ok L st l ->
  (forall q, q ∈ frames p n -> (q ∉ l) /\ cnt_of L st q = Some 1) ->
  exists st', freerange_loop L n p pa_end st = Ret tt st' /\
    freelist_ok L st' (reverse (frames p n) ++ l) /\ table_ok L st' /\
    (forall q, q ∈ frames p n -> cnt_of L st' q = Some 0) /\
    (forall i, (forall q, q ∈ frames p n -> PA2PGREF_ID L q <> i) ->
       at_index (page_ref_list st') i = at_index (page_ref_list st) i) /\
    (forall a, a < p \/ p + PGSIZE * Z.of_nat n <= a -> mem st' a = mem st a) /\
    (n = O -> st' = st).
Proof.
  pose proof HL as (_ & _ & ? & ? & ? & ? & Htop).
  induction n as [|n IH]; intros p pa_end st l Hp Hlo Hhi Hend Hn Ht Hok Hfr.
  - exists st. cbn [freerange_loop frames]. change (reverse [] ++ l) with l.
    destruct (Z.leb_spec (2 ^ 64) (p + PGSIZE)); [unfold PGSIZE in *; lia|].
    destruct (Z.leb_spec (p + PGSIZE) pa_end) as [Hle|_].
    { exfalso. unfold PGSIZE in *.
      assert (1 <= (pa_end - p) / 4096) by (apply Z.div_le_lower_bound; lia). lia. }
    split; [reflexivity|]. split; [exact Hok|]. split; [exact Ht|].
    split; [intros q Hq; apply elem_of_nil in Hq; contradiction|].
    split; [reflexivity|]. split; reflexivity.
  - assert (p + PGSIZE <= pa_end) as Hle.
    { unfold PGSIZE in *.
      destruct (Z_le_gt_dec (p + 4096) pa_end) as [|Hgt]; [assumption|].
      exfalso. assert ((pa_end - p) / 4096 <= 0); [|lia].
      destruct (Z_le_gt_dec p pa_end).
      - rewrite Z.div_small by lia. lia.
      - assert ((pa_end - p) / 4096 < 0) by (apply Z.div_lt_upper_bound; lia). lia. }
    assert (n = Z.to_nat ((pa_end - (p + PGSIZE)) / PGSIZE)) as Hn'.
    { unfold PGSIZE in *.
      replace (pa_end - (p + 4096)) with (pa_end - p + (-1) * 4096) by lia.
      rewrite Z.div_add by lia. lia. }
    assert (p + PGSIZE * Z.of_nat (S n) <= pa_end) as Hspan.
    { unfold PGSIZE in *.
      pose proof (Z.mul_div_le (pa_end - p) 4096 ltac:(lia)).
      assert (0 <= (pa_end - p) / 4096) by (apply Z.div_pos; lia). lia. }
    assert (forall q, q ∈ frames p (S n) -> valid_pa L q) as Hval.
    { intros q. apply frames_valid; try assumption. lia. }
    assert (valid_pa L p) as Hvp by (apply Hval; left).
    destruct (Hfr p ltac:(left)) as [Hnin Hc].
    destruct (kfree_push L HL st p 1 l Ht Hok Hvp Hnin Hc ltac:(unfold INT_MIN; lia))
      as (s1 & E1 & Hok1 & Ht1 & Hrefs & Hpush).
    assert (forall q, q ∈ frames (p + PGSIZE) n -> q <> p) as Hne.
    { intros q Hq. apply elem_of_frames in Hq as (k & Hk & ->). unfold PGSIZE. lia. }
    destruct (IH (p + PGSIZE) pa_end s1 (p :: l)) as
      (st' & He & Hok' & Ht' & Hzero & Hkeep & Hmem & _); try assumption.
    + rewrite <- Zplus_mod_idemp_l, Hp. reflexivity.
    + unfold PGSIZE. lia.
    + unfold PGSIZE in *. lia.
    + intros q Hq. destruct (Hfr q ltac:(right; exact Hq)) as [Hq1 Hq2].
      split.
      * intros Hin. apply elem_of_cons in Hin as [->|Hin]; [|contradiction].
        apply (Hne p Hq). reflexivity.
      * unfold cnt_of. rewrite Hrefs. fold (cnt_of L (set_cnt L st p (1 - 1)) q).
        rewrite (cnt_of_set_cnt_ne L st p q (1 - 1) 1 Hc); [exact Hq2|].
        intros E. apply (valid_pa_index_inj L HL p q Hvp) in E.
        -- apply (Hne q Hq). symmetry. exact E.
        -- apply Hval. right. exact Hq.
    + exists st'. split; [|split; [|split; [|split; [|split; [|split]]]]].
      * cbn [freerange_loop].
        destruct (Z.leb_spec (2 ^ 64) (p + PGSIZE)); [unfold PGSIZE in *; lia|].
        destruct (Z.leb_spec (p + PGSIZE) pa_end); [|lia].
        rewrite (bind_Ret _ _ _ _ _ E1). exact He.
      * cbn [frames]. rewrite reverse_cons, <- app_assoc. exact Hok'.
      * exact Ht'.
      * intros q Hq. cbn [frames] in Hq. apply elem_of_cons in Hq as [->|Hq];
          [|apply Hzero; exact Hq].
        unfold cnt_of. rewrite Hkeep.
        -- rewrite Hrefs. exact (cnt_of_set_cnt_eq L st p (1 - 1) 1 Hc).
        -- intros q Hq E. apply (valid_pa_index_inj L HL q p) in E.
           ++ apply (Hne q Hq E).
           ++ apply Hval. right. exact Hq.
           ++ exact Hvp.
      * intros i Hi. rewrite Hkeep.
        -- rewrite Hrefs. unfold set_cnt. cbn [page_ref_list].
           apply at_index_insert_ne.
           ++ apply (valid_pa_index L HL st p Ht Hvp).
           ++ apply Hi. left.
        -- intros q Hq. apply Hi. right. exact Hq.
      * intros a Ha. rewrite Hmem by (unfold PGSIZE in *; lia).
        destruct Hpush as (_ & _ & _ & _ & _ & Hout). apply Hout.
        unfold PGSIZE in *. lia.
      * intros Hz. discriminate Hz.
Qed.

End freerange_frames.

Section ranges.
Variable L : memlayout.
Hypothesis HL : layout_ok L.

(** PGROUNDUP of an address up to PHYSTOP is at most PHYSTOP. *)
Lemma PGROUNDUP_le_PHYSTOP a :
  0 <= a <= PHYSTOP L ->
  PGROUNDUP a mod PGSIZE = 0 /\ a <= PGROUNDUP a < a + PGSIZE /\
  PGROUNDUP a <= PHYSTOP L.
Proof.
  intros Ha. pose proof HL as (_ & Hp & _ & _ & _ & _ & Htop).
  destruct (PGROUNDUP_spec a) as [H1 H2]; [lia | unfold PGSIZE in *; lia |].
  split; [exact H1|]. split; [exact H2|].
  unfold PGSIZE in *.
  pose proof (Z.div_mod (PGROUNDUP a) 4096 ltac:(lia)).
  pose proof (Z.div_mod (PHYSTOP L) 4096 ltac:(lia)). lia.
Qed.

(** The frames that freerange visits are the whole pages of the range. *)
Lemma frames_of_range pa_start pa_end q :
  0 <= pa_start <= PHYSTOP L ->
  q ∈ frames (PGROUNDUP pa_start)
        (Z.to_nat ((pa_end - PGROUNDUP pa_start) / PGSIZE)) <->
  q mod PGSIZE = 0 /\ pa_start <= q /\ q + PGSIZE <= pa_end.
Proof.
  intros Hs. destruct (PGROUNDUP_le_PHYSTOP pa_start Hs) as (Hpa & Hpr & _).
  set (p := PGROUNDUP pa_start) in *. rewrite elem_of_frames. unfold PGSIZE in *.
  split.
  - intros (k & Hk & ->).
    assert (0 < (pa_end - p) / 4096) as Hpos by lia.
    assert (0 <= pa_end - p).
    { destruct (Z_le_gt_dec 0 (pa_end - p)); [assumption|].
      assert ((pa_end - p) / 4096 < 0) by (apply Z.div_lt_upper_bound; lia). lia. }
    pose proof (Z.mul_div_le (pa_end - p) 4096 ltac:(lia)).
    split; [|lia]. rewrite Z.mul_comm, Z_mod_plus_full. exact Hpa.
  - intros (Hq & Hlo & Hhi).
    pose proof (Z.div_mod q 4096 ltac:(lia)).
    pose proof (Z.div_mod p 4096 ltac:(lia)).
    exists (q / 4096 - p / 4096). split; [|lia].
    assert (q / 4096 - p / 4096 + 1 <= (pa_end - p) / 4096).
    { apply Z.div_le_lower_bound; lia. }
    lia.
Qed.

End ranges.

(** X6.  freerange(pa_start, pa_end), for a range between [end] and PHYSTOP
    whose whole pages each have the count 1 and are not on the free list:
    the call returns; the pages freed are exactly the page-aligned q with
    pa_start <= q and q + 4096 <= pa_end, a partial page at either end is
    left alone; they are linked in front of the free list, the highest
    first; their counts are 0 and no other count changes.  A range that
    holds no whole page changes nothing. *)
Theorem freerange_spec (L : memlayout) (st : kstate) (l : list Z) (pa_start pa_end : Z) :
  layout_ok L -> table_ok L st -> freelist_ok L st l ->
  kend L <= pa_start <= PHYSTOP L -> pa_end <= PHYSTOP L ->
  (forall q, q mod PGSIZE = 0 -> pa_start <= q -> q + PGSIZE <= pa_end ->
     (q ∉ l) /\ cnt_of L st q = Some 1) ->
  exists st' fr,
    freerange L pa_start pa_end st = Ret tt st' /\
    (forall q, q ∈ fr <-> q mod PGSIZE = 0 /\ pa_start <= q /\ q + PGSIZE <= pa_end) /\
    fr = frames (PGROUNDUP pa_start)
           (Z.to_nat ((pa_end - PGROUNDUP pa_start) / PGSIZE)) /\
    freelist_ok L st' (reverse fr ++ l) /\
    (forall q, q ∈ fr -> cnt_of L st' q = Some 0) /\
    (forall q, valid_pa L q -> q ∉ fr -> cnt_of L st' q = cnt_of L st q) /\
    (fr = [] -> st' = st).
Proof.
  intros HL Ht Hok Hs He Hfr.
  pose proof HL as (_ & _ & ? & ? & ? & ? & _).
  destruct (PGROUNDUP_le_PHYSTOP L HL pa_start ltac:(lia)) as (Hpa & Hpr & Hpt).
  pose proof (frames_of_range L HL pa_start pa_end) as Hrange.
  set (p := PGROUNDUP pa_start) in *.
  set (n := Z.to_nat ((pa_end - p) / PGSIZE)) in *.
  destruct (freerange_loop_frames L HL n p pa_end st l Hpa ltac:(lia) Hpt He eq_refl Ht Hok)
    as (st' & E & Hok' & _ & Hzero & Hkeep & _ & Hnone).
  { intros q Hq. apply Hrange in Hq as (Hq1 & Hq2 & Hq3); [|lia]. apply Hfr; assumption. }
  exists st', (frames p n). split; [exact E|].
  split; [intros q; apply Hrange; lia|]. split; [reflexivity|].
  split; [exact Hok'|]. split; [exact Hzero|]. split.
  - intros q Hv Hq. unfold cnt_of. apply Hkeep. intros q' Hq' E'.
    apply (valid_pa_index_inj L HL q' q) in E'; [congruence| |exact Hv].
    apply Hrange in Hq' as (Hq1 & Hq2 & Hq3); [|lia].
    unfold valid_pa, PGSIZE in *. lia.
  - intros Hnil. apply Hnone.
    rewrite <- (length_frames n p). rewrite Hnil. reflexivity.
Qed.

Lemma freerange_spec_witness :
  exists st',
    freerange small_layout 0x80004800 0x80006800 (owned_state 1) = Ret tt st' /\
    freelist st' = 0x80005000 /\
    page_ref_list st' = [1; 1; 1; 1; 1; 0; 1; 1].
Proof.
  destruct (freerange_spec small_layout (owned_state 1) [] 0x80004800 0x80006800
              small_layout_ok (owned_state_ok 1 ltac:(unfold INT_MIN, INT_MAX; lia))
              (owned_state_freelist 1))
    as (st' & fr & E & _ & Hfr & _).
  - cbn. lia.
  - cbn. lia.
  - intros q Hq Hlo Hhi. split; [apply not_elem_of_nil|].
    assert (q = 0x80005000) as ->.
    { unfold PGSIZE in *. pose proof (Z.div_mod q 4096 ltac:(lia)). lia. }
    reflexivity.
  - exists st'. split; [exact E|].
    pose proof (f_equal (fun o => (fun s => (freelist s, page_ref_list s)) <$> state_of o) E)
      as E'.
    vm_compute in E'. injection E' as Hf Hr.
    split; [exact (eq_sym Hf) | exact (eq_sym Hr)].
Defined.

(** ** The allocator after boot, and its invariant *)

Lemma kinit_run (L : memlayout) (m0 : memory) :
  layout_ok L ->
  exists st0,
    kinit L (boot_state L m0) = Ret tt st0 /\
    freelist_ok L st0 (reverse (frames (PGROUNDUP (kend L)) (frames_at_boot L))) /\
    table_ok L st0 /\
    (forall q, q ∈ frames (PGROUNDUP (kend L)) (frames_at_boot L) <-> valid_pa L q) /\
    (forall q, valid_pa L q -> cnt_of L st0 q = Some 0) /\
    (forall i, 0 <= i < PGREF_MAX_ENTRIES L ->
       (forall q, valid_pa L q -> PA2PGREF_ID L q <> i) ->
       at_index (page_ref_list st0) i = Some 1) /\
    (forall a, a < PGROUNDUP (kend L) \/ PHYSTOP L <= a -> mem st0 a = m0 a).
Proof.
  intros HL. pose proof HL as (Hk & Hpa & ? & ? & ? & ? & Htop).
  destruct (PGREF_MAX_ENTRIES_eq L HL) as [Emax Hmax].
  destruct (kinit_loop_exec (Z.to_nat (PGREF_MAX_ENTRIES L)) 0 (boot_state L m0))
    as (st1 & He1 & Hf1 & Hm1 & Hl1 & Hin1 & _).
  { lia. }
  { unfold boot_state. cbn [page_ref_list]. rewrite length_replicate. lia. }
  unfold boot_state in Hl1, Hf1, Hm1. cbn [page_ref_list freelist mem] in Hl1, Hf1, Hm1.
  rewrite length_replicate in Hl1.
  assert (forall j, 0 <= j < PGREF_MAX_ENTRIES L ->
            at_index (page_ref_list st1) j = Some 1) as Hone.
  { intros j Hj. apply Hin1. lia. }
  assert (table_ok L st1) as Ht1.
  { split; [exact Hl1|]. apply Forall_lookup. intros k x Hx.
    assert (at_index (page_ref_list st1) (Z.of_nat k) = Some 1) as Hk1.
    { apply Hone. apply lookup_lt_Some in Hx. lia. }
    apply at_index_Some in Hk1 as [_ Hk1]. rewrite Nat2Z.id in Hk1.
    rewrite Hx in Hk1. injection Hk1 as ->. unfold INT_MIN, INT_MAX. lia. }
  assert (forall q, q ∈ frames (PGROUNDUP (kend L))
                          (Z.to_nat ((PHYSTOP L - PGROUNDUP (kend L)) / PGSIZE)) <->
                    q mod PGSIZE = 0 /\ kend L <= q /\ q + PGSIZE <= PHYSTOP L) as Hrange.
  { intros q. apply (frames_of_range L HL). lia. }
  destruct (PGROUNDUP_le_PHYSTOP L HL (kend L) ltac:(lia)) as (Hua & Hur & Hut).
  set (p0 := PGROUNDUP (kend L)) in *.
  change (Z.to_nat ((PHYSTOP L - p0) / PGSIZE)) with (frames_at_boot L) in Hrange.
  assert (forall q, q ∈ frames p0 (frames_at_boot L) <-> valid_pa L q) as Hvalid.
  { intros q. rewrite Hrange. unfold valid_pa, PGSIZE in *. split.
    - intros (? & ? & ?). lia.
    - intros (Ha & ? & ?). split; [exact Ha|]. split; [lia|].
      pose proof (Z.div_mod q 4096 ltac:(lia)).
      pose proof (Z.div_mod (PHYSTOP L) 4096 ltac:(lia)). lia. }
  destruct (freerange_loop_frames L HL (frames_at_boot L) p0 (PHYSTOP L) st1 [])
    as (st0 & E & Hok & Ht0 & Hzero & Hkeep & Hmem & _).
  - exact Hua.
  - lia.
  - exact Hut.
  - lia.
  - reflexivity.
  - exact Ht1.
  - split; [|split; [apply Forall_nil; exact I | apply NoDup_nil; exact I]].
    simpl. exact Hf1.
  - intros q Hq. split; [apply not_elem_of_nil|].
    apply Hvalid in Hq. apply Hone.
    pose proof (valid_pa_index L HL st1 q Ht1 Hq). rewrite Hl1 in *. lia.
  - exists st0. rewrite app_nil_r in Hok.
    split; [|split; [exact Hok | split; [exact Ht0 | split; [exact Hvalid|split; [|split]]]]].
    + unfold kinit. rewrite (bind_Ret _ _ _ _ _ He1). exact E.
    + intros q Hq. apply Hzero. apply Hvalid. exact Hq.
    + intros i Hi Hno. rewrite Hkeep; [apply Hone; exact Hi|].
      intros q Hq. apply Hno. apply Hvalid. exact Hq.
    + intros a Ha. rewrite Hmem; [rewrite Hm1; reflexivity|].
      destruct Ha as [Ha|Ha]; [left; exact Ha|]. right.
      assert (p0 + PGSIZE * Z.of_nat (frames_at_boot L) <= PHYSTOP L); [|lia].
      unfold frames_at_boot. fold p0. unfold PGSIZE in *.
      assert (0 <= (PHYSTOP L - p0) / 4096) by (apply Z.div_pos; lia).
      rewrite Z2Nat.id by lia.
      pose proof (Z.mul_div_le (PHYSTOP L - p0) 4096 ltac:(lia)). lia.
Qed.

(** X7.  kinit returns.  Afterwards the free list holds exactly the frames
    that kfree accepts, every page-aligned address from [end] up to PHYSTOP,
    the highest first; each of them has the count 0; every table entry that
    belongs to no such frame (the pages of the kernel image) holds 1; and
    memory below the first free frame is as it was found. *)
Theorem kinit_frees_every_frame (L : memlayout) (m0 : memory) :
  layout_ok L ->
  exists st0 l,
    kinit L (boot_state L m0) = Ret tt st0 /\
    l = reverse (frames (PGROUNDUP (kend L)) (frames_at_boot L)) /\
    freelist_ok L st0 l /\
    (forall q, q ∈ l <-> valid_pa L q) /\
    (forall q, valid_pa L q -> cnt_of L st0 q = Some 0) /\
    (forall i, 0 <= i < PGREF_MAX_ENTRIES L ->
       (forall q, valid_pa L q -> PA2PGREF_ID L q <> i) ->
       at_index (page_ref_list st0) i = Some 1) /\
    (forall a, a < PGROUNDUP (kend L) -> mem st0 a = m0 a).
Proof.
  intros HL.
  destruct (kinit_run L m0 HL) as (st0 & E & Hok & _ & Hv & Hz & Hone & Hm).
  exists st0, (reverse (frames (PGROUNDUP (kend L)) (frames_at_boot L))).
  split; [exact E|]. split; [reflexivity|]. split; [exact Hok|].
  split; [intros q; rewrite elem_of_reverse; apply Hv|].
  split; [exact Hz|]. split; [exact Hone|].
  intros a Ha. apply Hm. left. exact Ha.
Qed.

Lemma kinit_frees_every_frame_witness :
  exists st0,
    kinit small_layout (boot_state small_layout zero_memory) = Ret tt st0 /\
    freelist_ok small_layout st0
      [0x80007000; 0x80006000; 0x80005000; 0x80004000; 0x80003000].
Proof.
  destruct (kinit_frees_every_frame small_layout zero_memory small_layout_ok)
    as (st0 & l & E & Hl & Hok & _).
  exists st0. split; [exact E|]. rewrite Hl in Hok. exact Hok.
Defined.

Section allocator_invariant.
Variable L : memlayout.
Hypothesis HL : layout_ok L.

Lemma kalloc_consistent st l :
  consistent L st l ->
  exists r st', kalloc L st = Ret r st' /\
    ((r = 0 /\ l = [] /\ st' = st) \/
     (exists l', l = r :: l' /\ valid_pa L r /\
        cnt_of L st r = Some 0 /\ cnt_of L st' r = Some 1 /\
        consistent L st' l')).
Proof.
  intros (Ht & Hok & Hcnt). destruct l as [|p l].
  - exists 0, st. destruct Hok as (Hch & _). cbn in Hch.
    split; [apply kalloc_empty; exact Hch|]. left. auto.
  - destruct (kalloc_pop L HL st p l Ht Hok) as (s1 & E1 & _ & Hok1 & Ht1 & _ & _ & Hr1).
    pose proof Hok as (_ & Hvl & Hnd).
    apply Forall_cons in Hvl as [Hvp Hvl]. apply NoDup_cons in Hnd as [Hnin _].
    assert (cnt_of L s1 p = Some 1) as Hc1.
    { unfold cnt_of. rewrite Hr1. apply at_index_insert_eq.
      apply (valid_pa_index L HL st p Ht Hvp). }
    exists p, s1. split; [exact E1|]. right. exists l.
    split; [reflexivity|]. split; [exact Hvp|]. split.
    { destruct (Hcnt p Hvp) as (c & Hc & _ & Hiff). rewrite Hc. f_equal.
      apply Hiff. left. }
    split; [exact Hc1|]. split; [exact Ht1|]. split; [exact Hok1|].
    intros q Hq. destruct (Z.eq_dec q p) as [->|Hne].
    + exists 1. split; [exact Hc1|]. split; [lia|]. split; [contradiction | lia].
    + destruct (Hcnt q Hq) as (c & Hc & Hpos & Hiff). exists c.
      split.
      * unfold cnt_of. rewrite Hr1. rewrite at_index_insert_ne; [exact Hc| |].
        -- apply (valid_pa_index L HL st p Ht Hvp).
        -- intros E. apply Hne. symmetry.
           apply (valid_pa_index_inj L HL p q Hvp Hq E).
      * split; [exact Hpos|]. rewrite <- Hiff. rewrite elem_of_cons.
        split; [auto | intros [?|?]; [contradiction | assumption]].
Qed.

Lemma kfree_consistent st l p c :
  consistent L st l -> valid_pa L p -> cnt_of L st p = Some c -> 1 <= c ->
  exists st', kfree L p st = Ret tt st' /\
    cnt_of L st' p = Some (c - 1) /\
    consistent L st' (if c =? 1 then p :: l else l).
Proof.
  intros (Ht & Hok & Hcnt) Hvp Hc Hc1.
  assert (INT_MIN <= c <= INT_MAX) as Hr.
  { destruct (valid_pa_cnt L HL st p Ht Hvp) as (c' & Hc' & Hr'). congruence. }
  assert (p ∉ l) as Hnin.
  { destruct (Hcnt p Hvp) as (c' & Hc' & _ & Hiff). intros Hin.
    apply Hiff in Hin. rewrite Hc in Hc'. injection Hc' as <-. lia. }
  assert (forall st', page_ref_list st' = page_ref_list (set_cnt L st p (c - 1)) ->
            forall q, valid_pa L q -> q <> p -> cnt_of L st' q = cnt_of L st q) as Hother.
  { intros st' Hrefs q Hq Hne. unfold cnt_of. rewrite Hrefs.
    apply (cnt_of_set_cnt_ne L st p q (c - 1) c Hc).
    intros E. apply Hne. symmetry. apply (valid_pa_index_inj L HL p q Hvp Hq E). }
  destruct (Z.eqb_spec c 1) as [->|Hne1].
  - destruct (kfree_push L HL st p 1 l Ht Hok Hvp Hnin Hc ltac:(unfold INT_MIN; lia))
      as (s1 & E1 & Hok1 & Ht1 & Hrefs & _).
    assert (cnt_of L s1 p = Some 0) as Hc0.
    { unfold cnt_of. rewrite Hrefs. exact (cnt_of_set_cnt_eq L st p (1 - 1) 1 Hc). }
    exists s1. split; [exact E1|]. split; [exact Hc0|].
    split; [exact Ht1|]. split; [exact Hok1|].
    intros q Hq. destruct (Z.eq_dec q p) as [->|Hne].
    + exists 0. split; [exact Hc0|]. split; [lia|]. split; [reflexivity|]. intros _. left.
    + destruct (Hcnt q Hq) as (cq & Hcq & Hpos & Hiff). exists cq.
      split; [rewrite (Hother s1 Hrefs q Hq Hne); exact Hcq|].
      split; [exact Hpos|]. rewrite <- Hiff. rewrite elem_of_cons.
      split; [intros [?|?]; [contradiction | assumption] | auto].
  - pose proof (kfree_exec L p st c Hvp Hc ltac:(unfold INT_MIN in *; lia)) as E1.
    destruct (Z.ltb_spec 0 (c - 1)) as [_|?]; [|lia].
    exists (set_cnt L st p (c - 1)). split; [exact E1|].
    split; [eapply cnt_of_set_cnt_eq; exact Hc|].
    split; [apply table_ok_set_cnt; [exact Ht | unfold INT_MIN in *; lia]|].
    split; [exact Hok|].
    intros q Hq. destruct (Z.eq_dec q p) as [->|Hne].
    + exists (c - 1). split; [eapply cnt_of_set_cnt_eq; exact Hc|].
      split; [lia|]. split; [contradiction | lia].
    + destruct (Hcnt q Hq) as (cq & Hcq & Hpos & Hiff). exists cq.
      split; [rewrite (Hother _ eq_refl q Hq Hne); exact Hcq|].
      split; [exact Hpos | exact Hiff].
Qed.

Lemma krefpage_consistent st l p c :
  consistent L st l -> valid_pa L p -> cnt_of L st p = Some c -> 1 <= c < INT_MAX ->
  exists st', krefpage L p st = Ret 1 st' /\
    cnt_of L st' p = Some (c + 1) /\ consistent L st' l.
Proof.
  intros (Ht & Hok & Hcnt) Hvp Hc Hc1.
  pose proof (krefpage_exec L p st c Hvp Hc ltac:(unfold INT_MIN; lia)) as E1.
  assert (p ∉ l) as Hnin.
  { destruct (Hcnt p Hvp) as (c' & Hc' & _ & Hiff). intros Hin.
    apply Hiff in Hin. rewrite Hc in Hc'. injection Hc' as <-. lia. }
  exists (set_cnt L st p (c + 1)). split; [exact E1|].
  split; [eapply cnt_of_set_cnt_eq; exact Hc|].
  split; [apply table_ok_set_cnt; [exact Ht | unfold INT_MIN; lia]|].
  split; [exact Hok|].
  intros q Hq. destruct (Z.eq_dec q p) as [->|Hne].
  - exists (c + 1). split; [eapply cnt_of_set_cnt_eq; exact Hc|].
    split; [lia|]. split; [contradiction | lia].
  - destruct (Hcnt q Hq) as (cq & Hcq & Hpos & Hiff). exists cq.
    split; [|split; [exact Hpos | exact Hiff]].
    rewrite (cnt_of_set_cnt_ne L st p q (c + 1) c Hc); [exact Hcq|].
    intros E. apply Hne. symmetry. apply (valid_pa_index_inj L HL p q Hvp Hq E).
Qed.

End allocator_invariant.

(** X8.  The invariant of the allocator: the frames on the free list are
    the frames with count 0, no count of a frame is negative.  kinit
    establishes it.  kalloc keeps it and returns either 0, the free list
    being empty, or a frame whose count was 0: a frame that has an owner is
    never handed out.  kfree and krefpage keep it when they are called for
    a frame that has an owner (count at least 1); kfree links the frame in
    exactly when its count was 1. *)
Theorem allocator_consistent (L : memlayout) :
  layout_ok L ->
  (forall m0, exists st0 l,
     kinit L (boot_state L m0) = Ret tt st0 /\ consistent L st0 l) /\
  (forall st l, consistent L st l ->
     exists r st', kalloc L st = Ret r st' /\
       ((r = 0 /\ l = [] /\ st' = st) \/
        (exists l', l = r :: l' /\ valid_pa L r /\
           cnt_of L st r = Some 0 /\ cnt_of L st' r = Some 1 /\
           consistent L st' l'))) /\
  (forall st l p c, consistent L st l ->
     valid_pa L p -> cnt_of L st p = Some c -> 1 <= c ->
     exists st', kfree L p st = Ret tt st' /\
       cnt_of L st' p = Some (c - 1) /\
       consistent L st' (if c =? 1 then p :: l else l)) /\
  (forall st l p c, consistent L st l ->
     valid_pa L p -> cnt_of L st p = Some c -> 1 <= c < INT_MAX ->
     exists st', krefpage L p st = Ret 1 st' /\
       cnt_of L st' p = Some (c + 1) /\ consistent L st' l).
Proof.
  intros HL. split; [|split; [|split]].
  - intros m0. destruct (kinit_run L m0 HL) as (st0 & E & Hok & Ht & Hv & Hz & _).
    exists st0, (reverse (frames (PGROUNDUP (kend L)) (frames_at_boot L))).
    split; [exact E|]. split; [exact Ht|]. split; [exact Hok|].
    intros q Hq. exists 0. split; [apply Hz; exact Hq|]. split; [lia|].
    split; [reflexivity|]. intros _. rewrite elem_of_reverse. apply Hv. exact Hq.
  - apply kalloc_consistent. exact HL.
  - apply kfree_consistent. exact HL.
  - apply krefpage_consistent. exact HL.
Qed.

Lemma cow_state_consistent : consistent small_layout (cow_state 2) [0x80006000].
Proof.
  split; [|split].
  - split; [reflexivity|]. cbn [page_ref_list cow_state]. unfold INT_MIN, INT_MAX.
    repeat (apply Forall_cons; split; [lia|]). apply Forall_nil. exact I.
  - split; [|split].
    + cbn [free_chain]. split; [reflexivity|]. split; [lia | reflexivity].
    + apply Forall_cons. split; [|apply Forall_nil; exact I].
      unfold valid_pa, small_layout, PGSIZE. cbn.
      repeat apply conj; first [reflexivity | lia].
    + apply NoDup_cons. split; [apply not_elem_of_nil | apply NoDup_nil; exact I].
  - intros q (Ha & Hlo & Hhi). unfold small_layout, PGSIZE in *. cbn in Hlo, Hhi.
    assert (q = 0x80003000 \/ q = 0x80004000 \/ q = 0x80005000 \/
            q = 0x80006000 \/ q = 0x80007000) as Hq.
    { pose proof (Z.div_mod q 4096 ltac:(lia)). lia. }
    destruct Hq as [Hq|[Hq|[Hq|[Hq|Hq]]]]; subst q;
      [exists 1 | exists 1 | exists 2 | exists 0 | exists 1];
      (split; [reflexivity|]); (split; [lia|]);
      rewrite list_elem_of_singleton; split; intros HH; lia.
Qed.

Lemma allocator_consistent_witness :
  exists st',
    kfree small_layout 0x80005000 (cow_state 2) = Ret tt st' /\
    consistent small_layout st' [0x80006000].
Proof.
  destruct (allocator_consistent small_layout small_layout_ok) as (_ & _ & H3 & _).
  destruct (H3 (cow_state 2) [0x80006000] 0x80005000 2 cow_state_consistent
              small_frame_valid eq_refl ltac:(lia)) as (st' & E & _ & Hc).
  exists st'. split; [exact E | exact Hc].
Defined.

(** * cow_check *)

Lemma land_bit e n :
  0 <= n -> Z.land e (Z.shiftl 1 n) = if Z.testbit e n then 2 ^ n else 0.
Proof.
  intros Hn. apply Z.bits_inj'. intros i Hi.
  rewrite Z.land_spec, testbit_shiftl_1 by exact Hn.
  destruct (Z.eqb_spec n i) as [<-|Hne].
  - rewrite andb_true_r. destruct (Z.testbit e n) eqn:E.
    + symmetry. apply Z.pow2_bits_true. exact Hn.
    + symmetry. apply Z.bits_0.
  - rewrite andb_false_r. destruct (Z.testbit e n).
    + symmetry. apply Z.pow2_bits_false. exact Hne.
    + symmetry. apply Z.bits_0.
Qed.

Lemma int_of_uint64_pow2 n : 0 <= n < 31 -> int_of_uint64 (2 ^ n) = 2 ^ n.
Proof.
  intros Hn. unfold int_of_uint64.
  assert (0 < 2 ^ n < 2 ^ 31) as Hr.
  { split; [apply Z.pow_pos_nonneg; lia | apply Z.pow_lt_mono_r; lia]. }
  rewrite Z.mod_small by lia.
  destruct (Z.ltb_spec (2 ^ n) (2 ^ 31)); [reflexivity | lia].
Qed.

Section cow_check_facts.
Variable L : memlayout.
Variable walk : Z -> Z -> Z -> K Z.
Variable MAXVA : Z.
Hypothesis Hcb : 8 <= cow_bit L <= 9.

(** What cow_check returns once walk has returned [pte] in state [s1]. *)
Lemma cow_check_exec pagetable va pte st s1 :
  va <= MAXVA -> walk pagetable va 0 st = Ret pte s1 ->
  cow_check L walk MAXVA pagetable va st =
    Ret (if pte =? 0 then 0
         else if negb (Z.testbit (load64 (mem s1) pte) 0) then 0
         else if Z.testbit (load64 (mem s1) pte) (cow_bit L) then PTE_COW L else 0) s1.
Proof.
  intros Hva Hw. unfold cow_check.
  destruct (Z.ltb_spec MAXVA va); [lia|].
  rewrite (bind_Ret _ _ _ _ _ Hw).
  destruct (Z.eqb_spec pte 0) as [|Hne]; [reflexivity|].
  kunfold. destruct (Z.eqb_spec pte 0) as [|_]; [contradiction|]. kunfold.
  unfold PTE_V, PTE_COW.
  rewrite (land_bit _ 0) by lia. change (2 ^ 0) with 1.
  destruct (Z.testbit (load64 (mem s1) pte) 0); cbn [negb Z.eqb]; [|reflexivity].
  rewrite (land_bit _ (cow_bit L)) by lia.
  destruct (Z.testbit (load64 (mem s1) pte) (cow_bit L)).
  - rewrite int_of_uint64_pow2 by lia. rewrite Z.shiftl_1_l. reflexivity.
  - reflexivity.
Qed.

End cow_check_facts.

(** X9.  cow_check(pagetable, va) writes nothing: it returns in the state
    in which walk returned.  For va above MAXVA it returns 0 without calling
    walk.  Otherwise it returns 0 when walk finds no entry (a null
    pointer), or when the entry is not valid; and for a valid entry it
    returns the entry's COW bit: the result is non-zero exactly when walk
    finds an entry that has both the valid bit and the COW bit. *)
Theorem cow_check_spec
    (L : memlayout) (walk : Z -> Z -> Z -> K Z) (MAXVA pagetable va : Z) (st : kstate) :
  8 <= cow_bit L <= 9 ->
  (MAXVA < va -> cow_check L walk MAXVA pagetable va st = Ret 0 st) /\
  (va <= MAXVA -> forall pte s1, walk pagetable va 0 st = Ret pte s1 ->
     exists r, cow_check L walk MAXVA pagetable va st = Ret r s1 /\
       (r = 0 \/ r = PTE_COW L) /\
       (r <> 0 <-> pte <> 0 /\ Z.testbit (load64 (mem s1) pte) 0 = true /\
                   Z.testbit (load64 (mem s1) pte) (cow_bit L) = true)).
Proof.
  intros Hcb. split.
  - intros Hva. unfold cow_check. destruct (Z.ltb_spec MAXVA va); [reflexivity | lia].
  - intros Hva pte s1 Hw.
    rewrite (cow_check_exec L walk MAXVA Hcb pagetable va pte st s1 Hva Hw).
    eexists. split; [reflexivity|].
    assert (PTE_COW L <> 0) as Hnz.
    { unfold PTE_COW. rewrite Z.shiftl_1_l.
      pose proof (Z.pow_pos_nonneg 2 (cow_bit L) ltac:(lia) ltac:(lia)). lia. }
    destruct (Z.eqb_spec pte 0) as [->|Hne].
    { split; [left; reflexivity|]. split; [congruence | intros (? & _); congruence]. }
    destruct (Z.testbit (load64 (mem s1) pte) 0); cbn [negb].
    2:{ split; [left; reflexivity|].
        split; [congruence | intros (_ & ? & _); discriminate]. }
    destruct (Z.testbit (load64 (mem s1) pte) (cow_bit L)).
    + split; [right; reflexivity|]. split; [auto | intros _; exact Hnz].
    + split; [left; reflexivity|].
      split; [congruence | intros (_ & _ & ?); discriminate].
Qed.

Lemma cow_check_spec_witness :
  cow_check small_layout flat_walk 0x3FFFFFFFFF 0x80001000 0x3000 (cow_state 2) =
    Ret 256 (cow_state 2).
Proof.
  destruct (cow_check_spec small_layout flat_walk 0x3FFFFFFFFF 0x80001000 0x3000
              (cow_state 2) ltac:(cbn; lia)) as [_ H].
  destruct (H ltac:(lia) 0x80001018 (cow_state 2) eq_refl) as (r & E & [Hr|Hr] & Hiff).
  - exfalso. destruct Hiff as [_ Hiff]. apply Hiff; [|exact Hr].
    split; [lia|]. split; reflexivity.
  - rewrite E, Hr. reflexivity.
Defined.

(** ** cow_copy, then cow_check *)

Section cow_resolved.
Variable L : memlayout.
Variable walk : Z -> Z -> Z -> K Z.
Variable mappages : Z -> Z -> Z -> Z -> Z -> K Z.

(** cow_copy for a frame with one owner: the state it returns. *)
Lemma cow_copy_fast_exec pagetable va pte st :
  walk pagetable (PGROUNDDOWN va) 0 st = Ret pte st -> pte <> 0 ->
  cnt_of L st (PTE2PA (load64 (mem st) pte)) = Some 1 ->
  exists m',
    cow_copy L walk mappages pagetable va st =
      Ret (PTE2PA (load64 (mem st) pte))
          {| freelist := freelist st; page_ref_list := page_ref_list st; mem := m' |} /\
    (forall a, a < pte \/ pte + 8 <= a -> m' a = mem st a) /\
    load64 m' pte = Z.lor (Z.land (load64 (mem st) pte) (Z.lnot (PTE_COW L))) PTE_W.
Proof.
  intros Hwalk Hpte Hcnt.
  pose proof (load64_range (mem st) pte) as He.
  set (e := load64 (mem st) pte) in *.
  set (e1 := Z.land e (Z.lnot (PTE_COW L))).
  assert (load64 (store64 (mem st) pte e1) pte = e1) as Hl1.
  { rewrite load64_store64. apply u64_land. exact He. }
  assert (0 <= e1 < 2 ^ 64) as He1.
  { rewrite <- Hl1. apply load64_range. }
  set (e2 := Z.lor e1 PTE_W).
  assert (load64 (store64 (store64 (mem st) pte e1) pte e2) pte = e2) as Hl2.
  { rewrite load64_store64. unfold e2. rewrite u64_lor.
    rewrite (u64_small e1) by exact He1. reflexivity. }
  exists (store64 (store64 (mem st) pte e1) pte e2).
  split; [|split; [|exact Hl2]].
  - unfold cow_copy. unfold bind at 1. rewrite Hwalk. kunfold.
    destruct (Z.eqb_spec pte 0) as [|_]; [contradiction|]. kunfold.
    fold e. unfold cnt_of in Hcnt. rewrite Hcnt. cbn [Z.eqb Pos.eqb]. kunfold.
    destruct (Z.eqb_spec pte 0) as [|_]; [contradiction|]. kunfold.
    fold e. fold e1. rewrite Hl1. fold e2. reflexivity.
  - intros a Ha. rewrite !store64_outside by exact Ha. reflexivity.
Qed.

End cow_resolved.

(** X10.  A fault that cow_copy has resolved in place is not reported
    again.  Let the page of va be mapped by the entry at [pte], to a frame
    with one owner, and let walk find that entry whatever the entry holds.
    Then cow_copy returns the frame, and cow_check, called next for the same
    va, returns 0; the entry is then writable. *)
Theorem cow_check_after_cow_copy
    (L : memlayout) (walk : Z -> Z -> Z -> K Z)
    (mappages : Z -> Z -> Z -> Z -> Z -> K Z)
    (MAXVA pagetable va pte : Z) (st : kstate) :
  8 <= cow_bit L <= 9 ->
  walk pagetable (PGROUNDDOWN va) 0 st = Ret pte st -> pte <> 0 ->
  (forall s, (forall a, a < pte \/ pte + 8 <= a -> mem s a = mem st a) ->
     walk pagetable va 0 s = Ret pte s) ->
  cnt_of L st (PTE2PA (load64 (mem st) pte)) = Some 1 ->
  exists st',
    cow_copy L walk mappages pagetable va st =
      Ret (PTE2PA (load64 (mem st) pte)) st' /\
    cow_check L walk MAXVA pagetable va st' = Ret 0 st' /\
    Z.testbit (load64 (mem st') pte) 2 = true.
Proof.
  intros Hcb Hw Hpte Hw' Hcnt.
  destruct (cow_copy_fast_exec L walk mappages pagetable va pte st Hw Hpte Hcnt)
    as (m' & E & Hout & Hl).
  eexists. split; [exact E|]. cbn [mem].
  assert (forall i, 0 <= i ->
            Z.testbit (load64 m' pte) i =
              if i =? 2 then true else if i =? cow_bit L then false
              else Z.testbit (load64 (mem st) pte) i) as Hbits.
  { intros i Hi. rewrite Hl. apply cow_fast_bits; assumption. }
  split; [|rewrite Hbits by lia; reflexivity].
  destruct (Z_lt_ge_dec MAXVA va) as [Hhi|Hlo].
  - unfold cow_check. destruct (Z.ltb_spec MAXVA va); [reflexivity | lia].
  - rewrite (cow_check_exec L walk MAXVA Hcb pagetable va pte _ _ ltac:(lia)
               (Hw' {| freelist := freelist st; page_ref_list := page_ref_list st;
                       mem := m' |} Hout)).
    cbn [mem]. destruct (pte =? 0); [reflexivity|].
    rewrite (Hbits (cow_bit L)) by lia.
    destruct (Z.eqb_spec (cow_bit L) 2); [lia|]. rewrite Z.eqb_refl.
    destruct (negb _); reflexivity.
Qed.

Lemma cow_check_after_cow_copy_witness :
  exists st',
    cow_copy small_layout flat_walk flat_mappages 0x80001000 0x3000 (cow_state 1) =
      Ret 0x80005000 st' /\
    cow_check small_layout flat_walk 0x3FFFFFFFFF 0x80001000 0x3000 st' = Ret 0 st'.
Proof.
  destruct (cow_check_after_cow_copy small_layout flat_walk flat_mappages
              0x3FFFFFFFFF 0x80001000 0x3000 0x80001018 (cow_state 1))
    as (st' & E1 & E2 & _).
  - cbn. lia.
  - reflexivity.
  - lia.
  - intros s _. reflexivity.
  - reflexivity.
  - exists st'. split; [exact E1 | exact E2].
Defined.

(** * Further properties of bio.c *)

(** ** Views of the pool that a step keeps *)

Lemma same_on_refl {A} (f : buf -> A) st : same_on f st st.
Proof. split; auto. Qed.

Lemma same_on_trans {A} (f : buf -> A) s1 s2 s3 :
  same_on f s1 s2 -> same_on f s2 s3 -> same_on f s1 s3.
Proof. intros [L1 H1] [L2 H2]. split; [congruence|]. intros j. rewrite H2. apply H1. Qed.

Lemma same_on_keeps_on {A} (f : buf -> A) v st st' : same_on f st st' -> keeps_on f v st st'.
Proof. intros [Hl H]. split; [exact Hl|]. intros j _. apply H. Qed.

Lemma keeps_on_trans {A} (f : buf -> A) v s1 s2 s3 :
  keeps_on f v s1 s2 -> keeps_on f v s2 s3 -> keeps_on f v s1 s3.
Proof.
  intros [L1 H1] [L2 H2]. split; [congruence|].
  intros j Hj. rewrite H2 by exact Hj. apply H1. exact Hj.
Qed.

Lemma same_on_bufs {A} (f : buf -> A) st st' : bufs st' = bufs st -> same_on f st st'.
Proof. intros E. unfold same_on. rewrite E. auto. Qed.

Lemma buf_upd_keeps_on {A} (f : buf -> A) v g st u st' :
  buf_upd v g st = Ret u st' -> keeps_on f v st st'.
Proof.
  intros H. apply buf_upd_Ret in H as (b & Hb & Hbs & _).
  unfold keeps_on. rewrite Hbs. split.
  - apply length_insert.
  - intros j Hj. rewrite list_lookup_insert_ne by congruence. reflexivity.
Qed.

Lemma buf_upd_same_on {A} (f : buf -> A) i g st u st' :
  (forall b, f (g b) = f b) ->
  buf_upd i g st = Ret u st' -> same_on f st st'.
Proof.
  intros Hf H. apply buf_upd_Ret in H as (b & Hb & Hbs & _).
  unfold same_on. rewrite Hbs. split.
  - apply length_insert.
  - intros j. destruct (decide (i = j)) as [<-|Hne].
    + rewrite list_lookup_insert_eq by (eapply lookup_lt_Some; exact Hb).
      rewrite Hb. simpl. f_equal. apply Hf.
    + rewrite list_lookup_insert_ne by exact Hne. reflexivity.
Qed.

Lemma ref_set_next_same_on r nx st u st' :
  ref_set_next r nx st = Ret u st' ->
  same_on payload st st' /\ size st' = size st /\
  length (buckets st') = length (buckets st).
Proof.
  destruct r as [idx|i]; cbn [ref_set_next]; intros H.
  - apply set_bucket_next_Ret in H as (Hb & Hs & Hk).
    split; [apply same_on_bufs; exact Hb|]. split; [exact Hs|].
    rewrite Hk. apply length_insert.
  - pose proof H as H'. apply buf_upd_Ret in H' as (_ & _ & _ & Hs & Hk).
    split; [eapply buf_upd_same_on; [|exact H]; reflexivity|].
    split; [exact Hs | rewrite Hk; reflexivity].
Qed.

Lemma acquiresleep_Ret i st u st' :
  acquiresleep i st = Ret u st' ->
  exists b, bufs st !! i = Some b /\ locked b = false /\
    bufs st' = <[i := set_locked true b]> (bufs st) /\
    size st' = size st /\ buckets st' = buckets st.
Proof.
  unfold acquiresleep. intros H. binv H. apply buf_get_Ret in E as [-> Hb].
  destruct (locked v) eqn:Hl; [discriminate|].
  apply buf_upd_Ret in H as (b & Hb' & Hbs & Hs & Hk).
  rewrite Hb in Hb'. injection Hb' as <-. exists v. auto.
Qed.

Lemma find_cached_Some fuel : forall h d bn st i st',
  find_cached fuel h d bn st = Ret (Some i) st' ->
  exists b, bufs st !! i = Some b /\ key b = (d, bn).
Proof.
  induction fuel as [|fuel IH]; intros h d bn st i st' H; destruct h as [k|];
    cbn [find_cached] in H; try discriminate;
    try (apply ret_inv in H as [H _]; discriminate H).
  binv H. apply buf_get_Ret in E as [-> Hb].
  destruct (Z.eqb_spec (dev v) d) as [Hd|]; cbn [andb] in H; [|eapply IH; exact H].
  destruct (Z.eqb_spec (blockno v) bn) as [Hbn|]; [|eapply IH; exact H].
  apply ret_inv in H as [H _]. injection H as <-.
  exists v. split; [exact Hb|]. unfold key. congruence.
Qed.

(** The buffer of slot [i] after a chain of updates of that slot. *)
Lemma buf_upd_chain i g st u st' b :
  buf_upd i g st = Ret u st' -> bufs st !! i = Some b ->
  bufs st' !! i = Some (g b) /\ size st' = size st /\ buckets st' = buckets st.
Proof.
  intros H Hb. apply buf_upd_Ret in H as (b0 & Hb0 & Hbs & Hs & Hk).
  rewrite Hb in Hb0. injection Hb0 as <-. rewrite Hbs.
  split; [|auto]. apply list_lookup_insert_eq. eapply lookup_lt_Some. exact Hb.
Qed.

Lemma same_on_lookup {A} (f : buf -> A) st st' i b' :
  same_on f st st' -> bufs st' !! i = Some b' ->
  exists b, bufs st !! i = Some b /\ f b' = f b.
Proof.
  intros [_ H] Hb'. specialize (H i). rewrite Hb' in H.
  destruct (bufs st !! i) as [b|]; [|discriminate].
  exists b. split; [reflexivity|]. cbn in H. congruence.
Qed.

Lemma same_on_lookup_fwd {A} (f : buf -> A) st st' i b :
  same_on f st st' -> bufs st !! i = Some b ->
  exists b', bufs st' !! i = Some b' /\ f b' = f b.
Proof.
  intros [_ H] Hb. specialize (H i). rewrite Hb in H.
  destruct (bufs st' !! i) as [b'|]; [|discriminate].
  exists b'. split; [reflexivity|]. cbn in H. congruence.
Qed.

Lemma keeps_on_insert {A} (f : buf -> A) i b' st st' :
  bufs st' = <[i := b']> (bufs st) -> keeps_on f i st st'.
Proof.
  intros E. unfold keeps_on. rewrite E. split; [apply length_insert|].
  intros j Hj. rewrite list_lookup_insert_ne by congruence. reflexivity.
Qed.

(** ** What a returning bget has done *)

Section bget_inversion.
Variable NBUF : Z.
Variable NBUCKET : Z.

Lemma scan_bucket_inl fuel : forall idx pre h d bn acc st i st',
  scan_bucket NBUCKET fuel idx pre h d bn acc st = Ret (inl i) st' ->
  exists b, bufs st !! i = Some b /\ key b = (d, bn) /\
    bufs st' = <[i := set_refcnt (u32 (refcnt b + 1)) b]> (bufs st) /\
    size st' = size st /\ buckets st' = buckets st.
Proof.
  induction fuel as [|fuel IH]; intros idx pre h d bn acc st i st' H; destruct h as [k|];
    cbn [scan_bucket] in H; try discriminate;
    try (apply ret_inv in H as [H _]; discriminate H).
  apply bind_Ret_inv in H as (bf & s1 & E & H). apply buf_get_Ret in E as [-> Hbf].
  destruct ((idx =? HASH NBUCKET bn) && (dev bf =? d) && (blockno bf =? bn)) eqn:C.
  - apply bind_Ret_inv in H as (u & s2 & E & H). apply ret_inv in H as [H ->].
    injection H as <-.
    apply andb_true_iff in C as [C C3]. apply andb_true_iff in C as [_ C2].
    apply Z.eqb_eq in C2, C3.
    apply buf_upd_Ret in E as (b & Hb & Hbs & Hs & Hk).
    rewrite Hbf in Hb. injection Hb as <-.
    exists bf. split; [exact Hbf|]. split; [unfold key; congruence|]. auto.
  - eapply IH. exact H.
Qed.

Lemma got_hit d bn st i b s1 s2 u1 u2 :
  bufs st !! i = Some b -> key b = (d, bn) ->
  buf_upd i (set_refcnt (u32 (refcnt b + 1))) st = Ret u1 s1 ->
  acquiresleep i s1 = Ret u2 s2 ->
  got d bn st Cached i s2.
Proof.
  intros Hb Hkey E1 E2.
  destruct (buf_upd_chain _ _ _ _ _ _ E1 Hb) as (Hb1 & Hs1 & Hk1).
  apply buf_upd_Ret in E1 as (b0 & Hb0 & Hbs1 & _).
  rewrite Hb in Hb0. injection Hb0 as <-.
  apply acquiresleep_Ret in E2 as (b1 & Hb1' & Hl1 & Hbs2 & Hs2 & Hk2).
  rewrite Hb1 in Hb1'. injection Hb1' as Hb1'. subst b1.
  split; [congruence|]. split.
  - apply (keeps_on_insert payload i
             (set_locked true (set_refcnt (u32 (refcnt b + 1)) b))).
    rewrite Hbs2, Hbs1. apply list_insert_insert_eq.
  - exists b, (set_locked true (set_refcnt (u32 (refcnt b + 1)) b)).
    split; [exact Hb|]. split.
    { rewrite Hbs2. apply list_lookup_insert_eq. rewrite Hbs1, length_insert.
      eapply lookup_lt_Some. exact Hb. }
    split; [exact Hl1|]. split; [reflexivity|]. split; [exact Hkey | congruence].
Qed.

Lemma got_recycle idx v pre d bn st r st' :
  recycle NBUCKET idx v pre d bn st = Ret r st' ->
  r = (Recycled, v) /\
  length (buckets st') = length (buckets st) /\ size st' = size st /\
  keeps_on payload v st st' /\
  exists b b', bufs st !! v = Some b /\ bufs st' !! v = Some b' /\
    locked b = false /\ payload b' = (0, d, bn, true, 1, timestamp b, data b).
Proof.
  unfold recycle. intros H.
  apply bind_Ret_inv in H as (u1 & s1 & E1 & H).
  apply bind_Ret_inv in H as (u2 & s2 & E2 & H).
  apply bind_Ret_inv in H as (u3 & s3 & E3 & H).
  apply bind_Ret_inv in H as (u4 & s4 & E4 & H).
  apply bind_Ret_inv in H as (u5 & s5 & E5 & H).
  apply bind_Ret_inv in H as (u6 & s6 & E6 & H).
  apply ret_inv in H as [-> ->].
  assert (same_on payload s4 s5 /\ size s5 = size s4 /\
          length (buckets s5) = length (buckets s4)) as (H45 & Hs45 & Hk45).
  { destruct (negb (idx =? HASH NBUCKET bn)).
    - apply bind_Ret_inv in E5 as (vb & t1 & F1 & E5).
      apply buf_get_Ret in F1 as [-> _].
      apply bind_Ret_inv in E5 as (w1 & t2 & F2 & E5).
      apply bind_Ret_inv in E5 as (h & t3 & F3 & E5).
      apply bucket_next_Ret in F3 as [-> _].
      apply bind_Ret_inv in E5 as (w2 & t4 & F4 & E5).
      apply set_bucket_next_Ret in E5 as (Hb & Hs & Hk).
      destruct pre as [r|]; [|discriminate].
      apply ref_set_next_same_on in F2 as (G1 & G2 & G3).
      pose proof (buf_upd_same_on payload v (set_next h) _ _ _ ltac:(reflexivity) F4) as G4.
      apply buf_upd_Ret in F4 as (_ & _ & _ & G5 & G6).
      split; [|split].
      + eapply same_on_trans; [exact G1|]. eapply same_on_trans; [exact G4|].
        apply same_on_bufs. exact Hb.
      + congruence.
      + rewrite Hk, length_insert. congruence.
    - apply ret_inv in E5 as [_ ->]. split; [apply same_on_refl | auto]. }
  pose proof (buf_upd_keeps_on payload _ _ _ _ _ E1) as K1.
  pose proof (buf_upd_keeps_on payload _ _ _ _ _ E2) as K2.
  pose proof (buf_upd_keeps_on payload _ _ _ _ _ E3) as K3.
  pose proof (buf_upd_keeps_on payload _ _ _ _ _ E4) as K4.
  pose proof E1 as E1'. apply buf_upd_Ret in E1' as (b & Hb & _).
  destruct (buf_upd_chain _ _ _ _ _ _ E1 Hb) as (Hb1 & Hs1 & Hk1).
  destruct (buf_upd_chain _ _ _ _ _ _ E2 Hb1) as (Hb2 & Hs2 & Hk2).
  destruct (buf_upd_chain _ _ _ _ _ _ E3 Hb2) as (Hb3 & Hs3 & Hk3).
  destruct (buf_upd_chain _ _ _ _ _ _ E4 Hb3) as (Hb4 & Hs4 & Hk4).
  destruct (same_on_lookup_fwd payload _ _ _ _ H45 Hb4) as (b5 & Hb5 & Hp5).
  apply acquiresleep_Ret in E6 as (b5' & Hb5' & Hl5 & Hbs6 & Hs6 & Hk6).
  rewrite Hb5 in Hb5'. injection Hb5' as <-.
  split; [reflexivity|]. split; [congruence|]. split; [congruence|]. split.
  - eapply keeps_on_trans; [exact K1|]. eapply keeps_on_trans; [exact K2|].
    eapply keeps_on_trans; [exact K3|]. eapply keeps_on_trans; [exact K4|].
    eapply keeps_on_trans; [apply same_on_keeps_on; exact H45|].
    eapply keeps_on_insert. exact Hbs6.
  - exists b, (set_locked true b5). split; [exact Hb|]. split.
    { rewrite Hbs6. apply list_lookup_insert_eq. eapply lookup_lt_Some. exact Hb5. }
    unfold payload in Hp5. cbn in Hp5. injection Hp5 as P1 P2 P3 P4 P5 P6 P7.
    split; [congruence|]. unfold payload. cbn. congruence.
Qed.

Lemma got_evict_loop d bn n : forall idx acc st h i st',
  victim_ok st acc ->
  evict_loop NBUCKET n idx d bn acc st = Ret (h, i) st' ->
  h <> Fresh /\ got d bn st h i st'.
Proof.
  induction n as [|n IH]; intros idx acc st h i st' Hok H; cbn [evict_loop] in H;
    [discriminate|].
  apply bind_Ret_inv in H as (hd & s1 & E1 & H). apply bucket_next_Ret in E1 as [-> _].
  apply bind_Ret_inv in H as (fuel & s2 & E2 & H). unfold gets in E2.
  injection E2 as <- <-.
  apply bind_Ret_inv in H as (r & s3 & E3 & H).
  destruct r as [k|acc1].
  - apply bind_Ret_inv in H as (u & s4 & E4 & H). apply ret_inv in H as [H ->].
    injection H as Hh Hi. subst h i. split; [discriminate|].
    apply scan_bucket_inl in E3 as (b & Hb & Hkey & Hbs & Hs & Hk).
    assert (buf_upd k (set_refcnt (u32 (refcnt b + 1))) st = Ret tt s3) as E3'.
    { unfold buf_upd, bind, buf_get, modify. rewrite Hb. f_equal.
      destruct s3; cbn in *. congruence. }
    eapply got_hit; eassumption.
  - apply scan_bucket_Ret in E3; [|exact Hok]. destruct E3 as [-> Hok1].
    destruct (minb acc1) as [v|] eqn:Hm.
    + apply got_recycle in H as (Hr & Hk & Hs & Hkeep & b & b' & Hb & Hb' & Hl & Hp).
      injection Hr as Hh Hi. subst h i. split; [discriminate|].
      destruct (Hok1 v Hm) as (bv & Hbv & Hz). rewrite Hb in Hbv. injection Hbv as <-.
      split; [exact Hk|]. split; [exact Hkeep|].
      exists b, b'. auto 10.
    + eapply IH; eassumption.
Qed.

Lemma got_bget d bn st h i st' :
  bget NBUF NBUCKET d bn st = Ret (h, i) st' ->
  got d bn st h i st' /\
  match h with
  | Cached => True
  | Fresh => size st < NBUF
  | Recycled => NBUF <= size st
  end.
Proof.
  intros H. unfold bget in H.
  apply bind_Ret_inv in H as (hd & s1 & E1 & H). apply bucket_next_Ret in E1 as [-> Hhd].
  apply bind_Ret_inv in H as (fuel & s2 & E2 & H). unfold gets in E2.
  injection E2 as <- <-.
  apply bind_Ret_inv in H as (found & s3 & E3 & H).
  pose proof (find_cached_Ret _ _ _ _ _ _ _ E3) as ->.
  destruct found as [k|].
  - apply find_cached_Some in E3 as (b & Hb & Hkey).
    apply bind_Ret_inv in H as (bf & s4 & E4 & H). apply buf_get_Ret in E4 as [-> Hbf].
    rewrite Hb in Hbf. injection Hbf as <-.
    apply bind_Ret_inv in H as (u & s5 & E5 & H).
    apply bind_Ret_inv in H as (u' & s6 & E6 & H).
    apply ret_inv in H as [H ->]. injection H as Hh Hi. subst h i.
    split; [|exact I]. eapply got_hit; eassumption.
  - apply bind_Ret_inv in H as (sz & s4 & E4 & H). unfold gets in E4.
    injection E4 as <- <-.
    destruct (Z.ltb_spec (size st) NBUF) as [Hlt|Hge].
    + apply bind_Ret_inv in H as (k & s5 & E5 & H).
      unfold slot_of in E5. destruct (Z.ltb_spec (size st) 0) as [|Hnn]; [discriminate|].
      apply ret_inv in E5 as [-> ->].
      apply bind_Ret_inv in H as (u0 & s6 & E6 & H). unfold modify in E6.
      injection E6 as _ Hs6'. subst s6.
      apply bind_Ret_inv in H as (u1 & s7 & E7 & H).
      apply bind_Ret_inv in H as (u2 & s8 & E8 & H).
      apply bind_Ret_inv in H as (u3 & s9 & E9 & H).
      apply bind_Ret_inv in H as (u4 & s10 & E10 & H).
      apply bind_Ret_inv in H as (h1 & s11 & E11 & H).
      apply bucket_next_Ret in E11 as [-> _].
      apply bind_Ret_inv in H as (u5 & s12 & E12 & H).
      apply bind_Ret_inv in H as (u6 & s13 & E13 & H).
      apply bind_Ret_inv in H as (u7 & s14 & E14 & H).
      apply ret_inv in H as [H ->]. injection H as Hh Hi. subst h i.
      pose proof (buf_upd_keeps_on payload _ _ _ _ _ E7) as K1.
      pose proof (buf_upd_keeps_on payload _ _ _ _ _ E8) as K2.
      pose proof (buf_upd_keeps_on payload _ _ _ _ _ E9) as K3.
      pose proof (buf_upd_keeps_on payload _ _ _ _ _ E10) as K4.
      pose proof (buf_upd_keeps_on payload _ _ _ _ _ E12) as K5.
      pose proof E7 as E7'. apply buf_upd_Ret in E7' as (b & Hb & _).
      cbn [bufs] in Hb.
      destruct (buf_upd_chain _ _ _ _ _ _ E7 Hb) as (Hb1 & Hs1 & Hk1).
      destruct (buf_upd_chain _ _ _ _ _ _ E8 Hb1) as (Hb2 & Hs2 & Hk2).
      destruct (buf_upd_chain _ _ _ _ _ _ E9 Hb2) as (Hb3 & Hs3 & Hk3).
      destruct (buf_upd_chain _ _ _ _ _ _ E10 Hb3) as (Hb4 & Hs4 & Hk4).
      destruct (buf_upd_chain _ _ _ _ _ _ E12 Hb4) as (Hb5 & Hs5 & Hk5).
      apply set_bucket_next_Ret in E13 as (Hbs6 & Hs6 & Hk6).
      rewrite <- Hbs6 in Hb5.
      apply acquiresleep_Ret in E14 as (b6 & Hb6 & Hl6 & Hbs7 & Hs7 & Hk7).
      rewrite Hb5 in Hb6. injection Hb6 as <-.
      cbn [size buckets] in *.
      split; [|exact Hlt]. split; [|split].
      * rewrite Hk7, Hk6, length_insert. congruence.
      * eapply keeps_on_trans; [exact K1|]. eapply keeps_on_trans; [exact K2|].
        eapply keeps_on_trans; [exact K3|]. eapply keeps_on_trans; [exact K4|].
        eapply keeps_on_trans; [exact K5|].
        eapply keeps_on_trans; [apply same_on_keeps_on, same_on_bufs; exact Hbs6|].
        eapply keeps_on_insert. exact Hbs7.
      * eexists b, _. split; [exact Hb|]. split.
        { rewrite Hbs7. apply list_lookup_insert_eq. eapply lookup_lt_Some. exact Hb5. }
        cbn in Hl6. split; [exact Hl6|]. split; [reflexivity|].
        split; [reflexivity|]. split; [lia | congruence].
    + apply got_evict_loop in H as [Hne Hg].
      2:{ intros v0 Hv0. discriminate Hv0. }
      split; [exact Hg|]. destruct h; [exact I | congruence | exact Hge].
Qed.

End bget_inversion.

(** X11.  "In either case, return locked buffer."  When bget(d, bn) returns,
    the buffer it returns is keyed to (d, bn) and locked, and it was not
    locked before the call; its data and timestamp are untouched.  On a hit
    the buffer had that key and its count went up by one (modulo 2^32); a
    slot used for the first time is slot [size], taken only while size is
    below NBUF; a recycled buffer had the count 0, taken only when no slot
    is left.  A buffer that is new or recycled is not valid and has count 1.
    No other buffer changes in anything but its list link, and the pool and
    the bucket array keep their lengths. *)
Theorem bget_returns
    (NBUF NBUCKET d bn : Z) (st : bcache) (h : how) (i : nat) (st' : bcache) :
  bget NBUF NBUCKET d bn st = Ret (h, i) st' ->
  got d bn st h i st' /\
  (exists b', bufs st' !! i = Some b' /\ key b' = (d, bn) /\ locked b' = true) /\
  match h with
  | Cached => True
  | Fresh => size st < NBUF
  | Recycled => NBUF <= size st
  end.
Proof.
  intros H. apply got_bget in H as [Hg Hh]. split; [exact Hg|]. split; [|exact Hh].
  destruct Hg as (_ & _ & b & b' & Hb & Hb' & Hl & Hp & Hm).
  exists b'. split; [exact Hb'|].
  unfold payload in Hp. destruct h; injection Hp as P1 P2 P3 P4 P5 P6 P7.
  - destruct Hm as [Hkey _]. unfold key in *. split; congruence.
  - unfold key. split; congruence.
  - unfold key. split; congruence.
Qed.

Lemma bget_returns_witness :
  got 0 5 busy_cache Recycled 0
    {| bufs := [{| valid := 0; dev := 0; blockno := 5; locked := true;
                   refcnt := 1; next := None; timestamp := 10; data := [] |};
                released_buf 2 11 None [];
                fetched_buf 3 0 (Some 0%nat) [];
                released_buf 4 13 (Some 1%nat) []];
       size := 4;
       buckets := [Some 3%nat; Some 2%nat] |}.
Proof.
  destruct (bget_returns 4 2 0 5 busy_cache Recycled 0 _ eq_refl) as (Hg & _).
  exact Hg.
Defined.

(** ** bread returns the block of the disk *)

Lemma coherent_other disk st st' i :
  coherent disk st -> keeps_on payload i st st' ->
  forall j b, j <> i -> bufs st' !! j = Some b -> valid b <> 0 ->
    data b = disk (dev b) (blockno b).
Proof.
  intros Hc [_ Hk] j b' Hj Hb' Hv. specialize (Hk j Hj). rewrite Hb' in Hk.
  destruct (bufs st !! j) as [b|] eqn:Hb; [|discriminate].
  cbn in Hk. injection Hk as P1 P2 P3 P4 P5 P6 P7.
  rewrite P7, P2, P3. apply (Hc j b Hb). congruence.
Qed.

(** X12.  Let every valid buffer of the cache hold the block of the disk it
    is keyed to.  When bread(d, bn) returns, the buffer it returns is keyed
    to (d, bn), valid and locked, and its data is block (d, bn) of the disk;
    every valid buffer still holds the block it is keyed to.  The disk is
    read only for a buffer that is not valid: a buffer found valid in the
    cache is returned with the data it had. *)
Theorem bread_coherent
    (NBUF NBUCKET : Z) (disk : Z -> Z -> list Z) (d bn : Z)
    (st : bcache) (h : how) (i : nat) (st' : bcache) :
  coherent disk st ->
  bread NBUF NBUCKET disk d bn st = Ret (h, i) st' ->
  coherent disk st' /\
  keeps_on payload i st st' /\
  exists b b', bufs st !! i = Some b /\ bufs st' !! i = Some b' /\
    key b' = (d, bn) /\ valid b' <> 0 /\ locked b' = true /\
    data b' = disk d bn /\
    (h = Cached -> valid b <> 0 -> data b' = data b /\ valid b' = valid b).
Proof.
  intros Hc H. unfold bread in H.
  apply bind_Ret_inv in H as ([h0 i0] & s1 & E1 & H). cbn [snd] in H.
  apply bind_Ret_inv in H as (b1 & s2 & E2 & H). apply buf_get_Ret in E2 as [-> Hb1].
  apply bind_Ret_inv in H as (u & s3 & E3 & H). apply ret_inv in H as [H ->].
  injection H as Hh Hi. subst h0 i0.
  apply got_bget in E1 as [(Hk & Hkeep & b & b1' & Hb & Hb1' & Hl & Hp & Hm) _].
  rewrite Hb1 in Hb1'. injection Hb1' as <-.
  assert (key b1 = (d, bn) /\ locked b1 = true /\ data b1 = data b /\
          (h = Cached -> valid b1 = valid b /\ key b = (d, bn)) /\
          (h <> Cached -> valid b1 = 0)) as (Hkey & Hlk & Hdt & Hhit & Hnew).
  { unfold payload in Hp. destruct h; injection Hp as P1 P2 P3 P4 P5 P6 P7;
      unfold key.
    - destruct Hm as [Hm _]. unfold key in Hm.
      repeat split; try congruence; intros HH; try split; congruence.
    - repeat split; try congruence; intros HH; try split; congruence.
    - repeat split; try congruence; intros HH; try split; congruence. }
  destruct (Z.eqb_spec (valid b1) 0) as [Hv0|Hv1].
  - apply bind_Ret_inv in E3 as (u1 & t1 & F1 & F2).
    destruct (buf_upd_chain _ _ _ _ _ _ F1 Hb1) as (Hc1 & _).
    destruct (buf_upd_chain _ _ _ _ _ _ F2 Hc1) as (Hc2 & _).
    pose proof (buf_upd_keeps_on payload _ _ _ _ _ F1) as K1.
    pose proof (buf_upd_keeps_on payload _ _ _ _ _ F2) as K2.
    assert (keeps_on payload i st s3) as Hkeep3.
    { eapply keeps_on_trans; [exact Hkeep|]. eapply keeps_on_trans; eassumption. }
    unfold key in Hkey. injection Hkey as Hd Hbn.
    split; [|split; [exact Hkeep3|]].
    + intros j bj Hbj Hvj. destruct (decide (j = i)) as [->|Hne].
      * rewrite Hc2 in Hbj. injection Hbj as <-. reflexivity.
      * eapply coherent_other; eassumption.
    + eexists b, _. split; [exact Hb|]. split; [exact Hc2|].
      cbn. split; [unfold key; cbn; congruence|]. split; [lia|].
      split; [exact Hlk|]. split; [congruence|].
      intros Hh Hvb. destruct (Hhit Hh) as [Hvv _]. congruence.
  - apply ret_inv in E3 as [_ ->].
    assert (h = Cached) as Hh.
    { destruct h; [reflexivity | |]; exfalso; apply Hv1, Hnew; discriminate. }
    destruct (Hhit Hh) as [Hvv Hkb].
    assert (data b = disk d bn) as Hdb.
    { unfold key in Hkb. injection Hkb as <- <-. apply (Hc i b Hb). congruence. }
    split; [|split; [exact Hkeep|]].
    + intros j bj Hbj Hvj. destruct (decide (j = i)) as [->|Hne].
      * rewrite Hb1 in Hbj. injection Hbj as <-.
        unfold key in Hkey. injection Hkey as -> ->. congruence.
      * eapply coherent_other; eassumption.
    + exists b, b1. split; [exact Hb|]. split; [exact Hb1|].
      split; [exact Hkey|]. split; [exact Hv1|]. split; [exact Hlk|].
      split; [congruence|]. intros _ _. split; [exact Hdt | exact Hvv].
Qed.

Lemma bread_coherent_witness :
  coherent no_disk busy_cache /\
  exists st', bread 4 2 no_disk 0 5 busy_cache = Ret (Recycled, 0%nat) st' /\
    coherent no_disk st'.
Proof.
  assert (coherent no_disk busy_cache) as Hc.
  { intros i b Hb _. do 4 (destruct i as [|i]; [injection Hb as <-; reflexivity|]).
    discriminate Hb. }
  split; [exact Hc|]. eexists. split; [reflexivity|].
  apply (bread_coherent 4 2 no_disk 0 5 busy_cache Recycled 0 _ Hc eq_refl).
Defined.

(** ** bpin and bunpin *)

Lemma u32_succ_pred r : 0 <= r <= UINT_MAX -> u32 (u32 (r + 1) - 1) = r.
Proof.
  unfold u32, UINT_MAX. intros H.
  destruct (Z.eq_dec r (2 ^ 32 - 1)) as [->|Hne]; [reflexivity|].
  rewrite (Z.mod_small (r + 1)) by lia. rewrite Z.mod_small by lia. lia.
Qed.

Lemma u32_pred_succ r : 0 <= r <= UINT_MAX -> u32 (u32 (r - 1) + 1) = r.
Proof.
  unfold u32, UINT_MAX. intros H.
  destruct (Z.eq_dec r 0) as [->|Hne]; [reflexivity|].
  rewrite (Z.mod_small (r - 1)) by lia. rewrite Z.mod_small by lia. lia.
Qed.

Lemma bcache_insert_id st i b :
  bufs st !! i = Some b ->
  {| bufs := <[i := b]> (bufs st); size := size st; buckets := buckets st |} = st.
Proof. intros H. rewrite list_insert_id by exact H. destruct st; reflexivity. Qed.

Lemma set_refcnt_twice r1 r2 b : set_refcnt r2 (set_refcnt r1 b) = set_refcnt r2 b.
Proof. reflexivity. Qed.

Lemma set_refcnt_id b : set_refcnt (refcnt b) b = b.
Proof. destruct b; reflexivity. Qed.

Lemma bpin_exec i st b :
  bufs st !! i = Some b ->
  bpin i st =
    Ret tt {| bufs := <[i := set_refcnt (u32 (refcnt b + 1)) b]> (bufs st);
              size := size st; buckets := buckets st |}.
Proof.
  intros H. unfold bpin. unfold bind at 1. unfold buf_get at 1. rewrite H.
  unfold buf_upd, bind, buf_get, modify. rewrite H. reflexivity.
Qed.

Lemma bunpin_exec i st b :
  bufs st !! i = Some b ->
  bunpin i st =
    Ret tt {| bufs := <[i := set_refcnt (u32 (refcnt b - 1)) b]> (bufs st);
              size := size st; buckets := buckets st |}.
Proof.
  intros H. unfold bunpin. unfold bind at 1. unfold buf_get at 1. rewrite H.
  unfold buf_upd, bind, buf_get, modify. rewrite H. reflexivity.
Qed.

(** X13.  bpin raises the count of a buffer by one and changes nothing
    else, bunpin lowers it by one; in either order the two calls leave the
    cache as it was, the count being a uint.  While a buffer is pinned, its
    count not having wrapped to 0, a bget that returns a recycled buffer
    returns another one. *)
Theorem bpin_bunpin (i : nat) (st : bcache) (b : buf) :
  bufs st !! i = Some b -> 0 <= refcnt b <= UINT_MAX ->
  (bpin i ;; bunpin i) st = Ret tt st /\
  (bunpin i ;; bpin i) st = Ret tt st /\
  exists s1, bpin i st = Ret tt s1 /\
    bufs s1 = <[i := set_refcnt (u32 (refcnt b + 1)) b]> (bufs st) /\
    size s1 = size st /\ buckets s1 = buckets st /\
    (refcnt b < UINT_MAX ->
     forall NBUF NBUCKET d bn v s2,
       bget NBUF NBUCKET d bn s1 = Ret (Recycled, v) s2 -> v <> i).
Proof.
  intros Hb Hr.
  assert (i < length (bufs st))%nat as Hi by (eapply lookup_lt_Some; exact Hb).
  split; [|split].
  - rewrite (bind_Ret _ _ _ _ _ (bpin_exec i st b Hb)).
    rewrite (bunpin_exec i _ (set_refcnt (u32 (refcnt b + 1)) b))
      by (cbn [bufs]; apply list_lookup_insert_eq; exact Hi).
    cbn [bufs size buckets refcnt set_refcnt]. rewrite list_insert_insert_eq.
    rewrite u32_succ_pred by exact Hr. rewrite set_refcnt_twice, set_refcnt_id.
    rewrite bcache_insert_id by exact Hb. reflexivity.
  - rewrite (bind_Ret _ _ _ _ _ (bunpin_exec i st b Hb)).
    rewrite (bpin_exec i _ (set_refcnt (u32 (refcnt b - 1)) b))
      by (cbn [bufs]; apply list_lookup_insert_eq; exact Hi).
    cbn [bufs size buckets refcnt set_refcnt]. rewrite list_insert_insert_eq.
    rewrite u32_pred_succ by exact Hr. rewrite set_refcnt_twice, set_refcnt_id.
    rewrite bcache_insert_id by exact Hb. reflexivity.
  - eexists. split; [apply bpin_exec; exact Hb|]. cbn [bufs size buckets].
    split; [reflexivity|]. split; [reflexivity|]. split; [reflexivity|].
    intros Hlt NBUF NBUCKET d bn v s2 Hg Hv. subst v.
    apply got_bget in Hg as [(_ & _ & b0 & _ & Hb0 & _ & _ & _ & Hz & _) _].
    cbn [bufs] in Hb0. rewrite list_lookup_insert_eq in Hb0 by exact Hi.
    injection Hb0 as <-. cbn in Hz. unfold u32, UINT_MAX in *.
    rewrite Z.mod_small in Hz by lia. lia.
Qed.

Lemma bpin_bunpin_witness :
  (bpin 0 ;; bunpin 0) released_cache = Ret tt released_cache /\
  exists s1, bpin 0 released_cache = Ret tt s1 /\
    returned (bget 4 2 0 5 s1) = Some (Recycled, 2%nat).
Proof.
  destruct (bpin_bunpin 0 released_cache (released_buf 1 10 None []) eq_refl
              ltac:(cbn; unfold UINT_MAX; lia)) as (H1 & _ & s1 & E1 & _).
  split; [exact H1|]. exists s1. split; [exact E1|].
  revert E1. cbv [bpin buf_upd bind buf_get modify]. cbn. intros E1.
  injection E1 as <-. reflexivity.
Defined.

(** ** brelse after bread *)

Lemma buf_get_exec i st b : bufs st !! i = Some b -> buf_get i st = Ret b st.
Proof. intros H. unfold buf_get. rewrite H. reflexivity. Qed.

Lemma buf_upd_exec i g st b :
  bufs st !! i = Some b ->
  buf_upd i g st =
    Ret tt {| bufs := <[i := g b]> (bufs st); size := size st; buckets := buckets st |}.
Proof. intros H. unfold buf_upd, bind, buf_get, modify. rewrite H. reflexivity. Qed.

Lemma brelse_exec t i st b :
  bufs st !! i = Some b ->
  brelse t i st =
    if locked b then
      Ret tt {| bufs := <[i := if u32 (refcnt b - 1) =? 0
                               then set_timestamp t
                                      (set_refcnt (u32 (refcnt b - 1)) (set_locked false b))
                               else set_refcnt (u32 (refcnt b - 1)) (set_locked false b)]>
                          (bufs st);
                size := size st; buckets := buckets st |}
    else Panic "brelse".
Proof.
  intros H. assert (i < length (bufs st))%nat as Hi by (eapply lookup_lt_Some; exact H).
  unfold brelse. rewrite (bind_Ret _ _ _ _ _ (buf_get_exec i st b H)).
  destruct (locked b); [|reflexivity]. cbn [negb]. unfold releasesleep.
  rewrite (bind_Ret _ _ _ _ _ (buf_upd_exec i _ st b H)).
  set (s1 := {| bufs := <[i := set_locked false b]> (bufs st);
                size := size st; buckets := buckets st |}).
  assert (bufs s1 !! i = Some (set_locked false b)) as H1
    by (apply list_lookup_insert_eq; exact Hi).
  rewrite (bind_Ret _ _ _ _ _ (buf_upd_exec i _ s1 _ H1)).
  set (s2 := {| bufs := <[i := set_refcnt (u32 (refcnt b - 1)) (set_locked false b)]>
                          (bufs s1);
                size := size s1; buckets := buckets s1 |}).
  assert (bufs s2 !! i = Some (set_refcnt (u32 (refcnt b - 1)) (set_locked false b)))
    as H2 by (apply list_lookup_insert_eq; unfold s1; cbn [bufs];
              rewrite length_insert; exact Hi).
  rewrite (bind_Ret _ _ _ _ _ (buf_get_exec i s2 _ H2)).
  cbn [refcnt set_refcnt].
  destruct (u32 (refcnt b - 1) =? 0).
  - rewrite (buf_upd_exec i _ s2 _ H2). unfold s2, s1. cbn [bufs size buckets].
    rewrite !list_insert_insert_eq. reflexivity.
  - unfold ret, s2, s1. cbn [bufs size buckets].
    rewrite !list_insert_insert_eq. reflexivity.
Qed.

(** X14.  brelse panics for a buffer whose sleep-lock is not held.  For the
    buffer that a bread has just returned it returns: the buffer is
    unlocked and its count is one lower (modulo 2^32), which for a count
    that was a uint before the bread is the count before the bread when the
    block was cached, and 0 when the buffer was new or recycled; the
    timestamp becomes [ticks] exactly when the count reaches 0; device,
    block, valid flag and data stay, and no other buffer changes. *)
Theorem bread_then_brelse
    (NBUF NBUCKET : Z) (disk : Z -> Z -> list Z) (d bn ticks : Z)
    (st : bcache) (h : how) (i : nat) (s1 : bcache) :
  (forall j bj, bufs st !! j = Some bj -> locked bj = false ->
     brelse ticks j st = Panic "brelse") /\
  (bread NBUF NBUCKET disk d bn st = Ret (h, i) s1 ->
   exists b b1 b2 s2,
     bufs st !! i = Some b /\ bufs s1 !! i = Some b1 /\
     brelse ticks i s1 = Ret tt s2 /\
     bufs s2 = <[i := b2]> (bufs s1) /\ size s2 = size s1 /\ buckets s2 = buckets s1 /\
     locked b2 = false /\ key b2 = (d, bn) /\ valid b2 = valid b1 /\
     data b2 = data b1 /\ next b2 = next b1 /\
     refcnt b2 = u32 (refcnt b1 - 1) /\
     timestamp b2 = (if refcnt b2 =? 0 then ticks else timestamp b) /\
     (0 <= refcnt b <= UINT_MAX ->
      refcnt b2 = match h with Cached => refcnt b | _ => 0 end)).
Proof.
  split.
  - intros j bj Hbj Hl. rewrite (brelse_exec ticks j st bj Hbj), Hl. reflexivity.
  - intros H. unfold bread in H.
    apply bind_Ret_inv in H as ([h0 i0] & t0 & E1 & H). cbn [snd] in H.
    apply bind_Ret_inv in H as (b0 & t1 & E2 & H). apply buf_get_Ret in E2 as [-> Hb0].
    apply bind_Ret_inv in H as (u & t2 & E3 & H). apply ret_inv in H as [H Hs].
    subst t2. injection H as Hh Hi. subst h0 i0.
    apply got_bget in E1 as [(_ & _ & b & b0' & Hb & Hb0' & Hl & Hp & Hm) _].
    rewrite Hb0 in Hb0'. injection Hb0' as <-.
    assert (exists b1, bufs s1 !! i = Some b1 /\ payload b1 =
              (valid b1, dev b0, blockno b0, locked b0, refcnt b0, timestamp b0,
               data b1)) as (b1 & Hb1 & Hp1).
    { destruct (valid b0 =? 0).
      - apply bind_Ret_inv in E3 as (u1 & t3 & F1 & F2).
        destruct (buf_upd_chain _ _ _ _ _ _ F1 Hb0) as (Hc1 & _).
        destruct (buf_upd_chain _ _ _ _ _ _ F2 Hc1) as (Hc2 & _).
        eexists. split; [exact Hc2 | reflexivity].
      - apply ret_inv in E3 as [_ Hs]. rewrite Hs.
        exists b0. split; [exact Hb0 | reflexivity]. }
    unfold payload in Hp1. injection Hp1 as Q2 Q3 Q4 Q5 Q6.
    assert (key b1 = (d, bn) /\ locked b1 = true /\ timestamp b1 = timestamp b /\
            refcnt b1 = match h with Cached => u32 (refcnt b + 1) | _ => 1 end)
      as (Hkey & Hlk & Hts & Hrc).
    { unfold payload in Hp. unfold key.
      destruct h; injection Hp as P1 P2 P3 P4 P5 P6 P7.
      - destruct Hm as [Hm _]. unfold key in Hm. repeat split; congruence.
      - repeat split; congruence.
      - repeat split; congruence. }
    pose proof (brelse_exec ticks i s1 b1 Hb1) as Hx. rewrite Hlk in Hx.
    exists b, b1. eexists. eexists. split; [exact Hb|]. split; [exact Hb1|].
    split; [exact Hx|]. cbn [bufs size buckets].
    split; [reflexivity|]. split; [reflexivity|]. split; [reflexivity|].
    unfold key in *.
    destruct (u32 (refcnt b1 - 1) =? 0) eqn:Hz; cbn;
      rewrite ?Hz; repeat split; try congruence.
    + intros Hr. rewrite Hrc. apply Z.eqb_eq in Hz. rewrite Hrc in Hz.
      destruct h; [|reflexivity|reflexivity].
      rewrite u32_succ_pred in Hz by exact Hr. rewrite u32_succ_pred by exact Hr.
      reflexivity.
    + intros Hr. rewrite Hrc. destruct h; [apply u32_succ_pred; exact Hr | |];
        reflexivity.
Qed.

Lemma bread_then_brelse_witness :
  exists s1 s2,
    bread 4 2 no_disk 0 5 busy_cache = Ret (Recycled, 0%nat) s1 /\
    brelse 77 0 s1 = Ret tt s2 /\
    (payload <$> bufs s2 !! 0%nat) = Some (1, 0, 5, false, 0, 77, []).
Proof.
  pose (s1 := {| bufs := [{| valid := 1; dev := 0; blockno := 5; locked := true;
                              refcnt := 1; next := None; timestamp := 10;
                              data := [] |};
                           released_buf 2 11 None [];
                           fetched_buf 3 0 (Some 0%nat) [];
                           released_buf 4 13 (Some 1%nat) []];
                  size := 4;
                  buckets := [Some 3%nat; Some 2%nat] |}).
  destruct (bread_then_brelse 4 2 no_disk 0 5 77 busy_cache Recycled 0 s1) as [_ H].
  destruct (H eq_refl) as (b & b1 & b2 & s2 & Hb & Hb1 & E & Hbs & _).
  exists s1, s2. split; [reflexivity|]. split; [exact E|].
  revert E. cbv [brelse releasesleep buf_upd bind buf_get modify]. cbn.
  intros E. injection E as <-. reflexivity.
Defined.

(** ** bget, path by path *)

Lemma find_cached_hit fuel : forall h d bn st ch1 i ch2 b,
  chain fuel (bufs st) h = Some (ch1 ++ i :: ch2) ->
  (forall j bj, j ∈ ch1 -> bufs st !! j = Some bj -> key bj <> (d, bn)) ->
  bufs st !! i = Some b -> key b = (d, bn) ->
  find_cached fuel h d bn st = Ret (Some i) st.
Proof.
  induction fuel as [|fuel IH]; intros h d bn st ch1 i ch2 b H Hmiss Hb Hkey;
    destruct h as [k|]; cbn [chain] in H; try discriminate;
    try (destruct ch1; discriminate H).
  destruct (bufs st !! k) as [bk|] eqn:Hk; [|discriminate].
  destruct (chain fuel (bufs st) (next bk)) as [ch'|] eqn:Hc; [|discriminate].
  cbn in H. injection H as H. cbn [find_cached].
  rewrite (bind_Ret _ _ _ _ _ (buf_get_exec k st bk Hk)).
  destruct ch1 as [|j ch1]; cbn [app] in H; injection H as Hj Hch; subst k.
  - rewrite Hb in Hk. injection Hk as <-. unfold key in Hkey.
    injection Hkey as -> ->. rewrite !Z.eqb_refl. reflexivity.
  - assert ((dev bk =? d) && (blockno bk =? bn) = false) as ->.
    { apply andb_false_iff.
      destruct (Z.eqb_spec (dev bk) d) as [E1|]; [|auto].
      destruct (Z.eqb_spec (blockno bk) bn) as [E2|]; [|auto].
      exfalso. apply (Hmiss j bk); [left | exact Hk | unfold key; congruence]. }
    subst ch'. eapply IH; try eassumption.
    intros j' bj Hj'. apply Hmiss. right. exact Hj'.
Qed.

Section bget_paths.
Variable NBUF : Z.
Variable NBUCKET : Z.

Lemma bget_hit_exec d bn st ch1 i ch2 b :
  bucket_slots st (HASH NBUCKET bn) = Some (ch1 ++ i :: ch2) ->
  (forall j bj, j ∈ ch1 -> bufs st !! j = Some bj -> key bj <> (d, bn)) ->
  bufs st !! i = Some b -> key b = (d, bn) ->
  bget NBUF NBUCKET d bn st =
    if locked b then
      Sleep {| bufs := <[i := set_refcnt (u32 (refcnt b + 1)) b]> (bufs st);
               size := size st; buckets := buckets st |}
    else
      Ret (Cached, i)
          {| bufs := <[i := set_locked true (set_refcnt (u32 (refcnt b + 1)) b)]> (bufs st);
             size := size st; buckets := buckets st |}.
Proof.
  intros Hch Hmiss Hb Hkey. unfold bucket_slots in Hch.
  destruct (at_index (buckets st) (HASH NBUCKET bn)) as [h|] eqn:Hh; [|discriminate].
  assert (i < length (bufs st))%nat as Hi by (eapply lookup_lt_Some; exact Hb).
  unfold bget. unfold bind at 1. unfold bucket_next. rewrite Hh.
  unfold bind at 1. unfold gets at 1. unfold bind at 1.
  rewrite (find_cached_hit _ h d bn st ch1 i ch2 b Hch Hmiss Hb Hkey).
  rewrite (bind_Ret _ _ _ _ _ (buf_get_exec i st b Hb)).
  rewrite (bind_Ret _ _ _ _ _ (buf_upd_exec i _ st b Hb)).
  set (s1 := {| bufs := <[i := set_refcnt (u32 (refcnt b + 1)) b]> (bufs st);
                size := size st; buckets := buckets st |}).
  assert (bufs s1 !! i = Some (set_refcnt (u32 (refcnt b + 1)) b)) as H1
    by (apply list_lookup_insert_eq; exact Hi).
  unfold bind at 1. unfold acquiresleep.
  rewrite (bind_Ret _ _ _ _ _ (buf_get_exec i s1 _ H1)).
  cbn [locked set_refcnt]. destruct (locked b); [reflexivity|].
  rewrite (buf_upd_exec i _ s1 _ H1). unfold s1. cbn [bufs size buckets].
  rewrite list_insert_insert_eq. reflexivity.
Qed.

Lemma bget_fresh_exec d bn st ch b h :
  bucket_slots st (HASH NBUCKET bn) = Some ch ->
  (forall j bj, j ∈ ch -> bufs st !! j = Some bj -> key bj <> (d, bn)) ->
  0 <= size st < NBUF ->
  bufs st !! Z.to_nat (size st) = Some b ->
  at_index (buckets st) (HASH NBUCKET bn) = Some h ->
  bget NBUF NBUCKET d bn st =
    if locked b then
      Sleep {| bufs := <[Z.to_nat (size st) :=
                          set_next h (set_refcnt 1 (set_valid 0
                            (set_blockno bn (set_dev d b))))]> (bufs st);
               size := size st + 1;
               buckets := <[Z.to_nat (HASH NBUCKET bn) := Some (Z.to_nat (size st))]>
                            (buckets st) |}
    else
      Ret (Fresh, Z.to_nat (size st))
          {| bufs := <[Z.to_nat (size st) :=
                        set_locked true (set_next h (set_refcnt 1 (set_valid 0
                          (set_blockno bn (set_dev d b)))))]> (bufs st);
             size := size st + 1;
             buckets := <[Z.to_nat (HASH NBUCKET bn) := Some (Z.to_nat (size st))]>
                          (buckets st) |}.
Proof.
  intros Hch Hmiss Hsz Hb Hh. unfold bucket_slots in Hch. rewrite Hh in Hch.
  set (i := Z.to_nat (size st)) in *.
  assert (i < length (bufs st))%nat as Hi by (eapply lookup_lt_Some; exact Hb).
  unfold bget. unfold bind at 1. unfold bucket_next. rewrite Hh.
  unfold bind at 1. unfold gets at 1. unfold bind at 1.
  rewrite (find_cached_miss _ h d bn st ch Hch Hmiss).
  unfold bind at 1. unfold gets.
  destruct (Z.ltb_spec (size st) NBUF); [|lia].
  unfold bind at 1. unfold slot_of.
  destruct (Z.ltb_spec (size st) 0); [lia|]. unfold ret at 1. fold i.
  unfold bind at 1. unfold modify.
  set (s0 := {| bufs := bufs st; size := size st + 1; buckets := buckets st |}).
  rewrite (bind_Ret _ _ _ _ _ (buf_upd_exec i _ s0 b Hb)).
  set (s1 := {| bufs := <[i := set_dev d b]> (bufs s0); size := size s0;
                buckets := buckets s0 |}).
  assert (forall (s : bcache) x, bufs s = <[i := x]> (bufs st) -> bufs s !! i = Some x)
    as Hlk.
  { intros s x E. rewrite E. apply list_lookup_insert_eq. exact Hi. }
  rewrite (bind_Ret _ _ _ _ _ (buf_upd_exec i _ s1 _ (Hlk s1 _ eq_refl))).
  set (s2 := {| bufs := <[i := set_blockno bn (set_dev d b)]> (bufs s1);
                size := size s1; buckets := buckets s1 |}).
  assert (bufs s2 = <[i := set_blockno bn (set_dev d b)]> (bufs st)) as E2
    by (unfold s2, s1, s0; cbn [bufs]; apply list_insert_insert_eq).
  rewrite (bind_Ret _ _ _ _ _ (buf_upd_exec i _ s2 _ (Hlk s2 _ E2))).
  set (s3 := {| bufs := <[i := set_valid 0 (set_blockno bn (set_dev d b))]> (bufs s2);
                size := size s2; buckets := buckets s2 |}).
  assert (bufs s3 = <[i := set_valid 0 (set_blockno bn (set_dev d b))]> (bufs st)) as E3
    by (unfold s3; cbn [bufs]; rewrite E2; apply list_insert_insert_eq).
  rewrite (bind_Ret _ _ _ _ _ (buf_upd_exec i _ s3 _ (Hlk s3 _ E3))).
  set (s4 := {| bufs := <[i := set_refcnt 1 (set_valid 0 (set_blockno bn (set_dev d b)))]>
                          (bufs s3);
                size := size s3; buckets := buckets s3 |}).
  assert (bufs s4 = <[i := set_refcnt 1 (set_valid 0 (set_blockno bn (set_dev d b)))]>
                      (bufs st)) as E4
    by (unfold s4; cbn [bufs]; rewrite E3; apply list_insert_insert_eq).
  assert (bucket_next (HASH NBUCKET bn) s4 = Ret h s4) as F4.
  { unfold bucket_next. unfold s4, s3, s2, s1, s0. cbn [buckets]. rewrite Hh.
    reflexivity. }
  rewrite (bind_Ret _ _ _ _ _ F4).
  rewrite (bind_Ret _ _ _ _ _ (buf_upd_exec i _ s4 _ (Hlk s4 _ E4))).
  set (s5 := {| bufs := <[i := set_next h (set_refcnt 1 (set_valid 0
                                 (set_blockno bn (set_dev d b))))]> (bufs s4);
                size := size s4; buckets := buckets s4 |}).
  assert (bufs s5 = <[i := set_next h (set_refcnt 1 (set_valid 0
                             (set_blockno bn (set_dev d b))))]> (bufs st)) as E5
    by (unfold s5; cbn [bufs]; rewrite E4; apply list_insert_insert_eq).
  assert (set_bucket_next (HASH NBUCKET bn) (Some i) s5 =
          Ret tt {| bufs := bufs s5; size := size s5;
                    buckets := <[Z.to_nat (HASH NBUCKET bn) := Some i]> (buckets s5) |})
    as F5.
  { unfold set_bucket_next, bind, bucket_next, modify.
    unfold s5, s4, s3, s2, s1, s0. cbn [buckets]. rewrite Hh. reflexivity. }
  rewrite (bind_Ret _ _ _ _ _ F5).
  set (s6 := {| bufs := bufs s5; size := size s5;
                buckets := <[Z.to_nat (HASH NBUCKET bn) := Some i]> (buckets s5) |}).
  unfold bind at 1. unfold acquiresleep.
  rewrite (bind_Ret _ _ _ _ _ (buf_get_exec i s6 _ (Hlk s6 _ E5))).
  cbn [locked set_next set_refcnt set_valid set_blockno set_dev].
  destruct (locked b).
  - f_equal. unfold s6. cbn [bufs size buckets]. rewrite E5. reflexivity.
  - rewrite (buf_upd_exec i _ s6 _ (Hlk s6 _ E5)). unfold ret. f_equal.
    unfold s6. cbn [bufs size buckets]. rewrite E5, list_insert_insert_eq.
    reflexivity.
Qed.

Lemma evict_loop_none d bn st : forall n idx acc,
  minb acc = None ->
  (forall j, (j < n)%nat ->
     exists chj, bucket_slots st (nth_bucket NBUCKET j idx) = Some chj /\
       forall i b, i ∈ chj -> bufs st !! i = Some b ->
         (nth_bucket NBUCKET j idx = HASH NBUCKET bn -> key b <> (d, bn)) /\
         candidate UINT_MAX b = false) ->
  evict_loop NBUCKET n idx d bn acc st = Panic "bget: no buffers".
Proof.
  induction n as [|n IH]; intros idx acc Hacc Hall; [reflexivity|].
  destruct (Hall 0%nat ltac:(lia)) as (ch & Hc & Hch). cbn [nth_bucket] in Hc, Hch.
  rewrite (evict_loop_step NBUCKET n idx d bn acc st ch Hc
             ltac:(intros i b Hi Hb; apply (Hch i b Hi Hb))).
  assert (forall k, k ∈ ch -> is_Some (bufs st !! k)) as Hin.
  { intros k Hk. unfold bucket_slots in Hc.
    destruct (at_index (buckets st) idx); [|discriminate].
    eapply chain_lookup; eassumption. }
  destruct (scan_list_spec (bufs st) ch (BucketHead idx)
              {| minb := minb acc; minpre := minpre acc; mintimestamp := UINT_MAX |} Hin)
    as [[E _] | (ch1 & v & ch2 & bv & Hof & _)]; cbn [mintimestamp] in *.
  - rewrite E. cbn [minb]. rewrite Hacc. apply IH; [reflexivity|].
    intros j Hj. apply (Hall (S j)). lia.
  - exfalso. destruct Hof as (-> & Hbv & Hz & Ht & _).
    destruct (Hch v bv ltac:(apply elem_of_app; right; left) Hbv) as [_ Hf].
    apply candidate_false in Hf; [lia | exact Hz].
Qed.

End bget_paths.

(** X15.  A block that is cached is found.  Let the list of the block's
    bucket be well formed and let slot i be the first on it that is keyed to
    (d, bn).  If the sleep-lock of i is free, bget(d, bn) returns i, locked
    and with its count raised by one, and changes nothing else: size, bucket
    heads and all other buffers are as before.  If the lock is held, the
    caller sleeps with the count already raised. *)
Theorem bget_cached
    (NBUF NBUCKET d bn : Z) (st : bcache) (ch1 : list nat) (i : nat)
    (ch2 : list nat) (b : buf) :
  bucket_slots st (HASH NBUCKET bn) = Some (ch1 ++ i :: ch2) ->
  (forall j bj, j ∈ ch1 -> bufs st !! j = Some bj -> key bj <> (d, bn)) ->
  bufs st !! i = Some b -> key b = (d, bn) ->
  (locked b = false ->
   bget NBUF NBUCKET d bn st =
     Ret (Cached, i)
         {| bufs := <[i := set_locked true (set_refcnt (u32 (refcnt b + 1)) b)]> (bufs st);
            size := size st; buckets := buckets st |}) /\
  (locked b = true ->
   bget NBUF NBUCKET d bn st =
     Sleep {| bufs := <[i := set_refcnt (u32 (refcnt b + 1)) b]> (bufs st);
              size := size st; buckets := buckets st |}).
Proof.
  intros Hch Hmiss Hb Hkey.
  rewrite (bget_hit_exec NBUF NBUCKET d bn st ch1 i ch2 b Hch Hmiss Hb Hkey).
  split; intros ->; reflexivity.
Qed.

Lemma bget_cached_witness :
  bget 4 2 0 3 released_cache =
    Ret (Cached, 2%nat)
        {| bufs := [released_buf 1 10 None [];
                    released_buf 2 11 None [];
                    fetched_buf 3 12 (Some 0%nat) [];
                    released_buf 4 13 (Some 1%nat) []];
           size := 4;
           buckets := [Some 3%nat; Some 2%nat] |}.
Proof.
  destruct (bget_cached 4 2 0 3 released_cache [] 2 [0%nat]
              (released_buf 3 12 (Some 0%nat) []) eq_refl) as [H _].
  - intros j bj Hj. apply elem_of_nil in Hj. contradiction.
  - reflexivity.
  - reflexivity.
  - exact (H eq_refl).
Defined.

(** X16.  A block that is not cached takes an unused slot while one is
    left.  Let the list of the block's bucket be well formed and hold no
    buffer keyed to (d, bn), and let size be below NBUF.  If the sleep-lock
    of slot [size] is free, bget(d, bn) returns that slot: it is keyed to
    (d, bn), not valid, locked, with count 1 and its old data and
    timestamp; it is linked in at the head of the bucket's list; size is one
    more; no other buffer and no other bucket changes. *)
Theorem bget_fresh
    (NBUF NBUCKET d bn : Z) (st : bcache) (ch : list nat) (b : buf) (h : option nat) :
  bucket_slots st (HASH NBUCKET bn) = Some ch ->
  (forall j bj, j ∈ ch -> bufs st !! j = Some bj -> key bj <> (d, bn)) ->
  0 <= size st < NBUF ->
  bufs st !! Z.to_nat (size st) = Some b -> locked b = false ->
  at_index (buckets st) (HASH NBUCKET bn) = Some h ->
  bget NBUF NBUCKET d bn st =
    Ret (Fresh, Z.to_nat (size st))
        {| bufs := <[Z.to_nat (size st) :=
                      {| valid := 0; dev := d; blockno := bn; locked := true;
                         refcnt := 1; next := h; timestamp := timestamp b;
                         data := data b |}]> (bufs st);
           size := size st + 1;
           buckets := <[Z.to_nat (HASH NBUCKET bn) := Some (Z.to_nat (size st))]>
                        (buckets st) |}.
Proof.
  intros Hch Hmiss Hsz Hb Hl Hh.
  rewrite (bget_fresh_exec NBUF NBUCKET d bn st ch b h Hch Hmiss Hsz Hb Hh), Hl.
  reflexivity.
Qed.

Lemma bget_fresh_witness :
  bget 4 2 0 7 (binit 4 2) =
    Ret (Fresh, 0%nat)
        {| bufs := [{| valid := 0; dev := 0; blockno := 7; locked := true;
                       refcnt := 1; next := None; timestamp := 0; data := [] |};
                    zero_buf; zero_buf; zero_buf];
           size := 1;
           buckets := [None; Some 0%nat] |}.
Proof.
  apply (bget_fresh 4 2 0 7 (binit 4 2) [] zero_buf None eq_refl).
  - intros j bj Hj. apply elem_of_nil in Hj. contradiction.
  - cbn. lia.
  - reflexivity.
  - reflexivity.
  - reflexivity.
Defined.

(** X17.  "bget: no buffers".  Let every slot be claimed, and let each of
    the NBUCKET buckets that the walk from the block's bucket visits have a
    well-formed list on which no buffer is keyed to (d, bn) and every buffer
    is in use (count not 0) or carries a timestamp of 2^32 - 1 or more.
    Then bget(d, bn) panics with "bget: no buffers". *)
Theorem bget_no_buffers (NBUF NBUCKET d bn : Z) (st : bcache) :
  0 < NBUCKET -> NBUF <= size st ->
  (forall j, (j < Z.to_nat NBUCKET)%nat ->
     exists chj,
       bucket_slots st (nth_bucket NBUCKET j (HASH NBUCKET bn)) = Some chj /\
       forall i b, i ∈ chj -> bufs st !! i = Some b ->
         key b <> (d, bn) /\ (refcnt b <> 0 \/ UINT_MAX <= timestamp b)) ->
  bget NBUF NBUCKET d bn st = Panic "bget: no buffers".
Proof.
  intros Hpos Hfull Hall.
  destruct (Hall 0%nat ltac:(lia)) as (ch0 & Hc0 & Hch0). cbn [nth_bucket] in Hc0.
  rewrite (bget_miss_full NBUF NBUCKET d bn st ch0 Hc0
             ltac:(intros i b Hi Hb; apply (Hch0 i b Hi Hb)) Hfull).
  apply evict_loop_none; [reflexivity|].
  intros j Hj. destruct (Hall j Hj) as (chj & Hc & Hch). exists chj.
  split; [exact Hc|]. intros i b Hi Hb. destruct (Hch i b Hi Hb) as [Hk Hu].
  split; [intros _; exact Hk|]. apply candidate_false. intros Hz.
  destruct Hu as [Hu|Hu]; [contradiction | exact Hu].
Qed.

Lemma bget_no_buffers_witness :
  bget 1 2 0 4 {| bufs := [fetched_buf 2 0 None []]; size := 1;
                  buckets := [Some 0%nat; None] |} = Panic "bget: no buffers".
Proof.
  apply bget_no_buffers.
  - lia.
  - cbn. lia.
  - intros j Hj. change (Z.to_nat 2) with 2%nat in Hj.
    destruct j as [|[|j]]; [| |lia].
    + exists [0%nat]. split; [reflexivity|]. intros i b Hi Hb.
      apply list_elem_of_singleton in Hi. subst i. injection Hb as <-.
      split; [discriminate | left; discriminate].
    + exists []. split; [reflexivity|]. intros i b Hi. apply elem_of_nil in Hi.
      contradiction.
Defined.

(** ** Bucket lists *)

Lemma chain_is_chain fuel : forall bs h ch,
  chain fuel bs h = Some ch -> is_chain bs h ch /\ (length ch <= fuel)%nat.
Proof.
  induction fuel as [|fuel IH]; intros bs h ch H; destruct h as [k|];
    cbn [chain] in H; try discriminate.
  - injection H as <-. split; [reflexivity | cbn; lia].
  - destruct (bs !! k) as [b|] eqn:Hk; [|discriminate].
    destruct (chain fuel bs (next b)) as [ch'|] eqn:Hc; [|discriminate].
    cbn in H. injection H as <-. destruct (IH _ _ _ Hc) as [H1 H2].
    split; [|cbn; lia]. cbn [is_chain]. split; [reflexivity|]. exists b. auto.
  - injection H as <-. split; [reflexivity | cbn; lia].
Qed.

Lemma is_chain_chain fuel : forall bs h ch,
  is_chain bs h ch -> (length ch <= fuel)%nat -> chain fuel bs h = Some ch.
Proof.
  induction fuel as [|fuel IH]; intros bs h ch H Hl; destruct ch as [|i ch];
    cbn [is_chain] in H; cbn [length] in Hl; try lia.
  - subst h. reflexivity.
  - subst h. reflexivity.
  - destruct H as (-> & b & Hb & H). cbn [chain]. rewrite Hb.
    rewrite (IH bs (next b) ch H ltac:(lia)). reflexivity.
Qed.

Lemma is_chain_functional bs : forall ch1 h ch2,
  is_chain bs h ch1 -> is_chain bs h ch2 -> ch1 = ch2.
Proof.
  induction ch1 as [|i ch1 IH]; intros h [|j ch2] H1 H2; cbn [is_chain] in *.
  - reflexivity.
  - destruct H2 as (E & _). congruence.
  - destruct H1 as (E & _). congruence.
  - destruct H1 as (E1 & b1 & Hb1 & H1), H2 as (E2 & b2 & Hb2 & H2).
    assert (i = j) as <- by congruence. rewrite Hb1 in Hb2. injection Hb2 as <-.
    f_equal. eapply IH; eassumption.
Qed.

(** A list is the same in a pool whose buffers on it have the same links. *)
Lemma is_chain_ext bs bs' : forall ch h,
  (forall i, i ∈ ch -> next <$> (bs' !! i) = next <$> (bs !! i)) ->
  is_chain bs h ch -> is_chain bs' h ch.
Proof.
  induction ch as [|i ch IH]; intros h Hext H; cbn [is_chain] in *; [exact H|].
  destruct H as (-> & b & Hb & H). split; [reflexivity|].
  pose proof (Hext i ltac:(left)) as Hi. rewrite Hb in Hi.
  destruct (bs' !! i) as [b'|]; [|discriminate]. cbn in Hi. injection Hi as Hi.
  exists b'. split; [reflexivity|]. rewrite Hi. apply IH; [|exact H].
  intros j Hj. apply Hext. right. exact Hj.
Qed.

Lemma is_chain_app bs : forall ch1 h v ch2,
  is_chain bs h (ch1 ++ v :: ch2) ->
  exists bv, bs !! v = Some bv /\ is_chain bs (next bv) ch2.
Proof.
  induction ch1 as [|j ch1 IH]; intros h v ch2 H; cbn [app is_chain] in H.
  - destruct H as (_ & b & Hb & H). exists b. auto.
  - destruct H as (_ & b & _ & H). eapply IH. exact H.
Qed.

(** The list without [v], once the [next] of its predecessor (the last slot
    of [ch1], or the list head) skips it. *)
Lemma is_chain_unlink bs bs' v ch2 bv : forall ch1 h,
  is_chain bs h (ch1 ++ v :: ch2) -> NoDup (ch1 ++ v :: ch2) ->
  bs !! v = Some bv ->
  (forall i, i ∈ ch1 ++ ch2 -> last ch1 <> Some i ->
     next <$> (bs' !! i) = next <$> (bs !! i)) ->
  (forall j, last ch1 = Some j -> next <$> (bs' !! j) = Some (next bv)) ->
  is_chain bs' (match ch1 with [] => next bv | _ => h end) (ch1 ++ ch2).
Proof.
  induction ch1 as [|j ch1 IH]; intros h H Hnd Hbv Hsame Hpred.
  - cbn [app] in *. cbn [is_chain] in H. destruct H as (_ & b & Hb & H).
    rewrite Hbv in Hb. injection Hb as <-.
    apply (is_chain_ext bs); [|exact H].
    intros i Hi. apply Hsame; [exact Hi | discriminate].
  - cbn [app] in *. cbn [is_chain] in H. destruct H as (-> & bj & Hbj & H).
    apply NoDup_cons in Hnd as [Hj Hnd].
    cbn [is_chain]. split; [reflexivity|].
    destruct ch1 as [|j' ch1].
    + cbn [app] in *. pose proof (Hpred j eq_refl) as Hp.
      destruct (bs' !! j) as [bj'|]; [|discriminate]. cbn in Hp. injection Hp as Hp.
      exists bj'. split; [reflexivity|]. rewrite Hp.
      cbn [is_chain] in H. destruct H as (_ & b & Hb & H).
      rewrite Hbv in Hb. injection Hb as <-.
      apply (is_chain_ext bs); [|exact H].
      intros i Hi. apply Hsame; [right; exact Hi|].
      cbn. intros E. injection E as ->. apply Hj. right. exact Hi.
    + assert (last (j :: j' :: ch1) = last (j' :: ch1)) as Hlast by reflexivity.
      assert (last (j' :: ch1) <> Some j) as Hnl.
      { intros E. apply Hj. apply elem_of_app. left.
        apply last_Some in E as [l' E]. rewrite E. apply elem_of_app. right. left. }
      pose proof (Hsame j ltac:(left) ltac:(rewrite Hlast; exact Hnl)) as Hs.
      rewrite Hbj in Hs. destruct (bs' !! j) as [bj'|]; [|discriminate].
      cbn in Hs. injection Hs as Hs. exists bj'. split; [reflexivity|]. rewrite Hs.
      apply (IH (next bj) H Hnd Hbv).
      * intros i Hi Hl. apply Hsame; [right; exact Hi | rewrite Hlast; exact Hl].
      * intros k Hk. apply Hpred. rewrite Hlast. exact Hk.
Qed.

Lemma NoDup_bound (l : list nat) (n : nat) :
  NoDup l -> (forall i, i ∈ l -> (i < n)%nat) -> (length l <= n)%nat.
Proof.
  intros Hnd Hb.
  assert (length l <= length (seq 0 n))%nat as H; [|rewrite length_seq in H; exact H].
  apply submseteq_length.
  apply NoDup_submseteq; [exact Hnd|]. intros i Hi. apply elem_of_seq.
  specialize (Hb i Hi). lia.
Qed.

(** ** The invariant, from lists *)

Section invariant.
Variable NBUF : Z.
Variable NBUCKET : Z.

Lemma wf_intro st :
  0 < NBUCKET -> length (buckets st) = Z.to_nat NBUCKET ->
  0 <= size st <= NBUF -> length (bufs st) = Z.to_nat NBUF ->
  (forall k, 0 <= k < NBUCKET ->
     exists h ch, at_index (buckets st) k = Some h /\
       is_chain (bufs st) h ch /\ NoDup ch /\
       forall i, i ∈ ch <->
         (i < Z.to_nat (size st))%nat /\
         exists b, bufs st !! i = Some b /\ HASH NBUCKET (blockno b) = k) ->
  (forall i j bi bj,
     (i < Z.to_nat (size st))%nat -> (j < Z.to_nat (size st))%nat ->
     bufs st !! i = Some bi -> bufs st !! j = Some bj ->
     key bi = key bj -> i = j) ->
  wf NBUF NBUCKET st.
Proof.
  intros H1 H2 H3 H4 H5 H6. split; [exact H1|]. split; [exact H2|].
  split; [exact H3|]. split; [exact H4|]. split; [|exact H6].
  intros k Hk. destruct (H5 k Hk) as (h & ch & Hh & Hc & Hnd & Hm).
  exists ch. split; [|split; assumption].
  unfold bucket_slots. rewrite Hh. apply is_chain_chain; [exact Hc|].
  apply NoDup_bound; [exact Hnd|]. intros i Hi. apply Hm in Hi as [Hi _]. lia.
Qed.

Lemma wf_chain st k :
  wf NBUF NBUCKET st -> 0 <= k < NBUCKET ->
  exists h ch, at_index (buckets st) k = Some h /\
    bucket_slots st k = Some ch /\
    is_chain (bufs st) h ch /\ NoDup ch /\
    forall i, i ∈ ch <->
      (i < Z.to_nat (size st))%nat /\
      exists b, bufs st !! i = Some b /\ HASH NBUCKET (blockno b) = k.
Proof.
  intros (_ & _ & _ & _ & H5 & _) Hk. destruct (H5 k Hk) as (ch & Hc & Hnd & Hm).
  pose proof Hc as Hc'. unfold bucket_slots in Hc'.
  destruct (at_index (buckets st) k) as [h|] eqn:Hh; [|discriminate].
  exists h, ch. split; [reflexivity|]. split; [exact Hc|].
  split; [apply (chain_is_chain _ _ _ _ Hc')|]. split; assumption.
Qed.

Lemma HASH_range bn : 0 < NBUCKET -> 0 <= HASH NBUCKET bn < NBUCKET.
Proof. intros H. unfold HASH. apply Z.mod_pos_bound. exact H. Qed.

(** A state that differs in no device, block or link, and has the same
    size and bucket heads, satisfies the invariant too. *)
Lemma wf_same_links st st' :
  wf NBUF NBUCKET st -> same_on link st st' ->
  size st' = size st -> buckets st' = buckets st ->
  wf NBUF NBUCKET st'.
Proof.
  intros Hwf [Hlen Hlink] Hs Hk.
  pose proof Hwf as (H1 & H2 & H3 & H4 & _ & H6).
  assert (forall i b', bufs st' !! i = Some b' ->
            exists b, bufs st !! i = Some b /\ link b' = link b) as Hback.
  { intros i b' Hb'. specialize (Hlink i). rewrite Hb' in Hlink.
    destruct (bufs st !! i) as [b|]; [|discriminate]. exists b.
    split; [reflexivity|]. cbn in Hlink. congruence. }
  assert (forall i b, bufs st !! i = Some b ->
            exists b', bufs st' !! i = Some b' /\ link b' = link b) as Hfwd.
  { intros i b Hb. specialize (Hlink i). rewrite Hb in Hlink.
    destruct (bufs st' !! i) as [b'|]; [|discriminate]. exists b'.
    split; [reflexivity|]. cbn in Hlink. congruence. }
  apply wf_intro; try congruence.
  - intros k Hkr. destruct (wf_chain st k Hwf Hkr) as (h & ch & Hh & _ & Hc & Hnd & Hm).
    exists h, ch. split; [congruence|]. split.
    { apply (is_chain_ext (bufs st)); [|exact Hc]. intros i _.
      specialize (Hlink i).
      destruct (bufs st' !! i) as [b'|], (bufs st !! i) as [b|]; try discriminate;
        [|reflexivity].
      cbn in *. unfold link in Hlink. congruence. }
    split; [exact Hnd|]. intros i. rewrite Hm, Hs. split.
    + intros (Hi & b & Hb & Hh'). split; [exact Hi|].
      destruct (Hfwd i b Hb) as (b' & Hb' & Hl). exists b'. split; [exact Hb'|].
      unfold link in Hl. congruence.
    + intros (Hi & b' & Hb' & Hh'). split; [exact Hi|].
      destruct (Hback i b' Hb') as (b & Hb & Hl). exists b. split; [exact Hb|].
      unfold link in Hl. congruence.
  - rewrite Hs. intros i j bi' bj' Hi Hj Hbi Hbj Hkey.
    destruct (Hback i bi' Hbi) as (bi & Hbi0 & Hli).
    destruct (Hback j bj' Hbj) as (bj & Hbj0 & Hlj).
    apply (H6 i j bi bj Hi Hj Hbi0 Hbj0). unfold link, key in *. congruence.
Qed.

End invariant.

(** ** recycle, step by step *)

Lemma buf_upd_bind {A} i g (k : unit -> B A) st b :
  bufs st !! i = Some b ->
  bind (buf_upd i g) k st =
    k tt {| bufs := <[i := g b]> (bufs st); size := size st; buckets := buckets st |}.
Proof. intros H. apply bind_Ret. apply buf_upd_exec. exact H. Qed.

Lemma buf_get_bind {A} i (k : buf -> B A) st b :
  bufs st !! i = Some b -> bind (buf_get i) k st = k b st.
Proof. intros H. apply bind_Ret. apply buf_get_exec. exact H. Qed.

Lemma bucket_next_bind {A} idx (k : option nat -> B A) st h :
  at_index (buckets st) idx = Some h -> bind (bucket_next idx) k st = k h st.
Proof. intros H. apply bind_Ret. unfold bucket_next. rewrite H. reflexivity. Qed.

Lemma set_bucket_next_exec idx h st h0 :
  at_index (buckets st) idx = Some h0 ->
  set_bucket_next idx h st =
    Ret tt {| bufs := bufs st; size := size st;
              buckets := <[Z.to_nat idx := h]> (buckets st) |}.
Proof.
  intros H. unfold set_bucket_next. rewrite (bucket_next_bind _ _ _ _ H). reflexivity.
Qed.

Lemma acquiresleep_exec i st b :
  bufs st !! i = Some b ->
  acquiresleep i st =
    if locked b then Sleep st
    else Ret tt {| bufs := <[i := set_locked true b]> (bufs st);
                   size := size st; buckets := buckets st |}.
Proof.
  intros H. unfold acquiresleep. rewrite (buf_get_bind _ _ _ _ H).
  destruct (locked b); [reflexivity|]. apply buf_upd_exec. exact H.
Qed.

Ltac look :=
  cbn [bufs size buckets];
  repeat first [ rewrite list_lookup_insert_eq by (rewrite ?length_insert; assumption)
               | rewrite list_lookup_insert_ne by congruence ];
  first [reflexivity | eassumption].

Section recycle_steps.
Variable NBUCKET : Z.

(** The four assignments that re-key the victim. *)
Lemma recycle_rekey {A} v d bn (k : B A) st bv :
  bufs st !! v = Some bv ->
  (buf_upd v (set_dev d) ;; buf_upd v (set_blockno bn) ;;
   buf_upd v (set_valid 0) ;; buf_upd v (set_refcnt 1) ;; k) st =
    k {| bufs := <[v := claimed d bn (next bv) bv]> (bufs st);
         size := size st; buckets := buckets st |}.
Proof.
  intros Hbv.
  assert (v < length (bufs st))%nat as Hv by (eapply lookup_lt_Some; exact Hbv).
  erewrite buf_upd_bind by look. erewrite buf_upd_bind by look.
  erewrite buf_upd_bind by look. erewrite buf_upd_bind by look.
  cbn [bufs size buckets]. rewrite !list_insert_insert_eq. reflexivity.
Qed.

Lemma recycle_same idx v pre d bn st bv :
  idx = HASH NBUCKET bn -> bufs st !! v = Some bv ->
  recycle NBUCKET idx v pre d bn st =
    if locked bv then
      Sleep {| bufs := <[v := claimed d bn (next bv) bv]> (bufs st);
               size := size st; buckets := buckets st |}
    else
      Ret (Recycled, v)
          {| bufs := <[v := set_locked true (claimed d bn (next bv) bv)]> (bufs st);
             size := size st; buckets := buckets st |}.
Proof.
  intros Hidx Hbv.
  assert (v < length (bufs st))%nat as Hv by (eapply lookup_lt_Some; exact Hbv).
  unfold recycle. rewrite (recycle_rekey v d bn _ st bv Hbv).
  rewrite Hidx, Z.eqb_refl. cbn [negb]. unfold bind at 1. unfold ret at 1.
  unfold bind at 1. erewrite acquiresleep_exec by look.
  cbn [locked claimed]. destruct (locked bv); [reflexivity|].
  cbn [bufs size buckets]. rewrite list_insert_insert_eq. reflexivity.
Qed.

Lemma recycle_from_head idx v d bn st bv h0 h :
  idx <> HASH NBUCKET bn -> bufs st !! v = Some bv ->
  at_index (buckets st) idx = Some h0 ->
  at_index (buckets st) (HASH NBUCKET bn) = Some h ->
  0 <= idx -> 0 <= HASH NBUCKET bn ->
  recycle NBUCKET idx v (Some (BucketHead idx)) d bn st =
    if locked bv then
      Sleep {| bufs := <[v := claimed d bn h bv]> (bufs st);
               size := size st;
               buckets := <[Z.to_nat (HASH NBUCKET bn) := Some v]>
                            (<[Z.to_nat idx := next bv]> (buckets st)) |}
    else
      Ret (Recycled, v)
          {| bufs := <[v := set_locked true (claimed d bn h bv)]> (bufs st);
             size := size st;
             buckets := <[Z.to_nat (HASH NBUCKET bn) := Some v]>
                          (<[Z.to_nat idx := next bv]> (buckets st)) |}.
Proof.
  intros Hidx Hbv Hh0 Hh Hi0 Ht0.
  assert (v < length (bufs st))%nat as Hv by (eapply lookup_lt_Some; exact Hbv).
  unfold recycle. rewrite (recycle_rekey v d bn _ st bv Hbv).
  destruct (Z.eqb_spec idx (HASH NBUCKET bn)) as [|_]; [contradiction|]. cbn [negb].
  unfold bind at 1. erewrite buf_get_bind by look. cbn [ref_set_next next claimed].
  erewrite (bind_Ret (set_bucket_next idx (next bv)))
    by (apply (set_bucket_next_exec idx _ _ h0); exact Hh0).
  erewrite bucket_next_bind
    by (cbn [buckets]; rewrite at_index_insert_ne by assumption; exact Hh).
  erewrite buf_upd_bind by look.
  erewrite (set_bucket_next_exec (HASH NBUCKET bn) _ _ h)
    by (cbn [buckets]; rewrite at_index_insert_ne by assumption; exact Hh).
  cbn [bufs size buckets]. rewrite list_insert_insert_eq.
  unfold bind at 1. erewrite acquiresleep_exec by look.
  cbn [locked claimed set_next]. destruct (locked bv); [reflexivity|].
  cbn [bufs size buckets]. rewrite list_insert_insert_eq. reflexivity.
Qed.

Lemma recycle_from_slot idx v j d bn st bv bj h :
  idx <> HASH NBUCKET bn -> bufs st !! v = Some bv ->
  j <> v -> bufs st !! j = Some bj ->
  at_index (buckets st) (HASH NBUCKET bn) = Some h ->
  recycle NBUCKET idx v (Some (Slot j)) d bn st =
    if locked bv then
      Sleep {| bufs := <[v := claimed d bn h bv]>
                         (<[j := set_next (next bv) bj]> (bufs st));
               size := size st;
               buckets := <[Z.to_nat (HASH NBUCKET bn) := Some v]> (buckets st) |}
    else
      Ret (Recycled, v)
          {| bufs := <[v := set_locked true (claimed d bn h bv)]>
                       (<[j := set_next (next bv) bj]> (bufs st));
             size := size st;
             buckets := <[Z.to_nat (HASH NBUCKET bn) := Some v]> (buckets st) |}.
Proof.
  intros Hidx Hbv Hjv Hbj Hh.
  assert (v < length (bufs st))%nat as Hv by (eapply lookup_lt_Some; exact Hbv).
  assert (j < length (bufs st))%nat as Hj by (eapply lookup_lt_Some; exact Hbj).
  assert (v <> j) as Hvj by congruence.
  unfold recycle. rewrite (recycle_rekey v d bn _ st bv Hbv).
  destruct (Z.eqb_spec idx (HASH NBUCKET bn)) as [|_]; [contradiction|]. cbn [negb].
  unfold bind at 1. erewrite buf_get_bind by look. cbn [ref_set_next next claimed].
  erewrite buf_upd_bind by look.
  erewrite bucket_next_bind by (cbn [buckets]; exact Hh).
  erewrite buf_upd_bind by look.
  erewrite (set_bucket_next_exec (HASH NBUCKET bn) _ _ h) by (cbn [buckets]; exact Hh).
  cbn [bufs size buckets].
  rewrite (list_insert_insert_ne _ j v) by congruence.
  rewrite list_insert_insert_eq.
  unfold bind at 1. erewrite acquiresleep_exec by look.
  cbn [locked claimed set_next]. destruct (locked bv); [reflexivity|].
  cbn [bufs size buckets]. rewrite list_insert_insert_eq. reflexivity.
Qed.

End recycle_steps.

(** ** The invariant is kept when a slot is claimed or re-keyed *)

Section invariant_steps.
Variable NBUF : Z.
Variable NBUCKET : Z.

(** A block that is not on the list of its bucket is in no claimed slot. *)
Lemma wf_miss st d bn ch :
  wf NBUF NBUCKET st -> bucket_slots st (HASH NBUCKET bn) = Some ch ->
  (forall j bj, j ∈ ch -> bufs st !! j = Some bj -> key bj <> (d, bn)) ->
  forall j bj, (j < Z.to_nat (size st))%nat -> bufs st !! j = Some bj ->
    key bj <> (d, bn).
Proof.
  intros Hwf Hch Hmiss j bj Hj Hbj Hkey.
  pose proof Hwf as (H1 & _).
  destruct (wf_chain NBUF NBUCKET st _ Hwf (HASH_range NBUCKET bn H1))
    as (h & ch' & _ & Hch' & _ & _ & Hm).
  rewrite Hch in Hch'. injection Hch' as <-.
  apply (Hmiss j bj); [|exact Hbj | exact Hkey].
  apply Hm. split; [exact Hj|]. exists bj. split; [exact Hbj|].
  unfold key in Hkey. congruence.
Qed.

Lemma wf_fresh st d bn b' h :
  wf NBUF NBUCKET st -> size st < NBUF ->
  (forall j bj, (j < Z.to_nat (size st))%nat -> bufs st !! j = Some bj ->
     key bj <> (d, bn)) ->
  at_index (buckets st) (HASH NBUCKET bn) = Some h ->
  link b' = (d, bn, h) ->
  wf NBUF NBUCKET
    {| bufs := <[Z.to_nat (size st) := b']> (bufs st);
       size := size st + 1;
       buckets := <[Z.to_nat (HASH NBUCKET bn) := Some (Z.to_nat (size st))]>
                    (buckets st) |}.
Proof.
  intros Hwf Hlt Hmiss Hh Hl.
  pose proof Hwf as (H1 & H2 & H3 & H4 & _ & H6).
  unfold link in Hl. injection Hl as Hd Hbn Hnx.
  set (i := Z.to_nat (size st)) in *. set (idx := HASH NBUCKET bn) in *.
  assert (i < length (bufs st))%nat as Hi by lia.
  assert (Z.to_nat (size st + 1) = S i) as HS by lia.
  pose proof (HASH_range NBUCKET bn H1) as Hidx. fold idx in Hidx.
  apply wf_intro; cbn [bufs size buckets]; rewrite ?length_insert; try assumption;
    [lia | |].
  - intros k Hk.
    destruct (wf_chain NBUF NBUCKET st k Hwf Hk) as (hk & ch & Hhk & _ & Hc & Hnd & Hm).
    assert (forall j, j ∈ ch -> j <> i) as Hni.
    { intros j Hj. apply Hm in Hj as [Hj _]. lia. }
    assert (is_chain (<[i := b']> (bufs st)) hk ch) as Hc'.
    { apply (is_chain_ext (bufs st)); [|exact Hc]. intros j Hj.
      rewrite list_lookup_insert_ne by (specialize (Hni j Hj); congruence).
      reflexivity. }
    rewrite HS. destruct (Z.eq_dec k idx) as [->|Hne].
    + exists (Some i), (i :: ch). split; [apply at_index_insert_eq; lia|].
      rewrite Hh in Hhk. injection Hhk as <-.
      split; [|split].
      * cbn [is_chain]. split; [reflexivity|]. exists b'.
        split; [apply list_lookup_insert_eq; exact Hi|]. rewrite Hnx. exact Hc'.
      * apply NoDup_cons. split; [|exact Hnd]. intros Hin. apply (Hni i Hin eq_refl).
      * intros j. rewrite elem_of_cons, Hm. split.
        -- intros [->|(Hj & bj & Hbj & Hhash)].
           ++ split; [lia|]. exists b'.
              split; [apply list_lookup_insert_eq; exact Hi|]. rewrite Hbn. reflexivity.
           ++ split; [lia|]. exists bj. split; [|exact Hhash].
              rewrite list_lookup_insert_ne by lia. exact Hbj.
        -- intros (Hj & bj & Hbj & Hhash). destruct (decide (j = i)) as [->|Hji].
           ++ left. reflexivity.
           ++ right. split; [lia|]. exists bj. split; [|exact Hhash].
              rewrite list_lookup_insert_ne in Hbj by congruence. exact Hbj.
    + exists hk, ch. split; [rewrite at_index_insert_ne by lia; exact Hhk|].
      split; [exact Hc'|]. split; [exact Hnd|].
      intros j. rewrite Hm. split.
      * intros (Hj & bj & Hbj & Hhash). split; [lia|]. exists bj.
        split; [|exact Hhash]. rewrite list_lookup_insert_ne by lia. exact Hbj.
      * intros (Hj & bj & Hbj & Hhash). destruct (decide (j = i)) as [->|Hji].
        -- exfalso. rewrite list_lookup_insert_eq in Hbj by exact Hi.
           injection Hbj as <-. rewrite Hbn in Hhash. fold idx in Hhash. congruence.
        -- split; [lia|]. exists bj. split; [|exact Hhash].
           rewrite list_lookup_insert_ne in Hbj by congruence. exact Hbj.
  - rewrite HS. intros a c ba bc Ha Hc Hba Hbc Hkey.
    destruct (decide (a = i)) as [->|Hai], (decide (c = i)) as [->|Hci];
      [reflexivity | | |].
    + exfalso. rewrite list_lookup_insert_eq in Hba by exact Hi. injection Hba as <-.
      rewrite list_lookup_insert_ne in Hbc by congruence.
      apply (Hmiss c bc ltac:(lia) Hbc). rewrite <- Hkey. unfold key. congruence.
    + exfalso. rewrite list_lookup_insert_eq in Hbc by exact Hi. injection Hbc as <-.
      rewrite list_lookup_insert_ne in Hba by congruence.
      apply (Hmiss a ba ltac:(lia) Hba). rewrite Hkey. unfold key. congruence.
    + rewrite list_lookup_insert_ne in Hba, Hbc by congruence.
      apply (H6 a c ba bc); try assumption; lia.
Qed.

(** The victim leaves the list of bucket [src] and becomes the head of the
    list of the bucket of (d, bn); [bs'] and [ks'] are the pool and the
    bucket heads afterwards. *)
Lemma wf_move st d bn v bv src ch1 ch2 h hs bs' ks' :
  wf NBUF NBUCKET st ->
  0 <= src < NBUCKET -> src <> HASH NBUCKET bn ->
  bufs st !! v = Some bv ->
  bucket_slots st src = Some (ch1 ++ v :: ch2) ->
  at_index (buckets st) src = Some hs ->
  at_index (buckets st) (HASH NBUCKET bn) = Some h ->
  (forall j bj, (j < Z.to_nat (size st))%nat -> bufs st !! j = Some bj ->
     key bj <> (d, bn)) ->
  length bs' = length (bufs st) -> length ks' = length (buckets st) ->
  at_index ks' (HASH NBUCKET bn) = Some (Some v) ->
  at_index ks' src = Some (match ch1 with [] => next bv | _ => hs end) ->
  (forall k, k <> src -> k <> HASH NBUCKET bn ->
     at_index ks' k = at_index (buckets st) k) ->
  (exists b', bs' !! v = Some b' /\ link b' = (d, bn, h)) ->
  (forall j, last ch1 = Some j ->
     exists bj bj', bufs st !! j = Some bj /\ bs' !! j = Some bj' /\
       link bj' = (dev bj, blockno bj, next bv)) ->
  (forall i, i <> v -> last ch1 <> Some i -> bs' !! i = bufs st !! i) ->
  wf NBUF NBUCKET {| bufs := bs'; size := size st; buckets := ks' |}.
Proof.
  intros Hwf Hsrc Hne Hbv Hch Hhs Hh Hmiss Hlb Hlk Hkt Hks Hko (b' & Hb' & Hl') Hpred Hrest.
  pose proof Hwf as (H1 & H2 & H3 & H4 & _ & H6).
  set (tgt := HASH NBUCKET bn) in *.
  pose proof (HASH_range NBUCKET bn H1) as Htgt. fold tgt in Htgt.
  unfold link in Hl'. injection Hl' as Hd' Hbn' Hnx'.
  destruct (wf_chain NBUF NBUCKET st src Hwf Hsrc)
    as (hs' & chs & Hhs' & Hchs & Hcs & Hnds & Hms).
  rewrite Hhs in Hhs'. injection Hhs' as <-.
  rewrite Hch in Hchs. injection Hchs as <-.
  assert (v ∈ ch1 ++ v :: ch2) as Hvin by (apply elem_of_app; right; left).
  pose proof (proj1 (Hms v) Hvin) as (Hvs & bv0 & Hbv0 & Hvh).
  rewrite Hbv in Hbv0. injection Hbv0 as <-.
  assert (forall j, last ch1 = Some j -> j ∈ ch1) as Hlast_in.
  { intros j Hj. apply last_Some in Hj as [l' ->]. apply elem_of_app. right. left. }
  assert ((v ∉ ch1) /\ (v ∉ ch2) /\ NoDup (ch1 ++ ch2)) as (Hv1 & Hv2 & Hnd12).
  { apply NoDup_app in Hnds as (Hn1 & Hn12 & Hn2).
    apply NoDup_cons in Hn2 as [Hv2 Hn2].
    split; [intros Hin; apply (Hn12 v Hin); left|]. split; [exact Hv2|].
    apply NoDup_app. split; [exact Hn1|]. split; [|exact Hn2].
    intros x Hx Hx2. apply (Hn12 x Hx). right. exact Hx2. }
  assert (forall i, i <> v -> forall b'', bs' !! i = Some b'' ->
            exists b, bufs st !! i = Some b /\ dev b'' = dev b /\ blockno b'' = blockno b)
    as Hback.
  { intros i Hiv b'' Hb''. destruct (decide (last ch1 = Some i)) as [Hli|Hli].
    - destruct (Hpred i Hli) as (bj & bj' & Hbj & Hbj' & Hlj).
      rewrite Hb'' in Hbj'. injection Hbj' as <-. exists bj.
      unfold link in Hlj. split; [exact Hbj|]. split; congruence.
    - rewrite (Hrest i Hiv Hli) in Hb''. exists b''. auto. }
  assert (forall i, i <> v -> forall b, bufs st !! i = Some b ->
            exists b'', bs' !! i = Some b'' /\ dev b'' = dev b /\ blockno b'' = blockno b)
    as Hfwd.
  { intros i Hiv b Hb. destruct (decide (last ch1 = Some i)) as [Hli|Hli].
    - destruct (Hpred i Hli) as (bj & bj' & Hbj & Hbj' & Hlj).
      rewrite Hb in Hbj. injection Hbj as <-. exists bj'.
      unfold link in Hlj. split; [exact Hbj'|]. split; congruence.
    - exists b. rewrite (Hrest i Hiv Hli). auto. }
  assert (forall k (ch : list nat), k <> src ->
            (forall i, i ∈ ch <->
               (i < Z.to_nat (size st))%nat /\
               exists b, bufs st !! i = Some b /\ HASH NBUCKET (blockno b) = k) ->
            forall i, i ∈ ch -> i <> v /\ last ch1 <> Some i) as Hoff.
  { intros k ch Hk Hm i Hi. apply Hm in Hi as (_ & b & Hb & Hhash). split.
    - intros ->. rewrite Hbv in Hb. injection Hb as <-. congruence.
    - intros Hli. apply Hlast_in in Hli.
      assert (i ∈ ch1 ++ v :: ch2) as Hin by (apply elem_of_app; left; exact Hli).
      apply Hms in Hin as (_ & b0 & Hb0 & Hh0). rewrite Hb in Hb0.
      injection Hb0 as <-. congruence. }
  assert (forall k, k <> tgt ->
            forall i, (exists b'', bs' !! i = Some b'' /\ HASH NBUCKET (blockno b'') = k) <->
                      i <> v /\
                      exists b, bufs st !! i = Some b /\ HASH NBUCKET (blockno b) = k)
    as Hmem.
  { intros k Hk i. split.
    - intros (b'' & Hb'' & Hhash). assert (i <> v) as Hiv.
      { intros ->. rewrite Hb' in Hb''. injection Hb'' as <-.
        rewrite Hbn' in Hhash. fold tgt in Hhash. congruence. }
      split; [exact Hiv|]. destruct (Hback i Hiv b'' Hb'') as (b & Hb & _ & Hbno).
      exists b. split; [exact Hb | congruence].
    - intros (Hiv & b & Hb & Hhash). destruct (Hfwd i Hiv b Hb) as (b'' & Hb'' & _ & Hbno).
      exists b''. split; [exact Hb'' | congruence]. }
  apply wf_intro; cbn [bufs size buckets]; try congruence.
  - intros k Hk. destruct (Z.eq_dec k src) as [->|Hks'].
    + exists (match ch1 with [] => next bv | _ => hs end), (ch1 ++ ch2).
      split; [exact Hks|]. split; [|split; [exact Hnd12|]].
      * apply (is_chain_unlink (bufs st) bs' v ch2 bv ch1 hs Hcs Hnds Hbv).
        -- intros i Hi Hli. rewrite Hrest; [reflexivity| |exact Hli].
           intros ->. apply elem_of_app in Hi as [Hi|Hi]; contradiction.
        -- intros j Hj. destruct (Hpred j Hj) as (bj & bj' & _ & Hbj' & Hlj).
           rewrite Hbj'. cbn. unfold link in Hlj. congruence.
      * intros i. split.
        -- intros Hi.
           assert (i <> v) as Hiv.
           { intros ->. apply elem_of_app in Hi as [Hi|Hi]; contradiction. }
           assert (i ∈ ch1 ++ v :: ch2) as Hin.
           { apply elem_of_app in Hi as [Hi|Hi]; apply elem_of_app;
               [left; exact Hi | right; right; exact Hi]. }
           apply Hms in Hin as (Hi' & Hex). split; [exact Hi'|].
           apply (Hmem src Hne i). split; assumption.
        -- intros (Hi & Hex). apply (Hmem src Hne i) in Hex as (Hiv & Hex).
           assert (i ∈ ch1 ++ v :: ch2) as Hin by (apply Hms; split; assumption).
           apply elem_of_app in Hin as [Hin|Hin]; apply elem_of_app;
             [left; exact Hin|].
           apply elem_of_cons in Hin as [->|Hin]; [contradiction | right; exact Hin].
    + destruct (wf_chain NBUF NBUCKET st k Hwf Hk)
        as (hk & ch & Hhk & _ & Hc & Hnd & Hm).
      pose proof (Hoff k ch Hks' Hm) as Hoffk.
      assert (is_chain bs' hk ch) as Hc'.
      { apply (is_chain_ext (bufs st)); [|exact Hc]. intros i Hi.
        destruct (Hoffk i Hi) as [Hiv Hli]. rewrite (Hrest i Hiv Hli). reflexivity. }
      destruct (Z.eq_dec k tgt) as [->|Hkt'].
      * exists (Some v), (v :: ch). split; [exact Hkt|].
        rewrite Hh in Hhk. injection Hhk as <-.
        assert (v ∉ ch) as Hvch.
        { intros Hin. destruct (Hoffk v Hin) as [Hvv _]. congruence. }
        split; [|split].
        -- cbn [is_chain]. split; [reflexivity|]. exists b'. split; [exact Hb'|].
           rewrite Hnx'. exact Hc'.
        -- apply NoDup_cons. split; assumption.
        -- intros i. rewrite elem_of_cons, Hm. split.
           ++ intros [->|(Hi & b & Hb & Hhash)].
              ** split; [exact Hvs|]. exists b'. split; [exact Hb'|].
                 rewrite Hbn'. reflexivity.
              ** split; [exact Hi|].
                 assert (i <> v) as Hiv.
                 { intros ->. rewrite Hbv in Hb. injection Hb as <-. congruence. }
                 destruct (Hfwd i Hiv b Hb) as (b'' & Hb'' & _ & Hbno).
                 exists b''. split; [exact Hb'' | congruence].
           ++ intros (Hi & b'' & Hb'' & Hhash).
              destruct (decide (i = v)) as [->|Hiv]; [left; reflexivity|]. right.
              split; [exact Hi|].
              destruct (Hback i Hiv b'' Hb'') as (b & Hb & _ & Hbno).
              exists b. split; [exact Hb | congruence].
      * exists hk, ch. split; [rewrite (Hko k Hks' Hkt'); exact Hhk|].
        split; [exact Hc'|]. split; [exact Hnd|].
        intros i. rewrite (Hmem k Hkt' i), Hm. split.
        -- intros (Hi & b & Hb & Hhash). split; [exact Hi|]. split; [|eauto].
           intros ->. rewrite Hbv in Hb. injection Hb as <-. congruence.
        -- intros (Hi & _ & Hex). split; assumption.
  - intros a c ba bc Ha Hc Hba Hbc Hkey.
    destruct (decide (a = v)) as [->|Hav], (decide (c = v)) as [->|Hcv];
      [reflexivity | | |].
    + exfalso. rewrite Hb' in Hba. injection Hba as <-.
      destruct (Hback c Hcv bc Hbc) as (b & Hb & Hdv & Hbno).
      apply (Hmiss c b Hc Hb). unfold key in *. congruence.
    + exfalso. rewrite Hb' in Hbc. injection Hbc as <-.
      destruct (Hback a Hav ba Hba) as (b & Hb & Hdv & Hbno).
      apply (Hmiss a b Ha Hb). unfold key in *. congruence.
    + destruct (Hback a Hav ba Hba) as (b1 & Hb1 & Hd1 & Hn1).
      destruct (Hback c Hcv bc Hbc) as (b2 & Hb2 & Hd2 & Hn2).
      apply (H6 a c b1 b2 Ha Hc Hb1 Hb2). unfold key in *. congruence.
Qed.

(** The victim is re-keyed where it is: its block and the new one hash to
    the same bucket. *)
Lemma wf_rekey st d bn v bv b' :
  wf NBUF NBUCKET st -> (v < Z.to_nat (size st))%nat ->
  bufs st !! v = Some bv -> HASH NBUCKET (blockno bv) = HASH NBUCKET bn ->
  (forall j bj, (j < Z.to_nat (size st))%nat -> bufs st !! j = Some bj ->
     key bj <> (d, bn)) ->
  link b' = (d, bn, next bv) ->
  wf NBUF NBUCKET
    {| bufs := <[v := b']> (bufs st); size := size st; buckets := buckets st |}.
Proof.
  intros Hwf Hv Hbv Hhash Hmiss Hl.
  pose proof Hwf as (H1 & H2 & H3 & H4 & _ & H6).
  unfold link in Hl. injection Hl as Hd Hbn Hnx.
  assert (v < length (bufs st))%nat as Hvl by (eapply lookup_lt_Some; exact Hbv).
  apply wf_intro; cbn [bufs size buckets]; rewrite ?length_insert; try assumption.
  - intros k Hk.
    destruct (wf_chain NBUF NBUCKET st k Hwf Hk) as (hk & ch & Hhk & _ & Hc & Hnd & Hm).
    exists hk, ch. split; [exact Hhk|]. split; [|split; [exact Hnd|]].
    + apply (is_chain_ext (bufs st)); [|exact Hc]. intros i _.
      destruct (decide (i = v)) as [->|Hiv].
      * rewrite list_lookup_insert_eq by exact Hvl. rewrite Hbv. cbn. congruence.
      * rewrite list_lookup_insert_ne by congruence. reflexivity.
    + intros i. rewrite Hm. destruct (decide (i = v)) as [->|Hiv].
      * rewrite list_lookup_insert_eq by exact Hvl. rewrite Hbv. split.
        -- intros (Hi & b & Hb & Hh). injection Hb as <-. split; [exact Hi|].
           exists b'. split; [reflexivity | congruence].
        -- intros (Hi & b & Hb & Hh). injection Hb as <-. split; [exact Hi|].
           exists bv. split; [reflexivity | congruence].
      * rewrite list_lookup_insert_ne by congruence. reflexivity.
  - intros a c ba bc Ha Hc Hba Hbc Hkey.
    destruct (decide (a = v)) as [->|Hav], (decide (c = v)) as [->|Hcv];
      [reflexivity | | |].
    + exfalso. rewrite list_lookup_insert_eq in Hba by exact Hvl. injection Hba as <-.
      rewrite list_lookup_insert_ne in Hbc by congruence.
      apply (Hmiss c bc Hc Hbc). unfold key in *. congruence.
    + exfalso. rewrite list_lookup_insert_eq in Hbc by exact Hvl. injection Hbc as <-.
      rewrite list_lookup_insert_ne in Hba by congruence.
      apply (Hmiss a ba Ha Hba). unfold key in *. congruence.
    + rewrite list_lookup_insert_ne in Hba, Hbc by congruence.
      apply (H6 a c ba bc); assumption.
Qed.

End invariant_steps.

(** ** Which path bget takes *)

Lemma first_match (bs : list buf) d bn : forall ch : list nat,
  (forall i, i ∈ ch -> is_Some (bs !! i)) ->
  (forall j bj, j ∈ ch -> bs !! j = Some bj -> key bj <> (d, bn)) \/
  (exists ch1 i ch2 b, ch = ch1 ++ i :: ch2 /\ bs !! i = Some b /\ key b = (d, bn) /\
     forall j bj, j ∈ ch1 -> bs !! j = Some bj -> key bj <> (d, bn)).
Proof.
  induction ch as [|k ch IH]; intros Hin.
  - left. intros j bj Hj. apply elem_of_nil in Hj. contradiction.
  - destruct (Hin k ltac:(left)) as [bk Hbk].
    destruct (decide (key bk = (d, bn))) as [Hk|Hk].
    + right. exists [], k, ch, bk. split; [reflexivity|]. split; [exact Hbk|].
      split; [exact Hk|]. intros j bj Hj. apply elem_of_nil in Hj. contradiction.
    + destruct (IH ltac:(intros i Hi; apply Hin; right; exact Hi))
        as [Hmiss|(ch1 & i & ch2 & b & -> & Hb & Hkey & Hmiss)].
      * left. intros j bj Hj Hbj. apply elem_of_cons in Hj as [->|Hj].
        -- rewrite Hbk in Hbj. injection Hbj as <-. exact Hk.
        -- apply (Hmiss j bj Hj Hbj).
      * right. exists (k :: ch1), i, ch2, b. split; [reflexivity|].
        split; [exact Hb|]. split; [exact Hkey|].
        intros j bj Hj Hbj. apply elem_of_cons in Hj as [->|Hj].
        -- rewrite Hbk in Hbj. injection Hbj as <-. exact Hk.
        -- apply (Hmiss j bj Hj Hbj).
Qed.

Lemma some_candidate (bs : list buf) : forall ch : list nat,
  (forall i, i ∈ ch -> is_Some (bs !! i)) ->
  (forall i b, i ∈ ch -> bs !! i = Some b -> candidate UINT_MAX b = false) \/
  (exists i b, i ∈ ch /\ bs !! i = Some b /\ candidate UINT_MAX b = true).
Proof.
  induction ch as [|k ch IH]; intros Hin.
  - left. intros j bj Hj. apply elem_of_nil in Hj. contradiction.
  - destruct (Hin k ltac:(left)) as [bk Hbk].
    destruct (candidate UINT_MAX bk) eqn:Hc.
    + right. exists k, bk. split; [left|]. auto.
    + destruct (IH ltac:(intros i Hi; apply Hin; right; exact Hi))
        as [Hnone|(i & b & Hi & Hb & Hcb)].
      * left. intros j bj Hj Hbj. apply elem_of_cons in Hj as [->|Hj].
        -- rewrite Hbk in Hbj. injection Hbj as <-. exact Hc.
        -- apply (Hnone j bj Hj Hbj).
      * right. exists i, b. split; [right; exact Hi|]. auto.
Qed.

Section bucket_walk.
Variable NBUCKET : Z.

Lemma next_bucket_range idx :
  0 <= idx < NBUCKET -> 0 <= next_bucket NBUCKET idx < NBUCKET.
Proof.
  intros H. unfold next_bucket. destruct (Z.eqb_spec (idx + 1) NBUCKET); lia.
Qed.

Lemma nth_bucket_range j : forall idx,
  0 <= idx < NBUCKET -> 0 <= nth_bucket NBUCKET j idx < NBUCKET.
Proof.
  induction j as [|j IH]; intros idx H; cbn [nth_bucket]; [exact H|].
  apply IH. apply next_bucket_range. exact H.
Qed.

(** Among the first [n] buckets visited from [idx], either none holds an
    unused buffer stamped below 2^32 - 1, or there is a first that does. *)
Lemma first_candidate st idx : forall n,
  (forall j, (j < n)%nat ->
     exists chj, bucket_slots st (nth_bucket NBUCKET j idx) = Some chj) ->
  (forall j chj i b, (j < n)%nat ->
     bucket_slots st (nth_bucket NBUCKET j idx) = Some chj ->
     i ∈ chj -> bufs st !! i = Some b -> candidate UINT_MAX b = false) \/
  (exists J, (J < n)%nat /\
     (forall j chj i b, (j < J)%nat ->
        bucket_slots st (nth_bucket NBUCKET j idx) = Some chj ->
        i ∈ chj -> bufs st !! i = Some b -> candidate UINT_MAX b = false) /\
     exists chJ i b, bucket_slots st (nth_bucket NBUCKET J idx) = Some chJ /\
       i ∈ chJ /\ bufs st !! i = Some b /\ candidate UINT_MAX b = true).
Proof.
  induction n as [|n IH]; intros Hch.
  - left. intros j chj i b Hj. lia.
  - destruct (IH ltac:(intros j Hj; apply Hch; lia)) as [Hnone|(J & HJ & Hbefore & Hat)].
    + destruct (Hch n ltac:(lia)) as (chn & Hcn).
      assert (forall i, i ∈ chn -> is_Some (bufs st !! i)) as Hin.
      { intros i Hi. apply lookup_lt_is_Some.
        apply (proj2 (bucket_slots_range st _ chn Hcn) i Hi). }
      destruct (some_candidate (bufs st) chn Hin) as [Hn|(i & b & Hi & Hb & Hc)].
      * left. intros j chj i b Hj Hcj Hi Hb.
        destruct (decide (j = n)) as [->|Hjn].
        -- rewrite Hcn in Hcj. injection Hcj as <-. apply (Hn i b Hi Hb).
        -- apply (Hnone j chj i b ltac:(lia) Hcj Hi Hb).
      * right. exists n. split; [lia|]. split; [exact Hnone|].
        exists chn, i, b. auto.
    + right. exists J. split; [lia|]. split; assumption.
Qed.

End bucket_walk.

Lemma same_on_insert {A} (f : buf -> A) st i b b' sz ks :
  bufs st !! i = Some b -> f b' = f b ->
  same_on f st {| bufs := <[i := b']> (bufs st); size := sz; buckets := ks |}.
Proof.
  intros Hb Hf. split; cbn [bufs]; [apply length_insert|].
  intros j. destruct (decide (i = j)) as [<-|Hne].
  - rewrite list_lookup_insert_eq by (eapply lookup_lt_Some; exact Hb).
    rewrite Hb. cbn. congruence.
  - rewrite list_lookup_insert_ne by exact Hne. reflexivity.
Qed.

Lemma last_nil_inv {A} (l : list A) : last l = None -> l = [].
Proof.
  destruct l as [|x l]; [reflexivity|]. intros H. exfalso.
  revert x H. induction l as [|y l IH]; intros x H; [discriminate|].
  apply (IH y). exact H.
Qed.

(** ** The invariant of the buffer cache *)

Section cache_safety.
Variable NBUF : Z.
Variable NBUCKET : Z.

Lemma binit_wf : 0 < NBUCKET -> 0 <= NBUF -> wf NBUF NBUCKET (binit NBUF NBUCKET).
Proof.
  intros Hk Hn. apply wf_intro; cbn [binit bufs size buckets];
    rewrite ?length_replicate; try lia; try reflexivity.
  intros k Hkr. exists None, []. split.
    { apply at_index_Some. rewrite length_replicate. split; [lia|].
      apply lookup_replicate. split; [reflexivity | lia]. }
    split; [reflexivity|]. split; [apply NoDup_nil; exact I|].
    intros i. split; [intros Hi; apply elem_of_nil in Hi; contradiction|].
    intros (Hi & _). cbn in Hi. lia.
Qed.

Lemma wf_upd st i b b' :
  wf NBUF NBUCKET st -> bufs st !! i = Some b -> link b' = link b ->
  wf NBUF NBUCKET
    {| bufs := <[i := b']> (bufs st); size := size st; buckets := buckets st |}.
Proof.
  intros Hwf Hb Hl. eapply wf_same_links; [exact Hwf | | reflexivity | reflexivity].
  apply (same_on_insert link st i b b'); assumption.
Qed.

Lemma bget_safe d bn st :
  wf NBUF NBUCKET st ->
  safe_outcome NBUF NBUCKET "bget: no buffers" (bget NBUF NBUCKET d bn st).
Proof.
  intros Hwf. pose proof Hwf as (H1 & H2 & H3 & H4 & _ & H6).
  pose proof (HASH_range NBUCKET bn H1) as Hidx.
  destruct (wf_chain NBUF NBUCKET st _ Hwf Hidx) as (h & ch0 & Hh & Hch0 & Hc0 & Hnd0 & Hm0).
  assert (forall k ch, bucket_slots st k = Some ch ->
            forall i, i ∈ ch -> is_Some (bufs st !! i)) as Hsome.
  { intros k ch Hc i Hi. apply lookup_lt_is_Some.
    apply (proj2 (bucket_slots_range st k ch Hc) i Hi). }
  destruct (first_match (bufs st) d bn ch0 (Hsome _ _ Hch0))
    as [Hmiss|(ch1 & i & ch2 & b & -> & Hb & Hkey & Hmiss)].
  2:{ rewrite (bget_hit_exec NBUF NBUCKET d bn st ch1 i ch2 b Hch0 Hmiss Hb Hkey).
      destruct (locked b); cbn [safe_outcome]; apply (wf_upd st i b); auto. }
  pose proof (wf_miss NBUF NBUCKET st d bn ch0 Hwf Hch0 Hmiss) as Hglobal.
  destruct (Z_lt_ge_dec (size st) NBUF) as [Hlt|Hge].
  - destruct (lookup_lt_is_Some_2 (bufs st) (Z.to_nat (size st))) as [b Hb]; [lia|].
    rewrite (bget_fresh_exec NBUF NBUCKET d bn st ch0 b h Hch0 Hmiss ltac:(lia) Hb Hh).
    destruct (locked b); cbn [safe_outcome];
      apply (wf_fresh NBUF NBUCKET st d bn _ h Hwf Hlt Hglobal Hh); reflexivity.
  - rewrite (bget_miss_full NBUF NBUCKET d bn st ch0 Hch0 Hmiss ltac:(lia)).
    assert (forall j, exists chj,
              bucket_slots st (nth_bucket NBUCKET j (HASH NBUCKET bn)) = Some chj) as Hall.
    { intros j.
      destruct (wf_chain NBUF NBUCKET st _ Hwf (nth_bucket_range NBUCKET j _ Hidx))
        as (_ & chj & _ & Hcj & _). exists chj. exact Hcj. }
    assert (forall k ch i b', bucket_slots st k = Some ch -> 0 <= k < NBUCKET ->
              i ∈ ch -> bufs st !! i = Some b' ->
              (i < Z.to_nat (size st))%nat /\ HASH NBUCKET (blockno b') = k) as Hon.
    { intros k ch i b' Hc Hk Hi Hb'.
      destruct (wf_chain NBUF NBUCKET st k Hwf Hk) as (_ & ch' & _ & Hc' & _ & _ & Hm).
      rewrite Hc in Hc'. injection Hc' as <-.
      apply Hm in Hi as (Hi & b0 & Hb0 & Hh0). rewrite Hb' in Hb0.
      injection Hb0 as <-. auto. }
    destruct (first_candidate NBUCKET st (HASH NBUCKET bn) (Z.to_nat NBUCKET)
                ltac:(intros j _; apply Hall))
      as [Hnone|(J & HJ & Hbefore & Hat)].
    { rewrite (evict_loop_none NBUCKET d bn st (Z.to_nat NBUCKET) (HASH NBUCKET bn)
                 {| minb := None; minpre := None; mintimestamp := 0 |} eq_refl);
        [reflexivity|].
      intros j Hj. destruct (Hall j) as (chj & Hcj). exists chj. split; [exact Hcj|].
      intros i b Hi Hb. split; [|apply (Hnone j chj i b Hj Hcj Hi Hb)].
      intros _. apply (Hglobal i b); [|exact Hb].
      apply (Hon _ chj i b Hcj (nth_bucket_range NBUCKET j _ Hidx) Hi Hb). }
    destruct (evict_loop_visits NBUCKET d bn st J (Z.to_nat NBUCKET) (HASH NBUCKET bn)
                {| minb := None; minpre := None; mintimestamp := 0 |} eq_refl HJ)
      as (ch & ch1 & v & ch2 & bv & Hc & Hof & He); [| exact Hbefore | exact Hat |].
    { intros j _. destruct (Hall j) as (chj & Hcj). exists chj. split; [exact Hcj|].
      intros i b Hi Hb _. apply (Hglobal i b); [|exact Hb].
      apply (Hon _ chj i b Hcj (nth_bucket_range NBUCKET j _ Hidx) Hi Hb). }
    rewrite He. clear He.
    set (src := nth_bucket NBUCKET J (HASH NBUCKET bn)) in *.
    pose proof (nth_bucket_range NBUCKET J _ Hidx) as Hsrc. fold src in Hsrc.
    destruct Hof as (-> & Hbv & _).
    destruct (Hon src _ v bv Hc Hsrc ltac:(apply elem_of_app; right; left) Hbv)
      as [Hvs Hvh].
    destruct (wf_chain NBUF NBUCKET st src Hwf Hsrc) as (hs & ch' & Hhs & Hc' & _ & Hnds & _).
    rewrite Hc in Hc'. injection Hc' as <-.
    assert (v < length (bufs st))%nat as Hvl by (eapply lookup_lt_Some; exact Hbv).
    destruct (Z.eq_dec src (HASH NBUCKET bn)) as [Heq|Hne].
    + rewrite (recycle_same NBUCKET src v _ d bn st bv Heq Hbv).
      destruct (locked bv); cbn [safe_outcome];
        apply (wf_rekey NBUF NBUCKET st d bn v bv _ Hwf Hvs Hbv ltac:(congruence) Hglobal);
        reflexivity.
    + unfold pred_ref. destruct (last ch1) as [j|] eqn:Hlast.
      * assert (j ∈ ch1) as Hj1.
        { apply last_Some in Hlast as [l' ->]. apply elem_of_app. right. left. }
        assert (j <> v) as Hjv.
        { intros ->. apply NoDup_app in Hnds as (_ & Hn & _). apply (Hn v Hj1). left. }
        destruct (Hsome src _ Hc j ltac:(apply elem_of_app; left; exact Hj1)) as [bj Hbj].
        assert (j < length (bufs st))%nat as Hjl by (eapply lookup_lt_Some; exact Hbj).
        rewrite (recycle_from_slot NBUCKET src v j d bn st bv bj h Hne Hbv Hjv Hbj Hh).
        assert (forall b', link b' = (d, bn, h) ->
                  wf NBUF NBUCKET
                    {| bufs := <[v := b']> (<[j := set_next (next bv) bj]> (bufs st));
                       size := size st;
                       buckets := <[Z.to_nat (HASH NBUCKET bn) := Some v]> (buckets st) |})
          as Hres.
        { intros b' Hl'.
          apply (wf_move NBUF NBUCKET st d bn v bv src ch1 ch2 h hs _ _ Hwf Hsrc Hne Hbv Hc
                   Hhs Hh Hglobal).
          - rewrite !length_insert. reflexivity.
          - rewrite length_insert. reflexivity.
          - apply at_index_insert_eq. lia.
          - rewrite at_index_insert_ne by lia.
            destruct ch1; [discriminate Hlast | exact Hhs].
          - intros k _ Hk. destruct (Z_lt_ge_dec k 0).
            + unfold at_index. destruct (Z.leb_spec 0 k); [lia | reflexivity].
            + apply at_index_insert_ne; lia.
          - exists b'. split; [|exact Hl'].
            apply list_lookup_insert_eq. rewrite length_insert. exact Hvl.
          - intros j' Hj'. rewrite Hlast in Hj'. injection Hj' as <-.
            exists bj, (set_next (next bv) bj). split; [exact Hbj|]. split; [|reflexivity].
            rewrite list_lookup_insert_ne by congruence.
            apply list_lookup_insert_eq. exact Hjl.
          - intros i Hiv Hil. rewrite Hlast in Hil.
            rewrite !list_lookup_insert_ne by congruence. reflexivity. }
        destruct (locked bv); cbn [safe_outcome]; apply Hres; reflexivity.
      * apply last_nil_inv in Hlast. subst ch1. cbn [app] in *.
        rewrite (recycle_from_head NBUCKET src v d bn st bv hs h Hne Hbv Hhs Hh
                   ltac:(lia) ltac:(lia)).
        assert (forall b', link b' = (d, bn, h) ->
                  wf NBUF NBUCKET
                    {| bufs := <[v := b']> (bufs st);
                       size := size st;
                       buckets := <[Z.to_nat (HASH NBUCKET bn) := Some v]>
                                    (<[Z.to_nat src := next bv]> (buckets st)) |})
          as Hres.
        { intros b' Hl'.
          apply (wf_move NBUF NBUCKET st d bn v bv src [] ch2 h hs _ _ Hwf Hsrc Hne Hbv Hc
                   Hhs Hh Hglobal).
          - rewrite length_insert. reflexivity.
          - rewrite !length_insert. reflexivity.
          - apply at_index_insert_eq. rewrite length_insert. lia.
          - rewrite at_index_insert_ne by lia. apply at_index_insert_eq. lia.
          - intros k Hk1 Hk2. destruct (Z_lt_ge_dec k 0).
            + unfold at_index. destruct (Z.leb_spec 0 k); [lia | reflexivity].
            + rewrite !at_index_insert_ne by lia. reflexivity.
          - exists b'. split; [|exact Hl']. apply list_lookup_insert_eq. exact Hvl.
          - intros j' Hj'. discriminate Hj'.
          - intros i Hiv _. rewrite list_lookup_insert_ne by congruence. reflexivity. }
        destruct (locked bv); cbn [safe_outcome]; apply Hres; reflexivity.
Qed.

Lemma bread_safe disk d bn st :
  wf NBUF NBUCKET st ->
  safe_outcome NBUF NBUCKET "bget: no buffers" (bread NBUF NBUCKET disk d bn st).
Proof.
  intros Hwf. pose proof (bget_safe d bn st Hwf) as Hs. unfold bread.
  unfold bind at 1.
  destruct (bget NBUF NBUCKET d bn st) as [[h i] s1|m| |s1|] eqn:E;
    cbn [safe_outcome] in *; try assumption.
  apply got_bget in E as [(_ & _ & _ & b' & _ & Hb' & _) _]. cbn [snd].
  rewrite (buf_get_bind _ _ _ _ Hb').
  assert (i < length (bufs s1))%nat as Hi by (eapply lookup_lt_Some; exact Hb').
  destruct (valid b' =? 0).
  - unfold bind at 1. erewrite buf_upd_bind by look. erewrite buf_upd_exec by look.
    cbn [bufs size buckets safe_outcome ret]. rewrite list_insert_insert_eq.
    apply (wf_upd s1 i b'); [exact Hs | exact Hb' | reflexivity].
  - cbn [bind ret safe_outcome]. exact Hs.
Qed.

Lemma brelse_safe ticks i st b :
  wf NBUF NBUCKET st -> bufs st !! i = Some b ->
  safe_outcome NBUF NBUCKET "brelse" (brelse ticks i st).
Proof.
  intros Hwf Hb. rewrite (brelse_exec ticks i st b Hb).
  destruct (locked b); cbn [safe_outcome]; [|reflexivity].
  apply (wf_upd st i b _ Hwf Hb). destruct (u32 (refcnt b - 1) =? 0); reflexivity.
Qed.

Lemma bpin_wf i st s1 :
  wf NBUF NBUCKET st -> bpin i st = Ret tt s1 -> wf NBUF NBUCKET s1.
Proof.
  intros Hwf H. destruct (bufs st !! i) as [b|] eqn:Hb.
  - rewrite (bpin_exec i st b Hb) in H. injection H as <-.
    apply (wf_upd st i b _ Hwf Hb). reflexivity.
  - unfold bpin, bind, buf_get in H. rewrite Hb in H. discriminate.
Qed.

Lemma bunpin_wf i st s1 :
  wf NBUF NBUCKET st -> bunpin i st = Ret tt s1 -> wf NBUF NBUCKET s1.
Proof.
  intros Hwf H. destruct (bufs st !! i) as [b|] eqn:Hb.
  - rewrite (bunpin_exec i st b Hb) in H. injection H as <-.
    apply (wf_upd st i b _ Hwf Hb). reflexivity.
  - unfold bunpin, bind, buf_get in H. rewrite Hb in H. discriminate.
Qed.

End cache_safety.

Lemma bio_reachable_wf NBUF NBUCKET disk st :
  0 < NBUCKET -> 0 <= NBUF ->
  bio_reachable NBUF NBUCKET disk st -> wf NBUF NBUCKET st.
Proof.
  intros Hk Hn Hr.
  induction Hr as [|st d bn r st' _ IH E|st t i st' _ IH E|st i st' _ IH E
                    |st i st' _ IH E].
  - apply binit_wf; assumption.
  - pose proof (bread_safe NBUF NBUCKET disk d bn st IH) as Hs.
    rewrite E in Hs. exact Hs.
  - destruct (bufs st !! i) as [b|] eqn:Hb.
    + pose proof (brelse_safe NBUF NBUCKET t i st b IH Hb) as Hs.
      rewrite E in Hs. exact Hs.
    + unfold brelse, bind, buf_get in E. rewrite Hb in E. discriminate.
  - eapply bpin_wf; eassumption.
  - eapply bunpin_wf; eassumption.
Qed.

Lemma candidate_false_or b :
  candidate UINT_MAX b = false <-> refcnt b <> 0 \/ UINT_MAX <= timestamp b.
Proof.
  unfold candidate.
  destruct (Z.eqb_spec (refcnt b) 0), (Z.ltb_spec (timestamp b) UINT_MAX);
    cbn [andb]; split; intros HH; try discriminate; try reflexivity; lia.
Qed.

(** ** Which return statement of bget is reached *)

Section bget_decision.
Variable NBUF : Z.
Variable NBUCKET : Z.

Lemma nth_bucket_mod j : forall idx,
  0 <= idx < NBUCKET -> nth_bucket NBUCKET j idx = (idx + Z.of_nat j) mod NBUCKET.
Proof.
  induction j as [|j IH]; intros idx Hidx.
  - cbn [nth_bucket]. change (Z.of_nat 0) with 0. rewrite Z.add_0_r, Z.mod_small; lia.
  - cbn [nth_bucket]. rewrite IH by (apply next_bucket_range; exact Hidx).
    unfold next_bucket. destruct (Z.eqb_spec (idx + 1) NBUCKET) as [E|E].
    + replace (idx + Z.of_nat (S j)) with (0 + Z.of_nat j + 1 * NBUCKET) by lia.
      rewrite Z.mod_add by lia. reflexivity.
    + f_equal. lia.
Qed.

Lemma nth_bucket_cover idx k :
  0 <= idx < NBUCKET -> 0 <= k < NBUCKET ->
  exists j, (j < Z.to_nat NBUCKET)%nat /\ nth_bucket NBUCKET j idx = k.
Proof.
  intros Hi Hk. exists (Z.to_nat ((k - idx) mod NBUCKET)).
  pose proof (Z.mod_pos_bound (k - idx) NBUCKET ltac:(lia)) as Hb.
  split; [lia|]. rewrite nth_bucket_mod by exact Hi. rewrite Z2Nat.id by lia.
  rewrite Z.add_mod_idemp_r by lia.
  replace (idx + (k - idx)) with k by lia. apply Z.mod_small; lia.
Qed.

(** In a cache that satisfies the invariant, bget(d, bn) takes one of four
    paths: the block is cached; or it is not and a slot is left; or every
    slot is claimed and no buffer of the pool is an unused one stamped
    below 2^32 - 1; or the first bucket of the walk that holds such a
    buffer gives up its oldest. *)
Lemma bget_cases d bn st :
  wf NBUF NBUCKET st ->
  (exists i b s s', bufs st !! i = Some b /\ key b = (d, bn) /\
     bget NBUF NBUCKET d bn st = if locked b then Sleep s else Ret (Cached, i) s') \/
  ((forall i b, (i < Z.to_nat (size st))%nat -> bufs st !! i = Some b ->
      key b <> (d, bn)) /\
   ((size st < NBUF /\
     exists b s s', bufs st !! Z.to_nat (size st) = Some b /\
       bget NBUF NBUCKET d bn st =
         if locked b then Sleep s else Ret (Fresh, Z.to_nat (size st)) s') \/
    (NBUF <= size st /\
     (forall i b, bufs st !! i = Some b -> candidate UINT_MAX b = false) /\
     bget NBUF NBUCKET d bn st = Panic "bget: no buffers") \/
    (NBUF <= size st /\
     exists J ch ch1 v ch2 bv s s',
       (J < Z.to_nat NBUCKET)%nat /\
       bucket_slots st (nth_bucket NBUCKET J (HASH NBUCKET bn)) = Some ch /\
       nth_bucket NBUCKET J (HASH NBUCKET bn) = HASH NBUCKET (blockno bv) /\
       (forall j chj i b, (j < J)%nat ->
          bucket_slots st (nth_bucket NBUCKET j (HASH NBUCKET bn)) = Some chj ->
          i ∈ chj -> bufs st !! i = Some b -> candidate UINT_MAX b = false) /\
       oldest_first (bufs st) UINT_MAX ch ch1 v ch2 bv /\
       bget NBUF NBUCKET d bn st =
         if locked bv then Sleep s else Ret (Recycled, v) s'))).
Proof.
  intros Hwf. pose proof Hwf as (H1 & H2 & H3 & H4 & _ & H6).
  pose proof (HASH_range NBUCKET bn H1) as Hidx.
  destruct (wf_chain NBUF NBUCKET st _ Hwf Hidx) as (h & ch0 & Hh & Hch0 & Hc0 & Hnd0 & Hm0).
  assert (forall k ch, bucket_slots st k = Some ch ->
            forall i, i ∈ ch -> is_Some (bufs st !! i)) as Hsome.
  { intros k ch Hc i Hi. apply lookup_lt_is_Some.
    apply (proj2 (bucket_slots_range st k ch Hc) i Hi). }
  destruct (first_match (bufs st) d bn ch0 (Hsome _ _ Hch0))
    as [Hmiss|(ch1 & i & ch2 & b & -> & Hb & Hkey & Hmiss)].
  2:{ left. exists i, b. do 2 eexists. split; [exact Hb|]. split; [exact Hkey|].
      apply (bget_hit_exec NBUF NBUCKET d bn st ch1 i ch2 b Hch0 Hmiss Hb Hkey). }
  pose proof (wf_miss NBUF NBUCKET st d bn ch0 Hwf Hch0 Hmiss) as Hglobal.
  right. split; [exact Hglobal|].
  destruct (Z_lt_ge_dec (size st) NBUF) as [Hlt|Hge].
  { left. split; [exact Hlt|].
    destruct (lookup_lt_is_Some_2 (bufs st) (Z.to_nat (size st))) as [b Hb]; [lia|].
    exists b. do 2 eexists. split; [exact Hb|].
    apply (bget_fresh_exec NBUF NBUCKET d bn st ch0 b h Hch0 Hmiss ltac:(lia) Hb Hh). }
  right.
  pose proof (bget_miss_full NBUF NBUCKET d bn st ch0 Hch0 Hmiss ltac:(lia)) as Hfull.
  assert (forall j, exists chj,
            bucket_slots st (nth_bucket NBUCKET j (HASH NBUCKET bn)) = Some chj) as Hall.
  { intros j.
    destruct (wf_chain NBUF NBUCKET st _ Hwf (nth_bucket_range NBUCKET j _ Hidx))
      as (_ & chj & _ & Hcj & _). exists chj. exact Hcj. }
  assert (forall k ch i b', bucket_slots st k = Some ch -> 0 <= k < NBUCKET ->
            i ∈ ch -> bufs st !! i = Some b' ->
            (i < Z.to_nat (size st))%nat /\ HASH NBUCKET (blockno b') = k) as Hon.
  { intros k ch i b' Hc Hk Hi Hb'.
    destruct (wf_chain NBUF NBUCKET st k Hwf Hk) as (_ & ch' & _ & Hc' & _ & _ & Hm).
    rewrite Hc in Hc'. injection Hc' as <-.
    apply Hm in Hi as (Hi & b0 & Hb0 & Hh0). rewrite Hb' in Hb0.
    injection Hb0 as <-. auto. }
  destruct (first_candidate NBUCKET st (HASH NBUCKET bn) (Z.to_nat NBUCKET)
              ltac:(intros j _; apply Hall))
    as [Hnone|(J & HJ & Hbefore & Hat)].
  { left. split; [lia|]. split.
    - intros i b Hb.
      assert (i < length (bufs st))%nat as Hil by (eapply lookup_lt_Some; exact Hb).
      pose proof (HASH_range NBUCKET (blockno b) H1) as Hk.
      destruct (wf_chain NBUF NBUCKET st _ Hwf Hk) as (_ & chk & _ & Hck & _ & _ & Hm).
      destruct (nth_bucket_cover (HASH NBUCKET bn) _ Hidx Hk) as (j & Hj & Hjk).
      rewrite <- Hjk in Hck.
      apply (Hnone j chk i b Hj Hck); [|exact Hb].
      apply Hm. split; [lia|]. exists b. auto.
    - rewrite Hfull.
      apply (evict_loop_none NBUCKET d bn st (Z.to_nat NBUCKET) (HASH NBUCKET bn)
               {| minb := None; minpre := None; mintimestamp := 0 |} eq_refl).
      intros j Hj. destruct (Hall j) as (chj & Hcj). exists chj. split; [exact Hcj|].
      intros i b Hi Hb. split; [|apply (Hnone j chj i b Hj Hcj Hi Hb)].
      intros _. apply (Hglobal i b); [|exact Hb].
      apply (Hon _ chj i b Hcj (nth_bucket_range NBUCKET j _ Hidx) Hi Hb). }
  right. split; [lia|].
  destruct (evict_loop_visits NBUCKET d bn st J (Z.to_nat NBUCKET) (HASH NBUCKET bn)
              {| minb := None; minpre := None; mintimestamp := 0 |} eq_refl HJ)
    as (ch & ch1 & v & ch2 & bv & Hc & Hof & He); [| exact Hbefore | exact Hat |].
  { intros j _. destruct (Hall j) as (chj & Hcj). exists chj. split; [exact Hcj|].
    intros i b Hi Hb _. apply (Hglobal i b); [|exact Hb].
    apply (Hon _ chj i b Hcj (nth_bucket_range NBUCKET j _ Hidx) Hi Hb). }
  rewrite <- Hfull in He.
  set (src := nth_bucket NBUCKET J (HASH NBUCKET bn)) in *.
  pose proof (nth_bucket_range NBUCKET J _ Hidx) as Hsrc. fold src in Hsrc.
  pose proof Hof as (Hsplit & Hbv & _).
  assert (v ∈ ch) as Hvin by (rewrite Hsplit; apply elem_of_app; right; left).
  destruct (Hon src _ v bv Hc Hsrc Hvin Hbv) as [Hvs Hvh].
  assert (exists s s',
            recycle NBUCKET src v (Some (pred_ref (BucketHead src) ch1)) d bn st =
              if locked bv then Sleep s else Ret (Recycled, v) s') as (s & s' & Hr).
  { destruct (Z.eq_dec src (HASH NBUCKET bn)) as [Heq|Hne].
    { do 2 eexists. apply (recycle_same NBUCKET src v _ d bn st bv Heq Hbv). }
    destruct (wf_chain NBUF NBUCKET st src Hwf Hsrc)
      as (hs & ch' & Hhs & Hc' & _ & Hnds & _).
    rewrite Hc in Hc'. injection Hc' as <-. rewrite Hsplit in Hnds.
    unfold pred_ref. destruct (last ch1) as [j|] eqn:Hlast.
    - assert (j ∈ ch1) as Hj1.
      { apply last_Some in Hlast as [l' ->]. apply elem_of_app. right. left. }
      assert (j <> v) as Hjv.
      { intros ->. apply NoDup_app in Hnds as (_ & Hn & _). apply (Hn v Hj1). left. }
      destruct (Hsome src _ Hc j ltac:(rewrite Hsplit; apply elem_of_app; left; exact Hj1))
        as [bj Hbj].
      do 2 eexists.
      apply (recycle_from_slot NBUCKET src v j d bn st bv bj h Hne Hbv Hjv Hbj Hh).
    - do 2 eexists.
      apply (recycle_from_head NBUCKET src v d bn st bv hs h Hne Hbv Hhs Hh
               ltac:(lia) ltac:(lia)). }
  exists J, ch, ch1, v, ch2, bv, s, s'.
  split; [exact HJ|]. split; [exact Hc|]. split; [symmetry; exact Hvh|].
  split; [exact Hbefore|]. split; [exact Hof|].
  rewrite He. exact Hr.
Qed.

End bget_decision.

(** X18.  The invariant of the buffer cache and what it buys.  Let the
    cache have NBUCKET > 0 buckets, lists that end and hold each claimed
    slot once, on the list of its block's bucket, and no two claimed slots
    with the same device and block.  Then bget and bread dereference no
    invalid pointer and their loops end: they return, or sleep on the lock
    of the buffer found, in a state that satisfies the invariant again, or
    panic with "bget: no buffers".  brelse of a slot of the pool returns in
    such a state or panics with "brelse". *)
Theorem bget_keeps_invariant (NBUF NBUCKET : Z) (st : bcache) :
  wf NBUF NBUCKET st ->
  (forall d bn,
     safe_outcome NBUF NBUCKET "bget: no buffers" (bget NBUF NBUCKET d bn st)) /\
  (forall disk d bn,
     safe_outcome NBUF NBUCKET "bget: no buffers" (bread NBUF NBUCKET disk d bn st)) /\
  (forall ticks i, (i < Z.to_nat NBUF)%nat ->
     safe_outcome NBUF NBUCKET "brelse" (brelse ticks i st)).
Proof.
  intros Hwf. split; [|split].
  - intros d bn. apply bget_safe. exact Hwf.
  - intros disk d bn. apply bread_safe. exact Hwf.
  - intros ticks i Hi. pose proof Hwf as (_ & _ & _ & H4 & _).
    destruct (lookup_lt_is_Some_2 (bufs st) i) as [b Hb]; [lia|].
    apply (brelse_safe NBUF NBUCKET ticks i st b Hwf Hb).
Qed.

Lemma bget_keeps_invariant_witness :
  wf 4 2 (binit 4 2) /\
  safe_outcome 4 2 "bget: no buffers" (bread 4 2 no_disk 0 7 (binit 4 2)).
Proof.
  assert (wf 4 2 (binit 4 2)) as Hwf by (apply binit_wf; lia).
  split; [exact Hwf|].
  apply (bget_keeps_invariant 4 2 (binit 4 2) Hwf).
Defined.

(** X19.  Every state of the cache reached from binit (NBUCKET > 0) by
    calls of bread, brelse, bpin and bunpin satisfies the invariant.  In
    particular the lists of the buckets end, and no two claimed slots hold
    the same device and block: a block has at most one buffer. *)
Theorem reachable_cache_invariant
    (NBUF NBUCKET : Z) (disk : Z -> Z -> list Z) (st : bcache) :
  0 < NBUCKET -> 0 <= NBUF ->
  bio_reachable NBUF NBUCKET disk st ->
  wf NBUF NBUCKET st /\
  (forall k, 0 <= k < NBUCKET -> exists ch, bucket_slots st k = Some ch /\ NoDup ch) /\
  (forall i j bi bj,
     (i < Z.to_nat (size st))%nat -> (j < Z.to_nat (size st))%nat ->
     bufs st !! i = Some bi -> bufs st !! j = Some bj ->
     key bi = key bj -> i = j).
Proof.
  intros Hk Hn Hr.
  pose proof (bio_reachable_wf NBUF NBUCKET disk st Hk Hn Hr) as Hwf.
  split; [exact Hwf|]. destruct Hwf as (_ & _ & _ & _ & H5 & H6).
  split; [|exact H6].
  intros k Hkr. destruct (H5 k Hkr) as (ch & Hc & Hnd & _). exists ch. auto.
Qed.

Lemma reachable_cache_invariant_witness :
  exists r s1 s2 r' s3,
    bread 4 2 no_disk 0 7 (binit 4 2) = Ret r s1 /\
    brelse 10 (snd r) s1 = Ret tt s2 /\
    bread 4 2 no_disk 0 9 s2 = Ret r' s3 /\
    wf 4 2 s3.
Proof.
  assert (exists r s1 s2 r' s3,
            bread 4 2 no_disk 0 7 (binit 4 2) = Ret r s1 /\
            brelse 10 (snd r) s1 = Ret tt s2 /\
            bread 4 2 no_disk 0 9 s2 = Ret r' s3)
    as (r & s1 & s2 & r' & s3 & E1 & E2 & E3).
  { do 5 eexists. split; [vm_compute; reflexivity|].
    split; [vm_compute; reflexivity|]. vm_compute; reflexivity. }
  exists r, s1, s2, r', s3.
  split; [exact E1|]. split; [exact E2|]. split; [exact E3|].
  refine (proj1 (reachable_cache_invariant 4 2 no_disk s3 _ _ _)); [lia | lia |].
  eapply bio_bread; [|exact E3].
  eapply bio_brelse; [|exact E2].
  eapply bio_bread; [|exact E1].
  apply bio_init.
Defined.

Lemma full_cache_reachable : bio_reachable 4 2 no_disk full_cache.
Proof.
  assert (exists r1 s1 r2 s2 r3 s3 r4,
            bread 4 2 no_disk 0 1 (binit 4 2) = Ret r1 s1 /\
            bread 4 2 no_disk 0 2 s1 = Ret r2 s2 /\
            bread 4 2 no_disk 0 3 s2 = Ret r3 s3 /\
            bread 4 2 no_disk 0 4 s3 = Ret r4 full_cache)
    as (r1 & s1 & r2 & s2 & r3 & s3 & r4 & E1 & E2 & E3 & E4).
  { do 7 eexists. split; [vm_compute; reflexivity|].
    split; [vm_compute; reflexivity|]. split; [vm_compute; reflexivity|].
    vm_compute; reflexivity. }
  eapply bio_bread; [|exact E4]. eapply bio_bread; [|exact E3].
  eapply bio_bread; [|exact E2]. eapply bio_bread; [|exact E1]. apply bio_init.
Qed.

Lemma released_cache_reachable : bio_reachable 4 2 no_disk released_cache.
Proof.
  assert (exists s1 s2 s3,
            brelse 10 0%nat full_cache = Ret tt s1 /\
            brelse 11 1%nat s1 = Ret tt s2 /\
            brelse 12 2%nat s2 = Ret tt s3 /\
            brelse 13 3%nat s3 = Ret tt released_cache)
    as (s1 & s2 & s3 & E1 & E2 & E3 & E4).
  { do 3 eexists. split; [vm_compute; reflexivity|].
    split; [vm_compute; reflexivity|]. split; [vm_compute; reflexivity|].
    vm_compute; reflexivity. }
  eapply bio_brelse; [|exact E4]. eapply bio_brelse; [|exact E3].
  eapply bio_brelse; [|exact E2]. eapply bio_brelse; [|exact E1].
  apply full_cache_reachable.
Qed.

(** X20.  When bget gives up.  In a cache that satisfies the invariant,
    bget(d, bn) panics with "bget: no buffers" exactly when every slot is
    claimed, no buffer is keyed to (d, bn), and every buffer either is in
    use (its count is not 0) or carries a timestamp of 2^32 - 1 or more. *)
Theorem bget_panics_iff (NBUF NBUCKET d bn : Z) (st : bcache) :
  wf NBUF NBUCKET st ->
  (bget NBUF NBUCKET d bn st = Panic "bget: no buffers" <->
   NBUF <= size st /\
   forall i b, bufs st !! i = Some b ->
     key b <> (d, bn) /\ (refcnt b <> 0 \/ UINT_MAX <= timestamp b)).
Proof.
  intros Hwf. pose proof Hwf as (H1 & H2 & H3 & H4 & _).
  destruct (bget_cases NBUF NBUCKET d bn st Hwf)
    as [(i & b & s & s' & Hb & Hk & E)
       |(Hmiss & [(Hlt & b & s & s' & Hb & E)
                 |[(Hfull & Hnone & E)
                  |(Hfull & J & ch & ch1 & v & ch2 & bv & s & s' &
                    HJ & Hc & Hh & Hbefore & Hof & E)]])].
  - split.
    + intros Hp. rewrite E in Hp. destruct (locked b); discriminate.
    + intros [_ Hall]. destruct (Hall i b Hb) as [Hn _]. contradiction.
  - split.
    + intros Hp. rewrite E in Hp. destruct (locked b); discriminate.
    + intros [Hf _]. lia.
  - split; [|intros _; exact E]. intros _. split; [exact Hfull|].
    intros i b Hb. split.
    + apply (Hmiss i b); [|exact Hb]. apply lookup_lt_Some in Hb. lia.
    + apply candidate_false_or. apply (Hnone i b Hb).
  - split.
    + intros Hp. rewrite E in Hp. destruct (locked bv); discriminate.
    + intros [_ Hall]. destruct Hof as (_ & Hbv & Hr0 & Hts & _).
      destruct (Hall v bv Hbv) as [_ [Hx|Hx]]; lia.
Qed.

Lemma bget_panics_iff_witness :
  wf 4 2 full_cache /\
  bget 4 2 0 5 full_cache = Panic "bget: no buffers" /\
  4 <= size full_cache /\
  forall i b, bufs full_cache !! i = Some b ->
    key b <> (0, 5) /\ (refcnt b <> 0 \/ UINT_MAX <= timestamp b).
Proof.
  assert (wf 4 2 full_cache) as Hwf.
  { apply (bio_reachable_wf 4 2 no_disk); [lia | lia | apply full_cache_reachable]. }
  split; [exact Hwf|]. split; [vm_compute; reflexivity|].
  apply (proj1 (bget_panics_iff 4 2 0 5 full_cache Hwf)).
  vm_compute; reflexivity.
Defined.

(** X21.  Which buffer is recycled.  In a cache that satisfies the
    invariant, let bget(d, bn) return a recycled buffer v.  Then every slot
    was claimed and no buffer was keyed to (d, bn).  The walk over the
    buckets starts at the bucket of bn and goes round in rising order; in
    every bucket it visited before the bucket of v, each buffer was in use
    or carried a timestamp of 2^32 - 1 or more.  In its own bucket v was
    unused, stamped below 2^32 - 1, strictly older than every unused buffer
    before it on the list and at least as old as every unused buffer after
    it; and its sleep-lock was free. *)
Theorem bget_recycles_oldest
    (NBUF NBUCKET d bn : Z) (st : bcache) (v : nat) (st' : bcache) :
  wf NBUF NBUCKET st ->
  bget NBUF NBUCKET d bn st = Ret (Recycled, v) st' ->
  NBUF <= size st /\
  (forall i b, bufs st !! i = Some b -> key b <> (d, bn)) /\
  exists J ch ch1 ch2 bv,
    (J < Z.to_nat NBUCKET)%nat /\
    nth_bucket NBUCKET J (HASH NBUCKET bn) = HASH NBUCKET (blockno bv) /\
    bucket_slots st (HASH NBUCKET (blockno bv)) = Some ch /\
    oldest_first (bufs st) UINT_MAX ch ch1 v ch2 bv /\
    locked bv = false /\
    forall j i b, (j < J)%nat -> bufs st !! i = Some b ->
      HASH NBUCKET (blockno b) = nth_bucket NBUCKET j (HASH NBUCKET bn) ->
      refcnt b <> 0 \/ UINT_MAX <= timestamp b.
Proof.
  intros Hwf H. pose proof Hwf as (H1 & H2 & H3 & H4 & _).
  pose proof (HASH_range NBUCKET bn H1) as Hidx.
  destruct (bget_cases NBUF NBUCKET d bn st Hwf)
    as [(i & b & s & s' & Hb & Hk & E)
       |(Hmiss & [(Hlt & b & s & s' & Hb & E)
                 |[(Hfull & Hnone & E)
                  |(Hfull & J & ch & ch1 & v' & ch2 & bv & s & s' &
                    HJ & Hc & Hh & Hbefore & Hof & E)]])].
  - rewrite E in H. destruct (locked b); discriminate.
  - rewrite E in H. destruct (locked b); discriminate.
  - rewrite E in H. discriminate.
  - rewrite E in H. destruct (locked bv) eqn:Hl; [discriminate|].
    injection H as Hv _. subst v'.
    split; [exact Hfull|]. split.
    { intros i b Hb. apply (Hmiss i b); [|exact Hb]. apply lookup_lt_Some in Hb. lia. }
    exists J, ch, ch1, ch2, bv. split; [exact HJ|]. split; [exact Hh|].
    split; [rewrite <- Hh; exact Hc|]. split; [exact Hof|]. split; [exact Hl|].
    intros j i b Hj Hb Hhash. apply candidate_false_or.
    pose proof (nth_bucket_range NBUCKET j _ Hidx) as Hk.
    destruct (wf_chain NBUF NBUCKET st _ Hwf Hk) as (_ & chj & _ & Hcj & _ & _ & Hm).
    apply (Hbefore j chj i b Hj Hcj); [|exact Hb].
    apply Hm. split; [apply lookup_lt_Some in Hb; lia|]. exists b. auto.
Qed.

Lemma bget_recycles_oldest_witness :
  wf 4 2 released_cache /\
  exists st', bget 4 2 0 5 released_cache = Ret (Recycled, 0%nat) st' /\
    forall i b, bufs released_cache !! i = Some b -> key b <> (0, 5).
Proof.
  assert (wf 4 2 released_cache) as Hwf.
  { apply (bio_reachable_wf 4 2 no_disk); [lia | lia | apply released_cache_reachable]. }
  split; [exact Hwf|].
  assert (exists st', bget 4 2 0 5 released_cache = Ret (Recycled, 0%nat) st') as [st' E].
  { eexists. vm_compute. reflexivity. }
  exists st'. split; [exact E|].
  exact (proj1 (proj2 (bget_recycles_oldest 4 2 0 5 released_cache 0 st' Hwf E))).
Defined.
